(* ===== verification/_CoqProject ===== *)
-Q . S2P
Prelude.v
Ascii85.v
PallocMem.v
Palloc.v
PallocInv.v
PallocProof.v
PallocThm.v
HuPacket.v
HuPacketProof.v
HuPacketThm.v
HuPacketProps.v
HuFlash.v
HuFlashThm.v
HuFlashReplies.v
Uart.v
UartThm.v
Server.v
ServerThm.v
AppLib.v
AppMain.v
AppThm.v
SystemThm.v
Drivers.v
DriversThm.v
Py.v
Fs.v
FsThm.v
FsSafe.v
Storage.v
StorageThm.v
Thread.v
ThreadThm.v
Bluetooth.v
Gatts.v
BluetoothThm.v
GattsThm.v
BtConnThm.v
Socket.v
SocketThm.v
Machine.v
MachineThm.v
Timer.v
TimerThm.v
MpUart.v
MpUartThm.v
Console.v
ConsoleThm.v
I2cTarget.v
I2cTargetThm.v
Interp.v
InterpThm.v
