(* ===== verification/Prelude.v ===== *)
(** Verification of the firmware of this repository: the HU libraries
    (src/lib), the application (src/app/src), its drivers (src/drivers) and the
    MicroPython port (src/app/micropython, src/modules/micropython).

    * The program

    The application boots (app/src/main.c), brings up USB or the network and
    starts packet servers (app/src/hup_server.c), each a thread that reads from
    a transport (lib/app/uart.c, udp.c) into the packet layer
    (lib/hu/hupacket.c), which runs command handlers; those of lib/hu/huflash.c
    decode Ascii85 text (lib/hu/ascii85.c) and write it to the boot slot that
    lib/hu/bootloader.c says is not in use. Server handles come from the pool
    allocator (lib/hu/palloc.c). Beside it stands a port of MicroPython: a
    console, an interpreter started in a thread of its own or as a shell
    command, and the modules that give Python files, block devices, threads,
    Bluetooth, sockets and peripherals.

    * How code is modelled (Prelude.v, Py.v)

    C integers are [Z] with the conversions of C written out ([u8] ... [u64],
    [s32]); buffers are lists whose reads and writes are checked ([rd], [wr]),
    an access outside being [Stop UB]. Code that only computes is in [res];
    code that updates its state is [stm S]; code that calls what is outside
    src/ (Zephyr, drivers, MicroPython) is a [prog C R] over a type [C] of
    calls and [R] of answers, or with a state [stp C R S]. The theorems
    quantify over every answer of every call ([outcomes], [traces], [always],
    [runs]); an assumption on the environment is a hypothesis on the trace.
    Where other code runs while a thread waits or calls (interrupt routines,
    callbacks), what it delivered or did is part of the answer, and the
    modelled routine is run on it. [py] adds Python's exceptions. Zephyr's and
    MicroPython's ring buffers (Uart.v, MpUart.v) and the attribute database of
    Bluetooth (Gatts.v) are classes with laws; [crc16], [itoa], floating point
    and the constants of Zephyr and MicroPython are parameters.

    * The files

    Ascii85.v: lib/hu/ascii85.c, its codec specification and its theorems.
    PallocMem.v, Palloc.v: memory, and lib/hu/palloc.c on it; PallocInv.v: the
    tiling of the pool and the abstract allocator; PallocProof.v, PallocThm.v:
    the refinement and what clients rely on. HuPacket.v, HuPacketProof.v,
    HuPacketThm.v, HuPacketProps.v: lib/hu/hupacket.c. HuFlash.v, HuFlashThm.v,
    HuFlashReplies.v: lib/hu/huflash.c and bootloader.c. Uart.v, UartThm.v:
    lib/app/uart.c. Server.v, ServerThm.v: app/src/hup_server.c. AppLib.v:
    lib/app/bbram.c, usb.c, udp.c, lib/custom; AppMain.v, AppThm.v:
    app/src/main.c. SystemThm.v: server, packet layer and commands as one
    program. Drivers.v, DriversThm.v: drivers/, app/src/pwmleds.c and camera.c.
    Of app/micropython: Fs.v, FsThm.v, FsSafe.v: zephyr_filesystem.c.
    Storage.v, StorageThm.v: zephyr_storage.c. Thread.v, ThreadThm.v:
    mpthreadport.c and gc_collect of main.c. Bluetooth.v (GAP), Gatts.v (GATT
    server), BluetoothThm.v, GattsThm.v (registering services), BtConnThm.v
    (connections and scanning): modbluetooth_zephyr.c. Socket.v, SocketThm.v:
    modsocket.c. Machine.v, MachineThm.v: zephyr_device.c, machine_pwm.c,
    machine_adc.c, machine_spi.c, machine_i2c.c, machine_wdt.c, modzsensor.c, a
    Module each. Timer.v, TimerThm.v: machine_timer.c and machine_pin.c.
    MpUart.v, MpUartThm.v: machine_uart.c. Console.v, ConsoleThm.v:
    src/zephyr_getchar.c, uart_core.c, mphalport.c, mphalport.h,
    src/zephyr_start.c. I2cTarget.v, I2cTargetThm.v: machine_i2c_target.c.
    Interp.v, InterpThm.v: main.c, shellcmd.c (on the Bluetooth of Bluetooth.v
    and Gatts.v), modzephyr.c, modmachine.c, modtime.c, src/usbd.c and
    modules/micropython/src/mphalport.c.
    Records, operations and handlers carry the names they have in C; helpers
    the code has inline are named for what they do.

    * What the theorems show

    Codec: the loops compute the codec, decode inverts encode, no access leaves
    a buffer. Allocator: the operations refine first-fit allocation on tiles;
    live blocks never overlap for any client whose requests are of at most 2^32
    - 12 bytes. Packets: reception and response building round-trip, corruption
    is answered by a NAK, cutting the stream anywhere makes no difference, and
    where arbitrary bytes stay inside the buffers. Flash: exactly the decoded
    bytes are written; every command completes, is answered and closes what it
    opened. System: the server thread answers every request of a stream once
    and in order, whatever the chunks, the noise and the environment, and the
    peer reads the answer. Transports and servers: bytes move once and in order
    through interrupt routines, servers give back what they take, also while
    their threads still run. Application: boot reaches the blinking loop
    whatever fails. Files: the VFS object stays well-formed under every method
    and hands out only paths that begin with its mount point, but for those of
    chdir and of ilistdir without an argument; chdir resolves paths component
    by component; block devices read back what was written. Threads: stacks are
    never shared, and come back. Bluetooth: the linked list of connections and
    the scan implement an abstract table in the histories it expects; a service
    gets the handles its definition asks for, and it is said which of them have
    entries; advertising data and attribute writes against their buffers.
    Python peripherals: the real PWM duty, one interrupt object per pin, reads
    that end and writes in order, the orders of I2C callbacks. Console: the
    ring is a queue under interrupts; delays last. Sockets: closed once, never
    used after. Interpreter: when the shell command returns, what it took is
    given back; and how else it can end. Some theorems state what the code does
    where that is not what it means to do, and Examples run it on such inputs.

    * Loops and fuel

    A loop whose bound is not structural takes fuel and is [OutOfFuel] without
    it. Enough fuel: one turn per input byte in the codec; the length of the
    path for the squeezing loop of chdir; the pool's size in smallest blocks
    for the allocator's walk, by its invariant; the number of connections, one
    more than the size of the heap, for the Bluetooth list (enough in every
    history with a step in the table, exhausted only by a cyclic list); five
    turns for the PWM calibration; for Python's UART one turn per byte asked
    for and millisecond of its timeouts; for a delay one turn per millisecond,
    if each turn finds a later time. Loops that wait for the outside (REPLs, a
    character, a sender's interrupt) have a theorem for any fuel, or under a
    condition on the environment.

    * Not modelled

    Logging and printing; argument parsing by MicroPython (operations take
    parsed values); type and method tables; assertion hooks; board, devicetree,
    Kconfig, CMake and script files; configuration headers, help texts and
    tests. MicroPython's interpreter is the environment of Interp.v, which says
    what it reads and writes there. Advertising data that the code keeps as
    pointers into Python's buffer are kept as bytes. Weak memory and preemption
    are modelled only at the points a component's file names. Configurations
    are modelled as named in each file: the pool allocator with a DTCM region,
    Bluetooth with the dynamic database and the central role, 32-bit targets
    throughout. *)

From stdpp Require Export base list gmap strings.
From Stdlib Require Export ZArith Lia.

#[global] Open Scope Z_scope.

(** * Faults and the two monads *)

(** The ways a run of the modelled code can fail to return. *)
Inductive stop :=
  | UB                           (* access outside an object, bad pointer *)
  | OutOfFuel                    (* a loop ran longer than the model's bound *)
  | Deadlock.                    (* waiting forever on a semaphore nobody gives, or looping forever *)

Inductive res (A : Type) :=
  | Ok (a : A)
  | Stop (s : stop).
Arguments Ok {_} _.
Arguments Stop {_} _.

#[export] Instance res_ret : MRet res := fun _ a => Ok a.
#[export] Instance res_bind : MBind res := fun _ _ f m =>
  match m with Ok a => f a | Stop s => Stop s end.

(** Code that updates a state of type [S] in place. *)
Definition stm (S A : Type) : Type := S -> res (A * S).
#[export] Instance stm_ret {S} : MRet (stm S) := fun _ a s => Ok (a, s).
#[export] Instance stm_bind {S} : MBind (stm S) := fun _ _ f m s =>
  match m s with Ok (a, s') => f a s' | Stop e => Stop e end.
Definition gets {S A} (f : S -> A) : stm S A := fun s => Ok (f s, s).
Definition modify {S} (f : S -> S) : stm S unit := fun s => Ok (tt, f s).
(** A checked read of the state and a checked update. *)
Definition reads {S A} (f : S -> res A) : stm S A := fun s => a ← f s; Ok (a, s).
Definition updates {S} (f : S -> res S) : stm S unit := fun s => s' ← f s; Ok (tt, s').
Definition fault {S A} (e : stop) : stm S A := fun _ => Stop e.

(** A program that talks to its environment: [C] are the calls it makes (into
    Zephyr, the C library or a driver), [R] what the environment answers.  *)
Inductive prog (C R A : Type) :=
  | Ret (a : A)
  | Halt (s : stop)
  | Call (c : C) (k : R -> prog C R A).
Arguments Ret {_ _ _} _.
Arguments Halt {_ _ _} _.
Arguments Call {_ _ _} _ _.

Fixpoint prog_bind' {C R A B} (f : A -> prog C R B) (p : prog C R A) : prog C R B :=
  match p with
  | Ret a => f a
  | Halt s => Halt s
  | Call c k => Call c (fun r => prog_bind' f (k r))
  end.

#[export] Instance prog_ret {C R} : MRet (prog C R) := fun _ a => Ret a.
#[export] Instance prog_bind {C R} : MBind (prog C R) := fun _ _ f p => prog_bind' f p.

Definition call {C R} (c : C) : prog C R R := Call c Ret.
Definition of_res {C R A} (r : res A) : prog C R A :=
  match r with Ok a => Ret a | Stop s => Halt s end.

(** Running a program against an environment: the environment sees the whole
    history of calls and answers, so every deterministic or scripted
    environment is some [env]. *)
Fixpoint run {C R A} (env : list (C * R) -> C -> R) (p : prog C R A)
    (h : list (C * R)) : res A * list (C * R) :=
  match p with
  | Ret a => (Ok a, h)
  | Halt s => (Stop s, h)
  | Call c k => let r := env h c in run env (k r) (h ++ [(c, r)])
  end.

(** The environment that repeats the answers of a trace. *)
Definition replayed {C R} (d : R) (tr : list (C * R)) (h : list (C * R)) (_ : C) : R :=
  match tr !! length h with Some (_, r) => r | None => d end.

(** A program whose calls are a part of a larger set of calls. *)
Fixpoint via {C R C' R' A} (f : C -> C') (g : R' -> R) (p : prog C R A) : prog C' R' A :=
  match p with
  | Ret a => Ret a
  | Halt s => Halt s
  | Call c k => Call (f c) (fun r => via f g (k (g r)))
  end.

(** What an environment answers: a return value, and what a call stores
    through its pointer arguments. *)
Record answer := Answer { aret : Z; aout : list Z }.
(** The first stored value, or the initial value of the variable when the call
    stored nothing. *)
Definition out0 (d : Z) (r : answer) : Z := hd d (aout r).

(** [runs p tr out]: the program can make exactly the calls and get exactly the
    answers of [tr] and end with [out]. *)
Inductive runs {C R A} : prog C R A -> list (C * R) -> res A -> Prop :=
  | runs_ret a : runs (Ret a) [] (Ok a)
  | runs_halt s : runs (Halt s) [] (Stop s)
  | runs_call c k r tr out : runs (k r) tr out -> runs (Call c k) ((c, r) :: tr) out.

(** Every call a program can make satisfies [P] and every result [Q], whatever
    the environment answers. *)
Fixpoint always {C R A} (P : C -> Prop) (Q : A -> Prop) (p : prog C R A) : Prop :=
  match p with
  | Ret a => Q a
  | Halt _ => True
  | Call c k => P c /\ forall r, always P Q (k r)
  end.

(** Every completed run of a program satisfies [Q] with its trace. *)
Definition traces {C R A} (p : prog C R A) (Q : list (C * R) -> A -> Prop) : Prop :=
  forall tr a, runs p tr (Ok a) -> Q tr a.

(** Every run of a program, completed or not, satisfies [Q]. *)
Definition outcomes {C R A} (p : prog C R A) (Q : list (C * R) -> res A -> Prop) : Prop :=
  forall tr out, runs p tr out -> Q tr out.

(** Whatever the environment answers within [K], the program completes with a
    result that satisfies [Q]. *)
Fixpoint sure {C R A} (K : C -> R -> Prop) (Q : A -> Prop) (p : prog C R A) : Prop :=
  match p with
  | Ret a => Q a
  | Halt _ => False
  | Call c k => forall r, K c r -> sure K Q (k r)
  end.

(** Code that updates a state of type [S] and calls its environment. *)
Definition stp (C R S A : Type) : Type := S -> prog C R (A * S).
#[export] Instance stp_ret {C R S} : MRet (stp C R S) := fun _ a s => Ret (a, s).
#[export] Instance stp_bind {C R S} : MBind (stp C R S) := fun _ _ f m s =>
  prog_bind' (fun '(a, s') => f a s') (m s).
Definition lift {C R S A} (m : stm S A) : stp C R S A := fun s => of_res (m s).
Definition ask {C R S} (c : C) : stp C R S R := fun s => Call c (fun r => Ret (r, s)).

(** * C integers *)

Definition u8 (z : Z) : Z := z mod 2 ^ 8.
Definition u16 (z : Z) : Z := z mod 2 ^ 16.
Definition u32 (z : Z) : Z := z mod 2 ^ 32.
Definition u64 (z : Z) : Z := z mod 2 ^ 64.
Definition s32 (z : Z) : Z := (z + 2 ^ 31) mod 2 ^ 32 - 2 ^ 31.

Definition INT32_MAX : Z := 2147483647.
Definition INT32_MIN : Z := -2147483648.
Definition UINT32_MAX : Z := 4294967295.
Definition UINT16_MAX : Z := 65535.

(** ** errno values of the C library (picolibc) the targets build with *)
Definition ENOENT : Z := 2.
Definition EIO : Z := 5.
Definition EBUSY : Z := 16.
Definition ENODEV : Z := 19.
Definition ENOTDIR : Z := 20.
Definition EINVAL : Z := 22.
Definition EROFS : Z := 30.
Definition ENOSYS : Z := 88.
Definition ENOTSUP : Z := 134.
Definition ELASTERROR : Z := 2000.

(** * Byte buffers *)

Definition is_byte (b : Z) : Prop := 0 <= b < 256.
#[export] Instance is_byte_dec b : Decision (is_byte b).
Proof. unfold is_byte. apply _. Defined.

Definition len {A} (l : list A) : Z := Z.of_nat (length l).

(** A checked read and a checked write: out of range is undefined behaviour. *)
Definition rd {A} (b : list A) (i : Z) : res A :=
  if i <? 0 then Stop UB
  else match b !! Z.to_nat i with Some v => Ok v | None => Stop UB end.
Definition wr {A} (b : list A) (i : Z) (v : A) : res (list A) :=
  if (i <? 0) || (len b <=? i) then Stop UB else Ok (<[Z.to_nat i := v]> b).

(** The C string starting at an offset: the bytes before the first NUL;
    running off the object is undefined behaviour. *)
Fixpoint until_nul (l : list Z) : res (list Z) :=
  match l with
  | [] => Stop UB
  | c :: l' => if c =? 0 then Ok [] else s ← until_nul l'; Ok (c :: s)
  end.
Definition cstr (b : list Z) (p : Z) : res (list Z) :=
  if (p <? 0) || (len b <=? p) then Stop UB else until_nul (drop (Z.to_nat p) b).

(** String literals of the source as byte lists. *)
Fixpoint bytes_of_string (s : string) : list Z :=
  match s with
  | EmptyString => []
  | String a s' => Z.of_N (Ascii.N_of_ascii a) :: bytes_of_string s'
  end.

(** * Automation *)

Create HintDb sdkz discriminated.
Create Rewrite HintDb sdkz.

Ltac invert H := inversion H; subst; clear H.

(** Split the monadic bind of a hypothesis [m ≫= f = Ok b]. *)
Ltac res_inv :=
  repeat match goal with
  | H : Ok _ = Ok _ |- _ => injection H as H; subst
  | H : Stop _ = Ok _ |- _ => discriminate H
  | H : Ok _ = Stop _ |- _ => discriminate H
  | H : mbind _ ?m = _ |- _ => unfold mbind, res_bind in H; destruct m eqn:?; try discriminate H
  | H : (let '(_, _) := ?p in _) = _ |- _ => destruct p eqn:?
  end.

(** Turn boolean comparisons of hypotheses and goal into propositions. *)
Ltac zify_bool :=
  repeat match goal with
  | H : (_ =? _) = true |- _ => apply Z.eqb_eq in H
  | H : (_ =? _) = false |- _ => apply Z.eqb_neq in H
  | H : (_ <? _) = true |- _ => apply Z.ltb_lt in H
  | H : (_ <? _) = false |- _ => apply Z.ltb_ge in H
  | H : (_ <=? _) = true |- _ => apply Z.leb_le in H
  | H : (_ <=? _) = false |- _ => apply Z.leb_gt in H
  | H : (_ >? _) = true |- _ => rewrite Z.gtb_ltb in H; apply Z.ltb_lt in H
  | H : (_ >? _) = false |- _ => rewrite Z.gtb_ltb in H; apply Z.ltb_ge in H
  | H : (_ >=? _) = true |- _ => rewrite Z.geb_leb in H; apply Z.leb_le in H
  | H : (_ >=? _) = false |- _ => rewrite Z.geb_leb in H; apply Z.leb_gt in H
  | H : _ || _ = true |- _ => apply orb_true_iff in H
  | H : _ || _ = false |- _ => apply orb_false_iff in H; destruct H
  | H : _ && _ = true |- _ => apply andb_true_iff in H; destruct H
  | H : _ && _ = false |- _ => apply andb_false_iff in H
  | H : negb _ = true |- _ => apply negb_true_iff in H
  | H : negb _ = false |- _ => apply negb_false_iff in H
  end.

(** Case analysis on the boolean tests of a goal. *)
Ltac case_test :=
  match goal with
  | |- context [if ?b then _ else _] =>
      lazymatch type of b with bool => destruct b eqn:?; zify_bool end
  end.

(** Linear arithmetic over buffer lengths. *)
Ltac len_lia :=
  unfold len in *; rewrite ?length_app, ?length_insert, ?length_replicate in *; cbn [length] in *; lia.

(** Reduce the leading monadic bind of the goal once its first part is known. *)
Ltac step := unfold mbind at 1, res_bind at 1; cbv beta iota.
Ltac steps := unfold mbind, res_bind; cbv beta iota.

(** Split the [Forall] hypotheses on explicit lists. *)
Ltac forall_cons :=
  repeat match goal with H : Forall _ (_ :: _) |- _ => apply Forall_cons in H as [? ?] end.

(** A decidable proposition about closed terms, by evaluation. *)
Ltac by_decide := apply (bool_decide_unpack _); vm_compute; exact I.

(** * Lemmas shared by the components *)

Section Monad.
Lemma res_bind_ok {A B} (m : res A) (f : A -> res B) b :
    m ≫= f = Ok b -> exists a, m = Ok a /\ f a = Ok b.
Proof. destruct m; intros H; [eauto | discriminate]. Qed.

Lemma res_bind_assoc {A B D} (m : res A) (f : A -> res B) (g : B -> res D) :
    (m ≫= f) ≫= g = m ≫= (fun a => f a ≫= g).
Proof. by destruct m. Qed.

Lemma stm_bind_ok {S A B} (m : stm S A) (f : A -> stm S B) s a s' :
  m s = Ok (a, s') -> (m ≫= f) s = f a s'.
  Proof. intros E. unfold mbind, stm_bind. by rewrite E. Qed.

Lemma run_bind {C R A B} (p : prog C R A) (f : A -> prog C R B) env h :
    run env (p ≫= f) h =
      match run env p h with
      | (Ok a, h') => run env (f a) h'
      | (Stop s, h') => (Stop s, h')
      end.
Proof.
    revert h. induction p as [a | s | c k IH]; intros h; try done.
    cbn. apply IH.
Qed.

Lemma stm_bind_bind {S A B C} (m : stm S A) (f : A -> stm S B) (g : B -> stm S C) s :
  ((m ≫= f) ≫= g) s = (m ≫= (fun a => f a ≫= g)) s.
Proof. unfold mbind, stm_bind. by destruct (m s) as [[a s']|]. Qed.

Lemma stm_ret_bind {S A B} (a : A) (f : A -> stm S B) s : (mret a ≫= f) s = f a s.
Proof. done. Qed.

Lemma stm_bind_inv {S A B} (m : stm S A) (f : A -> stm S B) s r :
  (m ≫= f) s = Ok r -> exists a s', m s = Ok (a, s') /\ f a s' = Ok r.
Proof. unfold mbind, stm_bind. destruct (m s) as [[a s']|]; [eauto | done]. Qed.

Lemma reads_ok {S A} (f : S -> res A) s a : f s = Ok a -> reads f s = Ok (a, s).
Proof. intros E. unfold reads. by rewrite E. Qed.

Lemma updates_ok {S} (f : S -> res S) s s' : f s = Ok s' -> updates f s = Ok (tt, s').
Proof. intros E. unfold updates. by rewrite E. Qed.

Lemma lift_bind_ok {C R S A B} (m : stm S A) (f : A -> stp C R S B) s a s' :
  m s = Ok (a, s') -> (lift m ≫= f) s = f a s'.
Proof. intros E. unfold mbind, stp_bind, lift. by rewrite E. Qed.

Lemma lift_bind_stop {C R S A B} (m : stm S A) (f : A -> stp C R S B) s e :
  m s = Stop e -> (lift m ≫= f) s = Halt e.
Proof. intros E. unfold mbind, stp_bind, lift. by rewrite E. Qed.

Lemma run_stp_bind {C R S A B} (m : stp C R S A) (f : A -> stp C R S B) env s h :
    run env ((m ≫= f) s) h =
      match run env (m s) h with
      | (Ok (a, s'), h') => run env (f a s') h'
      | (Stop e, h') => (Stop e, h')
      end.
Proof.
  unfold mbind, stp_bind. change (prog_bind' ?f ?p) with (p ≫= f). rewrite run_bind.
  by destruct (run env (m s) h) as [[[a s']|e] h'].
Qed.

Lemma run_history {C R A} (p : prog C R A) env h :
    exists tr, snd (run env p h) = h ++ tr /\ runs p tr (fst (run env p h)).
Proof.
    revert h. induction p as [a | s | c k IH]; intros h; cbn.
    - exists []. rewrite app_nil_r. split; [done | constructor].
    - exists []. rewrite app_nil_r. split; [done | constructor].
    - destruct (IH (env h c) (h ++ [(c, env h c)])) as (tr & E & Hr).
      exists ((c, env h c) :: tr). rewrite E, <- app_assoc. split; [done|].
      by constructor.
Qed.

(** A program run from the empty history makes the recorded run. *)
Lemma run_runs {C R A} (p : prog C R A) env tr out : run env p [] = (out, tr) -> runs p tr out.
Proof. intros E. destruct (run_history p env []) as (tr' & E1 & Hr). rewrite E in E1, Hr. cbn in *. by subst. Qed.

(** Answers come from the environment. *)
Lemma run_answers {C R A} (P : C * R -> Prop) env (p : prog C R A) H :
  (forall H c, P (c, env H c)) -> Forall P H -> Forall P (snd (run env p H)).
Proof.
  intros HP. revert H. induction p as [x | e | c k IH]; intros H HH; cbn; [done | done|].
  apply IH. apply Forall_app. split; [done|]. by constructor; [apply HP|].
Qed.

(** Every run is the run against an environment that repeats its answers. *)
Lemma runs_replayed {C R A} (d : R) (p : prog C R A) pre tr out :
    runs p tr out -> run (replayed d (pre ++ tr)) p pre = (out, pre ++ tr).
Proof.
    intros H. revert pre. induction H as [a | s | c k r tr out _ IH]; intros pre; cbn [run]; [by rewrite app_nil_r..|].
    assert (E : replayed d (pre ++ (c, r) :: tr) pre c = r).
    { unfold replayed. by rewrite (list_lookup_middle pre tr (c, r) _ eq_refl). }
    rewrite E. specialize (IH (pre ++ [(c, r)])). by rewrite <- app_assoc in IH.
Qed.

Lemma runs_bind_inv {C R A B} (p : prog C R A) (f : A -> prog C R B) tr out :
    runs (p ≫= f) tr out ->
    (exists a tr1 tr2, tr = tr1 ++ tr2 /\ runs p tr1 (Ok a) /\ runs (f a) tr2 out) \/
    (exists s, runs p tr (Stop s) /\ out = Stop s).
Proof.
    revert tr. induction p as [a | s | c k IH]; intros tr H; cbn in H.
    - left. exists a, [], tr. repeat split; [constructor | done].
    - right. exists s. inversion H; subst. split; [constructor | done].
    - inversion H as [| | c' k' r tr' out' Hk]; subst.
      destruct (IH r tr' Hk) as [(a & t1 & t2 & -> & H1 & H2) | (s & H1 & ->)].
      + left. exists a, ((c, r) :: t1), t2. repeat split; [by constructor | done].
      + right. exists s. split; [by constructor | done].
Qed.

Lemma runs_bind {C R A B} (p : prog C R A) (f : A -> prog C R B) tr1 tr2 a out :
  runs p tr1 (Ok a) -> runs (f a) tr2 out -> runs (p ≫= f) (tr1 ++ tr2) out.
Proof.
  intros H1 H2. remember (Ok a) as o eqn:E. induction H1 as [b | s | c k r tr o Hr IH]; [|done|].
  - by injection E as ->.
  - cbn. constructor. by apply IH.
Qed.

Lemma runs_call_inv {C R A} (c : C) (k : R -> prog C R A) tr out :
  runs (Call c k) tr out -> exists r tr', tr = (c, r) :: tr' /\ runs (k r) tr' out.
Proof. intros Hr. inversion Hr; subst. eauto. Qed.

(** A run of an embedded program is a run of the program. *)
Lemma runs_via {C R C' R' A} (f : C -> C') (g : R' -> R) (p : prog C R A) tr out :
  runs (via f g p) tr out ->
  exists tr0, runs p tr0 out /\ map fst tr = map (fun e => f (fst e)) tr0 /\ map (fun e => g (snd e)) tr = map snd tr0.
Proof.
  revert tr. induction p as [a | s | c k IH]; intros tr Hr; cbn in Hr.
  - inversion Hr; subst. exists []. by split; [constructor|].
  - inversion Hr; subst. exists []. by split; [constructor|].
  - apply runs_call_inv in Hr as (r & tr' & -> & Hr). destruct (IH _ _ Hr) as (tr0 & H0 & H1 & H2).
    exists ((c, g r) :: tr0). split; [by constructor|]. cbn. by rewrite H1, H2.
Qed.

Lemma runs_ret_inv {C R A} (a : A) tr out : runs (Ret a : prog C R A) tr out -> tr = [] /\ out = Ok a.
Proof. intros Hr. by inversion Hr. Qed.

Lemma always_bind {C R A B} (P : C -> Prop) (Q : B -> Prop) (p : prog C R A) (f : A -> prog C R B) :
  always P (fun a => always P Q (f a)) p -> always P Q (p ≫= f).
Proof.
  induction p as [a | s | c k IH]; cbn; [done | done|]. intros [Hc Hk]. split; [done|].
  intros r. by apply IH.
Qed.

Lemma always_mono {C R A} (P P' : C -> Prop) (Q Q' : A -> Prop) (p : prog C R A) :
  (forall c, P c -> P' c) -> (forall a, Q a -> Q' a) -> always P Q p -> always P' Q' p.
Proof. intros HP HQ. induction p as [a | s | c k IH]; cbn; [auto | done|]. intros [Hc Hk]. auto. Qed.

Lemma always_runs {C R A} (P : C -> Prop) (Q : A -> Prop) (p : prog C R A) tr out :
  always P Q p -> runs p tr out ->
  Forall (fun e => P (fst e)) tr /\ match out with Ok a => Q a | Stop _ => True end.
Proof.
  intros Ha Hr. induction Hr as [a | s | c k r tr out Hr IH]; cbn in Ha; [done | done|].
  destruct Ha as [Hc Hk]. destruct (IH (Hk r)) as [H1 H2]. split; [by constructor | done].
Qed.

Lemma always_stp_bind {C R S A B} (P : C -> Prop) (Q : B * S -> Prop) (m : stp C R S A) (f : A -> stp C R S B) s :
  always P (fun '(a, s') => always P Q (f a s')) (m s) -> always P Q ((m ≫= f) s).
Proof.
  intros H. unfold mbind, stp_bind. change (prog_bind' ?f ?p) with (p ≫= f). apply always_bind.
  eapply always_mono; [| |exact H]; [done|]. by intros [a s'].
Qed.

Lemma always_lift {C R S A} (P : C -> Prop) (Q : A * S -> Prop) (m : stm S A) s :
  match m s with Ok p => Q p | Stop _ => True end -> always (R := R) P Q (lift m s).
Proof. unfold lift. destruct (m s); done. Qed.

Lemma traces_bind {C R A B} (p : prog C R A) (f : A -> prog C R B) (Q : list (C * R) -> B -> Prop) :
  traces p (fun tr a => traces (f a) (fun tr' b => Q (tr ++ tr') b)) -> traces (p ≫= f) Q.
Proof.
  intros H tr b Hr. apply runs_bind_inv in Hr as [(a & tr1 & tr2 & -> & H1 & H2) | (s & _ & Hs)]; [|done].
  exact (H _ _ H1 _ _ H2).
Qed.

Lemma traces_stp_bind {C R S A B} (m : stp C R S A) (f : A -> stp C R S B) s (Q : list (C * R) -> B * S -> Prop) :
  traces (m s) (fun tr x => traces (f (fst x) (snd x)) (fun tr' b => Q (tr ++ tr') b)) -> traces ((m ≫= f) s) Q.
Proof.
  intros H. unfold mbind, stp_bind. change (prog_bind' ?f ?p) with (p ≫= f). apply traces_bind.
  intros tr [a s'] Hr. exact (H tr (a, s') Hr).
Qed.

Lemma traces_ret {C R A} (a : A) (Q : list (C * R) -> A -> Prop) : Q [] a -> traces (Ret a) Q.
Proof. intros H tr b Hr. inversion Hr; subst. done. Qed.

Lemma traces_halt {C R A} s (Q : list (C * R) -> A -> Prop) : traces (Halt s) Q.
Proof. intros tr b Hr. inversion Hr. Qed.

Lemma traces_call {C R A} c (k : R -> prog C R A) (Q : list (C * R) -> A -> Prop) :
  (forall r, traces (k r) (fun tr a => Q ((c, r) :: tr) a)) -> traces (Call c k) Q.
Proof. intros H tr a Hr. inversion Hr; subst. by eapply H. Qed.

Lemma traces_mono {C R A} (p : prog C R A) (Q Q' : list (C * R) -> A -> Prop) :
  (forall tr a, Q tr a -> Q' tr a) -> traces p Q -> traces p Q'.
Proof. intros HQ H tr a Hr. eauto. Qed.

Lemma outcomes_ret {C R A} (a : A) (Q : list (C * R) -> res A -> Prop) : Q [] (Ok a) -> outcomes (Ret a) Q.
Proof. intros H tr out Hr. by apply runs_ret_inv in Hr as [-> ->]. Qed.

Lemma outcomes_halt {C R A} s (Q : list (C * R) -> res A -> Prop) : Q [] (Stop s) -> outcomes (Halt s) Q.
Proof. intros H tr out Hr. inversion Hr; subst. done. Qed.

Lemma outcomes_call {C R A} c (k : R -> prog C R A) (Q : list (C * R) -> res A -> Prop) :
  (forall r, outcomes (k r) (fun tr out => Q ((c, r) :: tr) out)) -> outcomes (Call c k) Q.
Proof. intros H tr out Hr. apply runs_call_inv in Hr as (r & tr' & -> & Hr). by apply (H r). Qed.

Lemma outcomes_mono {C R A} (p : prog C R A) (Q Q' : list (C * R) -> res A -> Prop) :
  (forall tr out, Q tr out -> Q' tr out) -> outcomes p Q -> outcomes p Q'.
Proof. intros HQ H tr out Hr. eauto. Qed.

Lemma outcomes_bind {C R A B} (p : prog C R A) (f : A -> prog C R B) (Q : list (C * R) -> res B -> Prop) :
  outcomes p (fun tr out => match out with
    | Ok a => outcomes (f a) (fun tr' out' => Q (tr ++ tr') out')
    | Stop s => Q tr (Stop s)
    end) -> outcomes (p ≫= f) Q.
Proof.
  intros H tr out Hr. apply runs_bind_inv in Hr as [(a & t1 & t2 & -> & H1 & H2) | (s & H1 & ->)].
  - exact (H _ _ H1 _ _ H2).
  - exact (H _ _ H1).
Qed.

Lemma runs_assoc {C R A B D} (p : prog C R A) (f : A -> prog C R B) (g : B -> prog C R D) tr out :
  runs ((p ≫= f) ≫= g) tr out <-> runs (p ≫= (fun a => f a ≫= g)) tr out.
Proof.
  revert tr. induction p as [a | s | c k IH]; intros tr; [done | done|]. cbn.
  split; intros Hr; apply runs_call_inv in Hr as (r & tr' & -> & Hr); constructor; by apply IH.
Qed.

(** The next operation of a stateful program. *)
Lemma outcomes_stp {C R S A B} (m : stp C R S A) (f : A -> stp C R S B) s (Q : list (C * R) -> res (B * S) -> Prop) :
  outcomes (m s) (fun tr out => match out with
    | Ok (a, s') => outcomes (f a s') (fun tr' out' => Q (tr ++ tr') out')
    | Stop e => Q tr (Stop e)
    end) -> outcomes ((m ≫= f) s) Q.
Proof.
  intros H. unfold mbind, stp_bind. change (prog_bind' ?f ?p) with (p ≫= f). apply outcomes_bind.
  eapply outcomes_mono; [|exact H]. by intros tr [[a s']|].
Qed.

Lemma outcomes_assoc {C R S A B D} (m : stp C R S A) (f : A -> stp C R S B) (g : B -> stp C R S D) s Q :
  outcomes ((m ≫= (fun a => f a ≫= g)) s) Q -> outcomes (((m ≫= f) ≫= g) s) Q.
Proof.
  intros H tr out Hr. apply H. clear H Q. revert tr out Hr. unfold mbind, stp_bind.
  induction (m s) as [[a s'] | e | c k IH]; intros tr out Hr; [done | done|].
  cbn in *. apply runs_call_inv in Hr as (r & tr' & -> & Hr). constructor. by apply IH.
Qed.

Lemma outcomes_ask {C R S B} c (f : R -> stp C R S B) s (Q : list (C * R) -> res (B * S) -> Prop) :
  (forall r, outcomes (f r s) (fun tr out => Q ((c, r) :: tr) out)) -> outcomes ((ask c ≫= f) s) Q.
Proof. intros H. by apply outcomes_call. Qed.

Lemma outcomes_lift {C R S A B} (m : stm S A) (f : A -> stp C R S B) s a s' Q :
  m s = Ok (a, s') -> outcomes (f a s') Q -> outcomes ((lift m ≫= f) s) Q.
Proof. intros E H. unfold mbind, stp_bind, lift. by rewrite E. Qed.

Lemma outcomes_lift_stop {C R S A B} (m : stm S A) (f : A -> stp C R S B) s e (Q : list (C * R) -> res (B * S) -> Prop) :
  m s = Stop e -> Q [] (Stop e) -> outcomes ((lift m ≫= f) s) Q.
Proof. intros E H. unfold mbind, stp_bind, lift. rewrite E. by apply outcomes_halt. Qed.

Lemma outcomes_mret {C R S A B} (a : A) (f : A -> stp C R S B) s Q :
  outcomes (f a s) Q -> outcomes (((mret a : stp C R S A) ≫= f) s) Q.
Proof. done. Qed.

(** Programs that agree against every environment have the same outcomes. *)
Lemma outcomes_run_eq {C R A} (d : R) (p q : prog C R A) (Q : list (C * R) -> res A -> Prop) :
  (forall env H, run env p H = run env q H) -> outcomes q Q -> outcomes p Q.
Proof.
  intros E H tr out Hr. apply H. pose proof (runs_replayed d p [] tr out Hr) as Er. rewrite E in Er.
  by apply (run_runs _ _ _ _ Er).
Qed.

(** A part's trace within that of the whole. *)
Definition part_of {C R C' R'} (f : C -> C') (g : R' -> R) : list (C * R) -> list (C' * R') -> Prop :=
  Forall2 (fun e e' => fst e' = f (fst e) /\ snd e = g (snd e')).

(** The outcomes of a part's program among a larger set of calls. *)
Lemma outcomes_via {C R C' R' A} (f : C -> C') (g : R' -> R) (p : prog C R A) (Q : list (C' * R') -> res A -> Prop) :
  outcomes p (fun tr out => forall tr', part_of f g tr tr' -> Q tr' out) -> outcomes (via f g p) Q.
Proof.
  revert Q. induction p as [a | s | c k IH]; intros Q H; cbn [via].
  - apply outcomes_ret. exact (H [] (Ok a) ltac:(constructor) [] ltac:(constructor)).
  - apply outcomes_halt. exact (H [] (Stop s) ltac:(constructor) [] ltac:(constructor)).
  - apply outcomes_call. intros r. apply IH. intros tr out Hr tr' E.
    apply (H ((c, g r) :: tr) out); [by constructor|]. by constructor.
Qed.

Section Sure.
Context {C R : Type} (K : C -> R -> Prop).

Lemma sure_mono {A} (Q Q' : A -> Prop) (p : prog C R A) :
  (forall a, Q a -> Q' a) -> sure K Q p -> sure K Q' p.
Proof. intros HQ. induction p as [a | s | c k IH]; cbn; auto. Qed.

Lemma sure_bind {A B} (Q : B -> Prop) (p : prog C R A) (f : A -> prog C R B) :
  sure K (fun a => sure K Q (f a)) p -> sure K Q (p ≫= f).
Proof. induction p as [a | s | c k IH]; cbn; [done | done|]. intros H r Hr. by apply IH, H. Qed.

Lemma sure_stp_bind {S A B} (Q : B * S -> Prop) (m : stp C R S A) (f : A -> stp C R S B) s :
  sure K (fun '(a, s') => sure K Q (f a s')) (m s) -> sure K Q ((m ≫= f) s).
Proof.
  intros H. unfold mbind, stp_bind. change (prog_bind' ?f ?p) with (p ≫= f). apply sure_bind.
  eapply sure_mono; [|exact H]. by intros [a s'].
Qed.

Lemma sure_lift {S A} (Q : A * S -> Prop) (m : stm S A) s x : m s = Ok x -> Q x -> sure K Q (lift m s).
Proof. intros E H. unfold lift. by rewrite E. Qed.

Lemma sure_runs {A} (Q : A -> Prop) (p : prog C R A) tr out :
  sure K Q p -> runs p tr out -> Forall (fun '(c, r) => K c r) tr -> exists a, out = Ok a /\ Q a.
Proof.
  intros Hs Hr. induction Hr as [a | s | c k r tr out Hr IH]; intros Hk; cbn in Hs; [eauto | done|].
  apply Forall_cons in Hk as [Hc Hk]. auto.
Qed.

Lemma sure_of_runs {A} (Q : A -> Prop) (p : prog C R A) :
  (forall tr out, runs p tr out -> Forall (fun '(c, r) => K c r) tr -> exists a, out = Ok a /\ Q a) -> sure K Q p.
Proof.
  induction p as [a | s | c k IH]; intros H; cbn.
  - destruct (H [] (Ok a)) as (b & [= ->] & HQ); [constructor | constructor | done].
  - destruct (H [] (Stop s)) as (b & [=] & _); constructor.
  - intros r Hr. apply IH. intros tr out Hrun Hk. apply (H ((c, r) :: tr) out); by constructor.
Qed.
End Sure.

Lemma sure_via {C R C' R' A} (f : C -> C') (g : R' -> R) K K' (Q : A -> Prop) (p : prog C R A) :
  (forall c r, K' (f c) r -> K c (g r)) -> sure K Q p -> sure K' Q (via f g p).
Proof. intros HK. induction p as [a | s | c k IH]; cbn; [done | done | auto]. Qed.

(** A lifted step makes no call. *)
Lemma traces_lift {C R S A} (m : stm S A) s (Q : list (C * R) -> A * S -> Prop) :
  (forall a s', m s = Ok (a, s') -> Q [] (a, s')) -> traces (lift m s) Q.
Proof.
  intros H tr x Hr. unfold lift in Hr. destruct (m s) as [[a s']|e] eqn:E; inversion Hr; subst. by apply H.
Qed.
End Monad.

(** Run the next operation of a state monad program by the given lemma. *)
Tactic Notation "sbind" uconstr(L) := rewrite ?stm_bind_bind; erewrite stm_bind_ok by (eapply L; try eassumption); cbv beta iota.
Tactic Notation "sbind" uconstr(L) "by" tactic(t) :=
  rewrite ?stm_bind_bind; erewrite stm_bind_ok by (eapply L; t); cbv beta iota.
Ltac sgets := rewrite ?stm_bind_bind; erewrite (stm_bind_ok (gets _)) by reflexivity; cbv beta iota.
Ltac smodify := rewrite ?stm_bind_bind; erewrite (stm_bind_ok (modify _)) by reflexivity; cbv beta iota.

(** Run the next operation of a stateful program in an [outcomes] goal. *)
Ltac wp_step :=
  lazymatch goal with
  | |- outcomes (((_ ≫= _) ≫= _) _) _ => apply outcomes_assoc
  | |- outcomes ((ask _ ≫= _) _) _ => apply outcomes_ask; intros ?
  | |- outcomes ((mret _ ≫= _) _) _ => apply outcomes_mret; cbv beta
  | |- outcomes (mret _ _) _ => apply outcomes_ret
  | |- outcomes (Ret _) _ => apply outcomes_ret
  | |- outcomes (Halt _) _ => apply outcomes_halt
  | |- outcomes (((if ?b then _ else _) ≫= _) _) _ => destruct b eqn:?; zify_bool
  | |- outcomes ((if ?b then _ else _) _) _ => destruct b eqn:?; zify_bool
  end.

(** Walk a [sure] goal of a stateful program. *)
Ltac sure_step :=
  lazymatch goal with
  | |- sure _ _ ((_ ≫= _) _) => apply sure_stp_bind
  | |- sure _ _ (mret _ _) => cbn [sure mret stp_ret]
  | |- sure _ _ (ask _ _) => cbn [sure ask]; intros ? ?
  | |- sure _ _ (lift (modify _) _) => eapply sure_lift; [reflexivity|]; cbv beta iota
  | |- sure _ _ (lift (gets _) _) => eapply sure_lift; [reflexivity|]; cbv beta iota
  | |- sure _ _ ((if ?b then _ else _) _) => destruct b eqn:?
  end.

Section Buffers.
  Context {A : Type}.
  Implicit Types (b : list A) (v : A).

Lemma len_nonneg b : 0 <= len b.
Proof. unfold len. lia. Qed.
Lemma len_nil : len (@nil A) = 0.
Proof. done. Qed.
Lemma len_single v : len [v] = 1.
Proof. done. Qed.
Lemma len_cons v b : len (v :: b) = len b + 1.
Proof. unfold len. cbn. lia. Qed.
Lemma len_app b1 b2 : len (b1 ++ b2) = len b1 + len b2.
Proof. unfold len. rewrite length_app. lia. Qed.
Lemma len_insert b i v : len (<[i := v]> b) = len b.
Proof. unfold len. by rewrite length_insert. Qed.
Lemma len_take b n : 0 <= n <= len b -> len (take (Z.to_nat n) b) = n.
Proof. unfold len. intros. rewrite length_take. lia. Qed.
Lemma len_drop b n : 0 <= n -> len (drop (Z.to_nat n) b) = Z.max 0 (len b - n).
Proof. unfold len. intros. rewrite length_drop. lia. Qed.

Lemma rd_ok b i v : 0 <= i -> b !! Z.to_nat i = Some v -> rd b i = Ok v.
Proof. intros Hi E. unfold rd. rewrite E. case_test; [lia | done]. Qed.
Lemma rd_lookup b i v : rd b i = Ok v -> 0 <= i < len b /\ b !! Z.to_nat i = Some v.
Proof.
    unfold rd, len. case_test; [done|].
    destruct (b !! Z.to_nat i) eqn:E; [|done]. intros [= ->].
    apply lookup_lt_Some in E as Hlt. split; [lia | done].
Qed.
Lemma rd_in b i : 0 <= i < len b -> exists v, rd b i = Ok v /\ b !! Z.to_nat i = Some v.
Proof.
    intros Hi. destruct (lookup_lt_is_Some_2 b (Z.to_nat i)) as [v E].
    { unfold len in Hi. lia. }
    exists v. split; [apply rd_ok; [lia | done] | done].
Qed.

Lemma wr_ok b i v : 0 <= i < len b -> wr b i v = Ok (<[Z.to_nat i := v]> b).
Proof. intros Hi. unfold wr. case_test; [lia | done]. Qed.
Lemma wr_oob b i v : i < 0 \/ len b <= i -> wr b i v = Stop UB.
Proof. intros Hi. unfold wr. case_test; [done | lia]. Qed.
Lemma wr_inv b i v b' : wr b i v = Ok b' -> 0 <= i < len b /\ b' = <[Z.to_nat i := v]> b.
Proof. unfold wr. case_test; [done|]. intros [= <-]. split; [lia | done]. Qed.

  (** Reading and writing at an offset behind a prefix. *)
Lemma rd_app (p l : list A) i k v :
    i = len p + k -> 0 <= k -> l !! Z.to_nat k = Some v -> rd (p ++ l) i = Ok v.
Proof.
    intros -> Hk E. apply rd_ok; [pose proof (len_nonneg p); lia|].
    unfold len. rewrite lookup_app_r by lia. rewrite <- E. f_equal. lia.
Qed.
Lemma wr_app (p l : list A) i k v :
    i = len p + k -> 0 <= k < len l -> wr (p ++ l) i v = Ok (p ++ <[Z.to_nat k := v]> l).
Proof.
    intros -> Hk. rewrite wr_ok by (rewrite len_app; pose proof (len_nonneg p); lia).
    f_equal. unfold len. rewrite insert_app_r_alt by lia. f_equal. f_equal. lia.
Qed.
End Buffers.

Lemma drop_cons_lookup {A} (l : list A) i v :
  l !! i = Some v -> drop i l = v :: drop (S i) l.
Proof. intros E. by apply drop_S. Qed.

Lemma take_insert_app {A} (l : list A) i v :
  (i < length l)%nat -> take (S i) (<[i := v]> l) = take i l ++ [v].
Proof.
  intros Hi. rewrite (take_S_r _ _ v).
  - by rewrite take_insert_ge by lia.
  - by rewrite list_lookup_insert_eq.
Qed.

Section Words.
Lemma u8_id z : 0 <= z < 256 -> u8 z = z.
Proof. intros. unfold u8. apply Z.mod_small. lia. Qed.
Lemma u16_id z : 0 <= z < 2 ^ 16 -> u16 z = z.
Proof. intros. unfold u16. by apply Z.mod_small. Qed.
Lemma u32_id z : 0 <= z < 2 ^ 32 -> u32 z = z.
Proof. intros. unfold u32. by apply Z.mod_small. Qed.
Lemma u8_range z : 0 <= u8 z < 256.
Proof. unfold u8. apply Z.mod_pos_bound. lia. Qed.
Lemma u16_range z : 0 <= u16 z < 2 ^ 16.
Proof. unfold u16. apply Z.mod_pos_bound. lia. Qed.
Lemma u32_range z : 0 <= u32 z < 2 ^ 32.
Proof. unfold u32. apply Z.mod_pos_bound. lia. Qed.
Lemma s32_id z : - 2 ^ 31 <= z < 2 ^ 31 -> s32 z = z.
Proof. intros. unfold s32. rewrite Z.mod_small; lia. Qed.
Lemma s32_range z : - 2 ^ 31 <= s32 z < 2 ^ 31.
Proof. unfold s32. pose proof (Z.mod_pos_bound (z + 2 ^ 31) (2 ^ 32)). lia. Qed.

  (** Or-ing bit fields that do not overlap is adding them. *)
Lemma lor_shift_add x y k : 0 <= k -> 0 <= y < 2 ^ k -> Z.lor (x * 2 ^ k) y = x * 2 ^ k + y.
Proof.
    intros Hk Hy.
    assert (Hland : Z.land (x * 2 ^ k) y = 0).
    { apply Z.bits_inj'; intros n Hn. rewrite Z.land_spec, Z.bits_0.
      rewrite <- Z.shiftl_mul_pow2 by done.
      destruct (decide (n < k)); [by rewrite Z.shiftl_spec_low by lia|].
      rewrite (proj2 (Z.testbit_false y n Hn)); [by rewrite andb_false_r|].
      rewrite Z.div_small; [done|]. split; [lia|].
      apply Z.lt_le_trans with (2 ^ k); [lia|]. apply Z.pow_le_mono_r; lia. }
    rewrite <- Z.lxor_lor by done. symmetry. by apply Z.add_nocarry_lxor.
Qed.
End Words.

#[export] Hint Resolve u8_range u16_range u32_range len_nonneg : sdkz.
#[export] Hint Rewrite @len_app @len_cons @len_insert @length_insert @length_app : sdkz.
