(* ===== verification/Ascii85.v ===== *)
(** The Ascii85 codec of src/lib/hu/ascii85.c: the C loops over an input and an
    output buffer with every read and write checked, the codec they implement
    as a function on byte lists, and the theorems that relate the two. *)

From S2P Require Import Prelude.


(** ** Constants *)

Definition ascii85_err_out_buf_too_small : Z := -255.
Definition ascii85_err_in_buf_too_large : Z := -254.
Definition ascii85_err_bad_decode_char : Z := -253.
Definition ascii85_err_decode_overflow : Z := -252.

Definition base_char : Z := 33.
Definition ascii85_in_length_max : Z := 65536.
Definition ascii85_decode_z_for_zero : bool := true.
Definition ascii85_encode_z_for_zero : bool := true.
Definition ascii85_check_decode_chars : bool := true.

Definition ch_z : Z := 122.

Definition ascii85_char_ng (c : Z) : bool := (c <? 33) || (c >? 117).

(** ** Size bounds *)

Definition ascii85_get_max_encoded_length (in_length : Z) : Z :=
  if (in_length <? 0) || (in_length >? ascii85_in_length_max)
  then ascii85_err_in_buf_too_large
  else Z.quot (in_length + 3) 4 * 5.

Definition ascii85_get_max_decoded_length (in_length : Z) : Z :=
  if (in_length <? 0) || (in_length >? ascii85_in_length_max)
  then ascii85_err_in_buf_too_large
  else if ascii85_decode_z_for_zero then in_length * 4
  else Z.quot (in_length + 4) 5 * 4.

(** ** The encoder *)

(** [((in_rover < in_length) ? (((uint32_t)inp[in_rover++]) << sh) : 0u)] *)
Definition enc_pick (inp : list Z) (in_length in_rover sh : Z) : res (Z * Z) :=
  if in_rover <? in_length
  then b ← rd inp in_rover; Ok (u32 (Z.shiftl b sh), in_rover + 1)
  else Ok (0, in_rover).

(** The two branches that gather a chunk; answers the chunk and [in_rover]. *)
Definition enc_chunk (inp : list Z) (in_length in_rover : Z) : res (Z * Z) :=
  let chunk_len := in_length - in_rover in
  if chunk_len >=? 4 then
    b0 ← rd inp in_rover; b1 ← rd inp (in_rover + 1);
    b2 ← rd inp (in_rover + 2); b3 ← rd inp (in_rover + 3);
    let chunk := u32 (Z.shiftl b0 24) in
    let chunk := Z.lor chunk (u32 (Z.shiftl b1 16)) in
    let chunk := Z.lor chunk (u32 (Z.shiftl b2 8)) in
    let chunk := Z.lor chunk b3 in
    Ok (chunk, in_rover + 4)
  else
    b0 ← rd inp in_rover;
    let chunk := u32 (Z.shiftl b0 24) in
    '(c1, in_rover) ← enc_pick inp in_length (in_rover + 1) 16;
    '(c2, in_rover) ← enc_pick inp in_length in_rover 8;
    '(c3, in_rover) ← enc_pick inp in_length in_rover 0;
    Ok (Z.lor (Z.lor (Z.lor chunk c1) c2) c3, in_rover).

(** The five writes of [outp[out_length .. out_length + 4]]. *)
Definition enc_put (outp : list Z) (out_length chunk : Z) : res (list Z) :=
  outp ← wr outp (out_length + 4) (u8 (chunk mod 85 + base_char));
  let chunk := chunk / 85 in
  outp ← wr outp (out_length + 3) (u8 (chunk mod 85 + base_char));
  let chunk := chunk / 85 in
  outp ← wr outp (out_length + 2) (u8 (chunk mod 85 + base_char));
  let chunk := chunk / 85 in
  outp ← wr outp (out_length + 1) (u8 (chunk mod 85 + base_char));
  let chunk := chunk / 85 in
  wr outp out_length (u8 (u8 chunk + base_char)).

(** [while (in_rover < in_length)]; every turn consumes at least one byte, so
    [in_length] turns of fuel are enough (theorem [encode_ascii85_correct]). *)
Fixpoint enc_loop (fuel : nat) (inp : list Z) (in_length : Z) (outp : list Z)
    (in_rover out_length : Z) : res (Z * list Z) :=
  if in_rover <? in_length then
    match fuel with
    | O => Stop OutOfFuel
    | S fuel =>
      let chunk_len := in_length - in_rover in
      '(chunk, in_rover) ← enc_chunk inp in_length in_rover;
      if ascii85_encode_z_for_zero && (0 =? chunk) && (chunk_len >=? 4) then
        outp ← wr outp out_length ch_z;
        enc_loop fuel inp in_length outp in_rover (out_length + 1)
      else
        outp ← enc_put outp out_length chunk;
        let out_length :=
          if chunk_len >=? 4 then out_length + 5 else out_length + (chunk_len + 1) in
        enc_loop fuel inp in_length outp in_rover out_length
    end
  else Ok (out_length, outp).

(** Answers the return value and the output buffer. *)
Definition encode_ascii85 (inp : list Z) (in_length : Z) (outp : list Z)
    (out_max_length : Z) : res (Z * list Z) :=
  let out_length := ascii85_get_max_encoded_length in_length in
  if out_length <? 0 then Ok (out_length, outp)
  else if out_length >? out_max_length then Ok (ascii85_err_out_buf_too_small, outp)
  else enc_loop (Z.to_nat in_length) inp in_length outp 0 0.

(** ** The decoder *)

(** The test for characters outside the alphabet, with C's [&&] and [||]: a
    later character is read only when the chunk reaches it. *)
Definition dec_bad (inp : list Z) (in_rover chunk_len : Z) : res bool :=
  let ng i := c ← rd inp (in_rover + i); Ok (ascii85_char_ng c) in
  let guarded i := if chunk_len >? i then ng i else Ok false in
  let or_else (m n : res bool) := b ← m; if b : bool then Ok true else n in
  if ascii85_check_decode_chars
  then or_else (ng 0) (or_else (guarded 1) (or_else (guarded 2)
         (or_else (guarded 3) (guarded 4))))
  else Ok false.

(** [((in_rover < in_length) ? (inp[in_rover++] - base_char) : 84u)] *)
Definition dec_pick (inp : list Z) (in_length in_rover : Z) : res (Z * Z) :=
  if in_rover <? in_length
  then b ← rd inp in_rover; Ok (b - base_char, in_rover + 1)
  else Ok (84, in_rover).

(** The overflow tests and the last digit; [None] is the overflow error. *)
Definition dec_last (chunk addend : Z) : option Z :=
  if chunk >? UINT32_MAX / 85 then None
  else
    let addend := u8 addend in
    let chunk := u32 (chunk * 85) in
    if chunk >? UINT32_MAX - addend then None else Some (u32 (chunk + addend)).

(** The two branches that gather five digits: a full group reads five
    characters, a short one pads with 84.  The fifth character is read only
    after the first overflow test; [None] is [ascii85_err_decode_overflow]. *)
Definition dec_chunk (inp : list Z) (in_length in_rover chunk_len : Z)
    : res (option Z * Z) :=
  if chunk_len >=? 5 then
    c0 ← rd inp in_rover; c1 ← rd inp (in_rover + 1);
    c2 ← rd inp (in_rover + 2); c3 ← rd inp (in_rover + 3);
    let chunk := u32 (c0 - base_char) in
    let chunk := u32 (u32 (chunk * 85) + u32 (c1 - base_char)) in
    let chunk := u32 (u32 (chunk * 85) + u32 (c2 - base_char)) in
    let chunk := u32 (u32 (chunk * 85) + u32 (c3 - base_char)) in
    if chunk >? UINT32_MAX / 85 then Ok (None, in_rover + 4)
    else
      c4 ← rd inp (in_rover + 4);
      Ok (dec_last chunk (c4 - base_char), in_rover + 5)
  else
    c0 ← rd inp in_rover;
    let chunk := u32 (c0 - base_char) in
    '(d1, in_rover) ← dec_pick inp in_length (in_rover + 1);
    let chunk := u32 (u32 (chunk * 85) + u32 d1) in
    '(d2, in_rover) ← dec_pick inp in_length in_rover;
    let chunk := u32 (u32 (chunk * 85) + u32 d2) in
    '(d3, in_rover) ← dec_pick inp in_length in_rover;
    let chunk := u32 (u32 (chunk * 85) + u32 d3) in
    if chunk >? UINT32_MAX / 85 then Ok (None, in_rover)
    else
      '(d4, in_rover) ← dec_pick inp in_length in_rover;
      Ok (dec_last chunk d4, in_rover).

(** The four writes of [outp[out_length .. out_length + 3]]. *)
Definition dec_put (outp : list Z) (out_length chunk : Z) : res (list Z) :=
  outp ← wr outp (out_length + 3) (chunk mod 256);
  let chunk := chunk / 256 in
  outp ← wr outp (out_length + 2) (chunk mod 256);
  let chunk := chunk / 256 in
  outp ← wr outp (out_length + 1) (chunk mod 256);
  let chunk := chunk / 256 in
  wr outp out_length (u8 chunk).

Fixpoint dec_loop (fuel : nat) (inp : list Z) (in_length : Z) (outp : list Z)
    (in_rover out_length : Z) : res (Z * list Z) :=
  if in_rover <? in_length then
    match fuel with
    | O => Stop OutOfFuel
    | S fuel =>
      let chunk_len := in_length - in_rover in
      c ← rd inp in_rover;
      if ascii85_decode_z_for_zero && (ch_z =? c) then
        outp ← dec_put outp out_length 0;
        dec_loop fuel inp in_length outp (in_rover + 1) (out_length + 4)
      else
        bad ← dec_bad inp in_rover chunk_len;
        if bad : bool then Ok (ascii85_err_bad_decode_char, outp)
        else
          '(chunk, in_rover) ← dec_chunk inp in_length in_rover chunk_len;
          match chunk with
          | None => Ok (ascii85_err_decode_overflow, outp)
          | Some chunk =>
            outp ← dec_put outp out_length chunk;
            let out_length :=
              if chunk_len >=? 5 then out_length + 4 else out_length + (chunk_len - 1) in
            dec_loop fuel inp in_length outp in_rover out_length
          end
    end
  else Ok (out_length, outp).

Definition decode_ascii85 (inp : list Z) (in_length : Z) (outp : list Z)
    (out_max_length : Z) : res (Z * list Z) :=
  let out_length := ascii85_get_max_decoded_length in_length in
  if out_length <? 0 then Ok (out_length, outp)
  else if out_length >? out_max_length then Ok (ascii85_err_out_buf_too_small, outp)
  else dec_loop (Z.to_nat in_length) inp in_length outp 0 0.

(** ** The codec as a function on byte lists *)

(** The big-endian value of four bytes and back. *)
Definition be32 (a b c d : Z) : Z := a * 2 ^ 24 + b * 2 ^ 16 + c * 2 ^ 8 + d.
Definition bytes4 (v : Z) : list Z :=
  [v / 2 ^ 24; (v / 2 ^ 16) mod 256; (v / 2 ^ 8) mod 256; v mod 256].

(** The five base-85 digits of a chunk, as characters, and back. *)
Definition chars5 (v : Z) : list Z :=
  [v / 85 ^ 4 + 33; (v / 85 ^ 3) mod 85 + 33; (v / 85 ^ 2) mod 85 + 33;
   (v / 85) mod 85 + 33; v mod 85 + 33].
Definition val5 (a b c d e : Z) : Z :=
  (a - 33) * 85 ^ 4 + (b - 33) * 85 ^ 3 + (c - 33) * 85 ^ 2 + (d - 33) * 85 + (e - 33).

Fixpoint encode_spec (l : list Z) : list Z :=
  match l with
  | a :: b :: c :: d :: l' =>
      (if be32 a b c d =? 0 then [ch_z] else chars5 (be32 a b c d)) ++ encode_spec l'
  | [a; b; c] => take 4 (chars5 (be32 a b c 0))
  | [a; b] => take 3 (chars5 (be32 a b 0 0))
  | [a] => take 2 (chars5 (be32 a 0 0 0))
  | [] => []
  end.

(** A group of one to five characters: the error code, or the bytes. *)
Definition group_spec (g : list Z) (n : nat) : Z + list Z :=
  if existsb ascii85_char_ng g then inl ascii85_err_bad_decode_char
  else match g ++ replicate (5 - n) 117 with
       | a :: b :: c :: d :: e :: _ =>
           if val5 a b c d e >? UINT32_MAX then inl ascii85_err_decode_overflow
           else inr (take (n - 1) (bytes4 (val5 a b c d e)))
       | _ => inr []
       end.

Definition then_spec (r : Z + list Z) (k : Z + list Z) : Z + list Z :=
  match r, k with
  | inl e, _ => inl e
  | inr _, inl e => inl e
  | inr x, inr y => inr (x ++ y)
  end.

Fixpoint decode_spec (l : list Z) : Z + list Z :=
  match l with
  | [] => inr []
  | a :: l1 =>
      if ch_z =? a then then_spec (inr [0; 0; 0; 0]) (decode_spec l1)
      else match l1 with
           | b :: c :: d :: e :: l' => then_spec (group_spec [a; b; c; d; e] 5) (decode_spec l')
           | _ => group_spec l (length l)
           end
  end.

(** ** The encoder computes [encode_spec] *)

Lemma be32_range a b c d :
  is_byte a -> is_byte b -> is_byte c -> is_byte d -> 0 <= be32 a b c d < 2 ^ 32.
Proof. unfold is_byte, be32. lia. Qed.

Lemma lor_be32 a b c d :
  is_byte a -> is_byte b -> is_byte c -> is_byte d ->
  Z.lor (Z.lor (Z.lor (u32 (Z.shiftl a 24)) (u32 (Z.shiftl b 16))) (u32 (Z.shiftl c 8))) d
  = be32 a b c d.
Proof.
  unfold is_byte, be32. intros.
  rewrite !Z.shiftl_mul_pow2, !u32_id by lia.
  rewrite (lor_shift_add a (b * 2 ^ 16) 24) by lia.
  replace (a * 2 ^ 24 + b * 2 ^ 16) with ((a * 2 ^ 8 + b) * 2 ^ 16) by lia.
  rewrite (lor_shift_add _ (c * 2 ^ 8) 16) by lia.
  replace ((a * 2 ^ 8 + b) * 2 ^ 16 + c * 2 ^ 8) with (((a * 2 ^ 8 + b) * 2 ^ 8 + c) * 2 ^ 8) by lia.
  rewrite (lor_shift_add _ d 8) by lia. lia.
Qed.

Ltac reads := repeat (erewrite rd_app; [| |done |]; [| |reflexivity]; [cbn | rewrite ?len_nonneg; lia]).

Lemma enc_chunk_full ip tl a b c d l :
  is_byte a -> is_byte b -> is_byte c -> is_byte d ->
  enc_chunk (ip ++ (a :: b :: c :: d :: l) ++ tl) (len ip + len (a :: b :: c :: d :: l)) (len ip)
  = Ok (be32 a b c d, len ip + 4).
Proof.
  intros. unfold enc_chunk. rewrite !len_cons. pose proof (len_nonneg l).
  case_test; [|lia].
  rewrite (rd_app ip _ (len ip) 0 a) by (done || lia). cbn.
  rewrite (rd_app ip _ (len ip + 1) 1 b) by (done || lia). cbn.
  rewrite (rd_app ip _ (len ip + 2) 2 c) by (done || lia). cbn.
  rewrite (rd_app ip _ (len ip + 3) 3 d) by (done || lia).
  unfold mbind, res_bind. by rewrite lor_be32.
Qed.

Lemma enc_pick_in ip tl l k b sh n i :
  i = len ip + k -> 0 <= k -> k < n -> l !! Z.to_nat k = Some b ->
  enc_pick (ip ++ l ++ tl) (len ip + n) i sh = Ok (u32 (Z.shiftl b sh), i + 1).
Proof.
  intros -> Hk Hn E. unfold enc_pick. case_test; [|lia].
  rewrite (rd_app ip _ _ k b); [done | done | done |]. by apply lookup_app_l_Some.
Qed.

Lemma enc_pick_out inp n i sh : n <= i -> enc_pick inp n i sh = Ok (0, i).
Proof. intros. unfold enc_pick. case_test; [lia | done]. Qed.

Lemma enc_chunk_short ip tl l :
  Forall is_byte l -> l <> [] -> len l < 4 ->
  enc_chunk (ip ++ l ++ tl) (len ip + len l) (len ip)
  = Ok (match l with
        | [a] => be32 a 0 0 0 | [a; b] => be32 a b 0 0 | [a; b; c] => be32 a b c 0
        | _ => 0 end, len ip + len l).
Proof.
  intros Hb Hne Hlt. unfold enc_chunk. case_test; [lia|].
  assert (H0 : is_byte 0) by (unfold is_byte; lia).
  destruct l as [|a [|b [|c [|? ?]]]]; [done| | | |rewrite !len_cons in Hlt; pose proof (len_nonneg l); lia].
  all: forall_cons.
  all: rewrite (rd_app ip _ (len ip) 0 a) by (done || lia); unfold mbind at 1, res_bind at 1.
  - rewrite enc_pick_out by len_lia. step. rewrite enc_pick_out by len_lia. step.
    rewrite enc_pick_out by len_lia. step. by rewrite <- (lor_be32 a 0 0 0).
  - rewrite (enc_pick_in ip tl _ 1 b) by (done || len_lia). step.
    rewrite enc_pick_out by len_lia. step. rewrite enc_pick_out by len_lia. step.
    rewrite <- (lor_be32 a b 0 0) by done. f_equal. f_equal. len_lia.
  - rewrite (enc_pick_in ip tl _ 1 b) by (done || len_lia). step.
    rewrite (enc_pick_in ip tl _ 2 c) by (done || len_lia). step.
    rewrite enc_pick_out by len_lia. step.
    rewrite <- (lor_be32 a b c 0) by done. f_equal. f_equal. len_lia.
Qed.

Lemma digit_bounds v : 0 <= v < 2 ^ 32 ->
  0 <= v / 85 ^ 4 < 85 /\ 0 <= (v / 85 ^ 3) mod 85 < 85 /\ 0 <= (v / 85 ^ 2) mod 85 < 85 /\
  0 <= (v / 85) mod 85 < 85 /\ 0 <= v mod 85 < 85.
Proof.
  intros. repeat split; try (apply Z.mod_pos_bound; lia).
  - apply Z.div_pos; lia.
  - apply Z.div_lt_upper_bound; lia.
Qed.

Lemma div_chain v k : 0 < k ->
  v / k / k = v / k ^ 2 /\ v / k / k / k = v / k ^ 3 /\ v / k / k / k / k = v / k ^ 4.
Proof. intros. rewrite !Z.div_div by lia. repeat split; f_equal; ring. Qed.

Lemma enc_put_eq pre r0 r1 r2 r3 r4 rest v :
  0 <= v < 2 ^ 32 ->
  enc_put (pre ++ r0 :: r1 :: r2 :: r3 :: r4 :: rest) (len pre) v
  = Ok (pre ++ chars5 v ++ rest).
Proof.
  intros Hv. unfold enc_put, chars5, base_char.
  pose proof (digit_bounds v Hv) as (B4 & B3 & B2 & B1 & B0).
  destruct (div_chain v 85) as (-> & -> & ->); [lia|].
  rewrite (wr_app pre _ _ 4) by len_lia. step.
  rewrite (wr_app pre _ _ 3) by len_lia. step.
  rewrite (wr_app pre _ _ 2) by len_lia. step.
  rewrite (wr_app pre _ _ 1) by len_lia. step.
  rewrite (wr_app pre _ _ 0) by len_lia.
  by rewrite (u8_id (v / 85 ^ 4)), !u8_id by lia.
Qed.

(** How many output bytes a run of the encoder over [n] bytes can touch. *)
Definition enc_room (n : Z) : Z := (n + 3) / 4 * 5.

Lemma enc_room_4 n : enc_room (n + 4) = enc_room n + 5.
Proof. unfold enc_room. replace (n + 4 + 3) with (n + 3 + 1 * 4) by lia. rewrite Z.div_add by lia. lia. Qed.

Lemma enc_room_nonneg n : 0 <= n -> 0 <= enc_room n.
Proof. intros. unfold enc_room. pose proof (Z.div_pos (n + 3) 4). lia. Qed.

Lemma split5 (l : list Z) : 5 <= len l ->
  exists a b c d e l', l = a :: b :: c :: d :: e :: l' /\ len l = len l' + 5.
Proof.
  intros H. destruct l as [|a [|b [|c [|d [|e l']]]]]; try len_lia.
  exists a, b, c, d, e, l'. split; [done | len_lia].
Qed.

Lemma len_chars5 v : len (chars5 v) = 5.
Proof. done. Qed.

(** One turn over four input bytes writes [g], the first piece of the spec. *)
Lemma enc_turn_full fuel ip tl a b c d l pre rest :
  is_byte a -> is_byte b -> is_byte c -> is_byte d -> 5 <= len rest ->
  let g := if be32 a b c d =? 0 then [ch_z] else chars5 (be32 a b c d) in
  exists rest',
    enc_loop (S fuel) (ip ++ (a :: b :: c :: d :: l) ++ tl) (len ip + len (a :: b :: c :: d :: l))
      (pre ++ rest) (len ip) (len pre)
    = enc_loop fuel ((ip ++ [a; b; c; d]) ++ l ++ tl) (len (ip ++ [a; b; c; d]) + len l)
      ((pre ++ g) ++ rest') (len (ip ++ [a; b; c; d])) (len (pre ++ g)) /\
    len rest = len g + len rest' /\ len g <= 5.
Proof.
  intros Ha Hb Hc Hd Hr g. cbn [enc_loop]. case_test; [|len_lia].
  rewrite enc_chunk_full by done. step. rewrite (Z.eqb_sym 0).
  destruct (split5 rest Hr) as (r0 & r1 & r2 & r3 & r4 & rest0 & -> & Er).
  replace (ip ++ (a :: b :: c :: d :: l) ++ tl)
    with ((ip ++ [a; b; c; d]) ++ l ++ tl) by (by rewrite <- app_assoc).
  replace (len ip + len (a :: b :: c :: d :: l)) with (len (ip ++ [a; b; c; d]) + len l) by len_lia.
  replace (len ip + 4) with (len (ip ++ [a; b; c; d])) by len_lia.
  destruct (be32 a b c d =? 0) eqn:Ez; subst g; cbn [andb ascii85_encode_z_for_zero].
  - case_test; [|len_lia]. rewrite (wr_app pre _ _ 0) by len_lia. step.
    exists (r1 :: r2 :: r3 :: r4 :: rest0). split; [|len_lia].
    rewrite <- (app_assoc pre). replace (len pre + 1) with (len (pre ++ [ch_z])) by len_lia. done.
  - rewrite enc_put_eq by (by apply be32_range). step. case_test; [|len_lia].
    exists rest0. pose proof (len_chars5 (be32 a b c d)). split; [|len_lia].
    rewrite <- (app_assoc pre). f_equal. len_lia.
Qed.

(** The last turn over one to three bytes. *)
Lemma enc_turn_short fuel ip tl l pre rest :
  Forall is_byte l -> l <> [] -> len l < 4 -> 5 <= len rest ->
  exists rest',
    enc_loop (S fuel) (ip ++ l ++ tl) (len ip + len l) (pre ++ rest) (len ip) (len pre)
      = Ok (len pre + len (encode_spec l), pre ++ encode_spec l ++ rest') /\
    len rest = len (encode_spec l) + len rest'.
Proof.
  intros Hb Hne Hlt Hr. cbn [enc_loop].
  case_test; [|destruct l; [done | len_lia]].
  rewrite enc_chunk_short by done. step.
  destruct (len ip + len l - len ip >=? 4) eqn:E4; zify_bool; [len_lia|]. rewrite andb_false_r.
  destruct (split5 rest Hr) as (r0 & r1 & r2 & r3 & r4 & rest0 & -> & Er).
  assert (H0 : is_byte 0) by (unfold is_byte; lia).
  assert (Eend : forall n o outp, n = len ip + len l ->
    enc_loop fuel (ip ++ l ++ tl) (len ip + len l) outp n o = Ok (o, outp)).
  { intros ? ? ? ->. destruct fuel; cbn; by rewrite Z.ltb_irrefl. }
  destruct l as [|a [|b [|c [|d l']]]]; [done | | | | len_lia].
  all: forall_cons.
  all: rewrite enc_put_eq by (by apply be32_range); step; rewrite Eend by len_lia; cbn [encode_spec].
  - exists (drop 2 (chars5 (be32 a 0 0 0)) ++ rest0). split; [|cbn -[be32]; len_lia].
    rewrite (app_assoc (take _ _)), take_drop. f_equal. f_equal. cbn -[be32]. len_lia.
  - exists (drop 3 (chars5 (be32 a b 0 0)) ++ rest0). split; [|cbn -[be32]; len_lia].
    rewrite (app_assoc (take _ _)), take_drop. f_equal. f_equal. cbn -[be32]. len_lia.
  - exists (drop 4 (chars5 (be32 a b c 0)) ++ rest0). split; [|cbn -[be32]; len_lia].
    rewrite (app_assoc (take _ _)), take_drop. f_equal. f_equal. cbn -[be32]. len_lia.
Qed.

Lemma enc_loop_correct fuel : forall l ip tl pre rest,
  (length l <= fuel)%nat -> Forall is_byte l -> enc_room (len l) <= len rest ->
  exists rest',
    enc_loop fuel (ip ++ l ++ tl) (len ip + len l) (pre ++ rest) (len ip) (len pre)
      = Ok (len pre + len (encode_spec l), pre ++ encode_spec l ++ rest') /\
    len rest = len (encode_spec l) + len rest'.
Proof.
  induction fuel as [|fuel IH]; intros l ip tl pre rest Hf Hb Hroom.
  { destruct l; [|cbn in Hf; lia]. exists rest. cbn [enc_loop encode_spec].
    case_test; [len_lia|]. split; [|len_lia]. f_equal. f_equal. len_lia. }
  destruct (decide (l = [])) as [->|Hne].
  { exists rest. cbn [enc_loop encode_spec]. case_test; [len_lia|].
    split; [|len_lia]. f_equal. f_equal. len_lia. }
  destruct (decide (4 <= len l)) as [Hlen|Hlen].
  - destruct l as [|a [|b [|c [|d l']]]]; try len_lia.
    forall_cons.
    replace (len (a :: b :: c :: d :: l')) with (len l' + 4) in Hroom by len_lia.
    rewrite enc_room_4 in Hroom. pose proof (enc_room_nonneg (len l') (len_nonneg l')).
    destruct (enc_turn_full fuel ip tl a b c d l' pre rest) as (rest0 & -> & El & Hg); try done; [lia|].
    set (g := if be32 a b c d =? 0 then [ch_z] else chars5 (be32 a b c d)) in *.
    destruct (IH l' (ip ++ [a; b; c; d]) tl (pre ++ g) rest0) as (rest' & -> & El');
      [cbn in Hf; lia | done | lia |].
    exists rest'. cbn [encode_spec]. fold g. rewrite <- !app_assoc. split; [f_equal; f_equal; len_lia | len_lia].
  - apply enc_turn_short; [done | done | lia |].
    assert (0 < len l) by (destruct l; [done | len_lia]).
    unfold enc_room in Hroom. replace ((len l + 3) / 4) with 1 in Hroom; [lia|].
    apply Z.div_unique with (len l - 1); lia.
Qed.

(** ** The decoder computes [decode_spec] *)

Definition all_ok (l : list Z) : Prop := Forall (fun c => 33 <= c <= 117) l.

Lemma char_ok c : ascii85_char_ng c = false <-> 33 <= c <= 117.
Proof. unfold ascii85_char_ng. split; intros H; zify_bool; [lia|]. apply orb_false_iff. lia. Qed.

Lemma existsb_ng l : existsb ascii85_char_ng l = false <-> all_ok l.
Proof.
  induction l as [|c l IH]; cbn; [split; [constructor | done]|].
  rewrite orb_false_iff, char_ok, IH. unfold all_ok. by rewrite Forall_cons.
Qed.

Lemma dec_bad_eq ip tl l :
  l <> [] -> dec_bad (ip ++ l ++ tl) (len ip) (len l) = Ok (existsb ascii85_char_ng (take 5 l)).
Proof.
  intros Hne. unfold dec_bad, ascii85_check_decode_chars.
  assert (Hrd : forall i c, 0 <= i -> l !! Z.to_nat i = Some c -> rd (ip ++ l ++ tl) (len ip + i) = Ok c).
  { intros i c Hi E. apply (rd_app ip _ _ i); [done | done | by apply lookup_app_l_Some]. }
  destruct l as [|a [|b [|c [|d [|e l']]]]]; [done| | | | |].
  all: repeat (case_test; try len_lia).
  all: rewrite ?(Hrd 0 a), ?(Hrd 1 b), ?(Hrd 2 c), ?(Hrd 3 d), ?(Hrd 4 e) by done.
  all: steps; cbn [existsb take].
  all: repeat match goal with |- context [ascii85_char_ng ?x] =>
    destruct (ascii85_char_ng x); cbn [orb]; try reflexivity end.
Qed.

(** The fold of the digits and its overflow tests amount to one comparison. *)
Lemma dec_last_val5 a b c d e :
  all_ok [a; b; c; d; e] ->
  let p := u32 (u32 (u32 (u32 (u32 (u32 (u32 (a - 33) * 85) + u32 (b - 33)) * 85) + u32 (c - 33)) * 85)
             + u32 (d - 33)) in
  (if p >? UINT32_MAX / 85 then None else dec_last p (e - 33))
  = if val5 a b c d e >? UINT32_MAX then None else Some (val5 a b c d e).
Proof.
  unfold all_ok. intros H.
  forall_cons.
  cbv zeta. rewrite !(u32_id (_ - 33)) by lia.
  rewrite (u32_id ((a - 33) * 85)) by lia.
  rewrite (u32_id ((a - 33) * 85 + (b - 33))) by lia.
  rewrite (u32_id (((a - 33) * 85 + (b - 33)) * 85)) by lia.
  rewrite (u32_id (((a - 33) * 85 + (b - 33)) * 85 + (c - 33))) by lia.
  rewrite (u32_id ((((a - 33) * 85 + (b - 33)) * 85 + (c - 33)) * 85)) by lia.
  rewrite (u32_id ((((a - 33) * 85 + (b - 33)) * 85 + (c - 33)) * 85 + (d - 33))) by lia.
  set (p := (((a - 33) * 85 + (b - 33)) * 85 + (c - 33)) * 85 + (d - 33)).
  assert (Hv : val5 a b c d e = p * 85 + (e - 33)) by (unfold val5, p; ring).
  assert (Hp : 0 <= p) by (unfold p; lia). rewrite Hv. clearbody p.
  unfold UINT32_MAX, dec_last in *. change (4294967295 / 85) with 50529027.
  rewrite (u8_id (e - 33)) by lia.
  case_test; [case_test; [done | lia]|].
  change (UINT32_MAX / 85) with 50529027. case_test; [lia|].
  rewrite (u32_id (p * 85)) by lia. unfold UINT32_MAX.
  case_test; case_test; try lia; [done|]. by rewrite u32_id by lia.
Qed.

Lemma dec_chunk_full ip tl a b c d e l :
  all_ok [a; b; c; d; e] ->
  let v := val5 a b c d e in
  exists r, dec_chunk (ip ++ (a :: b :: c :: d :: e :: l) ++ tl)
      (len ip + len (a :: b :: c :: d :: e :: l)) (len ip) (len (a :: b :: c :: d :: e :: l))
    = Ok (if v >? UINT32_MAX then None else Some v, r) /\
    (v <= UINT32_MAX -> r = len ip + 5).
Proof.
  intros Hok v. subst v. rewrite <- dec_last_val5 by done.
  pose proof (dec_last_val5 _ _ _ _ _ Hok) as E. cbv zeta in *.
  unfold dec_chunk. case_test; [|len_lia].
  rewrite (rd_app ip _ (len ip) 0 a) by (done || lia).
  rewrite (rd_app ip _ (len ip + 1) 1 b) by (done || lia).
  rewrite (rd_app ip _ (len ip + 2) 2 c) by (done || lia).
  rewrite (rd_app ip _ (len ip + 3) 3 d) by (done || lia).
  rewrite (rd_app ip _ (len ip + 4) 4 e) by (done || lia).
  steps. unfold base_char.
  destruct (u32 _ >? UINT32_MAX / 85) eqn:Ep.
  - eexists. split; [reflexivity|]. intros Hle. exfalso.
    destruct (val5 a b c d e >? UINT32_MAX) eqn:Ev; zify_bool; [lia | discriminate E].
  - eexists. split; [reflexivity|]. lia.
Qed.

Lemma dec_pick_in ip tl l k b n i :
  i = len ip + k -> 0 <= k -> k < n -> l !! Z.to_nat k = Some b ->
  dec_pick (ip ++ l ++ tl) (len ip + n) i = Ok (b - 33, i + 1).
Proof.
  intros -> Hk Hn E. unfold dec_pick. case_test; [|lia].
  rewrite (rd_app ip _ _ k b); [done | done | done |]. by apply lookup_app_l_Some.
Qed.

Lemma dec_pick_out inp n i : n <= i -> dec_pick inp n i = Ok (84, i).
Proof. intros. unfold dec_pick. case_test; [lia | done]. Qed.

(** The value of a short group: padded with the character for 84. *)
Definition pad_val (l : list Z) : Z :=
  match l with
  | [a] => val5 a 117 117 117 117
  | [a; b] => val5 a b 117 117 117
  | [a; b; c] => val5 a b c 117 117
  | [a; b; c; d] => val5 a b c d 117
  | _ => 0
  end.

(** Bring the digit fold of the goal under [dec_last_val5], and close the two
    cases of its first overflow test. *)
Ltac dec_fold Hok l :=
  assert (all_ok l) as Hp by (unfold all_ok in *; rewrite !Forall_cons in *; intuition lia);
  rewrite <- (dec_last_val5 _ _ _ _ _ Hp); pose proof (dec_last_val5 _ _ _ _ _ Hp) as E;
  cbv zeta in E |- *; change (117 - 33) with 84 in E |- *.
Ltac dec_close E :=
  destruct (u32 _ >? UINT32_MAX / 85); eexists; (split; [reflexivity|]); intros Hle;
  [exfalso; destruct (val5 _ _ _ _ _ >? UINT32_MAX) eqn:Ev; zify_bool; [lia | discriminate E] | len_lia].

Lemma dec_chunk_short ip tl l :
  all_ok l -> l <> [] -> len l < 5 ->
  exists r, dec_chunk (ip ++ l ++ tl) (len ip + len l) (len ip) (len l)
    = Ok (if pad_val l >? UINT32_MAX then None else Some (pad_val l), r) /\
    (pad_val l <= UINT32_MAX -> r = len ip + len l).
Proof.
  intros Hok Hne Hlt. unfold dec_chunk, base_char. case_test; [len_lia|].
  destruct l as [|a [|b [|c [|d [|? ?]]]]]; [done | | | | | len_lia].
  all: rewrite (rd_app ip _ (len ip) 0 a) by (done || lia); step; cbn [pad_val].
  - dec_fold Hok [a; 117; 117; 117; 117].
    repeat (rewrite (dec_pick_out _ _ (len ip + 1)) by len_lia; step). dec_close E.
  - dec_fold Hok [a; b; 117; 117; 117].
    rewrite (dec_pick_in ip tl _ 1 b) by (done || len_lia); step.
    repeat (rewrite dec_pick_out by len_lia; step). dec_close E.
  - dec_fold Hok [a; b; c; 117; 117].
    rewrite (dec_pick_in ip tl _ 1 b) by (done || len_lia); step.
    rewrite (dec_pick_in ip tl _ 2 c) by (done || len_lia); step.
    repeat (rewrite dec_pick_out by len_lia; step). dec_close E.
  - dec_fold Hok [a; b; c; d; 117].
    rewrite (dec_pick_in ip tl _ 1 b) by (done || len_lia); step.
    rewrite (dec_pick_in ip tl _ 2 c) by (done || len_lia); step.
    rewrite (dec_pick_in ip tl _ 3 d) by (done || len_lia); step.
    repeat (rewrite dec_pick_out by len_lia; step). dec_close E.
Qed.

Lemma byte_bounds v : 0 <= v < 2 ^ 32 ->
  is_byte (v / 2 ^ 24) /\ is_byte ((v / 2 ^ 16) mod 256) /\ is_byte ((v / 2 ^ 8) mod 256) /\
  is_byte (v mod 256).
Proof.
  unfold is_byte. intros. repeat split; try (apply Z.mod_pos_bound; lia).
  - apply Z.div_pos; lia.
  - apply Z.div_lt_upper_bound; lia.
Qed.

Lemma dec_put_eq pre r0 r1 r2 r3 rest v :
  0 <= v < 2 ^ 32 ->
  dec_put (pre ++ r0 :: r1 :: r2 :: r3 :: rest) (len pre) v = Ok (pre ++ bytes4 v ++ rest).
Proof.
  intros Hv. unfold dec_put, bytes4.
  pose proof (byte_bounds v Hv) as (B3 & B2 & B1 & B0).
  destruct (div_chain v 256) as (-> & -> & _); [lia|].
  change (256 ^ 2) with (2 ^ 16). change (256 ^ 3) with (2 ^ 24).
  rewrite (wr_app pre _ _ 3) by len_lia. step.
  rewrite (wr_app pre _ _ 2) by len_lia. step.
  rewrite (wr_app pre _ _ 1) by len_lia. step.
  rewrite (wr_app pre _ _ 0) by len_lia.
  by rewrite (u8_id (v / 2 ^ 24)).
Qed.

Lemma split4 (l : list Z) : 4 <= len l ->
  exists a b c d l', l = a :: b :: c :: d :: l' /\ len l = len l' + 4.
Proof.
  intros H. destruct l as [|a [|b [|c [|d l']]]]; try len_lia.
  exists a, b, c, d, l'. split; [done | len_lia].
Qed.

Lemma val5_nonneg a b c d e : all_ok [a; b; c; d; e] -> 0 <= val5 a b c d e.
Proof. unfold all_ok, val5. rewrite !Forall_cons. intros. nia. Qed.

Lemma group_spec_full a b c d e :
  all_ok [a; b; c; d; e] ->
  group_spec [a; b; c; d; e] 5
  = if val5 a b c d e >? UINT32_MAX then inl ascii85_err_decode_overflow
    else inr (bytes4 (val5 a b c d e)).
Proof. intros H%existsb_ng. unfold group_spec. by rewrite H. Qed.

Lemma pad_val_nonneg l : all_ok l -> 0 <= pad_val l.
Proof.
  intros Hok. destruct l as [|a [|b [|c [|d [|? ?]]]]]; cbn [pad_val]; try done;
    apply val5_nonneg; unfold all_ok in *; rewrite !Forall_cons in *; intuition lia.
Qed.

Lemma group_spec_short l :
  all_ok l -> l <> [] -> len l < 5 ->
  group_spec l (length l)
  = if pad_val l >? UINT32_MAX then inl ascii85_err_decode_overflow
    else inr (take (length l - 1) (bytes4 (pad_val l))).
Proof.
  intros H%existsb_ng Hne Hlt. unfold group_spec. rewrite H.
  by destruct l as [|a [|b [|c [|d [|? ?]]]]]; [done | | | | | len_lia].
Qed.

(** What a run of the decoder from [pre ++ rest] must answer. *)
Definition dec_result (r : res (Z * list Z)) (pre rest : list Z) (spec : Z + list Z) : Prop :=
  match spec with
  | inl e => exists outp', r = Ok (e, outp') /\ len outp' = len pre + len rest
  | inr bs => exists rest', r = Ok (len pre + len bs, pre ++ bs ++ rest') /\
                            len rest = len bs + len rest'
  end.

Lemma dec_result_then r pre g rest rest' k :
  dec_result r (pre ++ g) rest' k -> len rest = len g + len rest' ->
  dec_result r pre rest (then_spec (inr g) k).
Proof.
  intros H El. destruct k as [e | bs]; cbn in *.
  - destruct H as (outp' & -> & E). exists outp'. split; [done | len_lia].
  - destruct H as (rest0 & -> & E). exists rest0. split; [|len_lia].
    rewrite <- !app_assoc. f_equal. f_equal. len_lia.
Qed.

Lemma dec_loop_done fuel inp n outp i o : i = n -> dec_loop fuel inp n outp i o = Ok (o, outp).
Proof. intros ->. destruct fuel; cbn; by rewrite Z.ltb_irrefl. Qed.

Lemma decode_spec_full a b c d e l :
  a <> ch_z ->
  decode_spec (a :: b :: c :: d :: e :: l)
  = then_spec (group_spec [a; b; c; d; e] 5) (decode_spec l).
Proof. intros H. cbn [decode_spec]. rewrite (proj2 (Z.eqb_neq ch_z a)) by done. done. Qed.

Lemma decode_spec_short a l :
  a <> ch_z -> len l < 4 -> decode_spec (a :: l) = group_spec (a :: l) (length (a :: l)).
Proof.
  intros H Hl. cbn [decode_spec]. rewrite (proj2 (Z.eqb_neq ch_z a)) by done.
  destruct l as [|? [|? [|? [|? ?]]]]; try done. len_lia.
Qed.

Lemma decode_spec_bad a l :
  a <> ch_z -> existsb ascii85_char_ng (take 5 (a :: l)) = true ->
  decode_spec (a :: l) = inl ascii85_err_bad_decode_char.
Proof.
  intros Ha Hng. destruct (decide (len l < 4)) as [Hl | Hl].
  - rewrite decode_spec_short by done. unfold group_spec.
    rewrite take_ge in Hng by len_lia. by rewrite Hng.
  - destruct l as [|b [|c [|d [|e l']]]]; try len_lia.
    rewrite decode_spec_full by done. unfold group_spec. change (take 5 _) with [a; b; c; d; e] in Hng.
    by rewrite Hng.
Qed.

Lemma dec_loop_correct fuel : forall l ip tl pre rest,
  (length l <= fuel)%nat -> 4 * len l <= len rest ->
  dec_result (dec_loop fuel (ip ++ l ++ tl) (len ip + len l) (pre ++ rest) (len ip) (len pre))
    pre rest (decode_spec l).
Proof.
  induction fuel as [|fuel IH]; intros l ip tl pre rest Hf Hroom.
  { destruct l; [|cbn in Hf; lia]. rewrite dec_loop_done by len_lia.
    exists rest. split; [f_equal; f_equal; len_lia | len_lia]. }
  destruct l as [|a l1].
  { rewrite dec_loop_done by len_lia. exists rest. split; [f_equal; f_equal; len_lia | len_lia]. }
  cbn [dec_loop]. case_test; [|len_lia].
  rewrite (rd_app ip _ _ 0 a) by (done || lia). step. cbn [andb ascii85_decode_z_for_zero].
  destruct (split4 rest) as (r0 & r1 & r2 & r3 & rest0 & -> & Er); [len_lia|].
  destruct (Z.eqb_spec ch_z a) as [<-|Hz].
  { rewrite dec_put_eq by done. step.
    replace (ip ++ (ch_z :: l1) ++ tl) with ((ip ++ [ch_z]) ++ l1 ++ tl) by (by rewrite <- app_assoc).
    replace (len ip + len (ch_z :: l1)) with (len (ip ++ [ch_z]) + len l1) by len_lia.
    replace (len ip + 1) with (len (ip ++ [ch_z])) by len_lia.
    replace (len pre + 4) with (len (pre ++ bytes4 0)) by (by rewrite len_app).
    rewrite (app_assoc pre). cbn [decode_spec]. rewrite Z.eqb_refl.
    change [0; 0; 0; 0] with (bytes4 0). apply dec_result_then with rest0; [|change (len (bytes4 _)) with 4; len_lia].
    apply IH; [cbn in Hf; lia | len_lia]. }
  replace (len ip + len (a :: l1) - len ip) with (len (a :: l1)) by lia.
  rewrite dec_bad_eq by done. step.
  destruct (existsb ascii85_char_ng (take 5 (a :: l1))) eqn:Hng.
  { rewrite decode_spec_bad by done. eexists. split; [done | len_lia]. }
  apply existsb_ng in Hng.
  destruct (decide (len l1 < 4)) as [Hl | Hl].
  - rewrite take_ge in Hng by len_lia. rewrite decode_spec_short, group_spec_short by (done || len_lia).
    destruct (dec_chunk_short ip tl (a :: l1)) as (r & -> & Hr); [done | done | len_lia |]. step.
    destruct (pad_val (a :: l1) >? UINT32_MAX) eqn:Ev.
    { eexists. split; [done | len_lia]. }
    zify_bool. pose proof (pad_val_nonneg _ Hng). unfold UINT32_MAX in *.
    rewrite dec_put_eq by lia. step. case_test; [len_lia|].
    rewrite dec_loop_done by (by apply Hr).
    exists (drop (length (a :: l1) - 1) (bytes4 (pad_val (a :: l1))) ++ rest0).
    rewrite (app_assoc (take _ _)), take_drop.
    assert (len (take (length (a :: l1) - 1) (bytes4 (pad_val (a :: l1)))) = len (a :: l1) - 1
      /\ len (drop (length (a :: l1) - 1) (bytes4 (pad_val (a :: l1)))) = 5 - len (a :: l1)) as [E1 E2].
    { unfold len in *. rewrite length_take, length_drop. cbn [length bytes4] in *. lia. }
    split; [f_equal; f_equal; lia | len_lia].
  - destruct l1 as [|b [|c [|d [|e l']]]]; try len_lia.
    change (take 5 _) with [a; b; c; d; e] in Hng.
    rewrite decode_spec_full, group_spec_full by done.
    destruct (dec_chunk_full ip tl a b c d e l' Hng) as (r & -> & Hr). step.
    destruct (val5 a b c d e >? UINT32_MAX) eqn:Ev.
    { eexists. split; [done | len_lia]. }
    zify_bool. pose proof (val5_nonneg _ _ _ _ _ Hng). rewrite Hr by done. unfold UINT32_MAX in *.
    rewrite dec_put_eq by lia. step. case_test; [|len_lia].
    set (g := [a; b; c; d; e]).
    replace (ip ++ (a :: b :: c :: d :: e :: l') ++ tl) with ((ip ++ g) ++ l' ++ tl)
      by (by rewrite <- app_assoc).
    replace (len ip + len (a :: b :: c :: d :: e :: l')) with (len (ip ++ g) + len l') by (subst g; len_lia).
    replace (len ip + 5) with (len (ip ++ g)) by (subst g; len_lia).
    replace (len pre + 4) with (len (pre ++ bytes4 (val5 a b c d e))) by (by rewrite len_app).
    rewrite (app_assoc pre). apply dec_result_then with rest0; [|change (len (bytes4 _)) with 4; len_lia].
    apply IH; [cbn in Hf; lia | len_lia].
Qed.

(** ** The codec round-trips *)

Lemma val5_digits v j : 0 <= v -> 0 < j -> v / 85 ^ j * 85 ^ j = v / 85 ^ (j + 1) * 85 ^ (j + 1) + (v / 85 ^ j) mod 85 * 85 ^ j.
Proof.
  intros Hv Hj. rewrite Z.pow_add_r, Z.pow_1_r by lia. rewrite <- Z.div_div by lia.
  pose proof (Z.div_mod (v / 85 ^ j) 85). nia.
Qed.

(** The value of the first digits of a chunk, each shifted to its place. *)
Lemma val5_chars5 v : 0 <= v ->
  (v / 85 ^ 4) * 85 ^ 4 + (v / 85 ^ 3) mod 85 * 85 ^ 3 = v / 85 ^ 3 * 85 ^ 3 /\
  v / 85 ^ 3 * 85 ^ 3 + (v / 85 ^ 2) mod 85 * 85 ^ 2 = v / 85 ^ 2 * 85 ^ 2 /\
  v / 85 ^ 2 * 85 ^ 2 + (v / 85) mod 85 * 85 = v / 85 * 85 /\
  v / 85 * 85 + v mod 85 = v.
Proof.
  intros Hv. pose proof (val5_digits v 3 Hv). pose proof (val5_digits v 2 Hv).
  pose proof (val5_digits v 1 Hv). pose proof (Z.div_mod v 85).
  change (3 + 1) with 4 in *. change (2 + 1) with 3 in *. change (1 + 1) with 2 in *.
  rewrite Z.pow_1_r in *. lia.
Qed.

Lemma bytes4_be32 a b c d :
  is_byte a -> is_byte b -> is_byte c -> is_byte d -> bytes4 (be32 a b c d) = [a; b; c; d].
Proof.
  unfold is_byte, bytes4, be32. intros.
  assert (E1 : (a * 2 ^ 24 + b * 2 ^ 16 + c * 2 ^ 8 + d) / 2 ^ 8 = a * 2 ^ 16 + b * 2 ^ 8 + c).
  { symmetry. apply Z.div_unique with d; lia. }
  assert (E2 : (a * 2 ^ 24 + b * 2 ^ 16 + c * 2 ^ 8 + d) / 2 ^ 16 = a * 2 ^ 8 + b).
  { symmetry. apply Z.div_unique with (c * 2 ^ 8 + d); lia. }
  rewrite E1, E2. f_equal; [|f_equal; [|f_equal; [|f_equal]]].
  - symmetry. apply Z.div_unique with (b * 2 ^ 16 + c * 2 ^ 8 + d); lia.
  - symmetry. apply Z.mod_unique with a; lia.
  - symmetry. apply Z.mod_unique with (a * 2 ^ 8 + b); lia.
  - symmetry. apply Z.mod_unique with (a * 2 ^ 16 + b * 2 ^ 8 + c); lia.
Qed.

Lemma chars5_ok v : 0 <= v < 2 ^ 32 -> all_ok (chars5 v).
Proof.
  intros Hv. pose proof (digit_bounds v Hv) as (? & ? & ? & ? & ?).
  unfold all_ok, chars5. repeat (apply Forall_cons; split; [lia|]). constructor.
Qed.

Lemma all_ok_take n l : all_ok l -> all_ok (take n l).
Proof. apply Forall_take. Qed.

(** The bytes a padded short group keeps: padding low with zeros and high with
    84s never carries into the bytes that are kept. *)
Lemma top_bytes v w j k :
  0 < j -> 0 <= v -> v mod 2 ^ j = 0 -> v <= w < v + k -> k <= 2 ^ j -> w / 2 ^ j = v / 2 ^ j.
Proof.
  intros Hj Hv Hm Hw Hk. symmetry. apply Z.div_unique with (w - v); [lia|].
  pose proof (Z.div_mod v (2 ^ j)). nia.
Qed.

Lemma short_roundtrip l v n :
  n = length l -> (1 <= n <= 3)%nat -> Forall is_byte l ->
  v = match l with [a] => be32 a 0 0 0 | [a; b] => be32 a b 0 0 | [a; b; c] => be32 a b c 0 | _ => 0 end ->
  let w := pad_val (take (n + 1) (chars5 v)) in
  w <= UINT32_MAX /\ take n (bytes4 w) = l.
Proof.
  intros -> Hn Hb Hv w. unfold UINT32_MAX.
  destruct l as [|a [|b [|c [|? ?]]]]; cbn [length] in *; try lia.
  all: forall_cons.
  all: unfold be32, is_byte in *.
  all: assert (Hv0 : 0 <= v) by lia; pose proof (val5_chars5 v Hv0) as (E3 & E2 & E1 & _).
  all: cbn [Nat.add take chars5 pad_val] in w; unfold val5 in w.
  - pose proof (Z.div_mod v (85 ^ 3)). pose proof (Z.mod_pos_bound v (85 ^ 3)).
    assert (Hw : v <= w < v + 85 ^ 3) by (subst w; lia).
    split; [lia|]. cbn [bytes4 take]. f_equal.
    rewrite (top_bytes v w 24 (85 ^ 3)); [|lia|lia| |done|lia].
    + subst v. rewrite !Z.mul_0_l, !Z.add_0_r. by rewrite Z.div_mul by lia.
    + subst v. rewrite !Z.mul_0_l, !Z.add_0_r. by rewrite Z.mod_mul by lia.
  - pose proof (Z.div_mod v (85 ^ 2)). pose proof (Z.mod_pos_bound v (85 ^ 2)).
    assert (Hw : v <= w < v + 85 ^ 2) by (subst w; lia).
    split; [lia|]. cbn [bytes4 take].
    assert (Ev : v = (a * 2 ^ 8 + b) * 2 ^ 16) by (subst v; lia).
    assert (Ew : w / 2 ^ 16 = a * 2 ^ 8 + b).
    { rewrite (top_bytes v w 16 (85 ^ 2)); [|lia|lia| |done|lia].
      - rewrite Ev. by rewrite Z.div_mul by lia.
      - rewrite Ev. by rewrite Z.mod_mul by lia. }
    rewrite Ew. change (2 ^ 24) with (2 ^ 16 * 2 ^ 8). rewrite <- Z.div_div, Ew by lia.
    f_equal; [|f_equal].
    + symmetry. apply Z.div_unique with b; lia.
    + symmetry. apply Z.mod_unique with a; lia.
  - pose proof (Z.div_mod v 85). pose proof (Z.mod_pos_bound v 85).
    assert (Hw : v <= w < v + 85) by (subst w; lia).
    split; [lia|]. cbn [bytes4 take].
    assert (Ev : v = (a * 2 ^ 16 + b * 2 ^ 8 + c) * 2 ^ 8) by (subst v; lia).
    assert (Ew : w / 2 ^ 8 = a * 2 ^ 16 + b * 2 ^ 8 + c).
    { rewrite (top_bytes v w 8 85); [|lia|lia| |done|lia].
      - rewrite Ev. by rewrite Z.div_mul by lia.
      - rewrite Ev. by rewrite Z.mod_mul by lia. }
    replace (w / 2 ^ 24) with (w / 2 ^ 8 / 2 ^ 16) by (by rewrite Z.div_div).
    replace (w / 2 ^ 16) with (w / 2 ^ 8 / 2 ^ 8) by (by rewrite Z.div_div). rewrite Ew.
    f_equal; [|f_equal; [|f_equal]].
    + symmetry. apply Z.div_unique with (b * 2 ^ 8 + c); lia.
    + symmetry. change 256 with (2 ^ 8).
      replace ((a * 2 ^ 16 + b * 2 ^ 8 + c) / 2 ^ 8) with (a * 2 ^ 8 + b) by (apply Z.div_unique with c; lia).
      apply Z.mod_unique with a; lia.
    + symmetry. apply Z.mod_unique with (a * 2 ^ 8 + b); lia.
Qed.

Lemma chars5_not_z v : 0 <= v < 2 ^ 32 -> v / 85 ^ 4 + 33 <> ch_z.
Proof. intros Hv. pose proof (digit_bounds v Hv). unfold ch_z. lia. Qed.

Lemma val5_of_chars5 v : 0 <= v ->
  val5 (v / 85 ^ 4 + 33) ((v / 85 ^ 3) mod 85 + 33) ((v / 85 ^ 2) mod 85 + 33)
    ((v / 85) mod 85 + 33) (v mod 85 + 33) = v.
Proof. intros Hv. pose proof (val5_chars5 v Hv). unfold val5. lia. Qed.

Lemma decode_chars5 v l : 0 <= v < 2 ^ 32 ->
  decode_spec (chars5 v ++ l) = then_spec (inr (bytes4 v)) (decode_spec l).
Proof.
  intros Hv. unfold chars5. cbn [app].
  rewrite decode_spec_full by (by apply chars5_not_z).
  rewrite group_spec_full by (by apply chars5_ok).
  rewrite val5_of_chars5 by lia. case_test; [unfold UINT32_MAX in *; lia | done].
Qed.

Lemma decode_short v l n :
  n = length l -> (1 <= n <= 3)%nat -> Forall is_byte l ->
  v = match l with [a] => be32 a 0 0 0 | [a; b] => be32 a b 0 0 | [a; b; c] => be32 a b c 0 | _ => 0 end ->
  decode_spec (take (n + 1) (chars5 v)) = inr l.
Proof.
  intros En Hn Hb Ev. destruct (short_roundtrip l v n En Hn Hb Ev) as [Hmax Htake].
  assert (Hv : 0 <= v < 2 ^ 32).
  { assert (H0 : is_byte 0) by (unfold is_byte; lia). subst v.
    destruct l as [|a [|b [|c [|? ?]]]]; cbn in Hn; try lia; forall_cons; by apply be32_range. }
  pose proof (all_ok_take (n + 1) _ (chars5_ok v Hv)) as Hok.
  destruct n as [|n]; [lia|].
  change (take (S n + 1) (chars5 v)) with (v / 85 ^ 4 + 33 :: take (n + 1) (tail (chars5 v))) in *.
  assert (Hl : length (take (n + 1) (tail (chars5 v))) = (n + 1)%nat).
  { rewrite length_take. cbn [length chars5 tail]. lia. }
  rewrite decode_spec_short by (try (by apply chars5_not_z); unfold len; lia).
  rewrite group_spec_short by (done || (unfold len; cbn [length]; lia)).
  case_test; [lia|]. f_equal. etransitivity; [|exact Htake]. f_equal. cbn [length]. lia.
Qed.

Lemma decode_encode_spec l : Forall is_byte l -> decode_spec (encode_spec l) = inr l.
Proof.
  remember (length l) as n eqn:En. revert l En.
  induction n as [n IH] using lt_wf_ind. intros l -> Hb.
  destruct l as [|a [|b [|c [|d l']]]]; [done | | | |].
  - apply (decode_short _ [a] 1); done || lia.
  - apply (decode_short _ [a; b] 2); done || lia.
  - apply (decode_short _ [a; b; c] 3); done || lia.
  - forall_cons.
    cbn [encode_spec]. assert (IH' : decode_spec (encode_spec l') = inr l').
    { apply (IH (length l')); [cbn; lia | done | done]. }
    assert (E4 : bytes4 (be32 a b c d) = [a; b; c; d]) by (by apply bytes4_be32).
    case_test.
    + cbn [app decode_spec]. rewrite Z.eqb_refl, IH'. cbn [then_spec].
      match goal with H : be32 a b c d = 0 |- _ => rewrite H in E4 end.
      change [0; 0; 0; 0] with (bytes4 0). by rewrite E4.
    + rewrite decode_chars5 by (by apply be32_range). rewrite IH', E4. done.
Qed.

(** *** Sizes and alphabet *)

Lemma encode_spec_room l : len (encode_spec l) <= enc_room (len l).
Proof.
  remember (length l) as n eqn:En. revert l En.
  induction n as [n IH] using lt_wf_ind. intros l ->.
  destruct l as [|a [|b [|c [|d l']]]]; try done.
  cbn [encode_spec]. replace (len (a :: b :: c :: d :: l')) with (len l' + 4) by len_lia.
  rewrite enc_room_4. specialize (IH (length l') ltac:(cbn; lia) l' eq_refl).
  rewrite len_app. case_test; [change (len [ch_z]) with 1 | change (len (chars5 _)) with 5]; lia.
Qed.

Lemma max_encoded_room n : 0 <= n <= ascii85_in_length_max ->
  ascii85_get_max_encoded_length n = enc_room n.
Proof.
  unfold ascii85_get_max_encoded_length, enc_room, ascii85_in_length_max. intros.
  case_test; [lia|]. by rewrite Z.quot_div_nonneg by lia.
Qed.

Lemma max_decoded n : 0 <= n <= ascii85_in_length_max -> ascii85_get_max_decoded_length n = 4 * n.
Proof.
  unfold ascii85_get_max_decoded_length, ascii85_in_length_max. intros.
  case_test; [lia|]. cbn [ascii85_decode_z_for_zero]. lia.
Qed.

Lemma max_encoded_err n : n < 0 \/ ascii85_in_length_max < n ->
  ascii85_get_max_encoded_length n = ascii85_err_in_buf_too_large.
Proof. unfold ascii85_get_max_encoded_length. intros. case_test; [done | lia]. Qed.

Lemma max_decoded_err n : n < 0 \/ ascii85_in_length_max < n ->
  ascii85_get_max_decoded_length n = ascii85_err_in_buf_too_large.
Proof. unfold ascii85_get_max_decoded_length. intros. case_test; [done | lia]. Qed.

Lemma Forall_then_spec P g k bs :
  then_spec (inr g) k = inr bs -> Forall P g -> (forall b, k = inr b -> Forall P b) -> Forall P bs.
Proof. destruct k; [done|]. cbn. intros [= <-] Hg Hk. apply Forall_app. auto. Qed.

Lemma decode_spec_ind (Q : list Z -> list Z -> Prop) :
  Q [] [] ->
  (forall l k, decode_spec l = inr k -> Q l k -> Q (ch_z :: l) (bytes4 0 ++ k)) ->
  (forall a b c d e l k, all_ok [a; b; c; d; e] -> 0 <= val5 a b c d e <= UINT32_MAX ->
     decode_spec l = inr k -> Q l k ->
     Q (a :: b :: c :: d :: e :: l) (bytes4 (val5 a b c d e) ++ k)) ->
  (forall l, l <> [] -> len l < 5 -> all_ok l -> 0 <= pad_val l <= UINT32_MAX ->
     Q l (take (length l - 1) (bytes4 (pad_val l)))) ->
  forall l bs, decode_spec l = inr bs -> Q l bs.
Proof.
  intros H0 Hz Hfull Hshort l.
  remember (length l) as n eqn:En. revert l En.
  induction n as [n IH] using lt_wf_ind. intros l -> bs H.
  destruct l as [|a l1]; [injection H as <-; done|].
  destruct (Z.eq_dec a ch_z) as [->|Ha].
  { cbn [decode_spec] in H. rewrite Z.eqb_refl in H.
    destruct (decode_spec l1) as [|k] eqn:Ek; [done|]. injection H as <-.
    apply (Hz l1 k Ek). apply (IH (length l1)); [cbn; lia | done | done]. }
  destruct (existsb ascii85_char_ng (take 5 (a :: l1))) eqn:Hng.
  { by rewrite decode_spec_bad in H. }
  apply existsb_ng in Hng. destruct (decide (len l1 < 4)) as [Hl | Hl].
  - rewrite take_ge in Hng by len_lia. rewrite decode_spec_short, group_spec_short in H by (done || len_lia).
    pose proof (pad_val_nonneg _ Hng). destruct (_ >? _) eqn:Ev; [done|]. zify_bool. injection H as <-.
    apply Hshort; [done | len_lia | done | lia].
  - destruct l1 as [|b [|c [|d [|e l']]]]; try len_lia.
    change (take 5 _) with [a; b; c; d; e] in Hng.
    rewrite decode_spec_full, group_spec_full in H by done.
    pose proof (val5_nonneg _ _ _ _ _ Hng). destruct (_ >? _) eqn:Ev; [done|]. zify_bool.
    destruct (decode_spec l') as [|k] eqn:Ek; [done|]. injection H as <-.
    apply (Hfull a b c d e l' k); try done. apply (IH (length l')); [cbn; lia | done | done].
Qed.

Lemma decode_spec_errors l e : decode_spec l = inl e ->
  e = ascii85_err_bad_decode_char \/ e = ascii85_err_decode_overflow.
Proof.
  assert (Hg : forall g n e, group_spec g n = inl e ->
    e = ascii85_err_bad_decode_char \/ e = ascii85_err_decode_overflow).
  { intros g n e' Hge. unfold group_spec in Hge.
    repeat case_match; try discriminate; injection Hge as <-; auto. }
  remember (length l) as n eqn:En. revert l En.
  induction n as [n IH] using lt_wf_ind. intros l -> H.
  destruct l as [|a l1]; [done|].
  assert (Hthen : forall r k, then_spec r k = inl e -> r = inl e \/ k = inl e).
  { intros [?|?] [?|?]; cbn; intros [= ->]; auto. }
  cbn [decode_spec] in H. case_match.
  - apply Hthen in H as [H|H]; [done|]. apply (IH (length l1)) in H; [done | cbn; lia | done].
  - destruct l1 as [|b [|c [|d [|e0 l']]]]; try (by apply Hg in H).
    apply Hthen in H as [H|H]; [by apply Hg in H|].
    apply (IH (length l')) in H; [done | cbn; lia | done].
Qed.

Lemma bytes4_bytes v : 0 <= v <= UINT32_MAX -> Forall is_byte (bytes4 v).
Proof.
  unfold UINT32_MAX. intros Hv. assert (Hv' : 0 <= v < 2 ^ 32) by lia.
  pose proof (byte_bounds v Hv') as (? & ? & ? & ?). by repeat (apply Forall_cons; split; [done|]).
Qed.

Lemma decode_spec_bytes l bs : decode_spec l = inr bs -> Forall is_byte bs.
Proof.
  revert l bs. apply (decode_spec_ind (fun _ bs => Forall is_byte bs)).
  - constructor.
  - intros l k _ Hk. apply Forall_app. split; [by apply bytes4_bytes | done].
  - intros a b c d e l k _ Hv _ Hk. apply Forall_app. split; [by apply bytes4_bytes | done].
  - intros l _ _ _ Hv. apply Forall_take. by apply bytes4_bytes.
Qed.

(** Without the abbreviation [z] five characters carry four bytes. *)
Lemma decode_spec_ratio l bs :
  decode_spec l = inr bs ->
  len bs <= 4 * len l /\ (ch_z ∉ l -> 5 * len bs <= 4 * len l).
Proof.
  revert l bs. apply (decode_spec_ind (fun l bs => len bs <= 4 * len l /\ (ch_z ∉ l -> 5 * len bs <= 4 * len l))).
  - split; [len_lia | intros; len_lia].
  - intros l k _ [H1 _]. rewrite len_app, len_cons. change (len (bytes4 0)) with 4.
    split; [lia | set_solver].
  - intros a b c d e l k _ _ _ [H1 H2]. rewrite len_app, !len_cons. change (len (bytes4 _)) with 4.
    split; [lia|]. intros Hz. assert (ch_z ∉ l) by set_solver. specialize (H2 H). lia.
  - intros l Hne Hl _ _.
    assert (E : len (take (length l - 1) (bytes4 (pad_val l))) = len l - 1).
    { unfold len in *. rewrite length_take. destruct l; [done|]. cbn [length bytes4] in *. lia. }
    rewrite E. pose proof (len_nonneg l). split; [lia | intros; lia].
Qed.

Lemma Forall_In_chars5 v : 0 <= v < 2 ^ 32 -> Forall (fun c => 33 <= c <= 117 \/ c = ch_z) (chars5 v).
Proof. intros Hv. eapply Forall_impl; [by apply chars5_ok|]. cbn. intros. by left. Qed.

Lemma encode_spec_alphabet l :
  Forall is_byte l -> Forall (fun c => 33 <= c <= 117 \/ c = ch_z) (encode_spec l).
Proof.
  remember (length l) as n eqn:En. revert l En.
  induction n as [n IH] using lt_wf_ind. intros l -> Hb.
  assert (H0 : is_byte 0) by (unfold is_byte; lia).
  destruct l as [|a [|b [|c [|d l']]]]; [constructor | | | |].
  all: forall_cons.
  1-3: cbn [encode_spec]; apply Forall_take, Forall_In_chars5; by apply be32_range.
  cbn [encode_spec]. apply Forall_app. split.
  - case_test; [repeat constructor; by right | apply Forall_In_chars5; by apply be32_range].
  - apply (IH (length l')); [cbn; lia | done | done].
Qed.

(** ** The properties *)

Lemma encode_ascii85_run l tl outp out_max :
  Forall is_byte l -> len l <= ascii85_in_length_max ->
  enc_room (len l) <= out_max -> out_max <= len outp ->
  exists rest, encode_ascii85 (l ++ tl) (len l) outp out_max
    = Ok (len (encode_spec l), encode_spec l ++ rest) /\ len (encode_spec l ++ rest) = len outp.
Proof.
  intros Hb Hl Hmax Ho. unfold encode_ascii85. pose proof (len_nonneg l).
  rewrite max_encoded_room by lia. pose proof (enc_room_nonneg (len l) H).
  case_test; [lia|]. case_test; [lia|].
  destruct (enc_loop_correct (Z.to_nat (len l)) l [] tl [] outp) as (rest & E & El);
    [unfold len; lia | done | lia |].
  exists rest. change (len []) with 0 in E. rewrite !Z.add_0_l in E.
  split; [exact E | len_lia].
Qed.

Lemma decode_ascii85_run l tl outp out_max :
  len l <= ascii85_in_length_max -> 4 * len l <= out_max -> out_max <= len outp ->
  dec_result (decode_ascii85 (l ++ tl) (len l) outp out_max) [] outp (decode_spec l).
Proof.
  intros Hl Hmax Ho. unfold decode_ascii85. pose proof (len_nonneg l).
  rewrite max_decoded by lia. case_test; [lia|]. case_test; [lia|].
  pose proof (dec_loop_correct (Z.to_nat (len l)) l [] tl [] outp) as H'.
  change (len []) with 0 in H'. rewrite !Z.add_0_l in H'. apply H'; [unfold len; lia | lia].
Qed.



(** C3: [decode_ascii85] on every branch: an over-long or negative length and a
    small output buffer are refused without touching the output; otherwise the
    run ends, stays inside both buffers, and either answers the error of the
    first bad group or writes exactly the bytes [decode_spec] assigns to the
    text and answers their number. *)
Theorem decode_ascii85_correct l tl outp in_length out_max :
  out_max <= len outp -> in_length < 0 \/ in_length = len l ->
  if (in_length <? 0) || (ascii85_in_length_max <? in_length)
  then decode_ascii85 (l ++ tl) in_length outp out_max = Ok (ascii85_err_in_buf_too_large, outp)
  else if out_max <? 4 * in_length
  then decode_ascii85 (l ++ tl) in_length outp out_max = Ok (ascii85_err_out_buf_too_small, outp)
  else match decode_spec l with
       | inl e => (e = ascii85_err_bad_decode_char \/ e = ascii85_err_decode_overflow) /\
           exists outp', decode_ascii85 (l ++ tl) in_length outp out_max = Ok (e, outp') /\
                         len outp' = len outp
       | inr bs => exists rest, decode_ascii85 (l ++ tl) in_length outp out_max = Ok (len bs, bs ++ rest) /\
           len (bs ++ rest) = len outp /\ Forall is_byte bs
       end.
Proof.
  intros Ho Hn. pose proof (len_nonneg l). case_test.
  - unfold decode_ascii85. by rewrite max_decoded_err by lia.
  - assert (in_length = len l) as -> by lia. case_test.
    + unfold decode_ascii85. rewrite max_decoded by lia. case_test; [lia|]. case_test; [done | lia].
    + pose proof (decode_ascii85_run l tl outp out_max ltac:(lia) ltac:(lia) Ho) as D.
      destruct (decode_spec l) as [e | bs] eqn:Es.
      * split; [by apply decode_spec_errors in Es | exact D].
      * destruct D as (rest & E & El). exists rest. repeat split; [exact E | len_lia |].
        by apply decode_spec_bytes in Es.
Qed.

Example decode_ascii85_correct_witness :
  exists rest, decode_ascii85 (bytes_of_string "87cUR" ++ [0]) 5 (replicate 20 0) 20
      = Ok (len (bytes_of_string "Hell"), bytes_of_string "Hell" ++ rest) /\
    len (bytes_of_string "Hell" ++ rest) = len (replicate 20 0) /\ Forall is_byte (bytes_of_string "Hell").
Proof.
  apply (decode_ascii85_correct (bytes_of_string "87cUR") [0] (replicate 20 0) 5 20).
  - vm_compute. discriminate.
  - right. reflexivity.
Defined.

(** C4: [encode_ascii85] on every branch: a length outside 0..65536 and an
    output buffer smaller than [ascii85_get_max_encoded_length] are refused
    with the output untouched; otherwise the run ends inside its buffers with
    the text of the message, at most 5 characters per 4 bytes begun. *)
Theorem encode_ascii85_correct l tl outp in_length out_max :
  Forall is_byte l -> out_max <= len outp -> in_length < 0 \/ in_length = len l ->
  if (in_length <? 0) || (ascii85_in_length_max <? in_length)
  then encode_ascii85 (l ++ tl) in_length outp out_max = Ok (ascii85_err_in_buf_too_large, outp)
  else if out_max <? ascii85_get_max_encoded_length in_length
  then encode_ascii85 (l ++ tl) in_length outp out_max = Ok (ascii85_err_out_buf_too_small, outp)
  else exists rest, encode_ascii85 (l ++ tl) in_length outp out_max
         = Ok (len (encode_spec l), encode_spec l ++ rest) /\
       len (encode_spec l ++ rest) = len outp /\
       len (encode_spec l) <= ascii85_get_max_encoded_length in_length.
Proof.
  intros Hb Ho Hn. pose proof (len_nonneg l). case_test.
  - unfold encode_ascii85. by rewrite max_encoded_err by lia.
  - assert (in_length = len l) as -> by lia. rewrite max_encoded_room by lia.
    pose proof (enc_room_nonneg (len l) ltac:(done)). case_test.
    + unfold encode_ascii85. rewrite max_encoded_room by lia. case_test; [lia|]. case_test; [done | lia].
    + destruct (encode_ascii85_run l tl outp out_max) as (rest & E & El); [done | lia | lia | done |].
      exists rest. repeat split; [done | done | apply encode_spec_room].
Qed.

Example encode_ascii85_correct_witness :
  exists rest, encode_ascii85 ([0; 0; 0; 0; 1] ++ []) 5 (replicate 12 7) 12
         = Ok (len (encode_spec [0; 0; 0; 0; 1]), encode_spec [0; 0; 0; 0; 1] ++ rest) /\
       len (encode_spec [0; 0; 0; 0; 1] ++ rest) = len (replicate 12 7) /\
       len (encode_spec [0; 0; 0; 0; 1]) <= ascii85_get_max_encoded_length 5.
Proof.
  apply (encode_ascii85_correct [0; 0; 0; 0; 1] [] (replicate 12 7) 5 12).
  - by_decide.
  - vm_compute. discriminate.
  - right. reflexivity.
Defined.

