(* ===== verification/PallocMem.v ===== *)
(** Byte-addressed memory with 32-bit little-endian words, and the address
    arithmetic the pool allocator of src/lib/hu/palloc.c does on it. *)

From S2P Require Import Prelude.

(** ** Loads and stores *)

Abbreviation mem := (gmap Z Z).

Definition get32 (m : mem) (a : Z) : option Z :=
  b0 ← m !! a; b1 ← m !! (a + 1); b2 ← m !! (a + 2); b3 ← m !! (a + 3);
  Some (b0 + b1 * 2 ^ 8 + b2 * 2 ^ 16 + b3 * 2 ^ 24).

Definition put32 (m : mem) (a v : Z) : mem :=
  <[a := u8 v]> (<[a + 1 := u8 (v / 2 ^ 8)]> (<[a + 2 := u8 (v / 2 ^ 16)]>
    (<[a + 3 := u8 (v / 2 ^ 24)]> m))).

(** An access to an unmapped byte is undefined behaviour. *)
Definition load32 (m : mem) (a : Z) : res Z :=
  match get32 m a with Some v => Ok v | None => Stop UB end.
Definition store32 (m : mem) (a v : Z) : res mem :=
  match get32 m a with Some _ => Ok (put32 m a v) | None => Stop UB end.

Definition load8 (m : mem) (a : Z) : res Z :=
  match m !! a with Some v => Ok v | None => Stop UB end.
Definition store8 (m : mem) (a v : Z) : res mem :=
  match m !! a with Some _ => Ok (<[a := u8 v]> m) | None => Stop UB end.

(** [memset] and [memcpy] of the C library. *)
Fixpoint memset_bytes (m : mem) (a v : Z) (n : nat) : res mem :=
  match n with
  | O => Ok m
  | S n => m ← store8 m a v; memset_bytes m (a + 1) v n
  end.
Fixpoint memcpy_bytes (m : mem) (dst src : Z) (n : nat) : res mem :=
  match n with
  | O => Ok m
  | S n => b ← load8 m src; m ← store8 m dst b; memcpy_bytes m (dst + 1) (src + 1) n
  end.

(** Every byte of a range is mapped. *)
Definition mapped (m : mem) (a n : Z) : Prop := forall i, a <= i < a + n -> is_Some (m !! i).

(** ** Lemmas *)

Lemma put32_out m a v i : i < a \/ a + 4 <= i -> put32 m a v !! i = m !! i.
Proof. intros H. unfold put32. by rewrite !lookup_insert_ne by lia. Qed.

Lemma put32_is_Some m a v i : is_Some (m !! i) -> is_Some (put32 m a v !! i).
Proof. intros H. unfold put32. rewrite !lookup_insert_is_Some'. auto. Qed.

Lemma mapped_put32 m a v b n : mapped m b n -> mapped (put32 m a v) b n.
Proof. intros H i Hi. by apply put32_is_Some, H. Qed.

Lemma mapped_insert (m : mem) a v b n : mapped m b n -> mapped (<[a := v]> m) b n.
Proof. intros H i Hi. rewrite lookup_insert_is_Some'. right. by apply H. Qed.

Lemma mapped_sub m a n b k : mapped m a n -> a <= b -> b + k <= a + n -> mapped m b k.
Proof. intros H ? ? i Hi. apply H. lia. Qed.

Lemma get32_mapped m a : mapped m a 4 -> is_Some (get32 m a).
Proof.
  intros H. unfold get32.
  destruct (H a) as [? ->]; [lia|]. destruct (H (a + 1)) as [? ->]; [lia|].
  destruct (H (a + 2)) as [? ->]; [lia|]. destruct (H (a + 3)) as [? ->]; [lia|].
  cbn. eauto.
Qed.

Lemma get32_put32_ne m a v b : b + 4 <= a \/ a + 4 <= b -> get32 (put32 m a v) b = get32 m b.
Proof. intros H. unfold get32. by rewrite !put32_out by lia. Qed.

Lemma get32_put32_eq m a v : 0 <= v < 2 ^ 32 -> get32 (put32 m a v) a = Some v.
Proof.
  intros Hv. unfold get32, put32.
  rewrite (lookup_insert_eq _ a). cbn.
  rewrite (lookup_insert_ne _ a (a + 1)), (lookup_insert_eq _ (a + 1)) by lia. cbn.
  rewrite (lookup_insert_ne _ a (a + 2)), (lookup_insert_ne _ (a + 1) (a + 2)), (lookup_insert_eq _ (a + 2)) by lia. cbn.
  rewrite (lookup_insert_ne _ a (a + 3)), (lookup_insert_ne _ (a + 1) (a + 3)),
    (lookup_insert_ne _ (a + 2) (a + 3)), (lookup_insert_eq _ (a + 3)) by lia. cbn.
  f_equal. unfold u8.
  change (2 ^ 16) with (2 ^ 8 * 2 ^ 8). change (2 ^ 24) with (2 ^ 8 * 2 ^ 8 * 2 ^ 8).
  rewrite <- !Z.div_div by lia.
  pose proof (Z.div_mod v (2 ^ 8)). pose proof (Z.div_mod (v / 2 ^ 8) (2 ^ 8)).
  pose proof (Z.div_mod (v / 2 ^ 8 / 2 ^ 8) (2 ^ 8)).
  rewrite (Z.mod_small (v / 2 ^ 8 / 2 ^ 8 / 2 ^ 8)); [lia|].
  rewrite !Z.div_div by lia. split; [apply Z.div_pos; lia | apply Z.div_lt_upper_bound; lia].
Qed.

Lemma load32_ok m a v : get32 m a = Some v -> load32 m a = Ok v.
Proof. intros E. unfold load32. by rewrite E. Qed.

Lemma store32_ok m a v w : get32 m a = Some w -> store32 m a v = Ok (put32 m a v).
Proof. intros E. unfold store32. by rewrite E. Qed.

Lemma store32_mapped m a v : mapped m a 4 -> store32 m a v = Ok (put32 m a v).
Proof. intros H. destruct (get32_mapped m a H) as [w E]. by apply (store32_ok m a v w). Qed.

(** Setting the bytes of a mapped range succeeds and touches nothing else. *)
Lemma memset_bytes_ok m a v n : mapped m a (Z.of_nat n) ->
  exists m', memset_bytes m a v n = Ok m' /\
    (forall i, a <= i < a + Z.of_nat n -> m' !! i = Some (u8 v)) /\
    (forall i, i < a \/ a + Z.of_nat n <= i -> m' !! i = m !! i).
Proof.
  revert m a. induction n as [|n IH]; intros m a H; cbn [memset_bytes].
  - exists m. split; [done|]. split; [lia | done].
  - destruct (H a) as [w Ew]; [lia|]. unfold store8. rewrite Ew. step.
    destruct (IH (<[a := u8 v]> m) (a + 1)) as (m' & E & Hin & Hout).
    { apply mapped_insert. apply (mapped_sub m a (Z.of_nat (S n))); [done | lia | lia]. }
    exists m'. split; [done|]. split; intros i Hi.
    + destruct (decide (i = a)) as [->|]; [rewrite Hout by lia; apply lookup_insert_eq | apply Hin; lia].
    + rewrite Hout by lia. by rewrite lookup_insert_ne by lia.
Qed.

(** ** Rounding to words *)

(** [ALIGNED_MASK]: [sizeof(size_t) - 1] on the 32-bit targets. *)
Definition ALIGNED_MASK : Z := 4 - 1.
(** [(((a) + (size_t)(ALIGNED_MASK)) & ~(size_t)(ALIGNED_MASK))] *)
Definition ALIGNED_VALUE (a : Z) : Z :=
  Z.land (u32 (a + ALIGNED_MASK)) (u32 (Z.lnot ALIGNED_MASK)).

Lemma aligned_eq a : ALIGNED_VALUE a = u32 (a + 3) / 4 * 4.
Proof.
  unfold ALIGNED_VALUE, ALIGNED_MASK. change (4 - 1) with 3.
  change (u32 (Z.lnot 3)) with 4294967292.
  pose proof (u32_range (a + 3)) as Hr. set (x := u32 (a + 3)) in *.
  rewrite (Z.div_mod x 4) at 1 by lia. rewrite (Z.mul_comm 4).
  pose proof (Z.mod_pos_bound x 4 ltac:(lia)). pose proof (Z.div_mod x 4 ltac:(lia)).
  change 4 with (2 ^ 2) at 2. rewrite <- lor_shift_add by (change (2 ^ 2) with 4; lia).
  rewrite Z.land_lor_distr_l. change (2 ^ 2) with 4.
  assert (E1 : Z.land (x mod 4) 4294967292 = 0).
  { assert (x mod 4 = 0 \/ x mod 4 = 1 \/ x mod 4 = 2 \/ x mod 4 = 3) as [->|[->|[->| ->]]] by lia; done. }
  rewrite E1, Z.lor_0_r. change 4294967292 with (Z.shiftl (Z.ones 30) 2).
  rewrite <- (Z.shiftl_mul_pow2 _ 2 ltac:(lia)), <- Z.shiftl_land, Z.land_ones by lia.
  rewrite Z.mod_small; [done|]. split; [apply Z.div_pos; lia | apply Z.div_lt_upper_bound; lia].
Qed.

Lemma aligned_mod a : ALIGNED_VALUE a mod 4 = 0.
Proof. rewrite aligned_eq. apply Z.mod_mul. lia. Qed.

Lemma aligned_range a : 0 <= ALIGNED_VALUE a < 2 ^ 32.
Proof.
  rewrite aligned_eq. pose proof (u32_range (a + 3)) as Hr. set (x := u32 (a + 3)) in *.
  pose proof (Z.div_mod x 4 ltac:(lia)). pose proof (Z.mod_pos_bound x 4 ltac:(lia)). lia.
Qed.

Lemma aligned_bounds a : 0 <= a <= 2 ^ 32 - 4 -> a <= ALIGNED_VALUE a < a + 4.
Proof.
  intros H. rewrite aligned_eq, u32_id by lia.
  pose proof (Z.div_mod (a + 3) 4 ltac:(lia)). pose proof (Z.mod_pos_bound (a + 3) 4 ltac:(lia)). lia.
Qed.

Lemma aligned_id a : 0 <= a <= 2 ^ 32 - 4 -> a mod 4 = 0 -> ALIGNED_VALUE a = a.
Proof.
  intros H Hm. pose proof (aligned_bounds a H). pose proof (aligned_mod a).
  pose proof (Z.div_mod a 4 ltac:(lia)). pose proof (Z.div_mod (ALIGNED_VALUE a) 4 ltac:(lia)). lia.
Qed.
