(* ===== verification/Palloc.v ===== *)
(** The pool allocator of src/lib/hu/palloc.c, CONFIG_HU_PALLOC with a DTCM
    region: its state is the byte memory with the link headers in it and the
    file's static counters; the operations read and write the headers through
    32-bit loads and stores, as the C code does on the 32-bit targets. *)

From S2P Require Import Prelude PallocMem.

(** [PALLOC_ALLOCATED]: the top bit of [flagNsize]. *)
Definition PALLOC_ALLOCATED : Z := u32 (Z.shiftl 1 (4 * 8 - 1)).
(** [ALIGNED_VALUE(sizeof(link_t))]: [next] and [flagNsize], one word each. *)
Definition _sizeof_link_t : Z := ALIGNED_VALUE 8.
Definition NULL : Z := 0.

(** The static variables of palloc.c; the links themselves, [_anchor] included,
    live in [p_mem].  [palloc_sem] is the count of the binary semaphore. *)
Record pstate := PState {
  p_mem : mem;
  _ppool_last : Z;
  _pool_size : Z;
  _free_size : Z;
  _num_alloc : Z;
  _num_free : Z;
  palloc_sem : Z
}.

Definition set_mem (m : mem) (s : pstate) : pstate :=
  PState m (_ppool_last s) (_pool_size s) (_free_size s) (_num_alloc s) (_num_free s) (palloc_sem s).
Definition set_last (x : Z) (s : pstate) : pstate :=
  PState (p_mem s) x (_pool_size s) (_free_size s) (_num_alloc s) (_num_free s) (palloc_sem s).
Definition set_pool_size (x : Z) (s : pstate) : pstate :=
  PState (p_mem s) (_ppool_last s) x (_free_size s) (_num_alloc s) (_num_free s) (palloc_sem s).
Definition set_free_size (x : Z) (s : pstate) : pstate :=
  PState (p_mem s) (_ppool_last s) (_pool_size s) x (_num_alloc s) (_num_free s) (palloc_sem s).
Definition set_num_alloc (x : Z) (s : pstate) : pstate :=
  PState (p_mem s) (_ppool_last s) (_pool_size s) (_free_size s) x (_num_free s) (palloc_sem s).
Definition set_num_free (x : Z) (s : pstate) : pstate :=
  PState (p_mem s) (_ppool_last s) (_pool_size s) (_free_size s) (_num_alloc s) x (palloc_sem s).
Definition set_sem (x : Z) (s : pstate) : pstate :=
  PState (p_mem s) (_ppool_last s) (_pool_size s) (_free_size s) (_num_alloc s) (_num_free s) x.

(** ** Fields of [link_t] and the semaphore *)

Definition rd_next (plink : Z) : stm pstate Z := fun s =>
  v ← load32 (p_mem s) plink; Ok (v, s).
Definition rd_flagNsize (plink : Z) : stm pstate Z := fun s =>
  v ← load32 (p_mem s) (plink + 4); Ok (v, s).
Definition wr_next (plink v : Z) : stm pstate unit := fun s =>
  m ← store32 (p_mem s) plink v; Ok (tt, set_mem m s).
Definition wr_flagNsize (plink v : Z) : stm pstate unit := fun s =>
  m ← store32 (p_mem s) (plink + 4) v; Ok (tt, set_mem m s).

(** [k_sem_take(&palloc_sem, K_FOREVER)] and [k_sem_give], limit 1. *)
Definition k_sem_take : stm pstate unit := fun s =>
  if palloc_sem s >? 0 then Ok (tt, set_sem (palloc_sem s - 1) s) else Stop Deadlock.
Definition k_sem_give : stm pstate unit := fun s =>
  Ok (tt, set_sem (Z.min 1 (palloc_sem s + 1)) s).

Section Palloc.
(** The address the linker gives [_anchor], and the turns a list walk may take
    (theorems below: [pool_fuel] turns are enough). *)
Variable ANCHOR : Z.

Definition pool_fuel (s : pstate) : nat := Z.to_nat (_pool_size s / 8 + 3).

(** [_set_link] *)
Definition _set_link (plink size next : Z) : stm pstate unit :=
  wr_flagNsize plink size;; wr_next plink next.

(** [_set_block] *)
Definition _set_block (pstart pend size next plink : Z) : stm pstate unit :=
  _set_link pstart size pend;;
  _set_link pend 0 next;;
  if negb (plink =? NULL) then wr_next plink pstart else mret tt.

(** [for (itor = &_anchor; itor->next < plink; itor = itor->next);] *)
Fixpoint insert_walk (fuel : nat) (itor plink : Z) : stm pstate Z :=
  match fuel with
  | O => fault OutOfFuel
  | S fuel =>
    itor_next ← rd_next itor;
    if itor_next <? plink then insert_walk fuel itor_next plink else mret itor
  end.

(** [_insert_link] merges with the block before and then with the one after. *)
Definition insert_prev (itor plink : Z) : stm pstate Z :=
  itor_size ← rd_flagNsize itor;
  if u32 (itor + itor_size) =? plink then
    plink_size ← rd_flagNsize plink;
    wr_flagNsize itor (u32 (itor_size + plink_size));;
    mret itor
  else mret plink.

Definition insert_next (itor plink : Z) : stm pstate unit :=
  plink_size ← rd_flagNsize plink;
  itor_next ← rd_next itor;
  (if u32 (plink + plink_size) =? itor_next then
     last ← gets _ppool_last;
     if negb (itor_next =? last) then
       next_size ← rd_flagNsize itor_next;
       next_next ← rd_next itor_next;
       _set_link plink (u32 (plink_size + next_size)) next_next
     else wr_next plink last
   else wr_next plink itor_next);;
  if negb (itor =? plink) then wr_next itor plink else mret tt.

Definition _insert_link (plink : Z) : stm pstate unit :=
  fuel ← gets pool_fuel;
  itor ← insert_walk fuel ANCHOR plink;
  plink ← insert_prev itor plink;
  insert_next itor plink.

(** [while ((plink->flagNsize < size) && (plink->next != NULL))] *)
Fixpoint palloc_walk (fuel : nat) (size prev_plink plink : Z) : stm pstate (Z * Z) :=
  match fuel with
  | O => fault OutOfFuel
  | S fuel =>
    psize ← rd_flagNsize plink;
    if psize <? size then
      pnext ← rd_next plink;
      if negb (pnext =? NULL) then palloc_walk fuel size plink pnext
      else mret (prev_plink, plink)
    else mret (prev_plink, plink)
  end.

(** The split of a block that is more than two headers too large. *)
Definition palloc_split (size prev_plink plink : Z) : stm pstate unit :=
  psize ← rd_flagNsize plink;
  if u32 (psize - size) >? _sizeof_link_t * 2 then
    let next_plink := u32 (plink + size) in
    prev_next ← rd_next prev_plink;
    _set_link next_plink (u32 (psize - size)) prev_next;;
    wr_flagNsize plink size;;
    wr_next prev_plink next_plink
  else mret tt.

(** The part of [palloc] after the walk. *)
Definition palloc_take (size prev_plink plink : Z) : stm pstate Z :=
  last ← gets _ppool_last;
  if plink =? last then k_sem_give;; mret NULL else
  prev_next ← rd_next prev_plink;
  let ptr := u32 (prev_next + _sizeof_link_t) in
  pnext ← rd_next plink;
  wr_next prev_plink pnext;;
  palloc_split size prev_plink plink;;
  psize ← rd_flagNsize plink;
  modify (fun s => set_free_size (u32 (_free_size s - psize)) s);;
  wr_flagNsize plink (Z.lor psize PALLOC_ALLOCATED);;
  wr_next plink NULL;;
  modify (fun s => set_num_alloc (u32 (_num_alloc s + 1)) s);;
  k_sem_give;;
  mret ptr.

Definition palloc (size : Z) : stm pstate Z :=
  anchor_next ← rd_next ANCHOR;
  if (anchor_next =? NULL) || (size =? 0) then mret NULL else
  let size := ALIGNED_VALUE (u32 (size + _sizeof_link_t)) in
  if negb (Z.land size PALLOC_ALLOCATED =? 0) then mret NULL else
  free_size ← gets _free_size;
  if size >? free_size then mret NULL else
  plink ← rd_next ANCHOR;
  k_sem_take;;
  fuel ← gets pool_fuel;
  '(prev_plink, plink) ← palloc_walk fuel size ANCHOR plink;
  palloc_take size prev_plink plink.

Definition pfree (p : Z) : stm pstate unit :=
  if negb (p =? NULL) then
    let plink := u32 (p - _sizeof_link_t) in
    psize ← rd_flagNsize plink;
    if negb (Z.land psize PALLOC_ALLOCATED =? 0) then
      pnext ← rd_next plink;
      if pnext =? NULL then
        k_sem_take;;
        wr_flagNsize plink (Z.land psize (u32 (Z.lnot PALLOC_ALLOCATED)));;
        psize ← rd_flagNsize plink;
        modify (fun s => set_free_size (u32 (_free_size s + psize)) s);;
        _insert_link plink;;
        modify (fun s => set_num_free (u32 (_num_free s + 1)) s);;
        k_sem_give
      else mret tt
    else mret tt
  else mret tt.

Definition memset (ptr v n : Z) : stm pstate unit := fun s =>
  m ← memset_bytes (p_mem s) ptr v (Z.to_nat n); Ok (tt, set_mem m s).
Definition memcpy (dst src n : Z) : stm pstate unit := fun s =>
  m ← memcpy_bytes (p_mem s) dst src (Z.to_nat n); Ok (tt, set_mem m s).

Definition pcalloc (num size : Z) : stm pstate Z :=
  let tsize := u32 (num * size) in
  if tsize >? 0 then
    ptr ← palloc tsize;
    if negb (ptr =? NULL) then memset ptr 0 tsize;; mret ptr else mret ptr
  else mret NULL.

(** The [#if 0] block of the source is not compiled and has no counterpart. *)
Definition prealloc (ap nbytes : Z) : stm pstate Z :=
  if ap =? NULL then palloc nbytes
  else
    psize ← rd_flagNsize (u32 (ap - _sizeof_link_t));
    let csize := Z.land psize (u32 (Z.lnot PALLOC_ALLOCATED)) in
    if csize <? nbytes then
      ptr ← palloc nbytes;
      if negb (ptr =? NULL) then memcpy ptr ap nbytes;; pfree ap;; mret ptr
      else mret ptr
    else mret ap.

Fixpoint stats_walk (fuel : nat) (itor links largest smallest : Z) : stm pstate (Z * Z * Z) :=
  if itor =? NULL then mret (links, largest, smallest) else
  match fuel with
  | O => fault OutOfFuel
  | S fuel =>
    isize ← rd_flagNsize itor;
    let largest := if largest <? isize then isize else largest in
    let smallest := if (isize >? 0) && (smallest >? isize) then isize else smallest in
    inext ← rd_next itor;
    stats_walk fuel inext (u32 (links + 1)) largest smallest
  end.

(** Answers the return value and the three out-parameters. *)
Definition palloc_stats : stm pstate (Z * (Z * Z * Z)) :=
  itor ← rd_next ANCHOR;
  k_sem_take;;
  fuel ← gets pool_fuel;
  '(links, largest, smallest) ← stats_walk fuel itor 0 0 UINT32_MAX;
  let smallest := if smallest =? UINT32_MAX then 0 else smallest in
  k_sem_give;;
  free_size ← gets _free_size;
  mret (free_size, (u32 (largest - _sizeof_link_t), u32 (smallest - _sizeof_link_t), links)).

(** [for (next_pstart = prev_pstart->next; next_pstart != NULL && next_pstart < start; ...)] *)
Fixpoint init_walk (fuel : nat) (start prev_pstart next_pstart : Z) : stm pstate (Z * Z) :=
  if negb (next_pstart =? NULL) && (next_pstart <? start) then
    match fuel with
    | O => fault OutOfFuel
    | S fuel =>
      nn ← rd_next next_pstart;
      let prev_pstart := if negb (nn =? NULL) then next_pstart else prev_pstart in
      init_walk fuel start prev_pstart nn
    end
  else mret (prev_pstart, next_pstart).

Definition palloc_init (pstart pend : Z) : stm pstate unit :=
  let start := ALIGNED_VALUE pstart in
  let end_ := ALIGNED_VALUE pend in
  let block_size := u32 (end_ - start) in
  if block_size >? _sizeof_link_t * 2 then
    k_sem_take;;
    anchor_next ← rd_next ANCHOR;
    fuel ← gets pool_fuel;
    '(prev_pstart, next_pstart) ← init_walk fuel start ANCHOR anchor_next;
    block_size ←
      (if next_pstart =? NULL then
         plink ← gets _ppool_last;
         let last := u32 (start + block_size - _sizeof_link_t) in
         modify (set_last last);;
         _set_block start last (u32 (block_size - _sizeof_link_t)) NULL plink;;
         anchor_next ← rd_next ANCHOR;
         (if anchor_next =? NULL then _set_link ANCHOR 0 start else mret tt);;
         mret block_size
       else if next_pstart >? start then
         let pblast := u32 (start + block_size - _sizeof_link_t) in
         _set_block start pblast (u32 (block_size - _sizeof_link_t)) next_pstart prev_pstart;;
         mret block_size
       else mret 0);
    (if negb (block_size =? 0) then
       ssize ← rd_flagNsize start;
       modify (fun s => set_free_size (u32 (_free_size s + ssize)) s);;
       modify (fun s => set_pool_size (u32 (_pool_size s + block_size)) s)
     else mret tt);;
    k_sem_give
  else mret tt.

End Palloc.
