(* ===== verification/PallocInv.v ===== *)
(** What the pool of palloc.c looks like between calls: the region between its
    first header and [_ppool_last] is tiled by blocks, the free ones chained in
    address order from [_anchor].  The abstract allocator works on the list of
    tiles; [Rep] relates it to the bytes in memory. *)

From S2P Require Import Prelude PallocMem Palloc.

(** ** Tiles *)

(** A block: its size, header included, and whether it is allocated. *)
Abbreviation block := (Z * bool)%type.

Fixpoint total (bs : list block) : Z :=
  match bs with [] => 0 | (s, _) :: bs => s + total bs end.
Fixpoint free_total (bs : list block) : Z :=
  match bs with [] => 0 | (s, al) :: bs => (if al : bool then 0 else s) + free_total bs end.

(** The addresses of the free blocks, [a] being the address of the first block. *)
Fixpoint frees (a : Z) (bs : list block) : list Z :=
  match bs with
  | [] => []
  | (s, al) :: bs => (if al : bool then [] else [a]) ++ frees (a + s) bs
  end.

(** First fit. *)
Fixpoint fit (need : Z) (bs : list block) : option (list block * Z * list block) :=
  match bs with
  | [] => None
  | (s, al) :: bs =>
      if negb al && (need <=? s) then Some ([], s, bs)
      else '(b1, s', b2) ← fit need bs; Some ((s, al) :: b1, s', b2)
  end.

(** The tiles after a block of size [s] was taken for [need] bytes. *)
Definition place (b1 : list block) (s : Z) (b2 : list block) (need : Z) : list block :=
  if s - need >? 16 then b1 ++ (need, true) :: (s - need, false) :: b2
  else b1 ++ (s, true) :: b2.

(** The tiles after the block of size [s] between [b1] and [b2] is freed: it
    merges with a free neighbour on either side. *)
Definition pop_free (rb : list block) : Z * list block :=
  match rb with (s, false) :: rb' => (s, rb') | _ => (0, rb) end.
Definition release (b1 : list block) (s : Z) (b2 : list block) : list block :=
  let '(sp, rb1) := pop_free (reverse b1) in
  let '(sn, b2') := pop_free b2 in
  reverse rb1 ++ (sp + s + sn, false) :: b2'.

Definition size_ok (b : block) : Prop := 8 <= fst b /\ fst b mod 4 = 0.

(** ** The link headers in memory *)

(** [chain m x l]: following [next] from [x] visits [l]. *)
Fixpoint chain (m : mem) (x : Z) (l : list Z) : Prop :=
  match l with [] => True | y :: l => get32 m x = Some y /\ chain m y l end.

(** The nodes whose [next] a chain reads, and the last node it reaches. *)
Fixpoint nodes (x : Z) (l : list Z) : list Z :=
  match l with [] => [] | y :: l => x :: nodes y l end.
Fixpoint lastn (x : Z) (l : list Z) : Z :=
  match l with [] => x | y :: l => lastn y l end.

Fixpoint hdrs (m : mem) (a : Z) (bs : list block) : Prop :=
  match bs with
  | [] => True
  | (s, true) :: bs => get32 m a = Some 0 /\ get32 m (a + 4) = Some (s + 2 ^ 31) /\ hdrs m (a + s) bs
  | (s, false) :: bs => get32 m (a + 4) = Some s /\ hdrs m (a + s) bs
  end.

Record Rep (ANCHOR : Z) (st : pstate) (start : Z) (bs : list block) : Prop := {
  rep_start : 0 < start /\ start mod 4 = 0;
  rep_sizes : Forall size_ok bs;
  rep_total : total bs < 2 ^ 31 /\ start + total bs + 8 <= 2 ^ 32;
  rep_anchor : 0 <= ANCHOR /\ (ANCHOR + 8 <= start \/ start + total bs + 8 <= ANCHOR) /\ ANCHOR + 8 <= 2 ^ 32;
  rep_map : mapped (p_mem st) start (total bs + 8) /\ mapped (p_mem st) ANCHOR 8;
  rep_chain : chain (p_mem st) ANCHOR (frees start bs ++ [start + total bs; 0]);
  rep_ends : get32 (p_mem st) (ANCHOR + 4) = Some 0 /\ get32 (p_mem st) (start + total bs + 4) = Some 0;
  rep_hdrs : hdrs (p_mem st) start bs;
  rep_last : _ppool_last st = start + total bs;
  rep_free : _free_size st = free_total bs;
  rep_pool : _pool_size st = total bs + 8;
  rep_sem : palloc_sem st = 1
}.

(** The payload bytes the callers own. *)
Fixpoint owned (a : Z) (bs : list block) (i : Z) : Prop :=
  match bs with
  | [] => False
  | (s, al) :: bs => (al = true /\ a + 8 <= i < a + s) \/ owned (a + s) bs i
  end.

(** No two free blocks touch. *)
Definition free_hd (bs : list block) : Prop :=
  match bs with (_, false) :: _ => True | _ => False end.
Fixpoint coalesced (bs : list block) : Prop :=
  match bs with
  | [] => True
  | (_, al) :: bs => (al = false -> ~ free_hd bs) /\ coalesced bs
  end.

(** The allocated blocks: payload pointer and capacity. *)
Fixpoint lives (a : Z) (bs : list block) : list (Z * Z) :=
  match bs with
  | [] => []
  | (s, al) :: bs => (if al : bool then [(a + 8, s - 8)] else []) ++ lives (a + s) bs
  end.

(** ** Lemmas on tiles *)

Lemma total_app b1 b2 : total (b1 ++ b2) = total b1 + total b2.
Proof. induction b1 as [|[s al] b1 IH]; cbn; lia. Qed.

Lemma free_total_app b1 b2 : free_total (b1 ++ b2) = free_total b1 + free_total b2.
Proof. induction b1 as [|[s al] b1 IH]; cbn; lia. Qed.

Lemma frees_app a b1 b2 : frees a (b1 ++ b2) = frees a b1 ++ frees (a + total b1) b2.
Proof.
  revert a. induction b1 as [|[s al] b1 IH]; intros a; cbn; [by rewrite Z.add_0_r|].
  rewrite IH, app_assoc. do 2 f_equal. lia.
Qed.

Lemma total_nonneg bs : Forall size_ok bs -> 0 <= total bs.
Proof. induction 1 as [|[s al] bs [Hs _] _ IH]; cbn in *; lia. Qed.

Lemma free_total_bounds bs : Forall size_ok bs -> 0 <= free_total bs <= total bs.
Proof. induction 1 as [|[s [|]] bs [Hs _] _ IH]; cbn in *; lia. Qed.

Lemma length_frees a bs : Forall size_ok bs -> 8 * Z.of_nat (length (frees a bs)) <= total bs.
Proof.
  intros H. revert a. induction H as [|[s [|]] bs [Hs _] _ IH]; intros a; cbn in *; [lia| |].
  - specialize (IH (a + s)). lia.
  - specialize (IH (a + s)). lia.
Qed.

Lemma fit_spec need bs :
  match fit need bs with
  | Some (b1, s, b2) => bs = b1 ++ (s, false) :: b2 /\ need <= s
  | None => forall b1 s b2, bs = b1 ++ (s, false) :: b2 -> s < need
  end.
Proof.
  induction bs as [|[s al] bs IH]; cbn [fit].
  { intros [|? ?] s b2 E; discriminate. }
  destruct (negb al && (need <=? s)) eqn:E.
  { destruct al; [discriminate|]. cbn in E. zify_bool. by split. }
  destruct (fit need bs) as [[[b1 s'] b2]|]; cbn.
  - destruct IH as [-> Hs]. by split.
  - intros [|[s0 al0] b1] s' b2 [= -> ->].
    + cbn in E. zify_bool. lia.
    + by eapply IH.
Qed.

Lemma lastn_snoc x l y : lastn x (l ++ [y]) = y.
Proof. revert x. induction l as [|z l IH]; intros x; cbn; [done | apply IH]. Qed.

Lemma lastn_app_cons x l1 y l2 : lastn x (l1 ++ y :: l2) = lastn y l2.
Proof. revert x. induction l1 as [|z l IH]; intros x; cbn; [done | apply IH]. Qed.

Lemma chain_app m x l1 y l2 :
  chain m x (l1 ++ y :: l2) <-> chain m x l1 /\ get32 m (lastn x l1) = Some y /\ chain m y l2.
Proof.
  revert x. induction l1 as [|z l1 IH]; intros x; cbn; [tauto|]. rewrite IH. tauto.
Qed.

Lemma chain_agree m m' x l :
  chain m x l -> (forall n, n ∈ nodes x l -> get32 m' n = get32 m n) -> chain m' x l.
Proof.
  revert x. induction l as [|y l IH]; intros x; cbn; [done|]. intros [E Hc] Ha. split.
  - rewrite Ha; [done | set_solver].
  - apply IH; [done|]. intros n Hn. apply Ha. set_solver.
Qed.

Lemma hdrs_app m a b1 b2 : hdrs m a (b1 ++ b2) <-> hdrs m a b1 /\ hdrs m (a + total b1) b2.
Proof.
  revert a. induction b1 as [|[s [|]] b1 IH]; intros a; cbn.
  - rewrite Z.add_0_r. tauto.
  - rewrite IH, Z.add_assoc. tauto.
  - rewrite IH, Z.add_assoc. tauto.
Qed.

Lemma hdrs_agree m m' a bs :
  Forall size_ok bs -> hdrs m a bs ->
  (forall n, a <= n -> n + 4 <= a + total bs -> get32 m' n = get32 m n) -> hdrs m' a bs.
Proof.
  intros H. revert a. induction H as [|[s [|]] bs [Hs _] Hbs IH]; intros a; cbn in *; [done | |].
  - pose proof (total_nonneg bs Hbs). intros (E1 & E2 & Hh) Ha. rewrite !Ha by lia.
    repeat split; [done | done |]. apply IH; [done|]. intros n ? ?. apply Ha; lia.
  - pose proof (total_nonneg bs Hbs). intros (E2 & Hh) Ha. rewrite !Ha by lia.
    split; [done|]. apply IH; [done|]. intros n ? ?. apply Ha; lia.
Qed.

Lemma lastn_frees x a bs : Forall size_ok bs ->
  lastn x (frees a bs) = x \/ a <= lastn x (frees a bs) <= a + total bs - 8.
Proof.
  intros H. revert x a. induction H as [|[s [|]] bs [Hs _] Hbs IH]; intros x a; cbn in *; [by left| |].
  - destruct (IH x (a + s)); [by left | right; lia].
  - pose proof (total_nonneg bs Hbs). destruct (IH a (a + s)) as [-> |]; right; lia.
Qed.

(** The nodes a chain through the free blocks reads lie in the region, and
    away from the last node. *)
Lemma nodes_frees x a bs n : Forall size_ok bs ->
  n ∈ nodes x (frees a bs) ->
  (n = x \/ a <= n <= a + total bs - 8) /\
  (x + 8 <= a \/ a + total bs <= x ->
   n + 4 <= lastn x (frees a bs) \/ lastn x (frees a bs) + 4 <= n).
Proof.
  intros H. revert x a. induction H as [|[s [|]] bs [Hs _] Hbs IH]; intros x a Hn; cbn in *.
  - set_solver.
  - pose proof (total_nonneg bs Hbs). destruct (IH x (a + s) Hn) as [H1 H2].
    split; [destruct H1; [by left | right; lia] | intros; apply H2; lia].
  - pose proof (total_nonneg bs Hbs). apply elem_of_cons in Hn as [-> | Hn].
    + split; [by left|]. intros Hx. pose proof (lastn_frees a (a + s) bs Hbs). lia.
    + destruct (IH a (a + s) Hn) as [H1 H2].
      split; [destruct H1; right; lia | intros; apply H2; lia].
Qed.

Lemma nodes_app x l1 y l2 : nodes x (l1 ++ y :: l2) = nodes x l1 ++ lastn x l1 :: nodes y l2.
Proof. revert x. induction l1 as [|z l1 IH]; intros x; cbn; [done|]. by rewrite IH. Qed.

Lemma nodes_tail x a bs n : Forall size_ok bs ->
  n ∈ nodes x (frees a bs ++ [a + total bs; 0]) -> n = x \/ a <= n <= a + total bs.
Proof.
  intros Hb. pose proof (total_nonneg bs Hb). rewrite nodes_app. cbn. intros Hn.
  apply elem_of_app in Hn as [Hn | Hn].
  - destruct (nodes_frees x a bs n Hb Hn) as [[?|?] _]; [by left | right; lia].
  - apply elem_of_cons in Hn as [-> | Hn].
    + destruct (lastn_frees x a bs Hb); [by left | right; lia].
    + apply list_elem_of_singleton in Hn as ->. right. lia.
Qed.

(** ** The payload *)

Lemma owned_app a b1 b2 i : owned a (b1 ++ b2) i <-> owned a b1 i \/ owned (a + total b1) b2 i.
Proof.
  revert a. induction b1 as [|[s al] b1 IH]; intros a; cbn; [rewrite Z.add_0_r; tauto|].
  rewrite IH, Z.add_assoc. tauto.
Qed.

Lemma owned_range a bs i : Forall size_ok bs -> owned a bs i -> a + 8 <= i < a + total bs.
Proof.
  intros H. revert a. induction H as [|[s al] bs [Hs _] Hbs IH]; intros a; cbn in *; [done|].
  pose proof (total_nonneg bs Hbs). intros [[_ ?] | Ho]; [lia|]. apply IH in Ho. lia.
Qed.

Lemma owned_not_last x a bs i : Forall size_ok bs -> x + 8 <= a \/ a + total bs <= x ->
  owned a bs i -> i < lastn x (frees a bs) \/ lastn x (frees a bs) + 8 <= i.
Proof.
  intros H. revert x a. induction H as [|[s al] bs [Hs _] Hbs IH]; intros x a Hx Ho; cbn in *; [done|].
  pose proof (total_nonneg bs Hbs). destruct al; cbn in *.
  - destruct Ho as [[_ Ho] | Ho]; [|apply IH; [lia | done]].
    pose proof (lastn_frees x (a + s) bs Hbs). lia.
  - destruct Ho as [[? _] | Ho]; [done|]. apply IH; [lia | done].
Qed.
