(* ===== verification/PallocProof.v ===== *)
(** The operations of palloc.c refine first-fit allocation and coalescing
    release on the list of tiles of PallocInv.v. *)

From S2P Require Import Prelude PallocMem Palloc PallocInv.

(** ** Single accesses *)

Lemma rd_next_ok s a v : get32 (p_mem s) a = Some v -> rd_next a s = Ok (v, s).
Proof. intros E. unfold rd_next. by rewrite (load32_ok _ _ _ E). Qed.
Lemma rd_flag_ok s a v : get32 (p_mem s) (a + 4) = Some v -> rd_flagNsize a s = Ok (v, s).
Proof. intros E. unfold rd_flagNsize. by rewrite (load32_ok _ _ _ E). Qed.
Lemma wr_next_ok s a v : mapped (p_mem s) a 4 ->
  wr_next a v s = Ok (tt, set_mem (put32 (p_mem s) a v) s).
Proof. intros E. unfold wr_next. by rewrite (store32_mapped _ _ _ E). Qed.
Lemma wr_flag_ok s a v : mapped (p_mem s) (a + 4) 4 ->
  wr_flagNsize a v s = Ok (tt, set_mem (put32 (p_mem s) (a + 4) v) s).
Proof. intros E. unfold wr_flagNsize. by rewrite (store32_mapped _ _ _ E). Qed.

Lemma mapped_set_mem m s a n : mapped m a n -> mapped (p_mem (set_mem m s)) a n.
Proof. done. Qed.

(** A range of a memory built by nested stores is mapped. *)
Ltac maps := cbn [p_mem set_mem]; repeat apply mapped_put32.
Ltac in_map :=
  maps; match goal with H : mapped _ _ _ |- _ => eapply (mapped_sub _ _ _ _ _ H); lia end.

Lemma set_link_ok s p size next : mapped (p_mem s) p 8 ->
  _set_link p size next s = Ok (tt, set_mem (put32 (put32 (p_mem s) (p + 4) size) p next) s).
Proof.
  intros H. unfold _set_link. sbind wr_flag_ok by in_map.
  rewrite wr_next_ok; [done|]. in_map.
Qed.

(** Decide words of a memory built by nested stores. *)
Ltac words :=
  repeat first
    [ rewrite get32_put32_eq by lia
    | rewrite get32_put32_ne by lia ].

(** ** The chain after a segment *)

Definition after (a E : Z) (bs : list block) : Z := hd E (frees a bs).

Lemma after_cons a bs : exists T,
  frees a bs ++ [a + total bs; 0] = after a (a + total bs) bs :: T.
Proof. unfold after. destruct (frees a bs); cbn; eauto. Qed.

Lemma after_range a bs : Forall size_ok bs -> a <= after a (a + total bs) bs <= a + total bs.
Proof.
  intros H. unfold after. revert a. induction H as [|[s [|]] bs [Hs _] Hbs IH]; intros a; cbn in *.
  - lia.
  - pose proof (total_nonneg bs Hbs). rewrite Z.add_assoc. specialize (IH (a + s)). lia.
  - pose proof (total_nonneg bs Hbs). lia.
Qed.

Lemma nodes_after a bs T n : Forall size_ok bs ->
  frees a bs ++ [a + total bs; 0] = after a (a + total bs) bs :: T ->
  n ∈ nodes (after a (a + total bs) bs) T -> a <= n <= a + total bs.
Proof.
  unfold after. intros H. revert a. induction H as [|[s [|]] bs [Hs Hm] Hbs IH]; intros a; cbn in *.
  - intros [= <-] Hn. cbn in Hn. apply list_elem_of_singleton in Hn. lia.
  - rewrite Z.add_assoc. intros E Hn. pose proof (IH (a + s) E Hn). lia.
  - intros [= <-] Hn. rewrite Z.add_assoc in Hn. pose proof (nodes_tail _ _ _ _ Hbs Hn).
    pose proof (total_nonneg bs Hbs). lia.
Qed.

(** ** Walks *)

Lemma palloc_walk_ok st need : 0 < need -> forall bs a prev fuel,
  0 < a -> Forall size_ok bs -> hdrs (p_mem st) a bs ->
  chain (p_mem st) prev (frees a bs ++ [a + total bs; 0]) ->
  get32 (p_mem st) (a + total bs + 4) = Some 0 ->
  (length (frees a bs) < fuel)%nat ->
  palloc_walk fuel need prev (after a (a + total bs) bs) st =
    Ok (match fit need bs with
        | None => (lastn prev (frees a bs), a + total bs)
        | Some (b1, _, _) => (lastn prev (frees a b1), a + total b1)
        end, st).
Proof.
  intros Hneed. induction bs as [|[s al] bs IH]; intros a prev fuel Ha Hok Hh Hc He Hf;
    (destruct fuel as [|fuel]; [cbn in Hf; lia|]).
  - cbn in *. destruct Hc as (H1 & H2 & _). sbind rd_flag_ok. case_test; [|lia].
    sbind rd_next_ok. done.
  - apply Forall_cons in Hok as [[Hs Hm] Hok]. cbn in Hs. cbn [total] in *. rewrite Z.add_assoc in *.
    pose proof (after_range (a + s) bs Hok) as Hr. unfold after in *.
    destruct al; cbn [hdrs frees app fit] in *.
    + destruct Hh as (_ & _ & Hh). rewrite (IH (a + s) prev (S fuel)) by (done || lia).
      destruct (fit need bs) as [[[b1 s'] b2]|]; cbn; [by rewrite Z.add_assoc | done].
    + destruct Hh as [E Hh]. cbn [chain] in Hc. destruct Hc as [_ Hc].
      cbn [hd palloc_walk]. sbind rd_flag_ok. rewrite (Z.leb_antisym s need).
      case_test; cbn [negb andb].
      * destruct (after_cons (a + s) bs) as [T ET]. unfold after in ET.
        rewrite ET in Hc. cbn [chain] in Hc. destruct Hc as [Hn Hc].
        sbind rd_next_ok. destruct (_ =? NULL) eqn:E0; unfold NULL in *; zify_bool; [lia|]. cbn [negb].
        rewrite (IH (a + s) a fuel) by
          (done || lia || (cbn in Hf; lia) || (rewrite ET; cbn; done)).
        destruct (fit need bs) as [[[b1 s'] b2]|]; cbn; [by rewrite Z.add_assoc | done].
      * cbn. by rewrite Z.add_0_r.
Qed.

Lemma insert_walk_ok st x bs : forall a prev fuel N T,
  Forall size_ok bs -> 0 < a -> prev < a \/ a + total bs <= prev ->
  chain (p_mem st) prev (frees a bs ++ N :: T) ->
  a + total bs = x -> x < N ->
  (length (frees a bs) < fuel)%nat ->
  insert_walk fuel prev x st = Ok (lastn prev (frees a bs), st).
Proof.
  induction bs as [|[s al] bs IH]; intros a prev fuel N T Hok Ha Hp Hc Hx HN Hf;
    (destruct fuel as [|fuel]; [cbn in Hf; lia|]).
  - cbn in *. destruct Hc as [Hc _]. sbind rd_next_ok. case_test; [lia | done].
  - apply Forall_cons in Hok as [[Hs Hm] Hok]. cbn [fst total] in *.
    pose proof (total_nonneg bs Hok). destruct al; cbn [frees app lastn] in *.
    + apply (IH (a + s) prev (S fuel) N T); (done || lia).
    + cbn [chain] in Hc. destruct Hc as [E Hc]. cbn [insert_walk]. sbind rd_next_ok.
      case_test; [|lia]. apply (IH (a + s) a fuel N T); (done || lia || (cbn in Hf; lia)).
Qed.

(** What [_insert_link] finds before the inserted block: the anchor, with size
    zero, or the last free block. *)
Lemma prev_size m x a bs : Forall size_ok bs -> hdrs m a bs -> get32 m (x + 4) = Some 0 ->
  (lastn x (frees a bs) = x /\ get32 m (x + 4) = Some 0 /\ fst (pop_free (reverse bs)) = 0) \/
  (exists c1 f c2, bs = c1 ++ (f, false) :: c2 /\ frees (a + total c1 + f) c2 = [] /\
     lastn x (frees a bs) = a + total c1 /\ get32 m (a + total c1 + 4) = Some f /\
     (c2 = [] \/ exists c3 t, c2 = c3 ++ [(t, true)])).
Proof.
  intros Hok Hh Hx. induction bs as [|[s al] bs IH] using rev_ind; [by left|].
  apply Forall_app in Hok as [Hok _]. apply hdrs_app in Hh as [Hh Hs].
  rewrite frees_app. destruct al; cbn [frees].
  - rewrite app_nil_r, reverse_snoc. cbn [pop_free fst].
    destruct (IH Hok Hh) as [(E1 & E2 & _) | (c1 & f & c2 & -> & E1 & E2 & E3 & _)]; [by left|right].
    exists c1, f, (c2 ++ [(s, true)]). rewrite <- app_assoc, app_comm_cons. split; [done|].
    rewrite frees_app, E1. repeat split; [done | done | right; eauto].
  - right. exists bs, s, []. cbn [app]. rewrite lastn_snoc. cbn in Hs.
    repeat split; [apply Hs | by left].
Qed.

(** ** Replacing a segment of the pool *)

Lemma chain_splice m m' ANCHOR start c1 mid mid' c2 :
  let Y := start + total c1 in
  let P := lastn ANCHOR (frees start c1) in
  let e := start + total (c1 ++ mid ++ c2) in
  Forall size_ok (c1 ++ mid ++ c2) -> total mid' = total mid ->
  ANCHOR + 8 <= start \/ start + total (c1 ++ mid ++ c2) + 8 <= ANCHOR ->
  chain m ANCHOR (frees start (c1 ++ mid ++ c2) ++ [e; 0]) ->
  (forall n, n + 4 <= Y \/ Y + total mid <= n -> n + 4 <= P \/ P + 4 <= n -> get32 m' n = get32 m n) ->
  chain m' P (frees Y mid' ++ [after (Y + total mid) e c2]) ->
  chain m' ANCHOR (frees start (c1 ++ mid' ++ c2) ++ [e; 0]).
Proof.
  intros Y P e Hok Ht Ha Hc Hm Hc'.
  apply Forall_app in Hok as [Hc1 Hok]. apply Forall_app in Hok as [Hmid Hc2].
  pose proof (total_nonneg _ Hc1). pose proof (total_nonneg _ Hmid). pose proof (total_nonneg _ Hc2).
  assert (Ee : e = Y + total mid + total c2) by (unfold e, Y; rewrite !total_app; lia).
  assert (Ha' : ANCHOR + 8 <= start \/ e + 8 <= ANCHOR) by (unfold e; lia). clear Ha.
  rewrite !frees_app in *. fold Y in Hc |- *. rewrite Ht in *. clearbody e.
  rewrite Ee in Hc, Hc' |- *. rewrite <- !app_assoc in *.
  destruct (after_cons (Y + total mid) c2) as [T ET]. rewrite ET in *.
  set (N := after (Y + total mid) (Y + total mid + total c2) c2) in *.
  assert (HcT : chain m N T).
  { rewrite app_assoc in Hc. apply chain_app in Hc. apply Hc. }
  pose proof (after_range (Y + total mid) c2 Hc2) as HN. fold N in HN.
  rewrite app_assoc. apply chain_app.
  apply chain_app in Hc' as (Hc1' & HN' & _).
  assert (HcP : chain m' ANCHOR (frees start c1)).
  { assert (HcP : chain m ANCHOR (frees start c1)).
    { destruct (frees Y mid); cbn in Hc; apply chain_app in Hc; apply Hc. }
    apply (chain_agree m); [done|]. intros n Hn.
    destruct (nodes_frees ANCHOR start c1 n Hc1 Hn) as [Hr Hd].
    fold P in Hd. apply Hm; [destruct Hr as [-> | ?] |apply Hd]; unfold Y in *; lia. }
  assert (El : forall l, lastn ANCHOR (frees start c1 ++ l) = lastn P l).
  { intros l. unfold P. generalize (frees start c1) as l1. clear. generalize ANCHOR as x.
    intros x l1. revert x. induction l1; intros x; cbn; auto. }
  split_and!.
  - destruct (frees Y mid') as [|y l] eqn:Ef; [by rewrite app_nil_r|].
    cbn in Hc1'. apply chain_app. split_and!; [done | apply Hc1' | apply Hc1'].
  - by rewrite El.
  - apply (chain_agree m); [done|]. intros n Hn.
    pose proof (nodes_after (Y + total mid) c2 T n Hc2 ET Hn).
    pose proof (lastn_frees ANCHOR start c1 Hc1) as HP. fold P in HP. apply Hm; unfold Y in *; lia.
Qed.

Lemma get32_agree m m' n : (forall i, n <= i < n + 4 -> m' !! i = m !! i) -> get32 m' n = get32 m n.
Proof. intros H. unfold get32. by rewrite !H by lia. Qed.

(** The headers do not see a change of the last link. *)
Lemma hdrs_agree_last m m' x a bs : Forall size_ok bs -> x + 8 <= a \/ a + total bs <= x ->
  hdrs m a bs ->
  (forall n, a <= n -> n + 4 <= a + total bs ->
     n + 4 <= lastn x (frees a bs) \/ lastn x (frees a bs) + 4 <= n -> get32 m' n = get32 m n) ->
  hdrs m' a bs.
Proof.
  intros H. revert x a. induction H as [|[s al] bs [Hs _] Hbs IH]; intros x a Hx Hh Ha; [done|].
  pose proof (total_nonneg bs Hbs). cbn [total fst] in *.
  destruct al; cbn [frees hdrs app lastn] in *.
  - destruct Hh as (E1 & E2 & Hh). pose proof (lastn_frees x (a + s) bs Hbs).
    rewrite !Ha by lia. split_and!; [done | done |].
    apply (IH x); [lia | done |]. intros; apply Ha; lia.
  - destruct Hh as (E2 & Hh). pose proof (lastn_frees a (a + s) bs Hbs).
    rewrite !Ha by lia. split; [done|].
    apply (IH a); [lia | done |]. intros; apply Ha; lia.
Qed.

Lemma Rep_splice ANCHOR st st' start c1 mid mid' c2 :
  let Y := start + total c1 in
  let P := lastn ANCHOR (frees start c1) in
  Rep ANCHOR st start (c1 ++ mid ++ c2) ->
  total mid' = total mid -> Forall size_ok mid' ->
  (forall i, i < Y \/ Y + total mid <= i -> i < P \/ P + 4 <= i -> p_mem st' !! i = p_mem st !! i) ->
  (forall i, is_Some (p_mem st !! i) -> is_Some (p_mem st' !! i)) ->
  hdrs (p_mem st') Y mid' ->
  chain (p_mem st') P (frees Y mid' ++ [after (Y + total mid) (start + total (c1 ++ mid ++ c2)) c2]) ->
  _ppool_last st' = _ppool_last st -> _pool_size st' = _pool_size st ->
  _free_size st' = free_total c1 + free_total mid' + free_total c2 -> palloc_sem st' = 1 ->
  Rep ANCHOR st' start (c1 ++ mid' ++ c2).
Proof.
  intros Y P [Hs Hz Ht Ha Hmp Hc He Hh Hl Hf Hp Hsem] Et Hmid' Hm Hmm Hh' Hc' E1 E2 E3 E4.
  assert (ET : total (c1 ++ mid' ++ c2) = total (c1 ++ mid ++ c2)) by (rewrite !total_app; lia).
  assert (Hg : forall n, n + 4 <= Y \/ Y + total mid <= n -> n + 4 <= P \/ P + 4 <= n ->
    get32 (p_mem st') n = get32 (p_mem st) n).
  { intros n ? ?. apply get32_agree. intros i ?. apply Hm; lia. }
  pose proof Hz as Hz'. apply Forall_app in Hz' as [Hc1 Hz']. apply Forall_app in Hz' as [Hmid Hc2].
  pose proof (total_nonneg _ Hc1). pose proof (total_nonneg _ Hmid). pose proof (total_nonneg _ Hc2).
  pose proof (lastn_frees ANCHOR start c1 Hc1) as HP. fold P in HP.
  assert (Hee : total (c1 ++ mid ++ c2) = total c1 + total mid + total c2) by (rewrite !total_app; lia).
  constructor; rewrite ?ET.
  - done.
  - rewrite !Forall_app. done.
  - done.
  - done.
  - destruct Hmp as [M1 M2]. split; intros i Hi; apply Hmm; [by apply M1 | by apply M2].
  - apply (chain_splice (p_mem st) _ ANCHOR start c1 mid mid' c2); (done || apply Ha).
  - destruct He as [He1 He2]. rewrite !Hg; unfold Y in *; (done || lia).
  - apply hdrs_app in Hh as [Hh1 Hh]. apply hdrs_app in Hh as [_ Hh2].
    rewrite !hdrs_app, Et. fold Y in Hh2 |- *. split_and!; [| done |].
    + apply (hdrs_agree_last (p_mem st) _ ANCHOR); [done | lia | done |].
      intros n ? ?. apply Hg; unfold Y in *; lia.
    + apply (hdrs_agree (p_mem st)); [done | done |]. intros n ? ?. apply Hg; unfold Y in *; lia.
  - by rewrite E1.
  - rewrite E3, !free_total_app. lia.
  - by rewrite E2.
  - done.
Qed.

(** ** The allocation flag *)

Lemma flag_set s : 0 <= s < 2 ^ 31 -> Z.lor s PALLOC_ALLOCATED = s + 2 ^ 31.
Proof.
  intros H. rewrite Z.lor_comm. change PALLOC_ALLOCATED with (1 * 2 ^ 31).
  rewrite lor_shift_add; lia.
Qed.

Lemma flag_test s : 0 <= s < 2 ^ 31 -> Z.land s PALLOC_ALLOCATED = 0.
Proof.
  intros H. change PALLOC_ALLOCATED with (Z.shiftl 1 31). apply Z.bits_inj'. intros n Hn.
  rewrite Z.land_spec, Z.bits_0. destruct (decide (n < 31)).
  - rewrite Z.shiftl_spec_low by done. apply andb_false_r.
  - rewrite (Z.bits_above_log2 s n); [done | lia |].
    destruct (decide (s = 0)) as [->|]; [cbn; lia|].
    apply Z.log2_lt_pow2; [lia|]. apply Z.lt_le_trans with (2 ^ 31); [lia|].
    apply Z.pow_le_mono_r; lia.
Qed.

Lemma flag_tests s : 0 <= s < 2 ^ 31 -> Z.land (s + 2 ^ 31) PALLOC_ALLOCATED = 2 ^ 31.
Proof.
  intros H. rewrite <- flag_set by done. rewrite Z.land_lor_distr_l, flag_test by done. done.
Qed.

Lemma flag_clear s : 0 <= s < 2 ^ 31 -> Z.land (s + 2 ^ 31) (u32 (Z.lnot PALLOC_ALLOCATED)) = s.
Proof.
  intros H. rewrite <- flag_set by done. change (u32 (Z.lnot PALLOC_ALLOCATED)) with (Z.ones 31).
  rewrite Z.land_ones, flag_set by lia. rewrite Z.add_mod, Z.mod_same, Z.add_0_r by lia.
  rewrite Z.mod_mod, Z.mod_small; lia.
Qed.

(** A request whose header still fits in 32 bits. *)
Lemma need_bounds size : 0 < size <= 2 ^ 32 - 12 ->
  size + 8 <= ALIGNED_VALUE (u32 (size + _sizeof_link_t)) < size + 12 /\
  ALIGNED_VALUE (u32 (size + _sizeof_link_t)) mod 4 = 0.
Proof.
  intros H. change _sizeof_link_t with 8. rewrite (u32_id (size + 8)) by lia.
  pose proof (aligned_bounds (size + 8)) as Hb. split; [lia | apply aligned_mod].
Qed.

Lemma size_fits size : 0 < size <= 2 ^ 32 - 12 ->
  size <> 0 /\ 8 <= ALIGNED_VALUE (u32 (size + _sizeof_link_t)).
Proof. intros H. pose proof (need_bounds size H). lia. Qed.

Lemma flag_test_big n : 2 ^ 31 <= n < 2 ^ 32 -> Z.land n PALLOC_ALLOCATED <> 0.
Proof.
  intros H. replace n with ((n - 2 ^ 31) + 2 ^ 31) by lia. rewrite flag_tests; lia.
Qed.

(** ** Where a block of the pool is *)

Record at_block (m : mem) (ANCHOR start : Z) (b1 : list block) (s : Z) (al : bool) (b2 : list block)
    (X P N E : Z) : Prop := {
  ab_X : X = start + total b1;
  ab_P : P = lastn ANCHOR (frees start b1);
  ab_N : N = after (X + s) E b2;
  ab_E : E = X + s + total b2;
  ab_b1 : 0 <= total b1;
  ab_b2 : 0 <= total b2;
  ab_Prange : P = ANCHOR \/ start <= P <= X - 8;
  ab_Nrange : X + s <= N <= E;
  ab_Pnext : get32 m P = Some (if al then N else X);
  ab_next : get32 m X = Some (if al then 0 else N);
  ab_flag : get32 m (X + 4) = Some (if al then s + 2 ^ 31 else s);
  ab_size : 8 <= s /\ s mod 4 = 0;
  ab_map : mapped m X s;
  ab_Pmap : mapped m P 8
}.

Lemma Rep_block ANCHOR st start b1 s al b2 :
  Rep ANCHOR st start (b1 ++ (s, al) :: b2) ->
  exists X P N E, at_block (p_mem st) ANCHOR start b1 s al b2 X P N E /\
    E = start + total (b1 ++ (s, al) :: b2).
Proof.
  intros [Hs Hz Ht Ha [Hmp1 Hmp2] Hc He Hh Hl Hf Hp Hsem].
  exists (start + total b1), (lastn ANCHOR (frees start b1)),
    (after (start + total b1 + s) (start + total b1 + s + total b2) b2), (start + total b1 + s + total b2).
  pose proof Hz as Hz'. apply Forall_app in Hz' as [Hz1 Hz']. apply Forall_cons in Hz' as [[Hs8 Hs4] Hz2].
  pose proof (total_nonneg _ Hz1). pose proof (total_nonneg _ Hz2).
  pose proof (lastn_frees ANCHOR start b1 Hz1) as HP.
  pose proof (after_range (start + total b1 + s) b2 Hz2) as HN.
  apply hdrs_app in Hh as [_ Hh]. rewrite frees_app in Hc. rewrite total_app in *. cbn [total fst frees] in *.
  replace (start + (total b1 + (s + total b2))) with (start + total b1 + s + total b2) in * by lia.
  destruct (after_cons (start + total b1 + s) b2) as [T ET].
  split; [|done]. destruct al; cbn [app hdrs] in *.
  - destruct Hh as (E1 & E2 & _). rewrite <- app_assoc, ET in Hc. apply chain_app in Hc as (_ & HPn & _).
    constructor; (done || lia || (eapply mapped_sub; [apply Hmp1 | lia | lia]) || idtac).
    destruct HP as [-> | ]; [done | eapply mapped_sub; [apply Hmp1 | lia | lia]].
  - destruct Hh as (E1 & _). rewrite <- app_assoc in Hc. cbn [app] in Hc. rewrite ET in Hc.
    apply chain_app in Hc as (_ & HPn & Hc). cbn in Hc. destruct Hc as [HXn _].
    constructor; (done || lia || (eapply mapped_sub; [apply Hmp1 | lia | lia]) || idtac).
    destruct HP as [-> | ]; [done | eapply mapped_sub; [apply Hmp1 | lia | lia]].
Qed.

(** ** palloc *)

Lemma fit_too_large need bs : Forall size_ok bs -> free_total bs < need -> fit need bs = None.
Proof.
  intros Hz Hlt. pose proof (fit_spec need bs) as Hfit.
  destruct (fit need bs) as [[[b1 s] b2]|]; [|done]. destruct Hfit as [-> Hle].
  rewrite free_total_app in Hlt. cbn in Hlt.
  apply Forall_app in Hz as [Hz1 Hz]. apply Forall_cons in Hz as [_ Hz2].
  pose proof (free_total_bounds _ Hz1). pose proof (free_total_bounds _ Hz2). lia.
Qed.

(** The memory after the split of [palloc], and what the block ends up with. *)
Definition split_size (s need : Z) : Z := if s - need >? 16 then need else s.
Definition split_mem (m : mem) (P X N s need : Z) : mem :=
  if s - need >? 16 then
    put32 (put32 (put32 (put32 m (X + need + 4) (s - need)) (X + need) N) (X + 4) need) P (X + need)
  else m.

Lemma split_mem_mapped m P X N s need a n :
  mapped m a n -> mapped (split_mem m P X N s need) a n.
Proof. intros H. unfold split_mem. case_test; [by maps | done]. Qed.

Lemma palloc_split_ok st need P X N s :
  get32 (p_mem st) (X + 4) = Some s -> get32 (p_mem st) P = Some N ->
  mapped (p_mem st) X s -> mapped (p_mem st) P 4 ->
  0 < X -> X + s <= 2 ^ 32 -> 8 <= need <= s -> s < 2 ^ 31 -> P + 4 <= X \/ X + s <= P ->
  palloc_split need P X st = Ok (tt, set_mem (split_mem (p_mem st) P X N s need) st) /\
  get32 (split_mem (p_mem st) P X N s need) (X + 4) = Some (split_size s need).
Proof.
  intros HX HP Hm HmP ? ? ? ? ?. unfold palloc_split, split_mem, split_size.
  sbind rd_flag_ok. change (_sizeof_link_t * 2) with 16.
  rewrite (u32_id (s - need)) by lia. case_test.
  - rewrite (u32_id (X + need)) by lia. sbind rd_next_ok.
    sbind set_link_ok by in_map.
    sbind wr_flag_ok by in_map.
    rewrite wr_next_ok by in_map. cbn. split; [done|]. by words.
  - by destruct st.
Qed.

(** The state [palloc] leaves when it takes the free block [s] at [X]. *)
Definition taken (st : pstate) (P X N s need : Z) : pstate :=
  let s' := split_size s need in
  PState (put32 (put32 (split_mem (put32 (p_mem st) P N) P X N s need) (X + 4) (s' + 2 ^ 31)) X 0)
    (_ppool_last st) (_pool_size st) (_free_size st - s') (u32 (_num_alloc st + 1)) (_num_free st) 1.

(** The part of [palloc] after the walk, on a block and on the end of the pool. *)
Lemma palloc_take_ok st st0 ANCHOR start b1 s b2 X P N E need :
  at_block (p_mem st) ANCHOR start b1 s false b2 X P N E ->
  st0 = set_sem 0 st -> palloc_sem st = 1 -> _ppool_last st = E ->
  0 < start -> E + 8 <= 2 ^ 32 -> 8 <= need <= s -> s <= _free_size st < 2 ^ 31 ->
  P + 8 <= X \/ E + 8 <= P ->
  palloc_take need P X st0 = Ok (X + 8, taken st P X N s need).
Proof.
  intros [HX HP HN HE Hb1 Hb2 HPr HNr HPn HXn Hfl Hsz Hm HPm] -> Hsem Hl Hst HE' Hneed Hfree Hd.
  unfold palloc_take. sgets. cbn [_ppool_last set_sem].
  destruct (X =? _) eqn:E1; zify_bool; [lia|].
  sbind rd_next_ok. change _sizeof_link_t with 8. rewrite (u32_id (X + 8)) by lia.
  sbind rd_next_ok. sbind wr_next_ok by in_map.
  destruct (palloc_split_ok (set_mem (put32 (p_mem st) P N) (set_sem 0 st)) need P X N s)
    as [E2 E3]; try (cbn; by words); try in_map; try lia.
  erewrite stm_bind_ok by apply E2. cbv beta iota. cbn [p_mem set_mem set_sem] in *.
  sbind rd_flag_ok. smodify.
  assert (8 <= split_size s need <= s) by (unfold split_size; case_test; lia).
  rewrite flag_set by lia.
  assert (Hm' : mapped (split_mem (put32 (p_mem st) P N) P X N s need) X s).
  { apply split_mem_mapped. in_map. }
  sbind wr_flag_ok by in_map. sbind wr_next_ok by in_map. smodify.
  unfold taken, k_sem_give, mret, stm_ret, mbind, stm_bind. cbn. by rewrite (u32_id (_free_size st - _)) by lia.
Qed.

(** [palloc] after its early returns. *)
Lemma palloc_run ANCHOR st start bs size :
  Rep ANCHOR st start bs -> size <> 0 /\ 8 <= ALIGNED_VALUE (u32 (size + _sizeof_link_t)) ->
  let need := ALIGNED_VALUE (u32 (size + _sizeof_link_t)) in
  palloc ANCHOR size st =
    match fit need bs with
    | None => Ok (NULL, st)
    | Some (b1, s, b2) =>
        let X := start + total b1 in
        let E := start + total bs in
        Ok (X + 8, taken st (lastn ANCHOR (frees start b1)) X (after (X + s) E b2) s need)
    end.
Proof.
  intros HR [Hsize Hneed] need. fold need in Hneed. pose proof (aligned_range (u32 (size + _sizeof_link_t))) as Hnr.
  fold need in Hnr.
  pose proof (fit_spec need bs) as Hfit.
  pose proof HR as [Hs Hz Ht Ha [Hmp1 Hmp2] Hc He Hh Hl Hf Hp Hsem].
  pose proof (free_total_bounds bs Hz) as Hfb.
  unfold palloc.
  destruct (after_cons start bs) as [T ET].
  assert (HA : get32 (p_mem st) ANCHOR = Some (after start (start + total bs) bs)).
  { rewrite ET in Hc. apply Hc. }
  pose proof (after_range start bs Hz) as Hr.
  sbind rd_next_ok. unfold NULL at 1.
  destruct (_ =? 0) eqn:E1; zify_bool; [lia|].
  destruct (size =? 0) eqn:E2; zify_bool; [lia|]. cbn [orb]. fold need.
  destruct (negb _) eqn:E3; zify_bool.
  { rewrite (fit_too_large need bs); [done | done |]. destruct (decide (need < 2 ^ 31)); [|lia].
    rewrite flag_test in E3; lia. }
  assert (need < 2 ^ 31).
  { destruct (decide (need < 2 ^ 31)); [done|]. destruct (flag_test_big need); [lia | done]. }
  sgets. case_test; [by rewrite fit_too_large by (done || lia)|].
  sbind rd_next_ok.
  erewrite stm_bind_ok by (unfold k_sem_take; by rewrite Hsem). cbv beta iota.
  sgets.
  erewrite stm_bind_ok.
  2: { apply (palloc_walk_ok _ need ltac:(lia) bs start ANCHOR); try done; try lia; [apply He|].
       unfold pool_fuel. cbn. rewrite Hp. pose proof (length_frees start bs Hz).
       pose proof (Z.div_mod (total bs + 8) 8). pose proof (Z.mod_pos_bound (total bs + 8) 8). lia. }
  destruct (fit need bs) as [[[b1 s] b2]|]; cbv beta iota.
  - destruct Hfit as [-> Hle]. destruct (Rep_block _ _ _ _ _ _ _ HR) as (X & P & N & E & Hb & HE).
    pose proof Hb as [-> -> -> _ _ _ _ _ _ _ _ _ _ _]. rewrite <- HE. eapply palloc_take_ok; try done; try lia.
    + rewrite Hf, free_total_app in *. cbn in *.
      apply Forall_app in Hz as [Hz1 Hz]. apply Forall_cons in Hz as [_ Hz2].
      pose proof (free_total_bounds _ Hz1). pose proof (free_total_bounds _ Hz2). lia.
    + destruct Hb as [_ _ _ _ ? _ [-> | ?] _ _ _ _ _ _ _]; lia.
  - unfold palloc_take. sgets. cbn [_ppool_last set_sem]. rewrite Hl, Z.eqb_refl.
    destruct st; cbn in *. by subst.
Qed.

(** Words and bytes of a memory built by nested stores. *)
Ltac bytes := repeat (rewrite put32_out by lia).

Lemma taken_Rep ANCHOR st start b1 s b2 need X P N E :
  Rep ANCHOR st start (b1 ++ (s, false) :: b2) -> 8 <= need <= s -> need mod 4 = 0 ->
  at_block (p_mem st) ANCHOR start b1 s false b2 X P N E ->
  let st' := taken st P X N s need in
  Rep ANCHOR st' start (place b1 s b2 need) /\
  (forall i, i < X \/ X + s <= i -> i < P \/ P + 4 <= i -> p_mem st' !! i = p_mem st !! i).
Proof.
  intros HR Hneed Hn4 [HX HP HN HE Hb1 Hb2 HPr HNr HPn HXn Hfl [Hs8 Hs4] Hm HPm] st'.
  assert (HE' : start + total (b1 ++ [(s, false)] ++ b2) = E) by (rewrite !total_app; cbn; lia).
  pose proof HR as [Hs Hz Ht Ha [Hmp1 Hmp2] Hc He Hh Hl Hf Hp Hsem]. cbn [app] in HE'.
  assert (HPd : P + 8 <= X \/ E + 8 <= P) by (destruct HPr; lia).
  assert (Hmod : (s - need) mod 4 = 0) by (rewrite Zminus_mod, Hs4, Hn4; done).
  assert (Hout : forall i, i < X \/ X + s <= i -> i < P \/ P + 4 <= i -> p_mem st' !! i = p_mem st !! i).
  { intros i H1 H2. cbn. unfold split_mem, split_size. case_test; bytes; done. }
  split; [|done].
  rewrite free_total_app in Hf. cbn in Hf.
  unfold place. fold (split_size s need).
  replace (if s - need >? 16 then _ else _) with
    (b1 ++ (if s - need >? 16 then [(need, true); (s - need, false)] else [(s, true)]) ++ b2)
    by (by case_test).
  change (b1 ++ (s, false) :: b2) with (b1 ++ [(s, false)] ++ b2) in HR.
  apply (Rep_splice _ st st' start b1 [(s, false)]); try done.
  - case_test; cbn; lia.
  - case_test; repeat constructor; cbn; (lia || done).
  - rewrite <- HX, <- HP. cbn [total]. rewrite Z.add_0_r. done.
  - intros i Hi. cbn. unfold split_mem. repeat apply put32_is_Some. case_test; [|by apply put32_is_Some].
    by repeat apply put32_is_Some.
  - rewrite <- HX. cbn. unfold split_mem, split_size. case_test; cbn; words; split_and!; try done.
  - cbn [app]. rewrite HE', <- HX, <- HP. cbn [total]. rewrite Z.add_0_r, <- HN.
    cbn. unfold split_mem, split_size. case_test; cbn; words; split_and!; try done.
  - cbn. unfold split_size. rewrite Hf. case_test; cbn; lia.
Qed.

(** A change inside a segment and to the link before it spares the payloads of
    the other blocks. *)
Lemma owned_frame ANCHOR st st' start b1 mid b2 i :
  Rep ANCHOR st start (b1 ++ mid ++ b2) ->
  let X := start + total b1 in
  let P := lastn ANCHOR (frees start b1) in
  (forall i, i < X \/ X + total mid <= i -> i < P \/ P + 4 <= i -> p_mem st' !! i = p_mem st !! i) ->
  owned start b1 i \/ owned (X + total mid) b2 i -> p_mem st' !! i = p_mem st !! i.
Proof.
  intros HR X P Hm Ho. destruct HR as [Hs Hz Ht Ha _ _ _ _ _ _ _ _].
  apply Forall_app in Hz as [Hz1 Hz]. apply Forall_app in Hz as [Hzm Hz2].
  rewrite !total_app in Ha.
  pose proof (total_nonneg _ Hz1). pose proof (total_nonneg _ Hzm). pose proof (total_nonneg _ Hz2).
  pose proof (lastn_frees ANCHOR start b1 Hz1) as HP. fold P in HP. unfold X in *.
  destruct Ho as [Ho | Ho].
  - pose proof (owned_range _ _ _ Hz1 Ho).
    pose proof (owned_not_last ANCHOR start b1 i Hz1 ltac:(lia) Ho) as Hl. fold P in Hl. apply Hm; lia.
  - pose proof (owned_range _ _ _ Hz2 Ho). apply Hm; lia.
Qed.

Lemma palloc_spec ANCHOR st start bs size : Rep ANCHOR st start bs ->
  size <> 0 /\ 8 <= ALIGNED_VALUE (u32 (size + _sizeof_link_t)) ->
  let need := ALIGNED_VALUE (u32 (size + _sizeof_link_t)) in
  match fit need bs with
  | None => palloc ANCHOR size st = Ok (NULL, st)
  | Some (b1, s, b2) =>
      bs = b1 ++ (s, false) :: b2 /\
      exists st', palloc ANCHOR size st = Ok (start + total b1 + 8, st') /\
        Rep ANCHOR st' start (place b1 s b2 need) /\
        _num_alloc st' = u32 (_num_alloc st + 1) /\ _num_free st' = _num_free st /\
        (forall i, owned start bs i -> p_mem st' !! i = p_mem st !! i)
  end.
Proof.
  intros HR Hsize need. pose proof (palloc_run _ _ _ _ _ HR Hsize) as Hrun. fold need in Hrun. cbv zeta in Hrun.
  pose proof (fit_spec need bs) as Hfit. destruct Hsize as [_ Hn]. pose proof (aligned_mod (u32 (size + _sizeof_link_t))) as Hn4. fold need in Hn, Hn4.
  destruct (fit need bs) as [[[b1 s] b2]|]; [|done]. destruct Hfit as [-> Hle]. split; [done|].
  destruct (Rep_block _ _ _ _ _ _ _ HR) as (X & P & N & E & Hb & HE).
  destruct (taken_Rep _ _ _ _ _ _ need _ _ _ _ HR ltac:(lia) Hn4 Hb) as [HR' Hm].
  pose proof Hb as [HX HP HN _ _ _ _ _ _ _ _ _ _ _].
  rewrite <- HX, <- HP, <- HE, <- HN in Hrun. rewrite <- HX.
  exists (taken st P X N s need). split_and!; try done.
  intros i Ho. apply (owned_frame ANCHOR _ _ start b1 [(s, false)] b2); [done | |].
  - rewrite <- HX, <- HP. cbn [total]. by rewrite Z.add_0_r.
  - cbn [total]. rewrite Z.add_0_r. apply owned_app in Ho as [Ho | [[? _] | Ho]]; [by left | done | by right].
Qed.

(** ** pfree *)

Lemma pop_free_spec bs sn bs' : pop_free bs = (sn, bs') -> Forall size_ok bs ->
  exists q, bs = q ++ bs' /\ total q = sn /\ free_total q = sn /\
    (q = [] \/ q = [(sn, false)]) /\ Forall size_ok q.
Proof.
  destruct bs as [|[s [|]] bs]; cbn; intros [= <- <-] H.
  - exists []. split_and!; (done || by left).
  - exists []. split_and!; (done || by left).
  - apply Forall_cons in H as [H _]. exists [(s, false)]. cbn. rewrite Z.add_0_r.
    split_and!; try done; [by right | by constructor].
Qed.

Lemma link_prev_ok st m2 P Y v w :
  get32 m2 Y = Some v -> get32 m2 (Y + 4) = Some w ->
  (forall i, i < Y \/ Y + 8 <= i -> m2 !! i = p_mem st !! i) ->
  (forall i, is_Some (p_mem st !! i) -> is_Some (m2 !! i)) ->
  mapped m2 P 8 -> 0 <= Y < 2 ^ 32 -> Y = P \/ P + 8 <= Y \/ Y + 8 <= P ->
  exists m', (if negb (P =? Y) then wr_next P Y else mret tt) (set_mem m2 st) = Ok (tt, set_mem m' st) /\
    get32 m' Y = Some v /\ get32 m' (Y + 4) = Some w /\
    (Y <> P -> get32 m' P = Some Y) /\
    (forall i, i < Y \/ Y + 8 <= i -> i < P \/ P + 4 <= i -> m' !! i = p_mem st !! i) /\
    (forall i, is_Some (p_mem st !! i) -> is_Some (m' !! i)).
Proof.
  intros H1 H2 H3 H4 Hm HY Hd. destruct (P =? Y) eqn:E; zify_bool; cbn [negb].
  - exists m2. split_and!; try done. auto.
  - exists (put32 m2 P Y). rewrite wr_next_ok by in_map. words. split_and!; try done.
    + intros i Hi Hi'. rewrite put32_out by lia. by apply H3.
    + intros i Hi. by apply put32_is_Some, H4.
Qed.

(** Linking the block [t] at [Y] after [P] and merging it with what follows. *)
Lemma insert_next_ok st P Y t X b2 E :
  let '(sn, b2') := pop_free b2 in
  get32 (p_mem st) (Y + 4) = Some t -> get32 (p_mem st) P = Some (after X E b2) ->
  (forall b3, b2 = (sn, false) :: b3 ->
     get32 (p_mem st) X = Some (after (X + sn) E b3) /\ get32 (p_mem st) (X + 4) = Some sn) ->
  Forall size_ok b2 -> X = Y + t -> E = X + total b2 -> _ppool_last st = E ->
  8 <= t -> 0 < Y -> E + 8 <= 2 ^ 32 -> total b2 + t < 2 ^ 31 ->
  mapped (p_mem st) Y 8 -> mapped (p_mem st) P 8 -> Y = P \/ P + 8 <= Y \/ E + 8 <= P ->
  exists m', insert_next P Y st = Ok (tt, set_mem m' st) /\
    get32 m' Y = Some (after (X + sn) E b2') /\ get32 m' (Y + 4) = Some (t + sn) /\
    (Y <> P -> get32 m' P = Some Y) /\
    (forall i, i < Y \/ Y + 8 <= i -> i < P \/ P + 4 <= i -> m' !! i = p_mem st !! i) /\
    (forall i, is_Some (p_mem st !! i) -> is_Some (m' !! i)).
Proof.
  destruct (pop_free b2) as [sn b2'] eqn:Epop. intros HY HP HX Hz EX EE Hl Ht HY0 HE Htot HmY HmP Hd.
  pose proof (total_nonneg _ Hz).
  unfold insert_next. sbind rd_flag_ok. sbind rd_next_ok. rewrite (u32_id (Y + t)) by lia.
  destruct b2 as [|[s2 [|]] b3]; cbn in Epop; injection Epop as <- <-; cbn [total] in *;
    rewrite ?Z.add_0_r in *.
  - change (after X E []) with E in *. rewrite <- EX, EE, Z.eqb_refl. sgets. rewrite Hl, EE, Z.eqb_refl. cbn [negb].
    sbind wr_next_ok by in_map.
    apply link_prev_ok; cbn [p_mem set_mem]; words; (done || lia || in_map || idtac);
      intros i Hi; [by rewrite put32_out by lia | by apply put32_is_Some].
  - apply Forall_cons in Hz as [[Hs8 _] Hz]. cbn in Hs8. pose proof (total_nonneg _ Hz).
    pose proof (after_range (X + s2) b3 Hz) as HN.
    replace (after X E ((s2, true) :: b3)) with (after (X + s2) E b3) in * by done.
    replace (X + s2 + total b3) with E in HN by lia.
    destruct (Y + t =? _) eqn:E1; zify_bool; [lia|].
    sbind wr_next_ok by in_map.
    apply link_prev_ok; cbn [p_mem set_mem]; words; (done || lia || in_map || idtac);
      intros i Hi; [by rewrite put32_out by lia | by apply put32_is_Some].
  - apply Forall_cons in Hz as [[Hs8 _] Hz]. cbn in Hs8. pose proof (total_nonneg _ Hz).
    pose proof (after_range (X + s2) b3 Hz) as HN. replace (X + s2 + total b3) with E in HN by lia.
    destruct (HX b3 eq_refl) as [HXn HXf].
    change (after X E ((s2, false) :: b3)) with X in *. rewrite <- EX, Z.eqb_refl. sgets.
    destruct (X =? _) eqn:E1; zify_bool; [lia|]. cbn [negb].
    sbind rd_flag_ok. sbind rd_next_ok. sbind set_link_ok by in_map.
    rewrite (u32_id (t + s2)) by lia.
    apply link_prev_ok; cbn [p_mem set_mem]; words; (done || lia || in_map || idtac);
      intros i Hi; [by rewrite !put32_out by lia | by repeat apply put32_is_Some].
Qed.

Lemma insert_prev_ok st ANCHOR start b1 X s P :
  let sp := fst (pop_free (reverse b1)) in
  Forall size_ok b1 -> hdrs (p_mem st) start b1 -> get32 (p_mem st) (ANCHOR + 4) = Some 0 ->
  X = start + total b1 -> P = lastn ANCHOR (frees start b1) ->
  0 <= ANCHOR < 2 ^ 32 -> ANCHOR <> X -> 0 < start -> X < 2 ^ 32 -> total b1 + s < 2 ^ 31 -> 8 <= s ->
  get32 (p_mem st) (X + 4) = Some s -> mapped (p_mem st) P 8 ->
  exists m', insert_prev P X st = Ok (X - sp, set_mem m' st) /\
    0 <= sp /\ (sp <> 0 -> P = X - sp) /\ get32 m' (X - sp + 4) = Some (sp + s) /\
    (forall i, i < X - sp + 4 \/ X - sp + 8 <= i -> m' !! i = p_mem st !! i) /\
    (forall i, is_Some (p_mem st !! i) -> is_Some (m' !! i)).
Proof.
  intros sp Hz Hh HA HX HP HAr HAX Hst HX32 Htot Hs HXs HPm. unfold insert_prev.
  destruct (prev_size _ ANCHOR _ _ Hz Hh HA) as [(E1 & E2 & E3) | (c1 & f & c2 & Eb & _ & E2 & E3 & Ec)].
  - rewrite <- HP in E1. rewrite E1. unfold sp. rewrite E3, Z.sub_0_r.
    sbind rd_flag_ok. rewrite Z.add_0_r, u32_id by lia.
    destruct (ANCHOR =? X) eqn:E; zify_bool; [done|]. exists (p_mem st). split_and!; try done. by destruct st.
  - rewrite <- HP in E2. subst b1. pose proof Hz as Hz'. apply Forall_app in Hz' as [Hz1 Hz'].
    apply Forall_cons in Hz' as [[Hf8 _] Hz2]. cbn in Hf8. pose proof (total_nonneg _ Hz1).
    rewrite <- E2 in E3. sbind rd_flag_ok.
    destruct Ec as [-> | (c3 & t & ->)].
    + unfold sp in *. rewrite reverse_snoc. cbn [pop_free fst]. rewrite !total_app in *. cbn [total] in *.
      rewrite (u32_id (P + f)) by lia. destruct (P + f =? X) eqn:E; zify_bool; [|lia].
      sbind rd_flag_ok. sbind wr_flag_ok by in_map. rewrite u32_id by lia.
      replace (X - f) with P by lia. eexists. split; [done|]. cbn [p_mem set_mem]. words.
      split_and!; try lia; try done.
      * intros i Hi. by rewrite put32_out by lia.
      * intros i Hi. by apply put32_is_Some.
    + unfold sp in *. rewrite app_comm_cons, app_assoc, reverse_snoc. cbn [pop_free fst]. rewrite Z.sub_0_r.
      apply Forall_app in Hz2 as [Hz2 Hzt]. apply Forall_cons in Hzt as [[Ht8 _] _]. cbn in Ht8.
      pose proof (total_nonneg _ Hz2). rewrite !total_app in *. cbn [total] in *. rewrite !total_app in *. cbn [total] in *.
      rewrite (u32_id (P + f)) by lia. destruct (P + f =? X) eqn:E; zify_bool; [lia|].
      exists (p_mem st). split_and!; try done. by destruct st.
Qed.

(** The state [pfree] leaves. *)
Definition freed (st : pstate) (m : mem) (s : Z) : pstate :=
  PState m (_ppool_last st) (_pool_size st) (_free_size st + s) (_num_alloc st) (u32 (_num_free st + 1)) 1.

Lemma total_reverse bs : total (reverse bs) = total bs.
Proof.
  induction bs as [|[s al] bs IH]; [done|].
  rewrite reverse_cons, total_app, IH. cbn. lia.
Qed.

Lemma pop_prev_le bs : Forall size_ok bs -> 0 <= fst (pop_free (reverse bs)) <= total bs.
Proof.
  intros H. rewrite <- total_reverse. apply Forall_reverse in H.
  destruct (pop_free (reverse bs)) as [sp rb] eqn:E.
  destruct (pop_free_spec _ _ _ E H) as (q & Eq & <- & _ & _ & Hq). rewrite Eq, total_app in *.
  apply Forall_app in H as [_ H]. pose proof (total_nonneg _ Hq). pose proof (total_nonneg _ H). cbn. lia.
Qed.

(** [_insert_link] on a block whose allocation flag was cleared. *)
Lemma _insert_link_ok ANCHOR st st1 start b1 s b2 X P N E :
  let sp := fst (pop_free (reverse b1)) in
  let '(sn, b2') := pop_free b2 in
  Rep ANCHOR st start (b1 ++ (s, true) :: b2) ->
  at_block (p_mem st) ANCHOR start b1 s true b2 X P N E ->
  p_mem st1 = put32 (p_mem st) (X + 4) s ->
  _ppool_last st1 = _ppool_last st -> _pool_size st1 = _pool_size st ->
  exists m', _insert_link ANCHOR X st1 = Ok (tt, set_mem m' st1) /\
  0 <= sp /\ (sp <> 0 -> P = X - sp) /\
  get32 m' (X - sp) = Some (after (X + s + sn) E b2') /\ get32 m' (X - sp + 4) = Some (sp + s + sn) /\
  (sp = 0 -> get32 m' P = Some X) /\
  (forall i, i < X - sp \/ X + s <= i -> i < P \/ P + 4 <= i -> m' !! i = p_mem st !! i) /\
  (forall i, is_Some (p_mem st !! i) -> is_Some (m' !! i)).
Proof.
  intros sp. destruct (pop_free b2) as [sn b2'] eqn:Epop.
  intros HR Hb Em El Ep.
  pose proof Hb as [HX HP HN HE' Hb1 Hb2 HPr HNr HPn HXn Hfl [Hs8 Hs4] Hm HPm].
  pose proof HR as [Hs Hz Ht Ha [Hmp1 Hmp2] Hc [He _] Hh Hl Hf Hp Hsem].
  apply Forall_app in Hz as [Hz1 Hz]. apply Forall_cons in Hz as [_ Hz2].
  rewrite total_app in *. cbn [total] in *.
  assert (HPd : P + 8 <= X \/ E + 8 <= P) by (destruct HPr; lia).
  rewrite frees_app, <- app_assoc in Hc. cbn [frees app] in Hc.
  assert (HcP : chain (p_mem st1) ANCHOR (frees start b1 ++ [N])).
  { apply chain_app. rewrite <- HP, Em. words. split_and!; try done.
    apply (chain_agree (p_mem st)).
    - destruct (after_cons (start + total b1 + s) b2) as [T ET].
      replace (start + total b1 + s + total b2) with (start + (total b1 + (s + total b2))) in ET by lia.
      rewrite ET in Hc. apply chain_app in Hc. apply Hc.
    - intros n Hn. destruct (nodes_frees ANCHOR start b1 n Hz1 Hn) as [Hr _].
      rewrite get32_put32_ne by lia. done. }
  apply hdrs_app in Hh as [Hh1 Hh]. cbn [hdrs] in Hh. destruct Hh as (_ & _ & Hh2).
  assert (Hh1' : hdrs (p_mem st1) start b1).
  { apply (hdrs_agree (p_mem st)); try done. intros n ? ?. rewrite Em. by words. }
  unfold _insert_link. sgets.
  erewrite stm_bind_ok.
  2: { rewrite HP. apply (insert_walk_ok _ X b1 start ANCHOR _ N []); try done; try lia.
       unfold pool_fuel. rewrite Ep, Hp. pose proof (length_frees start b1 Hz1).
       pose proof (Z.div_mod (total b1 + (s + total b2) + 8) 8).
       pose proof (Z.mod_pos_bound (total b1 + (s + total b2) + 8) 8). lia. }
  cbv beta iota.
  destruct (insert_prev_ok st1 ANCHOR start b1 X s P) as (m1 & E1 & Hsp & HspP & Hf1 & Hout1 & Hmap1);
    try done; try lia; try (rewrite Em; words; done); [rewrite Em; by apply mapped_put32|].
  fold sp in E1, Hsp, HspP, Hf1, Hout1. rewrite <- HP. erewrite stm_bind_ok by apply E1. cbv beta iota.
  pose proof (insert_next_ok (set_mem m1 st1) P (X - sp) (sp + s) (X + s) b2 E) as Hn. rewrite Epop in Hn.
  assert (G : forall n, n + 4 <= X - sp + 4 \/ X - sp + 8 <= n -> n + 4 <= X + 4 \/ X + 8 <= n ->
    get32 m1 n = get32 (p_mem st) n).
  { intros n ? ?. rewrite (get32_agree (p_mem st1)) by (intros i ?; apply Hout1; lia). rewrite Em. by words. }
  pose proof (pop_prev_le b1 Hz1) as Hsp2. fold sp in Hsp2.
  destruct Hn as (m' & E2 & Hn1 & Hn2 & Hn3 & Hn4 & Hn5); cbn [p_mem set_mem _ppool_last] in *;
    try done; try lia.
  - rewrite G by lia. by rewrite HPn, HN.
  - intros b3 ->. rewrite !G by lia. rewrite cons_middle, app_assoc in HR.
    destruct (Rep_block _ _ _ _ _ _ _ HR) as (X2 & P2 & N2 & E2 & [EX _ EN EE _ _ _ _ _ Hn _ _ _ _] & _).
    rewrite total_app in EX. cbn [total] in *. replace (X + s) with X2 by lia.
    replace E with E2 by lia. rewrite <- EN. split; [done|]. cbn in Hh2. replace X2 with (start + total b1 + s) by lia. apply Hh2.
  - intros i Hi. apply Hmap1. rewrite Em. apply put32_is_Some. destruct (decide (sp = 0)); [apply Hm | apply HPm]; lia.
  - intros i Hi. apply Hmap1. rewrite Em. apply put32_is_Some, HPm. lia.
  - exists m'. split_and!; try done.
    + intros Hsp0. rewrite Hsp0, Z.sub_0_r in Hn3. apply Hn3. lia.
    + intros i ? ?. rewrite Hn4 by lia. rewrite Hout1 by lia. rewrite Em. by rewrite put32_out by lia.
    + intros i Hi. apply Hn5, Hmap1. rewrite Em. by apply put32_is_Some.
Qed.

(** [pfree] up to the insertion. *)
Lemma pfree_run ANCHOR st start b1 s b2 X P N E :
  let sp := fst (pop_free (reverse b1)) in
  let '(sn, b2') := pop_free b2 in
  Rep ANCHOR st start (b1 ++ (s, true) :: b2) ->
  at_block (p_mem st) ANCHOR start b1 s true b2 X P N E ->
  exists m', pfree ANCHOR (X + 8) st = Ok (tt, freed st m' s) /\
  0 <= sp /\ (sp <> 0 -> P = X - sp) /\
  get32 m' (X - sp) = Some (after (X + s + sn) E b2') /\ get32 m' (X - sp + 4) = Some (sp + s + sn) /\
  (sp = 0 -> get32 m' P = Some X) /\
  (forall i, i < X - sp \/ X + s <= i -> i < P \/ P + 4 <= i -> m' !! i = p_mem st !! i) /\
  (forall i, is_Some (p_mem st !! i) -> is_Some (m' !! i)).
Proof.
  intros sp. pose proof (_insert_link_ok ANCHOR st (set_free_size (_free_size st + s) (set_mem (put32 (p_mem st) (X + 4) s) (set_sem 0 st))) start b1 s b2 X P N E) as Hins.
  cbv zeta in Hins. fold sp in Hins.
  destruct (pop_free b2) as [sn b2'] eqn:Epop. intros HR Hb.
  destruct (Hins HR Hb eq_refl eq_refl eq_refl) as (m' & E1 & Hrest). clear Hins. exists m'. split; [|done]. clear Hrest.
  pose proof Hb as [HX HP HN HE' Hb1 Hb2 HPr HNr HPn HXn Hfl [Hs8 Hs4] Hm HPm].
  pose proof HR as [Hs Hz Ht Ha [Hmp1 Hmp2] Hc He Hh Hl Hf Hp Hsem].
  rewrite total_app, free_total_app in *. cbn [total free_total] in *.
  pose proof Hz as Hz'. apply Forall_app in Hz' as [Hz1 Hz']. apply Forall_cons in Hz' as [_ Hz2].
  pose proof (free_total_bounds _ Hz1). pose proof (free_total_bounds _ Hz2).
  unfold pfree. change _sizeof_link_t with 8.
  destruct (X + 8 =? NULL) eqn:E0; unfold NULL in E0; zify_bool; [lia|]. cbn [negb].
  replace (X + 8 - 8) with X by lia. rewrite (u32_id X) by lia.
  sbind rd_flag_ok. rewrite flag_tests by lia. change (negb (2 ^ 31 =? 0)) with true. cbv iota.
  sbind rd_next_ok. change (0 =? NULL) with true. cbv iota.
  erewrite stm_bind_ok by (unfold k_sem_take; by rewrite Hsem). cbv beta iota.
  rewrite flag_clear by lia. sbind wr_flag_ok by in_map.
  sbind rd_flag_ok by (cbn [p_mem set_mem]; by words).
  smodify. cbn [p_mem set_mem set_sem _free_size] in *. rewrite u32_id by lia.
  erewrite stm_bind_ok by apply E1. cbv beta iota. smodify. done.
Qed.

(** The neighbours that merge are free: they own no payload. *)
Lemma owned_free q a sn i : q = [] \/ q = [(sn, false)] -> ~ owned a q i.
Proof. intros [-> | ->]; cbn; [tauto|]. intros [[? _] | ?]; done. Qed.

Lemma frees_snoc_free b s a x : lastn x (frees a (b ++ [(s, false)])) = a + total b.
Proof. rewrite frees_app. cbn. by rewrite lastn_snoc. Qed.

Lemma free_total_reverse bs : free_total (reverse bs) = free_total bs.
Proof.
  induction bs as [|[s al] bs IH]; [done|].
  rewrite reverse_cons, free_total_app, IH. cbn. lia.
Qed.

(** The segment around a block that [release] merges. *)
Lemma release_split b1 s b2 : Forall size_ok b1 -> Forall size_ok b2 ->
  let sp := fst (pop_free (reverse b1)) in
  let '(sn, c2) := pop_free b2 in
  exists c1 q1 q2, b1 = c1 ++ q1 /\ b2 = q2 ++ c2 /\ release b1 s b2 = c1 ++ (sp + s + sn, false) :: c2 /\
    total q1 = sp /\ free_total q1 = sp /\ (q1 = [] \/ q1 = [(sp, false)]) /\
    total q2 = sn /\ free_total q2 = sn /\ (q2 = [] \/ q2 = [(sn, false)]) /\
    sp mod 4 = 0 /\ 0 <= sp /\ sn mod 4 = 0 /\ 0 <= sn.
Proof.
  intros H1 H2 sp. apply Forall_reverse in H1.
  unfold release. destruct (pop_free (reverse b1)) as [sp' rb1] eqn:E1. unfold sp. cbn [fst]. clear sp.
  destruct (pop_free b2) as [sn c2] eqn:E2.
  destruct (pop_free_spec _ _ _ E1 H1) as (q1 & Eq1 & T1 & F1 & Q1 & Z1).
  destruct (pop_free_spec _ _ _ E2 H2) as (q2 & Eq2 & T2 & F2 & Q2 & Z2).
  exists (reverse rb1), q1, q2.
  assert (Er : reverse q1 = q1) by (destruct Q1 as [-> | ->]; done).
  assert (Eb1 : b1 = reverse rb1 ++ q1).
  { rewrite <- (reverse_involutive b1), Eq1, reverse_app, Er. done. }
  split_and!; try done.
  - destruct Q1 as [-> | ->]; cbn in *; [by subst | by apply Forall_cons in Z1 as [[? ?] _]].
  - rewrite <- T1. by apply total_nonneg.
  - destruct Q2 as [-> | ->]; cbn in *; [by subst | by apply Forall_cons in Z2 as [[? ?] _]].
  - rewrite <- T2. by apply total_nonneg.
Qed.

Lemma mod4_add a b : a mod 4 = 0 -> b mod 4 = 0 -> (a + b) mod 4 = 0.
Proof. intros Ha Hb. by rewrite Z.add_mod, Ha, Hb by lia. Qed.

(** [q] is nothing or one free block of size [n]. *)
Definition popped (q : list block) (n : Z) : Prop :=
  total q = n /\ free_total q = n /\ (q = [] \/ q = [(n, false)]) /\ n mod 4 = 0 /\ 0 <= n.

(** [pfree] rewrites one segment of the pool, and the link before it. *)
Lemma pfree_segment ANCHOR st start b1 s b2 :
  Rep ANCHOR st start (b1 ++ (s, true) :: b2) ->
  exists m' c1 q1 sp q2 sn c2,
    b1 = c1 ++ q1 /\ b2 = q2 ++ c2 /\ release b1 s b2 = c1 ++ (sp + s + sn, false) :: c2 /\
    popped q1 sp /\ popped q2 sn /\
    pfree ANCHOR (start + total b1 + 8) st = Ok (tt, freed st m' s) /\
    let Y := start + total c1 in
    let P := lastn ANCHOR (frees start c1) in
    let t := sp + s + sn in
    get32 m' Y = Some (after (Y + t) (start + total (b1 ++ (s, true) :: b2)) c2) /\
    get32 m' (Y + 4) = Some t /\ get32 m' P = Some Y /\
    (forall i, i < Y \/ Y + t <= i -> i < P \/ P + 4 <= i -> m' !! i = p_mem st !! i) /\
    (forall i, is_Some (p_mem st !! i) -> is_Some (m' !! i)).
Proof.
  intros HR. destruct (Rep_block _ _ _ _ _ _ _ HR) as (X & P & N & E & Hb & HE).
  pose proof (pfree_run ANCHOR st start b1 s b2 X P N E) as Hrun. cbv zeta in Hrun.
  pose proof HR as [Hs Hz _ Ha _ _ _ _ _ _ _ _]. rewrite <- HE in *.
  apply Forall_app in Hz as [Hz1 Hz]. apply Forall_cons in Hz as [_ Hz2].
  pose proof (release_split b1 s b2 Hz1 Hz2) as Hrel. cbv zeta in Hrel.
  set (sp := fst (pop_free (reverse b1))) in *. destruct (pop_free b2) as [sn c2] eqn:Epop.
  clearbody sp. destruct (Hrun HR Hb) as (m' & E1 & _ & HspP & Hn1 & Hn2 & Hn3 & Hout & Hmap). clear Hrun.
  destruct Hrel as (c1 & q1 & q2 & -> & -> & -> & T1 & F1 & Q1 & T2 & F2 & Q2 & Hsp4 & Hsp0 & Hsn4 & Hsn0).
  destruct Hb as [HX HP HN HE' Hb1 Hb2 HPr HNr HPn HXn Hfl [Hs8 _] Hm HPm].
  rewrite <- HX. exists m', c1, q1, sp, q2, sn, c2. rewrite total_app in HX.
  do 3 (split; [done|]). do 2 (split; [by split_and!|]). split; [done|]. cbv zeta.
  replace (start + total c1) with (X - sp) by lia.
  replace (X - sp + (sp + s + sn)) with (X + s + sn) by lia.
  set (P2 := lastn ANCHOR (frees start c1)).
  assert (HPP : (sp = 0 /\ P = P2) \/
    (8 <= sp /\ P = X - sp /\ get32 (p_mem st) P2 = Some P /\ (P2 + 4 <= P \/ E + 8 <= P2))).
  { destruct Q1 as [-> | ->].
    - left. rewrite app_nil_r in HP. by rewrite <- T1.
    - right. rewrite <- app_assoc in HR. cbn [app] in HR. rewrite frees_snoc_free in HP.
      destruct (Rep_block _ _ _ _ _ _ _ HR) as (X2 & P3 & N2 & E2 & [? HP3 ? ? ? ? HP2r ? HP2 ? ? [? _] ? ?] & _).
      fold P2 in HP3. cbn in T1. rewrite <- HP3. replace P with X2 by lia. split_and!; try (done || lia). }
  split_and!; try done.
  - destruct HPP as [[? <-] | (? & ? & HP2 & ?)]; [rewrite Hn3 by done; f_equal; lia|].
    rewrite (get32_agree (p_mem st)); [by rewrite HP2; f_equal|]. intros i ?. apply Hout; lia.
  - intros i ? ?. apply Hout; [lia|]. destruct HPP as [[? ->] | (? & -> & ?)]; lia.
Qed.

Lemma pfree_spec ANCHOR st start b1 s b2 :
  Rep ANCHOR st start (b1 ++ (s, true) :: b2) ->
  exists st', pfree ANCHOR (start + total b1 + 8) st = Ok (tt, st') /\
    Rep ANCHOR st' start (release b1 s b2) /\
    _num_free st' = u32 (_num_free st + 1) /\ _num_alloc st' = _num_alloc st /\
    (forall i, owned start b1 i \/ owned (start + total b1 + s) b2 i -> p_mem st' !! i = p_mem st !! i).
Proof.
  intros HR. destruct (pfree_segment _ _ _ _ _ _ HR)
    as (m' & c1 & q1 & sp & q2 & sn & c2 & -> & -> & -> & (T1 & F1 & Q1 & Z1 & P1) & (T2 & F2 & Q2 & Z2 & P2)
        & E1 & Hn1 & Hn2 & Hn3 & Hgap & Hmap).
  exists (freed st m' s). split; [done|].
  pose proof HR as [_ Hz _ _ _ _ _ _ _ Hf _ _].
  apply Forall_app in Hz as [_ Hz]. apply Forall_cons in Hz as [[Hs8 Hs4] _]. cbn in Hs8, Hs4.
  assert (Hmid : total (q1 ++ (s, true) :: q2) = sp + s + sn) by (rewrite total_app; cbn; lia).
  assert (Eb : (c1 ++ q1) ++ (s, true) :: q2 ++ c2 = c1 ++ (q1 ++ (s, true) :: q2) ++ c2) by by rewrite <- !app_assoc.
  rewrite Eb in HR, Hn1. split; [|split_and!; try done].
  - apply (Rep_splice _ st (freed st m' s) start c1 (q1 ++ (s, true) :: q2) [(sp + s + sn, false)] c2);
      cbn [p_mem freed palloc_sem _free_size]; rewrite ?Hmid; try done.
    + cbn. lia.
    + repeat constructor; cbn; [lia|]. by repeat apply mod4_add.
    + rewrite Hf, !free_total_app. cbn [free_total]. rewrite !free_total_app. lia.
  - intros i Ho. apply (owned_frame ANCHOR st (freed st m' s) start c1 (q1 ++ (s, true) :: q2) c2);
      rewrite ?Hmid; try done.
    rewrite !owned_app, T2 in Ho. rewrite total_app, T1 in Ho.
    replace (start + total c1 + (sp + s + sn)) with (start + (total c1 + sp) + s + sn) by lia.
    pose proof (owned_free q1 (start + total c1) sp i Q1).
    pose proof (owned_free q2 (start + (total c1 + sp) + s) sn i Q2). tauto.
Qed.
