(* ===== verification/PallocThm.v ===== *)
(** What clients of the allocator rely on: functional refinement of palloc,
    pfree and palloc_init, and safety of every sequence of calls. *)

From S2P Require Import Prelude PallocMem Palloc PallocInv PallocProof.

(** ** Coalescing *)


Lemma coalesced_app b1 al s b2 :
  coalesced (b1 ++ (s, al) :: b2) <->
  coalesced b1 /\ coalesced b2 /\ (al = false -> ~ free_hd b2 /\ ~ free_hd (reverse b1)).
Proof.
  induction b1 as [|[s1 al1] b1 IH].
  - cbn. tauto.
  - cbn [app coalesced]. rewrite IH. clear IH.
    assert (E : free_hd (b1 ++ (s, al) :: b2) <-> free_hd b1 \/ (b1 = [] /\ al = false)).
    { destruct b1 as [|[? [|]] ?]; cbn; [destruct al|..]; intuition done. }
    rewrite E, reverse_cons.
    assert (E2 : free_hd (reverse b1 ++ [(s1, al1)]) <-> free_hd (reverse b1) \/ (b1 = [] /\ al1 = false)).
    { destruct b1 as [|b b1] using rev_ind; [cbn; destruct al1; intuition done|].
      rewrite reverse_snoc. destruct b as [? [|]]; cbn; intuition (try done).
      all: destruct b1; discriminate. }
    rewrite E2. destruct al, al1; intuition (try done).
Qed.

Lemma coalesced_snoc_free b1 s : coalesced (b1 ++ [(s, false)]) -> ~ free_hd (reverse b1).
Proof. rewrite coalesced_app. tauto. Qed.

Lemma pop_free_not bs : ~ free_hd bs -> pop_free bs = (0, bs).
Proof. destruct bs as [|[? [|]] ?]; cbn; tauto. Qed.

Lemma place_coalesced b1 s b2 need : coalesced (b1 ++ (s, false) :: b2) -> coalesced (place b1 s b2 need).
Proof.
  unfold place. rewrite coalesced_app. intros (H1 & H2 & H3). destruct H3 as [H3 H4]; [done|].
  case_test; rewrite coalesced_app; cbn [coalesced]; intuition done.
Qed.

Lemma release_coalesced b1 s b2 : coalesced (b1 ++ (s, true) :: b2) -> coalesced (release b1 s b2).
Proof.
  unfold release. rewrite coalesced_app. intros (H1 & H2 & _).
  destruct (pop_free (reverse b1)) as [sp rb1] eqn:E1, (pop_free b2) as [sn c2] eqn:E2.
  rewrite coalesced_app, reverse_involutive.
  assert (Hc2 : coalesced c2 /\ ~ free_hd c2).
  { destruct b2 as [|[? [|]] ?]; cbn in *; injection E2 as <- <-; cbn; tauto. }
  assert (Hrb : coalesced (reverse rb1) /\ ~ free_hd rb1).
  { rewrite <- (reverse_involutive b1) in H1.
    destruct (reverse b1) as [|[? [|]] ?]; cbn in E1; injection E1 as <- <-; cbn [free_hd]; try tauto.
    rewrite reverse_cons in H1. pose proof (coalesced_snoc_free _ _ H1) as H3. rewrite reverse_involutive in H3.
    rewrite coalesced_app in H1. tauto. }
  tauto.
Qed.

(** Freeing what was just placed gives the tiles back. *)
Lemma place_release b1 s b2 need : need <= s ->
  exists t c2, place b1 s b2 need = b1 ++ (t, true) :: c2 /\ need <= t <= s /\
    (forall a, lives (a + t) c2 = lives (a + s) b2) /\
    (forall a i, owned (a + t) c2 i <-> owned (a + s) b2 i) /\
    (coalesced (b1 ++ (s, false) :: b2) -> release b1 t c2 = b1 ++ (s, false) :: b2).
Proof.
  intros Hle. unfold place. case_test.
  - exists need, ((s - need, false) :: b2). split_and!; try done; try lia.
    + intros a. cbn. f_equal. lia.
    + intros a i. cbn. replace (a + need + (s - need)) with (a + s) by lia. intuition done.
    + intros Hc. apply coalesced_app in Hc as (_ & _ & H). destruct H as [H1 H2]; [done|]. unfold release.
      rewrite (pop_free_not (reverse b1)) by done. cbn [pop_free]. rewrite reverse_involutive. do 3 f_equal. lia.
  - exists s, b2. split_and!; try done; try lia.
    intros Hc. apply coalesced_app in Hc as (_ & _ & H). destruct H as [H1 H2]; [done|]. unfold release.
    rewrite !pop_free_not by done. rewrite reverse_involutive. do 3 f_equal. lia.
Qed.

Lemma lives_app a b1 b2 : lives a (b1 ++ b2) = lives a b1 ++ lives (a + total b1) b2.
Proof.
  revert a. induction b1 as [|[s al] b1 IH]; intros a; cbn; [by rewrite Z.add_0_r|].
  rewrite IH, app_assoc. do 2 f_equal. lia.
Qed.

Lemma lives_free q n a : popped q n -> lives a q = [].
Proof. intros (_ & _ & [-> | ->] & _); done. Qed.

Lemma release_lives a b1 s b2 : Forall size_ok b1 -> Forall size_ok b2 ->
  lives a (release b1 s b2) = lives a b1 ++ lives (a + total b1 + s) b2.
Proof.
  intros H1 H2. pose proof (release_split b1 s b2 H1 H2) as H. cbv zeta in H.
  destruct (pop_free b2) as [sn c2].
  destruct H as (c1 & q1 & q2 & -> & -> & -> & T1 & F1 & Q1 & T2 & F2 & Q2 & ? & ? & ? & ?).
  rewrite !lives_app, (lives_free q1 (fst (pop_free (reverse (c1 ++ q1))))), (lives_free q2 sn) by by split_and!.
  cbn. rewrite app_nil_r, total_app. do 2 f_equal. lia.
Qed.

Lemma lives_elem a bs p c : (p, c) ∈ lives a bs ->
  exists b1 s b2, bs = b1 ++ (s, true) :: b2 /\ p = a + total b1 + 8 /\ c = s - 8.
Proof.
  revert a. induction bs as [|[s al] bs IH]; intros a H; cbn in H; [set_solver|].
  apply elem_of_app in H as [H | H].
  - destruct al; [|set_solver]. apply list_elem_of_singleton in H as [= -> ->].
    exists [], s, bs. cbn. split_and!; (done || lia).
  - destruct (IH _ H) as (b1 & t & b2 & -> & -> & ->). exists ((s, al) :: b1), t, b2.
    cbn. split_and!; (done || lia).
Qed.

Lemma lives_range a bs p c : Forall size_ok bs -> (p, c) ∈ lives a bs ->
  a + 8 <= p /\ 0 <= c /\ p + c <= a + total bs.
Proof.
  intros Hz H. destruct (lives_elem _ _ _ _ H) as (b1 & s & b2 & -> & -> & ->).
  apply Forall_app in Hz as [Hz1 Hz]. apply Forall_cons in Hz as [[Hs _] Hz2]. cbn in Hs.
  pose proof (total_nonneg _ Hz1). pose proof (total_nonneg _ Hz2). rewrite total_app. cbn [total]. lia.
Qed.

(** Distinct live blocks are at least a header apart. *)
Lemma lives_disjoint a bs p c p' c' : Forall size_ok bs ->
  (p, c) ∈ lives a bs -> (p', c') ∈ lives a bs -> (p = p' /\ c = c') \/ p + c + 8 <= p' \/ p' + c' + 8 <= p.
Proof.
  intros Hz. revert a. induction Hz as [|[s al] bs [Hs _] Hz IH]; intros a H H'; cbn in H, H'; [set_solver|].
  cbn in Hs. apply elem_of_app in H as [H | H]; apply elem_of_app in H' as [H' | H'].
  - destruct al; [|set_solver]. apply list_elem_of_singleton in H as [= -> ->].
    apply list_elem_of_singleton in H' as [= -> ->]. by left.
  - destruct al; [|set_solver]. apply list_elem_of_singleton in H as [= -> ->].
    apply (lives_range _ _ _ _ Hz) in H'. lia.
  - destruct al; [|set_solver]. apply list_elem_of_singleton in H' as [= -> ->].
    apply (lives_range _ _ _ _ Hz) in H. lia.
  - by apply (IH (a + s)).
Qed.

(** ** Clients *)

(** A request to which the header can be added without wrapping around. *)
Definition request (size : Z) : Prop := 0 <= size <= 2 ^ 32 - 12.

Lemma palloc_zero ANCHOR st start bs : Rep ANCHOR st start bs -> palloc ANCHOR 0 st = Ok (NULL, st).
Proof.
  intros HR. destruct (after_cons start bs) as [T ET].
  assert (HA : get32 (p_mem st) ANCHOR = Some (after start (start + total bs) bs)).
  { pose proof (rep_chain _ _ _ _ HR) as Hc. rewrite ET in Hc. apply Hc. }
  unfold palloc. sbind rd_next_ok. by rewrite orb_true_r.
Qed.

(** What [palloc] answers to a request: NULL and the same pool, or a block
    carved from the pool. *)
Lemma palloc_cases ANCHOR st start bs size : Rep ANCHOR st start bs -> request size ->
  let need := ALIGNED_VALUE (u32 (size + _sizeof_link_t)) in
  palloc ANCHOR size st = Ok (NULL, st) \/
  size + 8 <= need /\ exists b1 s b2 st', bs = b1 ++ (s, false) :: b2 /\ need <= s /\
    palloc ANCHOR size st = Ok (start + total b1 + 8, st') /\ Rep ANCHOR st' start (place b1 s b2 need).
Proof.
  intros HR Hsize need. destruct (decide (size = 0)) as [->|Hne]; [left; by eapply palloc_zero|].
  assert (Hs : 0 < size <= 2 ^ 32 - 12) by (unfold request in Hsize; lia).
  pose proof (palloc_spec _ _ _ _ _ HR (size_fits size Hs)) as H. cbv zeta in H. fold need in H.
  pose proof (fit_spec need bs) as Hfit. destruct (fit need bs) as [[[b1 s] b2]|]; [|by left]. right.
  destruct Hfit as [_ Hle]. destruct H as (-> & st' & E & HR' & _).
  split; [apply (need_bounds size Hs)|]. by exists b1, s, b2, st'.
Qed.

(** The steps of a client that frees only what it holds and writes only inside
    it; the second component maps each pointer it holds to the size it asked. *)
Inductive step (ANCHOR : Z) : pstate * gmap Z Z -> pstate * gmap Z Z -> Prop :=
  | step_palloc size p st st' L :
      request size -> palloc ANCHOR size st = Ok (p, st') -> p <> NULL ->
      step ANCHOR (st, L) (st', <[p := size]> L)
  | step_palloc_null size st st' L :
      request size -> palloc ANCHOR size st = Ok (NULL, st') ->
      step ANCHOR (st, L) (st', L)
  | step_pfree p size st st' L :
      L !! p = Some size -> pfree ANCHOR p st = Ok (tt, st') ->
      step ANCHOR (st, L) (st', delete p L)
  | step_write p size i v st L :
      L !! p = Some size -> p <= i < p + size ->
      step ANCHOR (st, L) (set_mem (<[i := u8 v]> (p_mem st)) st, L).

(** The pool and what the client holds agree. *)
Definition agree (start : Z) (bs : list block) (L : gmap Z Z) : Prop :=
  (forall p n, L !! p = Some n -> exists c, (p, c) ∈ lives start bs /\ n <= c) /\
  (forall p c, (p, c) ∈ lives start bs -> is_Some (L !! p)).

Definition heap_ok (ANCHOR start e : Z) (s : pstate * gmap Z Z) : Prop :=
  exists bs, Rep ANCHOR (fst s) start bs /\ coalesced bs /\ agree start bs (snd s) /\ start + total bs = e.

Lemma total_place b1 s b2 need : total (place b1 s b2 need) = total (b1 ++ (s, false) :: b2).
Proof. unfold place. case_test; rewrite !total_app; cbn; lia. Qed.

Lemma total_release b1 s b2 : Forall size_ok b1 -> Forall size_ok b2 ->
  total (release b1 s b2) = total b1 + s + total b2.
Proof.
  intros H1 H2. pose proof (release_split b1 s b2 H1 H2) as H. cbv zeta in H.
  destruct (pop_free b2) as [sn c2].
  destruct H as (c1 & q1 & q2 & -> & -> & -> & T1 & F1 & Q1 & T2 & F2 & Q2 & ? & ? & ? & ?).
  rewrite !total_app. cbn. lia.
Qed.

Lemma owned_lives a bs i p c : (p, c) ∈ lives a bs -> p <= i < p + c -> owned a bs i.
Proof.
  intros H Hi. destruct (lives_elem _ _ _ _ H) as (b1 & s & b2 & -> & -> & ->).
  apply owned_app. right. cbn. left. split; [done|lia].
Qed.

Lemma owned_elem a bs i : owned a bs i ->
  exists b1 s b2, bs = b1 ++ (s, true) :: b2 /\ a + total b1 + 8 <= i < a + total b1 + s.
Proof.
  revert a. induction bs as [|[s al] bs IH]; intros a H; cbn in H; [done|].
  destruct H as [[-> H] | H].
  - exists [], s, bs. cbn. split; [done | lia].
  - destruct (IH _ H) as (b1 & t & b2 & -> & Hi). exists ((s, al) :: b1), t, b2. cbn. split; [done | lia].
Qed.

(** Writing inside a payload leaves the pool as it is. *)
Lemma Rep_write ANCHOR st start bs i v : Rep ANCHOR st start bs -> owned start bs i ->
  Rep ANCHOR (set_mem (<[i := v]> (p_mem st)) st) start bs.
Proof.
  intros HR Ho. destruct (owned_elem _ _ _ Ho) as (b1 & s & b2 & -> & Hi).
  destruct (Rep_block _ _ _ _ _ _ _ HR) as (X & P & N & E & Hb & HE).
  destruct Hb as [HX HP HN HE' Hb1 Hb2 HPr HNr HPn HXn Hfl [Hs8 Hs4] Hm HPm].
  pose proof HR as [_ _ _ Ha _ _ _ _ _ Hf _ Hsem]. rewrite <- HE in Ha.
  change (b1 ++ (s, true) :: b2) with (b1 ++ [(s, true)] ++ b2) in *.
  assert (Hg : forall n, n + 4 <= i \/ i < n -> get32 (<[i := v]> (p_mem st)) n = get32 (p_mem st) n).
  { intros n Hn. apply get32_agree. intros j Hj. by rewrite lookup_insert_ne by lia. }
  apply (Rep_splice _ st _ start b1 [(s, true)]); cbn [p_mem set_mem _free_size palloc_sem total];
    rewrite ?Z.add_0_r, <- ?HX, <- ?HP, <- ?HE, <- ?HN; try done.
  - by repeat constructor.
  - intros j ? ?. by rewrite lookup_insert_ne by lia.
  - intros j Hj. rewrite lookup_insert_is_Some'. by right.
  - cbn. rewrite !Hg by lia. done.
  - cbn. rewrite Hg by lia. done.
  - rewrite Hf, !free_total_app. cbn. lia.
Qed.

Lemma agree_insert start bs bs' L p n c :
  lives start bs' ≡ₚ (p, c) :: lives start bs -> n <= c ->
  agree start bs L -> agree start bs' (<[p := n]> L).
Proof.
  intros E Hn [A1 A2]. split.
  - intros q k Hq. setoid_rewrite E. destruct (decide (q = p)) as [-> | Hne].
    + rewrite lookup_insert_eq in Hq. injection Hq as <-. exists c. split; [by left | done].
    + rewrite lookup_insert_ne in Hq by done. destruct (A1 _ _ Hq) as (d & Hd & ?).
      exists d. split; [by right | done].
  - intros q d. rewrite E. intros Hq. apply lookup_insert_is_Some'.
    apply elem_of_cons in Hq as [[= -> ->] | Hq]; [by left | right; eauto].
Qed.

Lemma agree_delete start bs bs' L p c :
  lives start bs ≡ₚ (p, c) :: lives start bs' -> (forall d, (p, d) ∉ lives start bs') ->
  agree start bs L -> agree start bs' (delete p L).
Proof.
  intros E Hp [A1 A2]. split.
  - intros q k Hq. apply lookup_delete_Some in Hq as [Hne Hq]. destruct (A1 _ _ Hq) as (d & Hd & ?).
    rewrite E in Hd. apply elem_of_cons in Hd as [[= -> ->] | Hd]; [done | eauto].
  - intros q d Hd. assert (p <> q) by (intros <-; by apply (Hp d)).
    rewrite lookup_delete_ne by done. apply (A2 q d). rewrite E. by right.
Qed.

Lemma agree_release start b1 t b2 L : Forall size_ok (b1 ++ (t, true) :: b2) ->
  agree start (b1 ++ (t, true) :: b2) L ->
  agree start (release b1 t b2) (delete (start + total b1 + 8) L).
Proof.
  intros Hz. apply Forall_app in Hz as [Hz1 Hz]. apply Forall_cons in Hz as [[Ht _] Hz2]. cbn in Ht.
  apply (agree_delete _ _ _ _ _ (t - 8)).
  - rewrite release_lives by done. rewrite lives_app. cbn. by rewrite Permutation_middle.
  - intros d Hd. rewrite release_lives in Hd by done.
    apply elem_of_app in Hd as [Hd | Hd]; apply lives_range in Hd; (done || lia).
Qed.

Lemma agree_place start b1 s b2 need n L : need <= s -> n + 8 <= need ->
  agree start (b1 ++ (s, false) :: b2) L ->
  agree start (place b1 s b2 need) (<[start + total b1 + 8 := n]> L).
Proof.
  intros Hle Hn. destruct (place_release b1 s b2 need Hle) as (t & c2 & -> & Ht & Hl & _ & _).
  apply (agree_insert _ _ _ _ _ _ (t - 8)); [|lia].
  rewrite !lives_app. cbn. rewrite Hl. by rewrite Permutation_middle.
Qed.

Lemma step_ok ANCHOR start e s s' : heap_ok ANCHOR start e s -> step ANCHOR s s' -> heap_ok ANCHOR start e s'.
Proof.
  intros (bs & HR & Hco & [A1 A2] & He) Hstep. cbn [fst snd] in *.
  pose proof (rep_sizes _ _ _ _ HR) as Hz.
  destruct Hstep as [size p st st' L Hsize E Hp | size st st' L Hsize E | p size st st' L Hp E | p size i v st L Hp Hi];
    cbn [fst snd] in *.
  - destruct (palloc_cases _ _ _ _ _ HR Hsize) as [E2 | (Hn & b1 & t & b2 & st2 & -> & Hle & E2 & HR2)];
      rewrite E2 in E; injection E as <- <-; [done|].
    eexists. cbn [fst snd]. split_and!; [done | by apply place_coalesced | apply agree_place; (done || lia) |].
    by rewrite total_place.
  - destruct (palloc_cases _ _ _ _ _ HR Hsize) as [E2 | (_ & b1 & t & b2 & st2 & -> & _ & E2 & _)]; rewrite E2 in E.
    + injection E as <-. by exists bs.
    + injection E as E _. apply Forall_app in Hz as [Hz _]. pose proof (total_nonneg _ Hz).
      pose proof (rep_start _ _ _ _ HR). unfold NULL in E. lia.
  - destruct (A1 _ _ Hp) as (c & Hc & Hn).
    destruct (lives_elem _ _ _ _ Hc) as (b1 & t & b2 & -> & -> & ->).
    destruct (pfree_spec _ _ _ _ _ _ HR) as (st2 & E2 & HR2 & _).
    rewrite E2 in E. injection E as <-.
    exists (release b1 t b2). cbn [fst snd]. split_and!;
      [done | by apply release_coalesced | by apply agree_release |].
    apply Forall_app in Hz as [Hz1 Hz]. apply Forall_cons in Hz as [_ Hz2].
    rewrite total_release by done. rewrite total_app in He. cbn in He. lia.
  - destruct (A1 _ _ Hp) as (c & Hc & Hn). exists bs. split_and!; try done.
    apply Rep_write; [done|]. eapply owned_lives; [done | lia].
Qed.

(** ** Initialisation *)

(** The statics before the first [palloc_init]: zeroed storage, and the
    semaphore [K_SEM_DEFINE] made available. *)
Record fresh (ANCHOR : Z) (st : pstate) : Prop := {
  fresh_anchor : get32 (p_mem st) ANCHOR = Some 0 /\ get32 (p_mem st) (ANCHOR + 4) = Some 0;
  fresh_map : mapped (p_mem st) ANCHOR 8;
  fresh_statics : _ppool_last st = 0 /\ _pool_size st = 0 /\ _free_size st = 0;
  fresh_sem : palloc_sem st = 1
}.

Lemma palloc_init_fresh ANCHOR st pstart pend :
  let start := ALIGNED_VALUE pstart in
  let e := ALIGNED_VALUE pend in
  fresh ANCHOR st -> 0 < pstart -> 0 <= pend -> pstart <= 2 ^ 32 - 4 -> pend <= 2 ^ 32 - 4 ->
  16 < e - start < 2 ^ 31 -> mapped (p_mem st) start (e - start) ->
  0 <= ANCHOR -> ANCHOR + 8 <= 2 ^ 32 -> ANCHOR + 8 <= start \/ e <= ANCHOR ->
  exists st', palloc_init ANCHOR pstart pend st = Ok (tt, st') /\
    Rep ANCHOR st' start [(e - start - 8, false)] /\ _num_alloc st' = _num_alloc st /\ _num_free st' = _num_free st.
Proof.
  intros start e [[A1 A2] Am (S1 & S2 & S3) Hsem] Hp1 Hp2 Hp3 Hp4 Hsz Hm HA1 HA2 HA3.
  pose proof (aligned_bounds pstart) as Hs. pose proof (aligned_bounds pend) as He.
  pose proof (aligned_mod pstart) as Hs4. pose proof (aligned_mod pend) as He4.
  unfold palloc_init. fold start in Hs, Hs4 |- *. fold e in He, He4 |- *. clearbody start e.
  change (_sizeof_link_t * 2) with 16. change _sizeof_link_t with 8. rewrite (u32_id (e - start)) by lia.
  destruct (e - start >? 16) eqn:E; zify_bool; [|lia].
  erewrite stm_bind_ok by (unfold k_sem_take; by rewrite Hsem). cbv beta iota.
  sbind rd_next_ok. sgets.
  erewrite stm_bind_ok by (by destruct (pool_fuel _)). cbv beta iota.
  change (0 =? NULL) with true. cbv iota. sgets. rewrite !u32_id by lia. smodify.
  cbn [_ppool_last set_sem]. rewrite S1. unfold _set_block. change (negb (0 =? NULL)) with false. cbv iota.
  sbind set_link_ok by in_map. sbind set_link_ok by in_map.
  rewrite ?stm_bind_bind, stm_ret_bind.
  cbn [p_mem set_mem set_last set_sem].
  sbind rd_next_ok by (cbn [p_mem set_mem]; words; done).
  replace (start + (e - start) - 8) with (start + (e - start - 8)) by lia.
  change (0 =? NULL) with true. cbv iota. sbind set_link_ok by in_map.
  rewrite ?stm_bind_bind, stm_ret_bind.
  destruct (e - start =? 0) eqn:E1; zify_bool; [lia|]. cbn [negb].
  sbind rd_flag_ok by (cbn [p_mem set_mem]; unfold NULL; words; done).
  do 2 smodify. eexists. split; [done|]. cbn [_num_alloc _num_free set_mem set_sem set_last set_pool_size set_free_size].
  split; [|done]. cbn. rewrite S2, S3, !u32_id by lia. unfold NULL.
  constructor; cbn; words; rewrite ?Z.add_0_r; split_and?; try done; try lia; maps.
  - repeat constructor; cbn; [lia|]. rewrite Zminus_mod, (Zminus_mod e), Hs4, He4. done.
  - eapply mapped_sub; [done | lia | lia].
  - done.
  - by words.
  - by words.
Qed.

(** ** memset inside a payload, and palloc_stats *)

Lemma memset_Rep ANCHOR st start bs v n : forall a m m',
  Rep ANCHOR (set_mem m st) start bs -> (forall i, a <= i < a + Z.of_nat n -> owned start bs i) ->
  memset_bytes m a v n = Ok m' -> Rep ANCHOR (set_mem m' st) start bs.
Proof.
  induction n as [|n IH]; intros a m m' HR Ho E; cbn [memset_bytes] in E.
  { by injection E as <-. }
  unfold store8 in E. destruct (m !! a); [|done]. unfold mbind, res_bind in E.
  eapply IH, E; [|intros i Hi; apply Ho; lia].
  apply (Rep_write ANCHOR (set_mem m st)); [done|]. apply Ho. lia.
Qed.

Fixpoint free_sizes (bs : list block) : list Z :=
  match bs with [] => [] | (s, al) :: bs => (if al : bool then [] else [s]) ++ free_sizes bs end.

Definition largest_of (z : Z) (l : list Z) : Z := foldl Z.max z l.
Definition smallest_of (z : Z) (l : list Z) : Z := foldl Z.min z l.

Lemma stats_walk_ok st bs : forall a fuel links lg sm E,
  0 < a -> E = a + total bs -> Forall size_ok bs -> hdrs (p_mem st) a bs ->
  (exists x, chain (p_mem st) x (frees a bs ++ [E; 0])) -> get32 (p_mem st) (E + 4) = Some 0 ->
  (S (length (frees a bs)) < fuel)%nat -> 0 <= lg -> 0 <= links ->
  links + Z.of_nat (length (frees a bs)) + 1 < 2 ^ 32 ->
  stats_walk fuel (after a E bs) links lg sm st =
    Ok ((links + Z.of_nat (length (frees a bs)) + 1, largest_of lg (free_sizes bs), smallest_of sm (free_sizes bs)), st).
Proof.
  induction bs as [|[s al] bs IH]; intros a fuel links lg sm E Ha HE Hz Hh [x Hc] He Hf Hlg Hlk Hb.
  - cbn in *. destruct fuel as [|[|fuel]]; [lia|lia|]. destruct Hc as (_ & Hc & _). cbn [after frees hd stats_walk].
    change (after a E []) with E. unfold NULL. cbn [stats_walk]. destruct (E =? 0) eqn:E0; zify_bool; [lia|].
    sbind rd_flag_ok. case_test; [lia|]. cbn [Z.gtb]. change (0 >? 0) with false. cbn [andb].
    sbind rd_next_ok. cbn [stats_walk NULL Z.eqb]. rewrite u32_id by lia. cbn. by rewrite Z.add_0_r.
  - apply Forall_cons in Hz as [[Hs Hm] Hz]. cbn [fst total] in *. destruct al; cbn [frees app hdrs free_sizes] in *.
    + destruct Hh as (_ & _ & Hh). change (after a E ((s, true) :: bs)) with (after (a + s) E bs).
      apply IH; (done || lia || eauto).
    + destruct Hh as [E1 Hh]. cbn [chain] in Hc. destruct Hc as [_ Hc].
      change (after a E ((s, false) :: bs)) with a. cbn [length] in *.
      destruct fuel as [|fuel]; [lia|]. cbn [stats_walk]. unfold NULL. destruct (a =? 0) eqn:E0; zify_bool; [lia|].
      sbind rd_flag_ok.
      destruct (after_cons (a + s) bs) as [T ET]. replace (a + s + total bs) with E in ET by lia.
      pose proof Hc as Hc'. rewrite ET in Hc'. cbn [chain] in Hc'. destruct Hc' as [Hn _].
      sbind rd_next_ok. rewrite u32_id by lia.
      replace (if lg <? s then s else lg) with (Z.max lg s) by (case_test; lia).
      replace (if (s >? 0) && (sm >? s) then s else sm) with (Z.min sm s) by
        (destruct (s >? 0) eqn:E2; zify_bool; [|lia]; cbn [andb]; case_test; lia).
      rewrite (IH (a + s)) by (done || lia || eauto).
      cbn. do 4 f_equal. lia.
Qed.

(** ** Concrete pools for the witnesses *)

(** [n] zero bytes from [a]. *)
Fixpoint zeros (a : Z) (n : nat) (m : mem) : mem :=
  match n with O => m | S n => <[a := 0]> (zeros (a + 1) n m) end.

Lemma zeros_mapped a n m : mapped (zeros a n m) a (Z.of_nat n).
Proof.
  revert a. induction n as [|n IH]; intros a i Hi; cbn; [lia|].
  destruct (decide (i = a)) as [->|]; [rewrite lookup_insert_eq; eauto|].
  rewrite lookup_insert_ne by lia. apply IH. lia.
Qed.

Lemma zeros_keep a n m b k : mapped m b k -> mapped (zeros a n m) b k.
Proof. intros H. revert a. induction n as [|n IH]; intros a; cbn; [done|]. by apply mapped_insert. Qed.

(** [_anchor] at 1000 and a pool of 128 bytes at 2000. *)
Definition st0 : pstate := PState (zeros 1000 8 (zeros 2000 128 ∅)) 0 0 0 0 0 1.

Lemma st0_fresh : fresh 1000 st0.
Proof.
  constructor; [by vm_compute | | done | done]. exact (zeros_mapped 1000 8 _).
Qed.

Lemma st0_mapped : mapped (p_mem st0) 2000 128.
Proof. exact (zeros_keep 1000 8 _ 2000 128 (zeros_mapped 2000 128 _)). Qed.

Lemma st0_init : exists st1, palloc_init 1000 2000 2128 st0 = Ok (tt, st1) /\ Rep 1000 st1 2000 [(120, false)].
Proof.
  destruct (palloc_init_fresh 1000 st0 2000 2128 st0_fresh) as (st1 & E & HR & _); try by_decide.
  - exact st0_mapped.
  - exists st1. split; [exact E | exact HR].
Qed.

(** ** Properties *)

(** The first [palloc_init] on a region makes one free block of all of it
    (two headers excepted), never faulting. *)
Theorem palloc_init_correct ANCHOR st pstart pend :
  let start := ALIGNED_VALUE pstart in
  let e := ALIGNED_VALUE pend in
  fresh ANCHOR st -> 0 < pstart <= 2 ^ 32 - 4 -> 0 <= pend <= 2 ^ 32 - 4 ->
  16 < e - start < 2 ^ 31 -> mapped (p_mem st) start (e - start) ->
  0 <= ANCHOR -> ANCHOR + 8 <= 2 ^ 32 -> ANCHOR + 8 <= start \/ e <= ANCHOR ->
  exists st', palloc_init ANCHOR pstart pend st = Ok (tt, st') /\
    Rep ANCHOR st' start [(e - start - 8, false)] /\
    _num_alloc st' = _num_alloc st /\ _num_free st' = _num_free st.
Proof. intros start e Hf [? ?] [? ?] ? ? ? ? ?. by apply palloc_init_fresh. Qed.

Lemma palloc_init_correct_witness :
  exists st', palloc_init 1000 2000 2128 st0 = Ok (tt, st') /\ Rep 1000 st' 2000 [(120, false)] /\
    _num_alloc st' = 0 /\ _num_free st' = 0.
Proof.
  apply (palloc_init_correct 1000 st0 2000 2128 st0_fresh); try by_decide.
  - exact st0_mapped.
Defined.

(** C6: [palloc] is first-fit allocation on the tiles of the pool: it answers
    NULL and changes nothing exactly when no free block is large enough, and
    otherwise carves the first one that is, leaving every payload as it was. *)
Theorem palloc_refines ANCHOR st start bs size :
  Rep ANCHOR st start bs -> 0 < size <= 2 ^ 32 - 12 ->
  let need := ALIGNED_VALUE (u32 (size + _sizeof_link_t)) in
  match fit need bs with
  | None => palloc ANCHOR size st = Ok (NULL, st)
  | Some (b1, s, b2) =>
      bs = b1 ++ (s, false) :: b2 /\
      exists st', palloc ANCHOR size st = Ok (start + total b1 + 8, st') /\
        Rep ANCHOR st' start (place b1 s b2 need) /\
        _num_alloc st' = u32 (_num_alloc st + 1) /\ _num_free st' = _num_free st /\
        (forall i, owned start bs i -> p_mem st' !! i = p_mem st !! i)
  end.
Proof. intros HR Hsize. apply palloc_spec; [done | by apply size_fits]. Qed.

Lemma palloc_refines_witness :
  exists st1 st2, palloc_init 1000 2000 2128 st0 = Ok (tt, st1) /\
    palloc 1000 10 st1 = Ok (2008, st2) /\ Rep 1000 st2 2000 [(20, true); (100, false)].
Proof.
  destruct st0_init as (st1 & E & HR). exists st1.
  destruct (palloc_refines 1000 st1 2000 [(120, false)] 10 HR) as (_ & st2 & E2 & HR2 & _).
  - by_decide.
  - exists st2. split; [exact E|]. split; [exact E2 | exact HR2].
Defined.

(** C7: [pfree] of a live block frees exactly it and merges it with a free
    block on either side, leaving every other payload as it was. *)
Theorem pfree_refines ANCHOR st start b1 s b2 :
  Rep ANCHOR st start (b1 ++ (s, true) :: b2) ->
  exists st', pfree ANCHOR (start + total b1 + 8) st = Ok (tt, st') /\
    Rep ANCHOR st' start (release b1 s b2) /\
    _num_free st' = u32 (_num_free st + 1) /\ _num_alloc st' = _num_alloc st /\
    (forall i, owned start b1 i \/ owned (start + total b1 + s) b2 i -> p_mem st' !! i = p_mem st !! i).
Proof. apply pfree_spec. Qed.

Lemma pfree_refines_witness :
  exists st1 st2 st3, palloc_init 1000 2000 2128 st0 = Ok (tt, st1) /\
    palloc 1000 10 st1 = Ok (2008, st2) /\ pfree 1000 2008 st2 = Ok (tt, st3) /\ Rep 1000 st3 2000 [(120, false)].
Proof.
  destruct st0_init as (st1 & E & HR). exists st1.
  destruct (palloc_spec 1000 st1 2000 [(120, false)] 10 HR) as (_ & st2 & E2 & HR2 & _).
  - by_decide.
  - destruct (pfree_refines 1000 st2 2000 [] 20 [(100, false)] HR2) as (st3 & E3 & HR3 & _).
    exists st2, st3. split; [exact E|]. split; [exact E2|]. split; [exact E3 | exact HR3].
Defined.

Lemma steps_ok ANCHOR start e s s' : heap_ok ANCHOR start e s -> rtc (step ANCHOR) s s' -> heap_ok ANCHOR start e s'.
Proof. intros H Hr. induction Hr; [done|]. eauto using step_ok. Qed.

Lemma total_mod bs : Forall size_ok bs -> total bs mod 4 = 0.
Proof.
  induction 1 as [|[s al] bs [_ Hs] _ IH]; [done|]. cbn in *. by apply mod4_add.
Qed.

Lemma lives_aligned a bs p c : Forall size_ok bs -> a mod 4 = 0 -> (p, c) ∈ lives a bs -> p mod 4 = 0.
Proof.
  intros Hz Ha H. destruct (lives_elem _ _ _ _ H) as (b1 & s & b2 & -> & -> & _).
  apply Forall_app in Hz as [Hz _]. repeat apply mod4_add; [done | by apply total_mod | done].
Qed.

Lemma lives_nil a bs : lives a bs = [] -> coalesced bs -> (length bs <= 1)%nat.
Proof.
  destruct bs as [|[s1 [|]] [|[s2 [|]] bs]]; cbn; try (done || lia).
Qed.

(** C5: Whatever sequence of allocations of at most 2^32 - 12 bytes, frees of
    held pointers and writes into held blocks a client makes from a fresh pool,
    the blocks it holds stay inside the pool, word aligned and a header apart;
    no such call faults, loops forever or blocks; and when it holds nothing the
    pool is one free block again. The bound on the requests is needed: the
    Example [wrapped_request] below breaks the pool with a larger one. *)
Theorem allocator_safe ANCHOR st start c st' L :
  Rep ANCHOR st start [(c, false)] -> rtc (step ANCHOR) (st, ∅) (st', L) ->
  (forall p n, L !! p = Some n -> start + 8 <= p /\ p + n <= start + c /\ p mod 4 = 0) /\
  (forall p n p' n', L !! p = Some n -> L !! p' = Some n' -> p <> p' -> p + n + 8 <= p' \/ p' + n' + 8 <= p) /\
  (forall size, request size -> exists p st'', palloc ANCHOR size st' = Ok (p, st'')) /\
  (forall p n, L !! p = Some n -> exists st'', pfree ANCHOR p st' = Ok (tt, st'')) /\
  (L = ∅ -> Rep ANCHOR st' start [(c, false)]).
Proof.
  intros HR Hsteps.
  assert (H : heap_ok ANCHOR start (start + c) (st', L)).
  { refine (steps_ok _ _ _ _ _ _ Hsteps). exists [(c, false)]. cbn [fst snd]. split_and!.
    - done.
    - cbn. tauto.
    - split; [intros ? ?; by rewrite lookup_empty | intros p d; cbn; set_solver].
    - cbn. lia. }
  destruct H as (bs & HR' & Hco & [A1 A2] & He). cbn [fst snd] in *.
  pose proof (rep_sizes _ _ _ _ HR') as Hz. split_and!.
  - intros p n Hp. destruct (A1 _ _ Hp) as (d & Hd & ?). pose proof (lives_range _ _ _ _ Hz Hd).
    pose proof (lives_aligned _ _ _ _ Hz (proj2 (rep_start _ _ _ _ HR)) Hd). lia.
  - intros p n p' n' Hp Hp' Hne. destruct (A1 _ _ Hp) as (d & Hd & ?), (A1 _ _ Hp') as (d' & Hd' & ?).
    destruct (lives_disjoint _ _ _ _ _ _ Hz Hd Hd') as [[? ?] | ?]; [done | lia].
  - intros size Hsize. destruct (palloc_cases _ _ _ _ _ HR' Hsize) as [E | (_ & b1 & s & b2 & st2 & _ & _ & E & _)]; eauto.
  - intros p n Hp. destruct (A1 _ _ Hp) as (d & Hd & _).
    destruct (lives_elem _ _ _ _ Hd) as (b1 & s & b2 & -> & -> & _).
    destruct (pfree_spec _ _ _ _ _ _ HR') as (st2 & E & _). eauto.
  - intros ->. assert (El : lives start bs = []).
    { destruct (lives start bs) as [|[p d] l]; [done|]. destruct (A2 p d) as [? H]; [by left|].
      by rewrite lookup_empty in H. }
    pose proof (lives_nil _ _ El Hco) as Hlen.
    destruct bs as [|[s [|]] [|? bs]]; try (cbn in *; lia || discriminate).
    + exfalso. apply rep_sizes in HR as Hc. apply Forall_cons in Hc as [[Hc _] _]. cbn in Hc, He. lia.
    + cbn in He. by replace c with s by lia.
Qed.

Lemma allocator_safe_witness :
  exists st1 st2 st3, palloc_init 1000 2000 2128 st0 = Ok (tt, st1) /\
    palloc 1000 10 st1 = Ok (2008, st2) /\ pfree 1000 2008 st2 = Ok (tt, st3) /\ Rep 1000 st3 2000 [(120, false)].
Proof.
  destruct st0_init as (st1 & E & HR). exists st1.
  destruct (palloc_spec 1000 st1 2000 [(120, false)] 10 HR) as (_ & st2 & E2 & HR2 & _); [by_decide|].
  destruct (pfree_spec 1000 st2 2000 [] 20 [(100, false)] HR2) as (st3 & E3 & _).
  exists st2, st3. split; [exact E|]. split; [exact E2|]. split; [exact E3|].
  refine (proj2 (proj2 (proj2 (proj2 (allocator_safe 1000 st1 2000 120 st3 (delete 2008 {[2008 := 10]}) HR _)))) _).
  - eapply rtc_l; [|eapply rtc_l; [|apply rtc_refl]].
    + apply (step_palloc 1000 10 2008 st1 st2 ∅); [by_decide | exact E2 | by_decide].
    + apply (step_pfree 1000 2008 10 st2 st3); [by_decide | exact E3].
  - by_decide.
Defined.

(** Freeing a block right after it was allocated undoes the allocation:
    the pool has its tiles, free bytes and payloads back. *)
Theorem palloc_pfree_restores ANCHOR st start bs size p st1 :
  Rep ANCHOR st start bs -> coalesced bs -> 0 < size <= 2 ^ 32 - 12 ->
  palloc ANCHOR size st = Ok (p, st1) -> p <> NULL ->
  exists st2, pfree ANCHOR p st1 = Ok (tt, st2) /\ Rep ANCHOR st2 start bs /\
    _free_size st2 = _free_size st /\ (forall i, owned start bs i -> p_mem st2 !! i = p_mem st !! i).
Proof.
  intros HR Hco Hsize E Hp. pose proof (palloc_spec _ _ _ _ _ HR (size_fits size Hsize)) as H. cbv zeta in H.
  pose proof (fit_spec (ALIGNED_VALUE (u32 (size + _sizeof_link_t))) bs) as Hfit.
  destruct (fit _ bs) as [[[b1 s] b2]|].
  2: { rewrite H in E. by injection E as <- _. }
  destruct Hfit as [_ Hle]. destruct H as (-> & st1' & E1 & HR1 & _ & _ & Hkeep).
  rewrite E1 in E. injection E as <- <-.
  destruct (place_release b1 s b2 _ Hle) as (t & c2 & Ep & Ht & _ & Ho2 & Hrel). rewrite Ep in HR1.
  destruct (pfree_spec _ _ _ _ _ _ HR1) as (st2 & E2 & HR2 & _ & _ & Hkeep2).
  rewrite (Hrel Hco) in HR2. exists st2. split_and!; try done.
  - by rewrite (rep_free _ _ _ _ HR), (rep_free _ _ _ _ HR2).
  - intros i Ho. rewrite Hkeep2; [by apply Hkeep|].
    apply owned_app in Ho as [Ho | [[? _] | Ho]]; [by left | done | right].
    by apply Ho2.
Qed.

Lemma palloc_pfree_restores_witness :
  exists st1 st2 st3, palloc_init 1000 2000 2128 st0 = Ok (tt, st1) /\ palloc 1000 10 st1 = Ok (2008, st2) /\ pfree 1000 2008 st2 = Ok (tt, st3) /\
    Rep 1000 st3 2000 [(120, false)] /\ _free_size st3 = _free_size st1.
Proof.
  destruct st0_init as (st1 & E & HR). exists st1.
  destruct (palloc_spec 1000 st1 2000 [(120, false)] 10 HR) as (_ & st2 & E2 & HR2 & _); [by_decide|].
  destruct (palloc_pfree_restores 1000 st1 2000 [(120, false)] 10 2008 st2 HR) as (st3 & E3 & HR3 & Ef & _).
  - cbn. tauto.
  - by_decide.
  - exact E2.
  - by_decide.
  - exists st2, st3. split_and!; assumption.
Defined.

(** [pcalloc] of a product that does not overflow is [palloc] followed by
    clearing: the requested bytes are zero, the pool is that of [palloc] and no
    other payload changes. *)
Theorem pcalloc_zeroes ANCHOR st start bs num size :
  Rep ANCHOR st start bs -> 0 < num * size <= 2 ^ 32 - 12 ->
  let need := ALIGNED_VALUE (u32 (num * size + _sizeof_link_t)) in
  match fit need bs with
  | None => pcalloc ANCHOR num size st = Ok (NULL, st)
  | Some (b1, s, b2) =>
      let p := start + total b1 + 8 in
      exists st', pcalloc ANCHOR num size st = Ok (p, st') /\
        Rep ANCHOR st' start (place b1 s b2 need) /\
        (forall i, p <= i < p + num * size -> p_mem st' !! i = Some 0) /\
        (forall i, owned start bs i -> p_mem st' !! i = p_mem st !! i)
  end.
Proof.
  intros HR Hsize need. unfold pcalloc. rewrite u32_id by lia.
  destruct (num * size >? 0) eqn:E; zify_bool; [|lia].
  pose proof (palloc_spec _ _ _ _ _ HR (size_fits _ Hsize)) as H. cbv zeta in H. fold need in H.
  pose proof (fit_spec need bs) as Hfit. pose proof (need_bounds _ Hsize) as [Hneed _]. fold need in Hneed.
  destruct (fit need bs) as [[[b1 s] b2]|]; [|by erewrite stm_bind_ok by apply H].
  destruct Hfit as [_ Hle]. destruct H as (-> & st1 & E1 & HR1 & _ & _ & Hkeep).
  set (p := start + total b1 + 8) in *. erewrite stm_bind_ok by apply E1. cbv beta iota.
  pose proof HR as [Hs Hz Ht _ [Hmp _] _ _ _ _ _ _ _].
  apply Forall_app in Hz as [Hz1 Hz]. apply Forall_cons in Hz as [[Hs8 _] Hz2]. cbn in Hs8.
  pose proof (total_nonneg _ Hz1). pose proof (total_nonneg _ Hz2). rewrite total_app in Ht. cbn in Ht.
  destruct (p =? NULL) eqn:E0; unfold NULL, p in E0; zify_bool; [lia|]. cbn [negb].
  destruct (place_release b1 s b2 need Hle) as (t & c2 & Ep & Ht2 & _).
  assert (Hown : forall i, p <= i < p + num * size -> owned start (place b1 s b2 need) i).
  { intros i Hi. rewrite Ep. apply owned_app. right. cbn. left. split; [done|]. unfold p in Hi. lia. }
  destruct (memset_bytes_ok (p_mem st1) p 0 (Z.to_nat (num * size))) as (m' & Em & Hin & Hout).
  { pose proof (rep_map _ _ _ _ HR1) as [Hm1 _]. rewrite total_place, total_app in Hm1. cbn in Hm1.
    eapply mapped_sub; [exact Hm1 | unfold p; lia | unfold p; lia]. }
  erewrite stm_bind_ok by (unfold memset; by rewrite Em). exists (set_mem m' st1). split; [done|].
  split_and!.
  - apply (memset_Rep ANCHOR st1 start _ 0 (Z.to_nat (num * size)) p (p_mem st1)); [by destruct st1 | | done].
    intros i Hi. apply Hown. lia.
  - intros i Hi. cbn. rewrite Hin by lia. done.
  - intros i Ho. cbn. rewrite Hout; [by apply Hkeep|].
    apply owned_app in Ho as [Ho | [[? _] | Ho]]; [|done|]; apply owned_range in Ho; (done || unfold p; lia).
Qed.

Lemma pcalloc_zeroes_witness :
  exists st1 st2, palloc_init 1000 2000 2128 st0 = Ok (tt, st1) /\
    pcalloc 1000 5 2 st1 = Ok (2008, st2) /\ Rep 1000 st2 2000 [(20, true); (100, false)].
Proof.
  destruct st0_init as (st1 & E & HR). exists st1.
  destruct (pcalloc_zeroes 1000 st1 2000 [(120, false)] 5 2 HR) as (st2 & E2 & HR2 & _).
  - by_decide.
  - exists st2. split; [exact E|]. split; [exact E2 | exact HR2].
Defined.

(** C8: [palloc_stats] leaves the pool alone and reports the free bytes, one
    more link than there are free blocks, and the extreme block sizes less a
    header; with no free block both sizes wrap around to 2^32 - 8. *)
Theorem palloc_stats_correct ANCHOR st start bs :
  Rep ANCHOR st start bs ->
  let l := free_sizes bs in
  let smallest := if smallest_of UINT32_MAX l =? UINT32_MAX then 0 else smallest_of UINT32_MAX l in
  palloc_stats ANCHOR st =
    Ok ((free_total bs, (u32 (largest_of 0 l - 8), u32 (smallest - 8),
         Z.of_nat (length (frees start bs)) + 1)), st).
Proof.
  intros HR l smallest. pose proof HR as [Hs Hz Ht Ha [Hmp1 Hmp2] Hc He Hh Hl Hf Hp Hsem].
  unfold palloc_stats. destruct (after_cons start bs) as [T ET].
  assert (HA : get32 (p_mem st) ANCHOR = Some (after start (start + total bs) bs)).
  { rewrite ET in Hc. apply Hc. }
  pose proof (length_frees start bs Hz).
  sbind rd_next_ok. erewrite stm_bind_ok by (unfold k_sem_take; by rewrite Hsem). cbv beta iota. sgets.
  erewrite stm_bind_ok.
  2: { apply (stats_walk_ok _ bs start _ 0 0 UINT32_MAX (start + total bs)); try done; try lia.
       - by exists ANCHOR.
       - apply He.
       - unfold pool_fuel. cbn. rewrite Hp. pose proof (Z.div_mod (total bs + 8) 8).
         pose proof (Z.mod_pos_bound (total bs + 8) 8). lia. }
  cbv beta iota. erewrite stm_bind_ok by done. cbv beta iota. sgets.
  cbn [_free_size set_sem]. fold l. fold smallest. change _sizeof_link_t with 8. rewrite Hf.
  unfold mret, stm_ret. do 2 f_equal. destruct st; cbn in *. by subst.
Qed.

Lemma palloc_stats_correct_witness :
  exists st1, palloc_init 1000 2000 2128 st0 = Ok (tt, st1) /\
    palloc_stats 1000 st1 = Ok ((120, (112, 112, 2)), st1).
Proof.
  destruct st0_init as (st1 & E & HR). exists st1. split; [exact E|].
  exact (palloc_stats_correct 1000 st1 2000 [(120, false)] HR).
Defined.

(** The size computation of [palloc] wraps: a request of 2^32-3 to 2^32-1
    bytes is granted from the first free block as a block of 8 bytes, all
    header, so that the pointer returned is the address of the next header. *)
Theorem palloc_size_wraps ANCHOR st start s bs size :
  Rep ANCHOR st start ((s, false) :: bs) -> 24 < s -> 2 ^ 32 - 3 <= size < 2 ^ 32 ->
  exists st', palloc ANCHOR size st = Ok (start + 8, st') /\
    Rep ANCHOR st' start ((8, true) :: (s - 8, false) :: bs).
Proof.
  intros HR Hs Hsize.
  assert (En : ALIGNED_VALUE (u32 (size + _sizeof_link_t)) = 8).
  { change _sizeof_link_t with 8.
    assert (size = 2 ^ 32 - 3 \/ size = 2 ^ 32 - 2 \/ size = 2 ^ 32 - 1) as [-> | [-> | ->]] by lia; done. }
  assert (Hpre : size <> 0 /\ 8 <= ALIGNED_VALUE (u32 (size + _sizeof_link_t))) by (rewrite En; lia).
  pose proof (palloc_spec _ _ _ _ _ HR Hpre) as H. cbv zeta in H. rewrite En in H.
  cbn [fit negb andb] in H. destruct (8 <=? s) eqn:E; zify_bool; [|lia].
  destruct H as (_ & st' & E1 & HR' & _). exists st'. rewrite E1. cbn [total]. split; [do 2 f_equal; lia|].
  unfold place in HR'. destruct (s - 8 >? 16) eqn:E2; zify_bool; [done | lia].
Qed.

Lemma palloc_size_wraps_witness :
  exists st1 st2, palloc_init 1000 2000 2128 st0 = Ok (tt, st1) /\
    palloc 1000 (2 ^ 32 - 1) st1 = Ok (2008, st2) /\ Rep 1000 st2 2000 [(8, true); (112, false)].
Proof.
  destruct st0_init as (st1 & E & HR). exists st1.
  destruct (palloc_size_wraps 1000 st1 2000 120 [] (2 ^ 32 - 1) HR) as (st2 & E2 & HR2); try by_decide.
  exists st2. split; [exact E|]. split; [exact E2 | exact HR2].
Defined.

(** A request of 2^32-11 to 2^32-8 bytes is rounded to a block of no bytes at
    all: the block stays free, and the next allocation answers the same pointer
    while the client holds it. *)
Example wrapped_request :
  match (palloc_init 1000 2000 2128;; p ← palloc 1000 (2 ^ 32 - 8); q ← palloc 1000 10; mret (p, q)) st0 with
  | Ok (pointers, _) => pointers = (2008, 2008)
  | Stop _ => False
  end.
Proof. vm_compute. reflexivity. Qed.

(** [prealloc] compares the request with the block size, header included:
    a request of up to 8 bytes more than the block holds is answered with the
    same pointer and an unchanged pool. *)
Theorem prealloc_undersized ANCHOR st start b1 s b2 nbytes :
  Rep ANCHOR st start (b1 ++ (s, true) :: b2) -> s - 8 < nbytes <= s ->
  prealloc ANCHOR (start + total b1 + 8) nbytes st = Ok (start + total b1 + 8, st).
Proof.
  intros HR Hn. destruct (Rep_block _ _ _ _ _ _ _ HR) as (X & P & N & E & Hb & HE).
  destruct Hb as [HX HP HN HE' Hb1 Hb2 HPr HNr HPn HXn Hfl [Hs8 Hs4] Hm HPm]. rewrite <- HX.
  pose proof HR as [Hs Hz Ht _ _ _ _ _ _ _ _ _]. rewrite <- HE in Ht.
  rewrite total_app in Ht. cbn in Ht.
  unfold prealloc, NULL. destruct (X + 8 =? 0) eqn:E0; zify_bool; [lia|].
  change _sizeof_link_t with 8. replace (X + 8 - 8) with X by lia. rewrite (u32_id X) by lia.
  sbind rd_flag_ok. rewrite flag_clear by lia. case_test; [lia | done].
Qed.

Lemma prealloc_undersized_witness :
  exists st1 st2, palloc_init 1000 2000 2128 st0 = Ok (tt, st1) /\
    palloc 1000 10 st1 = Ok (2008, st2) /\ prealloc 1000 2008 20 st2 = Ok (2008, st2).
Proof.
  destruct st0_init as (st1 & E & HR). exists st1.
  destruct (palloc_spec 1000 st1 2000 [(120, false)] 10 HR) as (_ & st2 & E2 & HR2 & _); [by_decide|].
  exists st2. split; [exact E|]. split; [exact E2|].
  apply (prealloc_undersized 1000 st2 2000 [] 20 [(100, false)] 20 HR2). by_decide.
Defined.
