(* ===== verification/HuPacket.v ===== *)
(** The HU packet layer of src/lib/hu/hupacket.c: the receive state machine,
    the dispatch to command and response handlers, and the building of
    responses in the transmit buffer.  Pointers into [h->buffer] are offsets. *)

From S2P Require Import Prelude.

(** CONFIG_HU_PACKET_SIZE, the Kconfig default. *)
Definition RECV_BUFFER_SIZE : Z := 1536.
Definition ARGV_SIZE : Z := 64.

Definition HUP_STATE_NONE : Z := -1.
Definition ENQ_OF_COMMAND : Z := 5.
Definition ACK_OF_RESPONSE : Z := 6.
Definition NAK_OF_RESPONSE : Z := 21.
Definition END_OF_PACKET : Z := 4.
Definition CRC_MARK : Z := 26.
Definition RECORD_MARK : Z := 30.
Definition ID_MARK : Z := 64.
Definition SEQUENCE_MARK : Z := 58.

(** huerrno.h *)
Definition NOERROR : Z := 0.
Definition ENMCRC16 : Z := ELASTERROR + 0.
Definition ECODEA85 : Z := ELASTERROR + 1.
Definition EDESZA85 : Z := ELASTERROR + 2.
Definition EASCII85 : Z := ELASTERROR + 3.

(** [struct hup_handle]; [user_data] and [send] are fixed by [init_hupacket]
    and appear as the environment's send call. *)
Record hup_handle := Hup {
  argc : Z;
  argv : list (option Z);
  state : Z;
  buffer : list Z;
  response : bool;
  crc_match : bool;
  id : option Z;
  sequence : option Z;
  crc16_at : option Z;
  tx_buffer : list Z
}.

Definition set_argc x h := Hup x (argv h) (state h) (buffer h) (response h) (crc_match h) (id h) (sequence h) (crc16_at h) (tx_buffer h).
Definition set_argv x h := Hup (argc h) x (state h) (buffer h) (response h) (crc_match h) (id h) (sequence h) (crc16_at h) (tx_buffer h).
Definition set_state x h := Hup (argc h) (argv h) x (buffer h) (response h) (crc_match h) (id h) (sequence h) (crc16_at h) (tx_buffer h).
Definition set_buffer x h := Hup (argc h) (argv h) (state h) x (response h) (crc_match h) (id h) (sequence h) (crc16_at h) (tx_buffer h).
Definition set_response x h := Hup (argc h) (argv h) (state h) (buffer h) x (crc_match h) (id h) (sequence h) (crc16_at h) (tx_buffer h).
Definition set_crc_match x h := Hup (argc h) (argv h) (state h) (buffer h) (response h) x (id h) (sequence h) (crc16_at h) (tx_buffer h).
Definition set_id x h := Hup (argc h) (argv h) (state h) (buffer h) (response h) (crc_match h) x (sequence h) (crc16_at h) (tx_buffer h).
Definition set_sequence x h := Hup (argc h) (argv h) (state h) (buffer h) (response h) (crc_match h) (id h) x (crc16_at h) (tx_buffer h).
Definition set_crc16 x h := Hup (argc h) (argv h) (state h) (buffer h) (response h) (crc_match h) (id h) (sequence h) x (tx_buffer h).
Definition set_tx x h := Hup (argc h) (argv h) (state h) (buffer h) (response h) (crc_match h) (id h) (sequence h) (crc16_at h) x.

(** The handle after [memset(hup, 0, sizeof)]. *)
Definition zero_handle : hup_handle :=
  Hup 0 (replicate 64 None) 0 (replicate 1536 0) false false None None None (replicate 1536 0).

Definition reset_hupacket (h : hup_handle) : hup_handle :=
  Hup 0 (argv h) HUP_STATE_NONE (buffer h) (response h) (crc_match h) None None None (tx_buffer h).

(** ** strtoul(s, NULL, 16) of the C library *)

Definition isspace (c : Z) : bool := ((9 <=? c) && (c <=? 13)) || (c =? 32).
Definition digit16 (c : Z) : option Z :=
  if (48 <=? c) && (c <=? 57) then Some (c - 48)
  else if (65 <=? c) && (c <=? 70) then Some (c - 55)
  else if (97 <=? c) && (c <=? 102) then Some (c - 87)
  else None.
Fixpoint skip_space (s : list Z) : list Z :=
  match s with c :: s' => if isspace c then skip_space s' else s | [] => [] end.
(** The value saturates at ULONG_MAX. *)
Fixpoint digits16 (acc : Z) (s : list Z) : Z :=
  match s with
  | c :: s' => match digit16 c with Some d => digits16 (Z.min UINT32_MAX (acc * 16 + d)) s' | None => acc end
  | [] => acc
  end.
Definition skip_0x (s : list Z) : list Z :=
  match s with
  | 48 :: x :: c :: s' =>
      if ((x =? 120) || (x =? 88)) && bool_decide (is_Some (digit16 c)) then c :: s' else s
  | _ => s
  end.
Definition strtoul16 (s : list Z) : Z :=
  match skip_space s with
  | 45 :: s' => u32 (- digits16 0 (skip_0x s'))
  | 43 :: s' => digits16 0 (skip_0x s')
  | s' => digits16 0 (skip_0x s')
  end.

(** [strchr(s, ch)] within a string: the offset of the first [ch]. *)
Fixpoint strchr (s : list Z) (ch : Z) : option Z :=
  match s with
  | [] => None
  | c :: s' => if c =? ch then Some 0 else k ← strchr s' ch; Some (k + 1)
  end.

(** [strcat(dst, s)]: running past the end of [dst] is undefined. *)
Definition strcat (dst s : list Z) : res (list Z) :=
  d ← until_nul dst;
  if len d + len s + 1 <=? len dst
  then Ok (d ++ s ++ 0 :: drop (length d + length s + 1) dst)
  else Stop UB.

Definition deref {A} (p : option A) : res A := match p with Some a => Ok a | None => Stop UB end.

(** The string a pointer into [h->buffer] points to. *)
Definition str_at (p : option Z) (h : hup_handle) : res (list Z) := o ← deref p; cstr (buffer h) o.

Section HuPacket.
(** [crc16(CRC16_CCITT_POLY, SEED_CRC16, ...)] of Zephyr and the toolchain's
    [itoa] (value, base; NULL as [None]). *)
Context (crc16 : list Z -> Z) (itoa : Z -> Z -> option (list Z)).

(** ** Building a response in [tx_buffer] *)

Definition hupacket_append_str (str : list Z) : stm hup_handle unit :=
  updates (fun h => tx ← strcat (tx_buffer h) str; Ok (set_tx tx h)).

Definition hupacket_append_char (ch : Z) : stm hup_handle unit :=
  if negb (ch =? 0) then hupacket_append_str [ch] else mret tt.

(** [itoa] writes its string and the NUL into [buf[size]]. *)
Definition append_itoa (val base size : Z) : stm hup_handle unit :=
  match itoa val base with
  | None => mret tt
  | Some s => if len s + 1 <=? size then hupacket_append_str s else fault UB
  end.
Definition hupacket_append_int (val : Z) : stm hup_handle unit := append_itoa val 10 12.
Definition hupacket_append_hex (val : Z) : stm hup_handle unit := append_itoa val 16 9.

Definition hupacket_record_str (str : list Z) : stm hup_handle unit :=
  hupacket_append_char RECORD_MARK;; hupacket_append_str str.
Definition hupacket_record_int (val : Z) : stm hup_handle unit :=
  hupacket_append_char RECORD_MARK;; hupacket_append_int val.
Definition hupacket_record_hex (val : Z) : stm hup_handle unit :=
  hupacket_append_char RECORD_MARK;; hupacket_append_hex val.

(** A string of [h->buffer] appended to [tx_buffer]. *)
Definition append_at (p : option Z) : stm hup_handle unit :=
  s ← reads (str_at p); hupacket_append_str s.

Definition hupacket_reset_buffer (stx : Z) : stm hup_handle unit :=
  updates (fun h => tx ← wr (tx_buffer h) 0 0; Ok (set_tx tx h));;
  hupacket_append_char stx;;
  i ← gets id;
  (if i is Some _ then append_at i;; hupacket_append_char ID_MARK else mret tt);;
  p ← reads (fun h => rd (argv h) 0);
  append_at p;;
  s ← gets sequence;
  if s is Some _ then hupacket_append_char SEQUENCE_MARK;; append_at s else mret tt.

Definition hupacket_ack_response : stm hup_handle unit :=
  hupacket_reset_buffer ACK_OF_RESPONSE;; hupacket_record_int NOERROR.
Definition hupacket_nak_response (rc : Z) : stm hup_handle unit :=
  hupacket_reset_buffer NAK_OF_RESPONSE;; hupacket_record_int rc.

(** What [hupacket_send_buffer] appends and hands to [h->send]. *)
Definition finish_buffer : stm hup_handle (list Z) :=
  c ← gets crc16_at;
  (if c is Some _ then
     s ← reads (fun h => cstr (tx_buffer h) 1);
     hupacket_append_char CRC_MARK;;
     hupacket_append_hex (crc16 s)
   else mret tt);;
  hupacket_append_char END_OF_PACKET;;
  reads (fun h => cstr (tx_buffer h) 0).

(** ** Receiving *)

(** [seperate_header] with the mark found at offset [k] of [argv[0]]: the NUL
    over it, and the two strings. *)
Definition seperate_header (ch : Z) : stm hup_handle (option (Z * Z)) := fun h =>
  a0 ← rd (argv h) 0;
  o ← deref a0;
  s ← cstr (buffer h) o;
  match strchr s ch with
  | None => Ok (None, h)
  | Some k =>
      b ← wr (buffer h) (o + k) 0;
      Ok (Some (o, o + k + 1), set_buffer b h)
  end.

(** [for (int i = 1; i < h->argc; i ++) *(h->argv[i] - 1) = '\0';] *)
Fixpoint cut_records (i : Z) (n : nat) : stm hup_handle unit :=
  match n with
  | O => mret tt
  | S n =>
      updates (fun h => p ← rd (argv h) i; o ← deref p; b ← wr (buffer h) (o - 1) 0; Ok (set_buffer b h));;
      cut_records (i + 1) n
  end.

(** The CRC test of [process_data]: whether the packet is to be refused. *)
Definition check_crc : stm hup_handle bool := fun h =>
  match crc16_at h with
  | None => Ok (false, h)
  | Some c =>
      s ← cstr (buffer h) c;
      let crc_calculated := crc16 (take (Z.to_nat (c - 1)) (buffer h)) in
      let crc_received := u16 (strtoul16 s) in
      let h := set_crc_match (crc_calculated =? crc_received) h in
      Ok (negb (crc_match h) && negb (response h), h)
  end.

Definition write_argv0 (p : Z) : stm hup_handle unit :=
  updates (fun h => a ← wr (argv h) 0 (Some p); Ok (set_argv a h)).

(** The splitting of an accepted packet into its strings. *)
Definition split_packet : stm hup_handle unit :=
  n ← gets argc;
  cut_records 1 (Z.to_nat (n - 1));;
  m ← seperate_header ID_MARK;
  (if m is Some (p, q) then modify (set_id (Some p));; write_argv0 q else mret tt);;
  m ← seperate_header SEQUENCE_MARK;
  if m is Some (p, q) then write_argv0 p;; modify (set_sequence (Some q)) else mret tt.

(** The handlers, and what [h->send] returns, belong to the environment [C]/[R]
    of the program. *)
Section Dispatch.
Context {C R : Type}.
Context (send : list Z -> stp C R hup_handle Z).
Context (cmds resps : list (list Z * stp C R hup_handle unit)).

Definition hupacket_send_buffer : stp C R hup_handle Z :=
  s ← lift finish_buffer; send s.

(** [STRUCT_SECTION_FOREACH ... strcmp(cmd->cmd, h->argv[0]) == 0] *)
Fixpoint dispatch (table : list (list Z * stp C R hup_handle unit)) : stp C R hup_handle unit :=
  match table with
  | [] => mret tt
  | (name, func) :: table =>
      s ← lift (reads (fun h => p ← rd (argv h) 0; str_at p h));
      if bool_decide (name = s) then func else dispatch table
  end.

Definition process_data : stp C R hup_handle unit :=
  refuse ← lift check_crc;
  if refuse : bool then
    lift (hupacket_nak_response (- ENMCRC16));;
    hupacket_send_buffer;;
    mret tt
  else
    lift split_packet;;
    r ← lift (gets response);
    dispatch (if r : bool then resps else cmds);;
    lift (modify reset_hupacket).

Definition is_stx (ch : Z) : bool :=
  (ch =? ENQ_OF_COMMAND) || (ch =? ACK_OF_RESPONSE) || (ch =? NAK_OF_RESPONSE).

(** [h->state < sizeof(h->buffer)] converts [state] to [size_t]. *)
Definition in_buffer (h : hup_handle) : bool := u32 (state h) <? RECV_BUFFER_SIZE.

(** [h->buffer[h->state ++] = ch], or the reset of a packet too long. *)
Definition put_char (ch : Z) : stm hup_handle unit := fun h =>
  if in_buffer h then
    b ← wr (buffer h) (state h) ch; Ok (tt, set_state (state h + 1) (set_buffer b h))
  else Ok (tt, reset_hupacket h).

(** [h->argv[h->argc ++] = &h->buffer[at]] *)
Definition push_argv (o : Z) : stm hup_handle unit :=
  updates (fun h => a ← wr (argv h) (argc h) (Some o); Ok (set_argc (argc h + 1) (set_argv a h))).

(** The branches that store a character. *)
Definition store_char (ch : Z) : stm hup_handle unit := fun h =>
  if ch =? CRC_MARK then
    if in_buffer h then
      b ← wr (buffer h) (state h) 0;
      let h := set_state (state h + 1) (set_buffer b h) in
      Ok (tt, set_crc16 (Some (state h)) h)
    else Ok (tt, reset_hupacket h)
  else if ch =? RECORD_MARK then (push_argv (state h + 1);; put_char ch) h
  else put_char ch h.

Definition start_packet (ch : Z) : stm hup_handle unit := fun h =>
  let h := reset_hupacket h in
  let h := set_state (state h + 1) h in
  let h := set_response (negb (ch =? ENQ_OF_COMMAND)) h in
  push_argv (state h) h.

(** One turn of the loop of [process_hupacket]. *)
Definition process_char (ch : Z) : stp C R hup_handle unit := fun h =>
  if (state h =? HUP_STATE_NONE) && negb (is_stx ch) then Ret (tt, h)
  else if is_stx ch then lift (start_packet ch) h
  else if ch =? END_OF_PACKET then
    (lift (updates (fun h => b ← wr (buffer h) (state h) 0; Ok (set_buffer b h)));; process_data) h
  else lift (store_char ch) h.

Fixpoint process_hupacket (data : list Z) : stp C R hup_handle unit :=
  match data with
  | [] => mret tt
  | ch :: data => process_char ch;; process_hupacket data
  end.

End Dispatch.
End HuPacket.

(** ** Creation: [init_hupacket] allocates a handle unless it is given one *)

Section Handle.
Context {C R : Type} (palloc : Z -> prog C R (option hup_handle)) (pfree : hup_handle -> prog C R unit).
Context (sizeof_hup_handle : Z).

Definition init_hupacket (h : option hup_handle) : prog C R (option hup_handle) :=
  h ← (if h is Some _ then mret h else palloc sizeof_hup_handle);
  mret (if h is Some _ then Some (reset_hupacket zero_handle) else None).

Definition deinit_hupacket (h : option hup_handle) : prog C R unit :=
  if h is Some h then pfree h else mret tt.
End Handle.
