(* ===== verification/HuPacketProof.v ===== *)
(** Lemmas on the receive state machine and the transmit buffer of
    HuPacket.v. *)

From S2P Require Import Prelude HuPacket.

(** ** Characters and packets *)

(** A byte the state machine stores as it is. *)
Definition plain (c : Z) : Prop :=
  is_byte c /\ c ∉ [0; ENQ_OF_COMMAND; ACK_OF_RESPONSE; NAK_OF_RESPONSE; END_OF_PACKET; CRC_MARK; RECORD_MARK].
#[export] Instance plain_dec c : Decision (plain c).
Proof. unfold plain. apply _. Defined.

(** Records, each behind its mark. *)
Definition records (mark : Z) (recs : list (list Z)) : list Z := concat (map (cons mark) recs).
(** Where the records start, the first mark being at [o]. *)
Fixpoint offsets (o : Z) (recs : list (list Z)) : list Z :=
  match recs with [] => [] | r :: recs => (o + 1) :: offsets (o + 1 + len r) recs end.

(** [\[id@\]cmd\[:seq\]] *)
Definition header (i : option (list Z)) (cmd : list Z) (q : option (list Z)) : list Z :=
  (if i is Some s then s ++ [ID_MARK] else []) ++ cmd ++ (if q is Some s then SEQUENCE_MARK :: s else []).

Record wf (h : hup_handle) : Prop := {
  wf_argv : length (argv h) = 64%nat;
  wf_buffer : len (buffer h) = RECV_BUFFER_SIZE;
  wf_tx : len (tx_buffer h) = RECV_BUFFER_SIZE
}.

Lemma wf_zero : wf zero_handle.
Proof. done. Qed.

Lemma plain_tests c : plain c ->
  is_byte c /\ is_stx c = false /\ (c =? END_OF_PACKET) = false /\ (c =? CRC_MARK) = false /\
  (c =? RECORD_MARK) = false /\ c <> 0.
Proof.
  intros [Hb Hc]. rewrite !not_elem_of_cons in Hc. unfold is_stx.
  destruct Hc as (? & ? & ? & ? & ? & ? & ? & _).
  split_and!; try done; rewrite ?orb_false_iff; try (by apply Z.eqb_neq).
  split_and!; by apply Z.eqb_neq.
Qed.

Lemma records_cons mark r recs : records mark (r :: recs) = mark :: r ++ records mark recs.
Proof. done. Qed.

Lemma len_records mark recs : len (records mark recs) = len (concat recs) + len recs.
Proof.
  induction recs as [|r recs IH]; [done|]. rewrite records_cons. cbn [concat].
  rewrite !len_cons, !len_app, IH. lia.
Qed.

Lemma len_overwrite {A} (pre l suf : list A) : len l <= len suf ->
  len ((pre ++ l) ++ drop (length l) suf) = len (pre ++ suf).
Proof. intros H. unfold len in *. rewrite !length_app, length_drop. lia. Qed.

Lemma hup_ext h h' :
  argc h = argc h' -> argv h = argv h' -> state h = state h' -> buffer h = buffer h' ->
  response h = response h' -> crc_match h = crc_match h' -> id h = id h' -> sequence h = sequence h' ->
  crc16_at h = crc16_at h' -> tx_buffer h = tx_buffer h' -> h = h'.
Proof. destruct h, h'. cbn. by intros -> -> -> -> -> -> -> -> -> ->. Qed.

(** Compute the fields of an updated handle. *)
Ltac fields :=
  cbn [argc argv state buffer response crc_match id sequence crc16_at tx_buffer
       set_argc set_argv set_state set_buffer set_response set_crc_match set_id set_sequence set_crc16 set_tx
       reset_hupacket].

Lemma length_overwrite {A} (pre l suf : list A) : (length l <= length suf)%nat ->
  length ((pre ++ l) ++ drop (length l) suf) = length (pre ++ suf).
Proof. intros H. rewrite !length_app, length_drop. lia. Qed.

Section HuPacketProof.
Context (crc16 : list Z -> Z) (itoa : Z -> Z -> option (list Z)).
Context {C R : Type} (send : list Z -> stp C R hup_handle Z).
Context (cmds resps : list (list Z * stp C R hup_handle unit)).
Local Abbreviation process_char := (process_char crc16 itoa send cmds resps).
Local Abbreviation process_hupacket := (process_hupacket crc16 itoa send cmds resps).
Local Abbreviation process_data := (process_data crc16 itoa send cmds resps).

(** ** Sequencing *)

Lemma process_app_run d1 d2 env h H :
  run env (process_hupacket (d1 ++ d2) h) H = run env ((process_hupacket d1;; process_hupacket d2) h) H.
Proof.
  revert h H. induction d1 as [|c d1 IH]; intros h H; [done|]. cbn [app HuPacket.process_hupacket].
  rewrite !run_stp_bind. destruct (run env (process_char c h) H) as [[[[] h']|e] H'] eqn:E; [|done].
  rewrite IH, run_stp_bind. done.
Qed.

Lemma process_app_ret d1 d2 h h' :
  process_hupacket d1 h = Ret (tt, h') -> process_hupacket (d1 ++ d2) h = process_hupacket d2 h'.
Proof.
  revert h. induction d1 as [|c d1 IH]; intros h E; cbn [app HuPacket.process_hupacket] in *.
  - by injection E as ->.
  - unfold mbind, stp_bind in *. destruct (process_char c h) as [[[] h1]|e|q k]; try done. by apply IH.
Qed.

(** ** Storing characters *)

Lemma put_char_ok ch h pre suf :
  buffer h = pre ++ suf -> len (buffer h) = RECV_BUFFER_SIZE -> state h = len pre -> len pre < RECV_BUFFER_SIZE ->
  put_char ch h = Ok (tt, set_state (len pre + 1) (set_buffer (pre ++ ch :: drop 1 suf) h)).
Proof.
  intros Eb El Es Hlt. unfold put_char, in_buffer. rewrite Es.
  pose proof (len_nonneg pre). unfold RECV_BUFFER_SIZE in *.
  rewrite u32_id by lia. case_test; [|lia].
  assert (Hs : 0 < len suf) by (rewrite Eb, len_app in El; lia).
  rewrite Eb, (wr_app pre suf (len pre) 0) by lia. step.
  destruct suf as [|x suf]; [done|]. done.
Qed.

Lemma process_char_store c h : 0 <= state h -> is_stx c = false -> (c =? END_OF_PACKET) = false ->
  process_char c h = lift (store_char c) h.
Proof.
  intros Hs E1 E2. unfold HuPacket.process_char. rewrite E1, E2, andb_true_r.
  destruct (state h =? HUP_STATE_NONE) eqn:E0; [|done].
  apply Z.eqb_eq in E0. unfold HUP_STATE_NONE in E0. lia.
Qed.

Lemma feed_plain data : forall pre suf h,
  Forall plain data -> buffer h = pre ++ suf -> len (buffer h) = RECV_BUFFER_SIZE -> state h = len pre ->
  len pre + len data <= RECV_BUFFER_SIZE ->
  process_hupacket data h =
    Ret (tt, set_state (len (pre ++ data)) (set_buffer ((pre ++ data) ++ drop (length data) suf) h)).
Proof.
  induction data as [|c data IH]; intros pre suf h Hp Eb El Es Hlt.
  - cbn. rewrite app_nil_r, drop_0, <- Eb, <- Es. by destruct h.
  - apply Forall_cons in Hp as [Hc Hp]. destruct (plain_tests c Hc) as (_ & E1 & E2 & E3 & E4 & _).
    rewrite len_cons in Hlt. assert (Hsuf : len pre + len suf = RECV_BUFFER_SIZE) by by rewrite <- len_app, <- Eb.
    pose proof (len_nonneg data). pose proof (len_nonneg pre).
    cbn [HuPacket.process_hupacket]. unfold mbind, stp_bind.
    rewrite process_char_store by (done || lia). unfold lift, store_char. rewrite E3, E4.
    rewrite (put_char_ok c h pre suf) by (done || lia). cbn [of_res prog_bind'].
    rewrite (IH (pre ++ [c]) (drop 1 suf)); cbn [buffer state set_state set_buffer]; try done.
    + by rewrite <- !app_assoc, drop_drop.
    + by rewrite <- app_assoc.
    + rewrite <- El, Eb, !len_app, len_cons. unfold len. rewrite length_drop.
      unfold len in *. lia.
    + by rewrite len_app.
    + rewrite len_app, len_single. lia.
Qed.

(** The record mark stores its byte and an argument pointer. *)
Lemma process_record_mark h pre suf av rest :
  wf h -> buffer h = pre ++ suf -> state h = len pre -> len pre < RECV_BUFFER_SIZE ->
  argv h = av ++ rest -> argc h = len av -> len av < ARGV_SIZE ->
  process_char RECORD_MARK h =
    Ret (tt, set_state (len pre + 1) (set_buffer (pre ++ RECORD_MARK :: drop 1 suf)
      (set_argc (len av + 1) (set_argv (av ++ Some (len pre + 1) :: drop 1 rest) h)))).
Proof.
  intros [Hav Hb _] Eb Es Hlt Ea Ec Hac. pose proof (len_nonneg pre).
  rewrite process_char_store by (done || lia). unfold lift, store_char.
  change (RECORD_MARK =? CRC_MARK) with false. change (RECORD_MARK =? RECORD_MARK) with true. cbv iota.
  unfold push_argv. erewrite stm_bind_ok.
  2: { apply updates_ok. rewrite Ea, Ec, (wr_app av rest (len av) 0); [reflexivity | lia |].
       assert (len av + len rest = 64) by (rewrite <- len_app, <- Ea; unfold len; by rewrite Hav).
       unfold ARGV_SIZE in Hac. lia. }
  cbv beta iota. rewrite (put_char_ok _ _ pre suf); cbn [buffer state set_argc set_argv]; try done.
  assert (Hr : 0 < len rest).
  { assert (len av + len rest = 64) by (rewrite <- len_app, <- Ea; unfold len; by rewrite Hav).
    unfold ARGV_SIZE in Hac. lia. }
  destruct rest as [|x rest]; [done|]. cbn. by rewrite Es.
Qed.

(** The state after the records [recs] were received behind [pre]. *)
Definition fed (pre suf : list Z) (av rest : list (option Z)) (recs : list (list Z)) (h : hup_handle) : hup_handle :=
  let b := records RECORD_MARK recs in
  set_state (len (pre ++ b)) (set_buffer ((pre ++ b) ++ drop (length b) suf)
    (set_argc (len av + len recs)
      (set_argv ((av ++ map Some (offsets (len pre) recs)) ++ drop (length recs) rest) h))).

Lemma feed_records recs : forall pre suf av rest h,
  wf h -> Forall (Forall plain) recs -> buffer h = pre ++ suf -> state h = len pre ->
  len pre + len (records RECORD_MARK recs) <= RECV_BUFFER_SIZE ->
  argv h = av ++ rest -> argc h = len av -> len av + len recs <= ARGV_SIZE ->
  process_hupacket (records RECORD_MARK recs) h = Ret (tt, fed pre suf av rest recs h).
Proof.
  induction recs as [|r recs IH]; intros pre suf av rest h Hwf Hp Eb Es Hlt Ea Ec Hac.
  - unfold fed. cbn. rewrite !app_nil_r, !drop_0, <- Eb, <- Es, <- Ea, Z.add_0_r, <- Ec. by destruct h.
  - apply Forall_cons in Hp as [Hr Hp]. rewrite records_cons in *. rewrite !len_cons, len_app in *.
    pose proof (len_nonneg r). pose proof (len_nonneg (records RECORD_MARK recs)). pose proof (len_nonneg recs).
    pose proof (wf_buffer _ Hwf) as El. assert (Hsuf : len pre + len suf = RECV_BUFFER_SIZE) by by rewrite <- len_app, <- Eb.
    cbn [HuPacket.process_hupacket]. unfold mbind, stp_bind.
    rewrite (process_record_mark h pre suf av rest) by (done || lia). cbn [prog_bind'].
    erewrite process_app_ret.
    2: { apply (feed_plain r (pre ++ [RECORD_MARK]) (drop 1 suf)); cbn [buffer state set_state set_buffer].
         - done.
         - by rewrite <- app_assoc.
         - rewrite <- El, Eb, cons_middle, app_assoc. apply (len_overwrite pre [RECORD_MARK]).
           rewrite len_single. lia.
         - by rewrite len_app.
         - rewrite len_app, len_single. lia. }
    rewrite (IH ((pre ++ [RECORD_MARK]) ++ r) (drop (length r) (drop 1 suf)) (av ++ [Some (len pre + 1)]) (drop 1 rest));
      cbn [argc argv buffer state set_state set_buffer set_argc set_argv]; try done.
    + do 2 f_equal. unfold fed. apply hup_ext; fields; rewrite ?records_cons; try done.
      * rewrite len_app, !len_cons, len_nil. lia.
      * cbn [length offsets map]. rewrite drop_drop, !len_app, len_single, <- !app_assoc. done.
      * rewrite <- !app_assoc. done.
      * rewrite !drop_drop, <- !app_assoc. cbn [length app]. rewrite length_app, <- !app_assoc. done.
    + destruct Hwf as [W1 _ W3]. constructor; fields; [| |done].
      * rewrite <- W1, Ea, cons_middle, app_assoc. apply length_overwrite.
        rewrite Ea, length_app in W1. unfold len, ARGV_SIZE in *. cbn. lia.
      * rewrite <- El, Eb, cons_middle, app_assoc, drop_drop.
        rewrite <- (len_overwrite pre (RECORD_MARK :: r)) by (rewrite len_cons; lia). by rewrite <- !app_assoc.
    + rewrite !len_app, len_single in *. lia.
    + by rewrite <- app_assoc.
    + by rewrite len_app.
    + rewrite len_app, len_single. lia.
Qed.

Lemma length_offsets o recs : length (offsets o recs) = length recs.
Proof. revert o. induction recs as [|r recs IH]; intros o; cbn; [done | by rewrite IH]. Qed.

Lemma fed_wf pre suf av rest recs h : wf h -> buffer h = pre ++ suf -> argv h = av ++ rest ->
  len pre + len (records RECORD_MARK recs) <= RECV_BUFFER_SIZE -> len av + len recs <= ARGV_SIZE ->
  wf (fed pre suf av rest recs h).
Proof.
  intros [W1 W2 W3] Eb Ea Hb Ha. unfold fed. constructor; fields; [| | done].
  - rewrite <- W1, Ea. rewrite Ea, length_app in W1.
    replace (length recs) with (length (map Some (offsets (len pre) recs))) by (rewrite length_map; apply length_offsets).
    apply length_overwrite. rewrite length_map, length_offsets. unfold len, ARGV_SIZE in *. lia.
  - rewrite <- W2, Eb. rewrite Eb, len_app in W2. apply len_overwrite. lia.
Qed.

(** ** A packet up to its end *)

(** The handle after a start byte, [hdr] and [recs] were received. *)
Record received (stx : Z) (hdr : list Z) (recs : list (list Z)) (h h' : hup_handle) : Prop := {
  rc_wf : wf h';
  rc_state : state h' = len (hdr ++ records RECORD_MARK recs);
  rc_argc : argc h' = 1 + len recs;
  rc_argv : exists rest, argv h' = map Some (0 :: offsets (len hdr) recs) ++ rest;
  rc_buffer : exists suf, buffer h' = (hdr ++ records RECORD_MARK recs) ++ suf;
  rc_response : response h' = negb (stx =? ENQ_OF_COMMAND);
  rc_ptrs : id h' = None /\ sequence h' = None /\ crc16_at h' = None;
  rc_tx : tx_buffer h' = tx_buffer h
}.

Lemma process_stx stx h : wf h -> is_stx stx = true ->
  process_char stx h = Ret (tt, set_argc 1 (set_argv (Some 0 :: drop 1 (argv h))
    (set_response (negb (stx =? ENQ_OF_COMMAND)) (set_state 0 (reset_hupacket h))))).
Proof.
  intros [Hav _ _] E. unfold HuPacket.process_char. rewrite E. cbn [negb]. rewrite andb_false_r.
  unfold lift, start_packet, push_argv. erewrite updates_ok.
  2: { fields. rewrite wr_ok by (unfold len; rewrite Hav; cbn; lia). reflexivity. }
  cbn [of_res]. do 2 f_equal. destruct (argv h) as [|x av] eqn:Ea; [done|].
  apply hup_ext; fields; rewrite ?Ea; done.
Qed.

Lemma feed_packet stx hdr recs h :
  wf h -> is_stx stx = true -> Forall plain hdr -> Forall (Forall plain) recs ->
  len (hdr ++ records RECORD_MARK recs) <= RECV_BUFFER_SIZE -> 1 + len recs <= ARGV_SIZE ->
  exists h', process_hupacket (stx :: hdr ++ records RECORD_MARK recs) h = Ret (tt, h') /\
    received stx hdr recs h h'.
Proof.
  intros Hwf Hstx Hh Hr Hlen Hn. pose proof Hwf as [W1 W2 W3]. rewrite len_app in Hlen.
  pose proof (len_nonneg hdr). pose proof (len_nonneg (records RECORD_MARK recs)).
  cbn [HuPacket.process_hupacket]. unfold mbind, stp_bind. rewrite (process_stx stx h Hwf Hstx). cbn [prog_bind'].
  set (h0 := set_argc 1 _).
  assert (Hwf0 : wf h0).
  { constructor; unfold h0; fields; try done. destruct (argv h) eqn:E; [done|]. by rewrite <- W1. }
  erewrite process_app_ret.
  2: { apply (feed_plain hdr [] (buffer h) h0); rewrite ?len_nil; (done || lia). }
  set (h1 := set_state _ (set_buffer _ h0)).
  assert (Eb1 : buffer h1 = hdr ++ drop (length hdr) (buffer h)) by done.
  assert (Hwf1 : wf h1).
  { destruct Hwf0 as [V1 V2 V3]. constructor; [done | | done]. rewrite <- W2. apply (len_overwrite []). lia. }
  rewrite (feed_records recs hdr (drop (length hdr) (buffer h)) [Some 0] (drop 1 (argv h)) h1); try (done || lia).
  eexists. split; [done|]. constructor; try done.
  - apply (fed_wf hdr _ [Some 0] (drop 1 (argv h))); rewrite ?len_single; (done || lia).
  - unfold fed. fields. by eexists.
  - unfold fed. fields. by eexists.
Qed.

(** The trailer: nothing, or the CRC mark and its text. *)
Definition trailer (c : option (list Z)) : list Z := if c is Some t then CRC_MARK :: t else [].

(** The handle when the end of the packet is processed. *)
Record complete (stx : Z) (hdr : list Z) (recs : list (list Z)) (c : option (list Z)) (h h' : hup_handle) : Prop := {
  co_wf : wf h';
  co_argc : argc h' = 1 + len recs;
  co_argv : exists rest, argv h' = map Some (0 :: offsets (len hdr) recs) ++ rest;
  co_buffer : exists suf, buffer h' =
    hdr ++ records RECORD_MARK recs ++ 0 :: (if c is Some t then t ++ [0] else []) ++ suf;
  co_response : response h' = negb (stx =? ENQ_OF_COMMAND);
  co_ptrs : id h' = None /\ sequence h' = None;
  co_crc : crc16_at h' = if c is Some _ then Some (len (hdr ++ records RECORD_MARK recs) + 1) else None;
  co_tx : tx_buffer h' = tx_buffer h;
  co_state : 0 <= state h'
}.

Lemma feed_crc stx hdr recs t h h1 :
  received stx hdr recs h h1 -> Forall plain t ->
  len (hdr ++ records RECORD_MARK recs) + 1 + len t < RECV_BUFFER_SIZE ->
  exists h2, process_hupacket (CRC_MARK :: t) h1 = Ret (tt, h2) /\ wf h2 /\
    (exists suf, buffer h2 = ((hdr ++ records RECORD_MARK recs) ++ 0 :: t) ++ suf) /\
    state h2 = len ((hdr ++ records RECORD_MARK recs) ++ 0 :: t) /\
    crc16_at h2 = Some (len (hdr ++ records RECORD_MARK recs) + 1) /\
    argc h2 = argc h1 /\ argv h2 = argv h1 /\ response h2 = response h1 /\
    id h2 = id h1 /\ sequence h2 = sequence h1 /\ tx_buffer h2 = tx_buffer h1.
Proof.
  intros [[W1 W2 W3] Hs Hac [rest Hav] [suf Hb] Hr [Hid [Hsq Hcr]] Htx] Ht Hlen.
  set (body := hdr ++ records RECORD_MARK recs) in *.
  pose proof (len_nonneg body). pose proof (len_nonneg t).
  assert (Hsuf : len body + len suf = RECV_BUFFER_SIZE) by by rewrite <- len_app, <- Hb.
  unfold RECV_BUFFER_SIZE in *.
  cbn [HuPacket.process_hupacket]. unfold mbind, stp_bind.
  rewrite process_char_store by (done || lia). unfold lift, store_char.
  change (CRC_MARK =? CRC_MARK) with true. cbv iota. unfold in_buffer. rewrite Hs, u32_id by lia.
  destruct (len body <? RECV_BUFFER_SIZE) eqn:E; unfold RECV_BUFFER_SIZE in E; zify_bool; [|lia].
  rewrite Hb, (wr_app body suf (len body) 0) by lia. step. cbn [of_res prog_bind'].
  destruct suf as [|x suf]; [rewrite len_nil in Hsuf; lia|]. change (<[Z.to_nat 0:=0]> (x :: suf)) with (0 :: suf).
  rewrite len_cons in Hsuf.
  erewrite (feed_plain t (body ++ [0]) suf); fields; rewrite ?len_app, ?len_single, ?len_cons; try (done || lia).
  - eexists. split; [done|]. fields. split_and!; try done.
    + constructor; fields; try done. rewrite len_overwrite by lia. rewrite !len_app, len_single.
      unfold RECV_BUFFER_SIZE. lia.
    + exists (drop (length t) suf). by rewrite <- (app_assoc body).
    + lia.
  - by rewrite <- app_assoc.
  - unfold RECV_BUFFER_SIZE. lia.
Qed.

Lemma process_end h2 pre suf : buffer h2 = pre ++ suf -> len (buffer h2) = RECV_BUFFER_SIZE -> state h2 = len pre ->
  len pre < RECV_BUFFER_SIZE ->
  process_hupacket [END_OF_PACKET] h2 = (process_data;; mret tt) (set_buffer (pre ++ 0 :: drop 1 suf) h2).
Proof.
  intros Eb El Es Hlt. pose proof (len_nonneg pre).
  assert (Hsuf : len pre + len suf = RECV_BUFFER_SIZE) by by rewrite <- len_app, <- Eb.
  cbn [HuPacket.process_hupacket]. unfold mbind at 1, stp_bind at 1. unfold HuPacket.process_char.
  change (is_stx END_OF_PACKET) with false. change (END_OF_PACKET =? END_OF_PACKET) with true.
  destruct (state h2 =? HUP_STATE_NONE) eqn:E0; unfold HUP_STATE_NONE in E0; zify_bool; [lia|]. cbn [andb negb].
  erewrite lift_bind_ok.
  2: { apply updates_ok. rewrite Eb, Es, (wr_app pre suf (len pre) 0) by lia. step. reflexivity. }
  destruct suf as [|x suf]; [rewrite len_nil in Hsuf; lia|]. done.
Qed.

Lemma wf_set_end h pre suf : wf h -> buffer h = pre ++ suf -> len pre < RECV_BUFFER_SIZE ->
  wf (set_buffer (pre ++ 0 :: drop 1 suf) h).
Proof.
  intros [W1 W2 W3] Eb Hlt. constructor; fields; try done. rewrite <- W2, Eb, cons_middle, app_assoc.
  apply (len_overwrite pre [0]). rewrite Eb, len_app in W2. rewrite len_single. lia.
Qed.

(** Feeding a whole packet leads to [process_data] on the complete handle. *)
Lemma feed_end stx hdr recs c h :
  wf h -> is_stx stx = true -> Forall plain hdr -> Forall (Forall plain) recs -> Forall plain (default [] c) ->
  len (hdr ++ records RECORD_MARK recs ++ trailer c) < RECV_BUFFER_SIZE -> 1 + len recs <= ARGV_SIZE ->
  exists h', process_hupacket (stx :: hdr ++ records RECORD_MARK recs ++ trailer c ++ [END_OF_PACKET]) h =
      (process_data;; mret tt) h' /\ complete stx hdr recs c h h'.
Proof.
  intros Hwf Hstx Hh Hr Hc Hlen Hn. set (body := hdr ++ records RECORD_MARK recs) in *.
  rewrite app_assoc in Hlen. fold body in Hlen. rewrite len_app in Hlen. pose proof (len_nonneg (trailer c)).
  destruct (feed_packet stx hdr recs h) as (h1 & E1 & Hrc); try (done || fold body; lia).
  replace (stx :: hdr ++ records RECORD_MARK recs ++ trailer c ++ [END_OF_PACKET])
    with ((stx :: hdr ++ records RECORD_MARK recs) ++ trailer c ++ [END_OF_PACKET]) by (cbn; by rewrite <- app_assoc).
  rewrite (process_app_ret _ _ _ _ E1). clear E1. fold body.
  destruct c as [t|]; cbn [trailer app] in *.
  - rewrite len_cons in Hlen.
    destruct (feed_crc stx hdr recs t h h1 Hrc Hc) as (h2 & E2 & Hwf2 & [suf Eb] & Es & Ecr & Eac & Eav & Er & Ei & Esq & Etx);
      [fold body; lia|]. fold body in Eb, Es, Ecr.
    change (CRC_MARK :: t ++ [END_OF_PACKET]) with ((CRC_MARK :: t) ++ [END_OF_PACKET]).
    rewrite (process_app_ret _ _ _ _ E2). rewrite (process_end h2 _ suf Eb (wf_buffer _ Hwf2) Es) by (rewrite len_app, len_cons; lia).
    eexists. split; [done|]. destruct Hrc as [? ? R1 R2 ? R4 [R5 [R6 ?]] R7].
    constructor; fields; rewrite ?Eac, ?Eav, ?Er, ?Ei, ?Esq, ?Etx; try done.
    + apply wf_set_end; (done || rewrite len_app, len_cons; lia).
    + exists (drop 1 suf). unfold body. by rewrite <- !app_assoc.
    + rewrite Es. apply len_nonneg.
  - destruct Hrc as [Hwf1 R0 R1 R2 [suf Eb] R4 [R5 [R6 R8]] R7].
    rewrite (process_end h1 _ suf Eb (wf_buffer _ Hwf1) R0) by (fold body; lia).
    eexists. split; [done|]. constructor; fields; try done.
    + apply wf_set_end; (done || fold body; lia).
    + exists (drop 1 suf). by rewrite <- !app_assoc.
    + rewrite R0. apply len_nonneg.
Qed.

End HuPacketProof.

(** ** Strings in the buffer *)

Lemma until_nul_app s t : 0 ∉ s -> until_nul (s ++ 0 :: t) = Ok s.
Proof.
  induction s as [|c s IH]; intros H; [done|]. apply not_elem_of_cons in H as [Hc H]. cbn [app until_nul].
  destruct (c =? 0) eqn:E; [apply Z.eqb_eq in E; congruence|]. by rewrite IH.
Qed.

Lemma cstr_app pre s t o : o = len pre -> 0 ∉ s -> cstr (pre ++ s ++ 0 :: t) o = Ok s.
Proof.
  intros -> Hs. unfold cstr. pose proof (len_nonneg pre). rewrite !len_app, len_cons.
  pose proof (len_nonneg s). pose proof (len_nonneg t).
  destruct (_ || _) eqn:E; [apply orb_true_iff in E as [E|E]; zify_bool; lia|].
  unfold len. rewrite Nat2Z.id, drop_app_length. by apply until_nul_app.
Qed.

Lemma strchr_found a ch b : ch ∉ a -> strchr (a ++ ch :: b) ch = Some (len a).
Proof.
  induction a as [|c a IH]; intros H; cbn; [by rewrite Z.eqb_refl|].
  apply not_elem_of_cons in H as [Hc H]. destruct (c =? ch) eqn:E; [apply Z.eqb_eq in E; congruence|].
  rewrite IH by done. cbn. by rewrite len_cons.
Qed.

Lemma strchr_none s ch : ch ∉ s -> strchr s ch = None.
Proof.
  induction s as [|c s IH]; intros H; cbn; [done|].
  apply not_elem_of_cons in H as [Hc H]. destruct (c =? ch) eqn:E; [apply Z.eqb_eq in E; congruence|].
  by rewrite IH.
Qed.

Lemma records_head recs T : exists u, records 0 recs ++ 0 :: T = 0 :: u.
Proof. destruct recs; cbn; eauto. Qed.

Lemma len_records_eq m m' recs : len (records m recs) = len (records m' recs).
Proof. by rewrite !len_records. Qed.

Lemma offsets_str recs : forall pre T i r, recs !! i = Some r -> Forall (fun r => 0 ∉ r) recs ->
  exists o, offsets (len pre) recs !! i = Some o /\ cstr (pre ++ records 0 recs ++ 0 :: T) o = Ok r.
Proof.
  induction recs as [|r0 recs IH]; intros pre T i r Hi Hz; [done|].
  apply Forall_cons in Hz as [Hr0 Hz]. rewrite records_cons. cbn [offsets]. destruct i as [|i]; cbn in Hi.
  - injection Hi as ->. exists (len pre + 1). split; [done|].
    destruct (records_head recs T) as [u Eu]. cbn [app]. rewrite <- app_assoc, Eu, cons_middle, app_assoc.
    apply cstr_app; [by rewrite len_app|done].
  - destruct (IH ((pre ++ [0]) ++ r0) T i r Hi Hz) as (o & Ho & Hc).
    exists o. rewrite !len_app, len_single in Ho. split; [done|].
    rewrite <- !app_assoc in Hc. cbn [app] in Hc |- *. by rewrite <- app_assoc.
Qed.

(** ** Splitting *)

Lemma cut_records_ok recs : forall pre suf i av rest h,
  buffer h = pre ++ records RECORD_MARK recs ++ suf ->
  argv h = av ++ map Some (offsets (len pre) recs) ++ rest -> i = len av ->
  cut_records i (length recs) h = Ok (tt, set_buffer (pre ++ records 0 recs ++ suf) h).
Proof.
  induction recs as [|r recs IH]; intros pre suf i av rest h Eb Ea Ei.
  - cbn in *. rewrite <- Eb. by destruct h.
  - rewrite records_cons in *. cbn [offsets map app length cut_records] in *. pose proof (len_nonneg pre).
    pose proof (len_nonneg av).
    erewrite stm_bind_ok.
    2: { apply updates_ok. rewrite Ea, (rd_app av _ i 0 (Some (len pre + 1))) by (done || lia). step. cbn [deref]. step.
         rewrite Eb, (wr_app pre _ (len pre + 1 - 1) 0) by (rewrite ?len_cons, ?len_app; (lia || (pose proof (len_nonneg r); pose proof (len_nonneg (records RECORD_MARK recs)); pose proof (len_nonneg suf); rewrite ?len_app; lia))).
         step. reflexivity. }
    cbv beta iota. cbn [Z.to_nat].
    rewrite (IH ((pre ++ [0]) ++ r) suf (i + 1) (av ++ [Some (len pre + 1)]) rest).
    + do 2 f_equal. apply hup_ext; fields; try done. by rewrite <- !app_assoc.
    + fields. rewrite <- !app_assoc. done.
    + fields. rewrite Ea, !len_app, len_single. by rewrite <- app_assoc.
    + rewrite len_app, len_single. lia.
Qed.

Lemma sep_found h rest pre a ch b u : argv h = Some (len pre) :: rest ->
  buffer h = pre ++ a ++ ch :: b ++ 0 :: u -> 0 ∉ a -> 0 ∉ b -> ch <> 0 -> ch ∉ a ->
  seperate_header ch h =
    Ok (Some (len pre, len pre + len a + 1), set_buffer (pre ++ a ++ 0 :: b ++ 0 :: u) h).
Proof.
  intros Ea Eb Ha Hb Hch Hna. unfold seperate_header. rewrite Ea.
  change (rd (Some (len pre) :: rest) 0) with (Ok (Some (len pre))). step. cbn [deref]. step.
  replace (a ++ ch :: b ++ 0 :: u) with ((a ++ ch :: b) ++ 0 :: u) in Eb by by rewrite <- app_assoc.
  rewrite Eb, cstr_app; [|done | apply not_elem_of_app; split; [done|]; by apply not_elem_of_cons].
  step. rewrite strchr_found by done.
  pose proof (len_nonneg a). pose proof (len_nonneg pre).
  rewrite <- (app_assoc a), (app_assoc pre), (wr_app (pre ++ a) _ _ 0).
  - step. cbn [Z.to_nat]. rewrite <- (app_assoc pre). done.
  - rewrite len_app. lia.
  - rewrite len_app, len_cons. pose proof (len_nonneg b). pose proof (len_nonneg (0 :: u)). lia.
Qed.

Lemma sep_none h rest pre s ch u : argv h = Some (len pre) :: rest ->
  buffer h = pre ++ s ++ 0 :: u -> 0 ∉ s -> ch ∉ s -> seperate_header ch h = Ok (None, h).
Proof.
  intros Ea Eb Hs Hch. unfold seperate_header. rewrite Ea.
  change (rd (Some (len pre) :: rest) 0) with (Ok (Some (len pre))). step. cbn [deref]. step.
  rewrite Eb, cstr_app by done. step. by rewrite strchr_none.
Qed.

(** What a handler finds: the command, its records as [argv[1..]], and the
    optional id and sequence, all as strings. *)
Definition opt_str (p : option Z) (s : option (list Z)) (h : hup_handle) : Prop :=
  match s with None => p = None | Some s => p <> None /\ str_at p h = Ok s end.
Record parsed (i : option (list Z)) (cmd : list Z) (q : option (list Z)) (recs : list (list Z)) (h : hup_handle) : Prop := {
  pa_wf : wf h;
  pa_argc : argc h = 1 + len recs;
  pa_cmd : exists p, rd (argv h) 0 = Ok p /\ str_at p h = Ok cmd;
  pa_recs : forall k r, recs !! k = Some r ->
    exists p, rd (argv h) (Z.of_nat k + 1) = Ok p /\ str_at p h = Ok r;
  pa_id : opt_str (id h) i h;
  pa_seq : opt_str (sequence h) q h
}.

(** The part of it that a response is headed with. *)
Record headed (i : option (list Z)) (cmd : list Z) (q : option (list Z)) (h : hup_handle) : Prop := {
  he_wf : wf h;
  he_cmd : exists p, rd (argv h) 0 = Ok p /\ str_at p h = Ok cmd;
  he_id : opt_str (id h) i h;
  he_seq : opt_str (sequence h) q h
}.

Lemma parsed_headed i cmd q recs h : parsed i cmd q recs h -> headed i cmd q h.
Proof. intros []. by constructor. Qed.

(** Headers that split unambiguously. *)
Definition header_ok (i : option (list Z)) (cmd : list Z) (q : option (list Z)) : Prop :=
  (ID_MARK ∉ default [] i) /\ (ID_MARK ∉ cmd) /\ (SEQUENCE_MARK ∉ cmd) /\ (ID_MARK ∉ default [] q).

Definition seq_part (m : Z) (q : option (list Z)) : list Z := if q is Some s then m :: s else [].
Definition id_part (m : Z) (i : option (list Z)) : list Z := if i is Some s then s ++ [m] else [].

Lemma write_argv0_ok p h x rest : argv h = x :: rest -> write_argv0 p h = Ok (tt, set_argv (Some p :: rest) h).
Proof.
  intros E. apply updates_ok. rewrite E, wr_ok by (rewrite len_cons; pose proof (len_nonneg rest); lia). done.
Qed.

(** The id is cut off the front of the header. *)
Lemma split_id h i b u rest :
  argv h = Some 0 :: rest -> id h = None -> buffer h = id_part ID_MARK i ++ b ++ 0 :: u ->
  (0 ∉ default [] i) -> (0 ∉ b) -> (ID_MARK ∉ default [] i) -> (ID_MARK ∉ b) ->
  exists p, (m ← seperate_header ID_MARK; if m is Some (p, q) then modify (set_id (Some p));; write_argv0 q else mret tt) h =
    Ok (tt, set_id p (set_argv (Some (len (id_part 0 i)) :: rest) (set_buffer (id_part 0 i ++ b ++ 0 :: u) h))) /\
    p = if i is Some _ then Some 0 else None.
Proof.
  intros Ea Ei Eb Hi Hb Hii Hib. destruct i as [s|]; cbn [id_part default] in *.
  - exists (Some 0). split; [|done].
    erewrite stm_bind_ok by (apply (sep_found h rest [] s ID_MARK b u); try done; by rewrite Eb, <- app_assoc).
    cbv beta iota. smodify. rewrite (write_argv0_ok _ _ (Some 0) rest) by (fields; apply Ea).
    do 2 f_equal. apply hup_ext; fields; try done.
    + rewrite len_app, len_single, len_nil. done.
    + by rewrite <- app_assoc.
  - exists None. split; [|done].
    erewrite stm_bind_ok by by apply (sep_none h rest [] b ID_MARK u).
    cbv beta iota. unfold mret, stm_ret. do 2 f_equal. by apply hup_ext; fields.
Qed.

(** The sequence is cut off the end of the command. *)
Lemma split_seq h pre cmd q u rest :
  argv h = Some (len pre) :: rest -> sequence h = None -> buffer h = pre ++ (cmd ++ seq_part SEQUENCE_MARK q) ++ 0 :: u ->
  (0 ∉ cmd) -> (0 ∉ default [] q) -> (SEQUENCE_MARK ∉ cmd) ->
  (m ← seperate_header SEQUENCE_MARK; if m is Some (p, q) then write_argv0 p;; modify (set_sequence (Some q)) else mret tt) h =
    Ok (tt, set_sequence (if q is Some _ then Some (len pre + len cmd + 1) else None)
      (set_buffer (pre ++ (cmd ++ seq_part 0 q) ++ 0 :: u) h)).
Proof.
  intros Ea Es Eb Hc Hq Hsc. destruct q as [s|]; cbn [seq_part default] in *.
  - erewrite stm_bind_ok.
    2: { apply (sep_found h rest pre cmd SEQUENCE_MARK s u); try done. by rewrite Eb, <- !app_assoc. }
    cbv beta iota. erewrite stm_bind_ok by (eapply write_argv0_ok; fields; apply Ea). cbv beta iota.
    unfold modify. do 2 f_equal. apply hup_ext; fields; try done. by rewrite <- !app_assoc.
  - rewrite !app_nil_r in *.
    erewrite stm_bind_ok by by apply (sep_none h rest pre cmd SEQUENCE_MARK u).
    cbv beta iota. unfold mret, stm_ret. do 2 f_equal. by apply hup_ext; fields.
Qed.

Lemma header_parts i cmd q : header i cmd q = id_part ID_MARK i ++ cmd ++ seq_part SEQUENCE_MARK q.
Proof. done. Qed.

Lemma plain_no_nul s : Forall plain s -> 0 ∉ s.
Proof.
  intros H Hn. apply (proj1 (Forall_forall _ _) H) in Hn. destruct (plain_tests _ Hn) as (_ & _ & _ & _ & _ & E). done.
Qed.

Lemma opt_plain_no_nul (o : option (list Z)) : Forall plain (default [] o) -> 0 ∉ default [] o.
Proof. apply plain_no_nul. Qed.

(** The strings of a handle whose marks were all overwritten. *)
Lemma parsed_intro h i cmd q recs U rest :
  let hz := id_part 0 i ++ cmd ++ seq_part 0 q in
  wf h -> argc h = 1 + len recs ->
  argv h = Some (len (id_part 0 i)) :: map Some (offsets (len hz) recs) ++ rest ->
  buffer h = hz ++ records 0 recs ++ 0 :: U ->
  id h = (if i is Some _ then Some 0 else None) ->
  sequence h = (if q is Some _ then Some (len (id_part 0 i) + len cmd + 1) else None) ->
  (0 ∉ default [] i) -> (0 ∉ cmd) -> (0 ∉ default [] q) -> Forall (fun r => 0 ∉ r) recs ->
  parsed i cmd q recs h.
Proof.
  intros hz Hwf Eac Eav Eb Ei Es Pi Pc Pq Pr. destruct (records_head recs U) as [u Eu].
  constructor; try done.
  - eexists. split; [by rewrite Eav|]. unfold str_at. cbn [deref]. step. rewrite Eb, Eu. unfold hz.
    rewrite <- !app_assoc. destruct q as [s|]; cbn [seq_part app]; by apply cstr_app.
  - intros k r Hk. destruct (offsets_str recs hz U k r Hk Pr) as (o & Ho & Hc).
    exists (Some o). split.
    + rewrite Eav. apply rd_ok; [lia|]. replace (Z.to_nat (Z.of_nat k + 1)) with (S k) by lia. cbn [lookup list_lookup].
      apply lookup_app_l_Some. change (map Some ?l) with (Some <$> l). by rewrite list_lookup_fmap, Ho.
    + unfold str_at. cbn [deref]. step. rewrite Eb. exact Hc.
  - rewrite Ei. destruct i as [s|]; cbn [opt_str]; [|done]. split; [done|]. unfold str_at. cbn [deref]. step.
    rewrite Eb, Eu. unfold hz. cbn [id_part]. rewrite <- !app_assoc. by apply (cstr_app []).
  - rewrite Es. destruct q as [s|]; cbn [opt_str]; [|done]. split; [done|]. unfold str_at. cbn [deref]. step.
    rewrite Eb, Eu. unfold hz. cbn [seq_part].
    replace ((id_part 0 i ++ cmd ++ 0 :: s) ++ 0 :: u) with ((id_part 0 i ++ cmd ++ [0]) ++ s ++ 0 :: u)
      by (rewrite <- !app_assoc; done).
    apply cstr_app; [|done]. rewrite !len_app, len_single. lia.
Qed.

(** Splitting a complete packet leaves what a handler expects. *)
Lemma split_packet_ok h i cmd q recs U rest :
  wf h -> argc h = 1 + len recs -> argv h = map Some (0 :: offsets (len (header i cmd q)) recs) ++ rest ->
  buffer h = header i cmd q ++ records RECORD_MARK recs ++ 0 :: U ->
  id h = None -> sequence h = None -> header_ok i cmd q ->
  Forall plain (default [] i) -> Forall plain cmd -> Forall plain (default [] q) -> Forall (Forall plain) recs ->
  exists h', split_packet h = Ok (tt, h') /\ parsed i cmd q recs h' /\
    response h' = response h /\ crc_match h' = crc_match h /\ crc16_at h' = crc16_at h /\ tx_buffer h' = tx_buffer h.
Proof.
  intros [W1 W2 W3] Eac Eav Eb Eid Esq (O1 & O2 & O3 & O4) Pi Pc Pq Pr.
  apply plain_no_nul in Pi, Pc, Pq.
  assert (Pr0 : Forall (fun r => 0 ∉ r) recs) by (eapply Forall_impl; [exact Pr | exact plain_no_nul]). clear Pr.
  unfold split_packet. sgets. rewrite Eac. replace (Z.to_nat (1 + len recs - 1)) with (length recs) by (unfold len; lia).
  erewrite stm_bind_ok.
  2: { eapply (cut_records_ok recs (header i cmd q) (0 :: U) 1 [Some 0] rest); [exact Eb | exact Eav | done]. }
  cbv beta iota. set (T := records 0 recs ++ 0 :: U).
  assert (Hseq0 : 0 ∉ seq_part SEQUENCE_MARK q).
  { destruct q as [s|]; [|apply not_elem_of_nil]. apply not_elem_of_cons. by split. }
  assert (Hseq1 : ID_MARK ∉ seq_part SEQUENCE_MARK q).
  { destruct q as [s|]; [|apply not_elem_of_nil]. apply not_elem_of_cons. by split. }
  destruct (records_head recs U) as [u Eu]. fold T in Eu.
  destruct (split_id (set_buffer (header i cmd q ++ T) h) i (cmd ++ seq_part SEQUENCE_MARK q) u
    (map Some (offsets (len (header i cmd q)) recs) ++ rest)) as (p & E1 & Ep); fields; try done.
  { by rewrite header_parts, Eu, <- app_assoc. }
  { by apply not_elem_of_app. }
  { by apply not_elem_of_app. }
  rewrite <- stm_bind_bind. erewrite stm_bind_ok by apply E1. cbv beta iota.
  erewrite (split_seq _ (id_part 0 i) cmd q u); fields; try done.
  eexists. split; [done|]. split; [|by fields].
  assert (Ehdr : len (id_part 0 i ++ cmd ++ seq_part 0 q) = len (header i cmd q)).
  { rewrite header_parts. destruct i, q; cbn [id_part seq_part]; by rewrite !len_app. }
  assert (EB : id_part 0 i ++ (cmd ++ seq_part 0 q) ++ 0 :: u = (id_part 0 i ++ cmd ++ seq_part 0 q) ++ T).
  { by rewrite Eu, <- !app_assoc. }
  apply (parsed_intro _ i cmd q recs U rest); fields; rewrite ?Ehdr, ?EB; try done.
  constructor; fields; [| |done].
  - rewrite <- W1, Eav. done.
  - rewrite <- W2, Eb, !(len_app _ T), Ehdr, len_app. unfold T. rewrite !len_app. by rewrite (len_records_eq 0 RECORD_MARK).
Qed.
