(* ===== verification/HuPacketThm.v ===== *)
(** Properties of the packet layer: what reception hands to a handler, what a
    handler's response looks like on the wire, and that the two agree. *)

From S2P Require Import Prelude HuPacket HuPacketProof.

(** What the code relies on of the toolchain's [itoa] and Zephyr's [crc16]:
    decimal and hexadecimal texts that fit [buf] and hold no control byte, the
    hexadecimal one readable by [strtoul]; a 16-bit CRC. *)
Class TextSpec (crc16 : list Z -> Z) (itoa : Z -> Z -> option (list Z)) : Prop := {
  itoa_dec v : INT32_MIN <= v <= INT32_MAX ->
    exists s, itoa v 10 = Some s /\ len s <= 11 /\ Forall plain s;
  itoa_hex v : 0 <= v <= UINT16_MAX ->
    exists s, itoa v 16 = Some s /\ len s <= 8 /\ Forall plain s /\ u16 (strtoul16 s) = v;
  crc16_range l : 0 <= crc16 l <= UINT16_MAX
}.

(** ** Emitting text into the transmit buffer *)

Definition tx_ok (s tx : list Z) : Prop :=
  len tx = RECV_BUFFER_SIZE /\ (exists r, tx = s ++ 0 :: r) /\ 0 ∉ s.

Definition emits (m : stm hup_handle unit) (str : list Z) (h : hup_handle) : Prop :=
  forall tx s, tx_ok s tx -> len s + len str < RECV_BUFFER_SIZE ->
  exists tx', m (set_tx tx h) = Ok (tt, set_tx tx' h) /\ tx_ok (s ++ str) tx'.

Lemma emits_nil h : emits (mret tt) [] h.
Proof. intros tx s H _. exists tx. by rewrite app_nil_r. Qed.

Lemma emits_bind m1 m2 s1 s2 h : emits m1 s1 h -> emits m2 s2 h -> emits (m1;; m2) (s1 ++ s2) h.
Proof.
  intros H1 H2 tx s Hs Hl. rewrite len_app in Hl. pose proof (len_nonneg s2).
  destruct (H1 tx s Hs) as (tx1 & E1 & Hs1); [lia|].
  destruct (H2 tx1 (s ++ s1) Hs1) as (tx2 & E2 & Hs2); [rewrite len_app; lia|].
  exists tx2. rewrite <- app_assoc in Hs2. split; [|done]. by erewrite stm_bind_ok by apply E1.
Qed.

Lemma emits_gets {A} (f : hup_handle -> A) m str h :
  (forall tx, f (set_tx tx h) = f h) -> emits (m (f h)) str h -> emits (x ← gets f; m x) str h.
Proof.
  intros Hf H tx s Hs Hl. destruct (H tx s Hs Hl) as (tx' & E & Hs'). exists tx'. split; [|done].
  sgets. by rewrite Hf.
Qed.

Lemma emits_reads {A} (f : hup_handle -> res A) m str h v :
  (forall tx, f (set_tx tx h) = Ok v) -> emits (m v) str h -> emits (x ← reads f; m x) str h.
Proof.
  intros Hf H tx s Hs Hl. destruct (H tx s Hs Hl) as (tx' & E & Hs'). exists tx'. split; [|done].
  by erewrite stm_bind_ok by by apply reads_ok.
Qed.

Lemma emits_str str h : 0 ∉ str -> emits (hupacket_append_str str) str h.
Proof.
  intros H0 tx s (Hl & [r ->] & Hs) Hlen. exists ((s ++ str) ++ 0 :: drop (length str) r).
  pose proof (len_nonneg s). pose proof (len_nonneg str). rewrite len_app, len_cons in Hl.
  split.
  - apply updates_ok. fields. unfold strcat. rewrite until_nul_app by done. steps.
    rewrite len_app, len_cons. case_test; [|lia]. rewrite drop_app_ge by lia.
    replace (length s + length str + 1 - length s)%nat with (S (length str)) by lia.
    by rewrite <- (app_assoc s).
  - split_and!; [|eauto|by apply not_elem_of_app].
    rewrite !len_app, len_cons. unfold len in *. rewrite length_drop. lia.
Qed.

Lemma emits_char ch h : ch <> 0 -> emits (hupacket_append_char ch) [ch] h.
Proof.
  intros H. unfold hupacket_append_char. destruct (ch =? 0) eqn:E; zify_bool; [done|]. cbn [negb].
  apply emits_str. apply not_elem_of_cons. split; [done | apply not_elem_of_nil].
Qed.

Lemma emits_at p s h : str_at p h = Ok s -> 0 ∉ s -> emits (append_at p) s h.
Proof. intros E H. unfold append_at. apply (emits_reads _ _ _ _ s); [done | by apply emits_str]. Qed.

Lemma cstr_no_nul b o s : cstr b o = Ok s -> 0 ∉ s.
Proof.
  unfold cstr. destruct (_ || _); [done|]. generalize (drop (Z.to_nat o) b) as l. intros l. revert s.
  induction l as [|c l IH]; intros s E; [done|]. cbn in E. destruct (c =? 0) eqn:Ec; zify_bool.
  - injection E as <-. apply not_elem_of_nil.
  - destruct (until_nul l) eqn:El; [|done]. injection E as <-. apply not_elem_of_cons. split; [done | by apply IH].
Qed.

Lemma str_at_no_nul p h s : str_at p h = Ok s -> 0 ∉ s.
Proof. unfold str_at. destruct p; [|done]. apply cstr_no_nul. Qed.

Section Transmit.
Context (crc16 : list Z -> Z) (itoa : Z -> Z -> option (list Z)) `{!TextSpec crc16 itoa}.

Lemma emits_itoa v base size s h : itoa v base = Some s -> len s + 1 <= size -> 0 ∉ s ->
  emits (append_itoa itoa v base size) s h.
Proof.
  intros E Hl H0. unfold append_itoa. rewrite E. case_test; [|lia]. by apply emits_str.
Qed.

Lemma emits_record_str s h : 0 ∉ s -> emits (hupacket_record_str s) (RECORD_MARK :: s) h.
Proof. intros H. apply (emits_bind _ _ [RECORD_MARK] s); [by apply emits_char | by apply emits_str]. Qed.

Lemma emits_record_int v s h : itoa v 10 = Some s -> len s <= 11 -> Forall plain s ->
  emits (hupacket_record_int itoa v) (RECORD_MARK :: s) h.
Proof.
  intros E Hl Hp. apply (emits_bind _ _ [RECORD_MARK] s); [by apply emits_char|].
  apply emits_itoa; [done | lia | by apply plain_no_nul].
Qed.

(** The start of a response: the status byte and the header of the request. *)
Lemma reset_buffer_ok stx i cmd q h :
  headed i cmd q h -> stx <> 0 -> len (header i cmd q) + 1 < RECV_BUFFER_SIZE ->
  exists tx, hupacket_reset_buffer stx h = Ok (tt, set_tx tx h) /\ tx_ok (stx :: header i cmd q) tx.
Proof.
  intros [[_ _ W] [p [Hp Hcmd]] Hi Hq] Hstx Hl. unfold hupacket_reset_buffer.
  set (tx0 := <[0%nat := 0]> (tx_buffer h)).
  assert (Htx0 : tx_ok [] tx0).
  { unfold tx0. split; [by rewrite len_insert|]. split; [|apply not_elem_of_nil].
    destruct (tx_buffer h) as [|x t]; [done|]. by exists t. }
  erewrite stm_bind_ok.
  2: { apply updates_ok. rewrite wr_ok by (rewrite W; done). step. reflexivity. }
  cbv beta iota.
  assert (He : emits (hupacket_append_char stx;; (i ← gets id;
    (if i is Some _ then append_at i;; hupacket_append_char ID_MARK else mret tt);;
    p ← reads (fun h => rd (argv h) 0); append_at p;;
    s ← gets sequence; if s is Some _ then hupacket_append_char SEQUENCE_MARK;; append_at s else mret tt))
    ([stx] ++ header i cmd q) h).
  { apply emits_bind; [by apply emits_char|]. apply emits_gets; [done|].
    apply emits_bind.
    { destruct i as [s|]; cbn [opt_str] in Hi.
      - destruct Hi as [Hn Hs]. destruct (id h) as [o|] eqn:Eo; [|done].
        apply emits_bind; [apply emits_at; [done | by eapply str_at_no_nul] | by apply emits_char].
      - rewrite Hi. apply emits_nil. }
    apply (emits_reads _ _ _ _ p); [done|]. apply emits_bind; [apply emits_at; [done | by eapply str_at_no_nul]|].
    apply emits_gets; [done|]. destruct q as [s|]; cbn [opt_str] in Hq.
    - destruct Hq as [Hn Hs]. destruct (sequence h) as [o|] eqn:Eo; [|done].
      apply (emits_bind _ _ [SEQUENCE_MARK] s); [by apply emits_char | apply emits_at; [done | by eapply str_at_no_nul]].
    - rewrite Hq. apply emits_nil. }
  destruct (He tx0 [] Htx0) as (tx & E & Htx); [rewrite len_app, len_single, len_nil; lia|].
  exists tx. split; [exact E | exact Htx].
Qed.
(** The last steps: the end mark, and the string handed to [send]. *)
Lemma finish_end h tx s : tx_ok s tx -> len s + 1 < RECV_BUFFER_SIZE ->
  exists tx', (hupacket_append_char END_OF_PACKET;; reads (fun h => cstr (tx_buffer h) 0)) (set_tx tx h) =
    Ok (s ++ [END_OF_PACKET], set_tx tx' h) /\ len tx' = RECV_BUFFER_SIZE.
Proof.
  intros Htx Hl. destruct (emits_char END_OF_PACKET h ltac:(done) tx s Htx) as (tx' & E & Hlen & [r Er] & Hn);
    [by rewrite len_single|].
  exists tx'. split; [|done]. erewrite stm_bind_ok by apply E. cbv beta iota. apply reads_ok. fields. rewrite Er. by apply (cstr_app []).
Qed.

Lemma finish_ok h tx stx body : tx_ok (stx :: body) tx ->
  len body + 12 < RECV_BUFFER_SIZE ->
  exists tx' c,
    finish_buffer crc16 itoa (set_tx tx h) = Ok ((stx :: body ++ trailer c ++ [END_OF_PACKET]), set_tx tx' h) /\
    (crc16_at h = None -> c = None) /\
    (crc16_at h <> None -> exists t, c = Some t /\ u16 (strtoul16 t) = crc16 body) /\
    Forall plain (default [] c) /\ len (default [] c) <= 8 /\ len tx' = RECV_BUFFER_SIZE.
Proof.
  intros Htx Hl. pose proof (len_nonneg body). unfold RECV_BUFFER_SIZE in *.
  destruct (itoa_hex (crc16 body)) as (t & Et & Hlt & Hpt & Hvt); [apply crc16_range|].
  unfold finish_buffer. sgets. fields. destruct (crc16_at h) as [o|].
  - rewrite !stm_bind_bind. erewrite stm_bind_ok.
    2: { apply reads_ok. fields. destruct Htx as (_ & [r ->] & H0). apply (cstr_app [stx]); [done|].
         by apply not_elem_of_cons in H0 as [_ H0]. }
    cbv beta iota. rewrite !stm_bind_bind.
    destruct (emits_char CRC_MARK h ltac:(done) tx _ Htx) as (tx1 & E1 & Htx1);
      [rewrite len_single, len_cons; unfold RECV_BUFFER_SIZE; lia|].
    erewrite stm_bind_ok by apply E1. cbv beta iota.
    destruct (emits_itoa (crc16 body) 16 9 t h Et ltac:(lia) (plain_no_nul _ Hpt) tx1 _ Htx1) as (tx2 & E2 & Htx2);
      [rewrite len_app, len_single, len_cons; unfold RECV_BUFFER_SIZE; lia|].
    erewrite stm_bind_ok by apply E2. cbv beta iota.
    destruct (finish_end h tx2 _ Htx2) as (tx3 & E3 & Hl3);
      [rewrite !len_app, len_single, len_cons; unfold RECV_BUFFER_SIZE; lia|].
    exists tx3, (Some t). split_and!; try done; [|by eauto].
    rewrite E3. do 2 f_equal. cbn [trailer]. by rewrite <- !app_assoc.
  - rewrite stm_ret_bind. destruct (finish_end h tx _ Htx) as (tx3 & E3 & Hl3);
      [rewrite len_cons; unfold RECV_BUFFER_SIZE; lia|].
    exists tx3, None. split_and!; try done.
Qed.

(** A whole response: the status, the records and the end. *)
Fixpoint record_strs (recs : list (list Z)) : stm hup_handle unit :=
  match recs with [] => mret tt | r :: recs => hupacket_record_str r;; record_strs recs end.

Definition respond (rc : Z) (recs : list (list Z)) : stm hup_handle (list Z) :=
  (if rc =? NOERROR then hupacket_ack_response itoa else hupacket_nak_response itoa rc);;
  record_strs recs;;
  finish_buffer crc16 itoa.

Lemma emits_records recs h : Forall (Forall plain) recs -> emits (record_strs recs) (records RECORD_MARK recs) h.
Proof.
  induction 1 as [|r recs Hr _ IH]; [apply emits_nil|]. rewrite records_cons.
  apply (emits_bind _ _ (RECORD_MARK :: r)); [|done]. apply emits_record_str. by apply plain_no_nul.
Qed.

Lemma respond_ok rc recs i cmd q h :
  headed i cmd q h -> INT32_MIN <= rc <= INT32_MAX -> Forall (Forall plain) recs ->
  len (header i cmd q) + len (records RECORD_MARK recs) + 24 < RECV_BUFFER_SIZE ->
  exists tx s c,
    itoa rc 10 = Some s /\ len s <= 11 /\ Forall plain s /\
    let body := header i cmd q ++ records RECORD_MARK (s :: recs) in
    respond rc recs h =
      Ok ((if rc =? NOERROR then ACK_OF_RESPONSE else NAK_OF_RESPONSE) :: body ++ trailer c ++ [END_OF_PACKET], set_tx tx h) /\
    (crc16_at h = None -> c = None) /\
    (crc16_at h <> None -> exists t, c = Some t /\ u16 (strtoul16 t) = crc16 body) /\
    Forall plain (default [] c) /\ len (default [] c) <= 8 /\ len tx = RECV_BUFFER_SIZE.
Proof.
  intros Hp Hrc Hrecs Hl. destruct (itoa_dec rc Hrc) as (s & Es & Hls & Hps).
  pose proof (len_nonneg (header i cmd q)). pose proof (len_nonneg (records RECORD_MARK recs)). pose proof (len_nonneg s).
  unfold RECV_BUFFER_SIZE in *.
  set (stx := if rc =? NOERROR then ACK_OF_RESPONSE else NAK_OF_RESPONSE).
  destruct (reset_buffer_ok stx i cmd q h Hp) as (tx0 & E0 & Htx0);
    [unfold stx; by destruct (rc =? NOERROR) | unfold RECV_BUFFER_SIZE; lia |].
  destruct (emits_record_int rc s h Es Hls Hps tx0 _ Htx0) as (tx1 & E1 & Htx1);
    [rewrite !len_cons; unfold RECV_BUFFER_SIZE; lia|].
  destruct (emits_records recs h Hrecs tx1 _ Htx1) as (tx2 & E2 & Htx2);
    [rewrite !len_app, !len_cons; unfold RECV_BUFFER_SIZE; lia|].
  replace ((((stx :: header i cmd q) ++ RECORD_MARK :: s) ++ records RECORD_MARK recs))
    with (stx :: header i cmd q ++ records RECORD_MARK (s :: recs)) in Htx2
    by (rewrite records_cons; cbn [app]; by rewrite <- app_assoc).
  destruct (finish_ok h tx2 stx _ Htx2) as (tx3 & c & E3 & Hc);
    [rewrite len_app, records_cons, len_cons, len_app; unfold RECV_BUFFER_SIZE; lia|].
  exists tx3, s, c. split_and!; try done; try apply Hc.
  unfold respond.
  assert (Est : (if rc =? NOERROR then hupacket_ack_response itoa else hupacket_nak_response itoa rc) h = Ok (tt, set_tx tx1 h)).
  { destruct (rc =? NOERROR) eqn:Erc; zify_bool.
    - subst rc. unfold hupacket_ack_response. by erewrite stm_bind_ok by apply E0.
    - unfold hupacket_nak_response. by erewrite stm_bind_ok by apply E0. }
  erewrite stm_bind_ok by apply Est. cbv beta iota. erewrite stm_bind_ok by apply E2. cbv beta iota. exact E3.
Qed.
End Transmit.

(** ** Reception *)

Section Receive.
Context (crc16 : list Z -> Z) (itoa : Z -> Z -> option (list Z)).
Context {C R : Type} (send : list Z -> stp C R hup_handle Z).
Context (cmds resps : list (list Z * stp C R hup_handle unit)).

(** The first handler of a table registered under a name. *)
Fixpoint handler_of (table : list (list Z * stp C R hup_handle unit)) (cmd : list Z) : stp C R hup_handle unit :=
  match table with
  | [] => mret tt
  | (name, func) :: table => if bool_decide (name = cmd) then func else handler_of table cmd
  end.

Lemma dispatch_ok table h p cmd : rd (argv h) 0 = Ok p -> str_at p h = Ok cmd ->
  dispatch table h = handler_of table cmd h.
Proof.
  intros Hp Hs. induction table as [|[name func] table IH]; [done|]. cbn [dispatch handler_of].
  erewrite lift_bind_ok by (apply reads_ok; rewrite Hp; exact Hs).
  destruct (bool_decide _); [done | exact IH].
Qed.

(** What [process_data] makes of the CRC text [t] of a packet with [body]. *)
Definition crc_ok (body : list Z) (c : option (list Z)) : bool :=
  if c is Some t then crc16 body =? u16 (strtoul16 t) else true.

Lemma check_crc_ok stx hdr recs c h h' : complete stx hdr recs c h h' -> Forall plain (default [] c) ->
  let ok := crc_ok (hdr ++ records RECORD_MARK recs) c in
  check_crc crc16 h' = Ok (negb ok && (stx =? ENQ_OF_COMMAND),
    if c is Some _ then set_crc_match ok h' else h').
Proof.
  intros [_ _ _ [suf Eb] Er _ Ec _ _] Hp. unfold check_crc. rewrite Ec.
  destruct c as [t|]; cbn [default crc_ok] in *; [|done].
  set (body := hdr ++ records RECORD_MARK recs) in *. pose proof (len_nonneg body).
  assert (Eb' : buffer h' = (body ++ [0]) ++ t ++ 0 :: suf) by (rewrite Eb; unfold body; rewrite <- !app_assoc; done).
  rewrite Eb', cstr_app; [|by rewrite len_app, len_single|by apply plain_no_nul]. step. fields.
  replace (Z.to_nat (len body + 1 - 1)) with (length body) by (unfold len; lia). rewrite <- (app_assoc body).
  rewrite !take_app_length, Er, negb_involutive. done.
Qed.

(** A well formed packet: what it is made of, and that it fits. *)
Record packet_ok (stx : Z) (i : option (list Z)) (cmd : list Z) (q : option (list Z)) (recs : list (list Z))
    (c : option (list Z)) : Prop := {
  pk_stx : is_stx stx = true;
  pk_header : header_ok i cmd q;
  pk_plain : Forall plain (default [] i) /\ Forall plain cmd /\ Forall plain (default [] q) /\
    Forall (Forall plain) recs /\ Forall plain (default [] c);
  pk_len : len (header i cmd q ++ records RECORD_MARK recs ++ trailer c) < RECV_BUFFER_SIZE;
  pk_argc : 1 + len recs <= ARGV_SIZE
}.

Definition packet (stx : Z) i cmd q recs c : list Z :=
  stx :: header i cmd q ++ records RECORD_MARK recs ++ trailer c ++ [END_OF_PACKET].

Lemma plain_marks : plain ID_MARK /\ plain SEQUENCE_MARK.
Proof. split; by_decide. Qed.

Lemma header_plain i cmd q : Forall plain (default [] i) -> Forall plain cmd -> Forall plain (default [] q) ->
  Forall plain (header i cmd q).
Proof.
  intros Hi Hc Hq. destruct plain_marks as [H1 H2]. unfold header. rewrite !Forall_app.
  destruct i, q; cbn in *; rewrite ?Forall_app, ?Forall_cons; split_and?; (done || by constructor).
Qed.

Lemma receive_complete stx i cmd q recs c h : wf h -> packet_ok stx i cmd q recs c ->
  exists h1, complete stx (header i cmd q) recs c h h1 /\
    process_hupacket crc16 itoa send cmds resps (packet stx i cmd q recs c) h =
      (process_data crc16 itoa send cmds resps;; mret tt) h1.
Proof.
  intros Hwf [Hstx Hh (Pi & Pc & Pq & Pr & Pt) Hl Ha].
  destruct (feed_end crc16 itoa send cmds resps stx (header i cmd q) recs c h) as (h1 & E & Hco); try done.
  - by apply header_plain.
  - by exists h1.
Qed.

Lemma run_ret_tt (m : stp C R hup_handle unit) h env H : run env ((m;; mret tt) h) H = run env (m h) H.
Proof. rewrite run_stp_bind. by destruct (run env (m h) H) as [[[[] h']|e] H']. Qed.

Lemma receive_ok stx i cmd q recs c h : wf h -> packet_ok stx i cmd q recs c ->
  let ok := crc_ok (header i cmd q ++ records RECORD_MARK recs) c in
  ok = true \/ stx <> ENQ_OF_COMMAND ->
  exists h1, parsed i cmd q recs h1 /\ response h1 = negb (stx =? ENQ_OF_COMMAND) /\
    (crc16_at h1 <> None <-> c <> None) /\ (c <> None -> crc_match h1 = ok) /\ tx_buffer h1 = tx_buffer h /\
    forall env H,
      run env (process_hupacket crc16 itoa send cmds resps (packet stx i cmd q recs c) h) H =
      run env ((handler_of (if stx =? ENQ_OF_COMMAND then cmds else resps) cmd;; lift (modify reset_hupacket)) h1) H.
Proof.
  intros Hwf Hpk ok Hok. destruct (receive_complete _ _ _ _ _ _ _ Hwf Hpk) as (h1 & Hco & Ep).
  destruct Hpk as [Hstx Hh (Pi & Pc & Pq & Pr & Pt) Hl Ha].
  pose proof (check_crc_ok _ _ _ _ _ _ Hco Pt) as Ecrc. cbv zeta in Ecrc. fold ok in Ecrc.
  set (h2 := if c is Some _ then set_crc_match ok h1 else h1) in *.
  destruct Hco as [[W1 W2 W3] Eac [rest Eav] [suf Eb] Er [Ei Es] Ec Et _].
  assert (H2 : wf h2 /\ argc h2 = argc h1 /\ argv h2 = argv h1 /\ buffer h2 = buffer h1 /\ id h2 = None /\
    sequence h2 = None /\ response h2 = response h1 /\ crc16_at h2 = crc16_at h1 /\ tx_buffer h2 = tx_buffer h1 /\
    (c <> None -> crc_match h2 = ok)).
  { unfold h2. destruct c; fields; split_and!; (done || by constructor). }
  destruct H2 as (Hwf2 & A1 & A2 & A3 & A4 & A5 & A6 & A7 & A8 & A9).
  rewrite <- A1 in Eac. rewrite <- A2 in Eav. rewrite <- A3 in Eb.
  destruct (split_packet_ok _ _ _ _ _ _ _ Hwf2 Eac Eav Eb A4 A5 Hh Pi Pc Pq Pr) as (h3 & E3 & Hpa & B1 & B2 & B3 & B4).
  exists h3. split_and!; try done; try congruence.
  - rewrite B3, A7, Ec. by destruct c.
  - intros Hc. rewrite B2. by apply A9.
  - intros env H. rewrite Ep, run_ret_tt. unfold process_data.
    erewrite lift_bind_ok by apply Ecrc. cbv beta iota.
    replace (negb ok && (stx =? ENQ_OF_COMMAND)) with false.
    2: { destruct Hok as [-> | Hne]; [done|]. apply Z.eqb_neq in Hne. by rewrite Hne, andb_false_r. }
    erewrite lift_bind_ok by apply E3. cbv beta iota. erewrite lift_bind_ok by reflexivity. cbv beta iota.
    rewrite B1, A6, Er. destruct (pa_cmd _ _ _ _ _ Hpa) as (p & Hp & Hs).
    replace (if negb (stx =? ENQ_OF_COMMAND) then resps else cmds) with (if stx =? ENQ_OF_COMMAND then cmds else resps)
      by by destruct (stx =? ENQ_OF_COMMAND).
    rewrite !run_stp_bind. by rewrite (dispatch_ok _ _ _ _ Hp Hs).
Qed.
End Receive.
