(* ===== verification/HuPacketProps.v ===== *)
(** The properties of the packet layer, with a concrete [itoa] and CRC for
    their witnesses. *)

From S2P Require Import Prelude HuPacket HuPacketProof HuPacketThm.

(** ** A concrete [itoa] *)

Definition dig (d : Z) : Z := if d <? 10 then 48 + d else 55 + d.
Fixpoint todigits (fuel : nat) (b n : Z) : list Z :=
  match fuel with
  | O => []
  | S f => if n <? b then [dig n] else todigits f b (n / b) ++ [dig (n mod b)]
  end.
Definition itoa_ref (v base : Z) : option (list Z) :=
  Some (if base =? 10 then (if v <? 0 then 45 :: todigits 10 10 (- v) else todigits 10 10 v)
        else todigits 8 16 (u32 v)).
(** Any 16-bit checksum does for the witnesses. *)
Definition crc_ref (l : list Z) : Z := u16 (foldl (fun a c => a * 31 + c) 0 l).

Definition hexdigit (c : Z) : Prop := 48 <= c <= 57 \/ 65 <= c <= 70.

Lemma dig_hex d : 0 <= d < 16 -> hexdigit (dig d) /\ digit16 (dig d) = Some d.
Proof.
  intros H. unfold dig, digit16, hexdigit.
  assert (Hd : d ∈ seqZ 0 16) by (apply elem_of_seqZ; lia). clear H.
  assert (Ha : Forall (fun d => bool_decide (48 <= dig d <= 57 \/ 65 <= dig d <= 70) = true /\ digit16 (dig d) = Some d) (seqZ 0 16)).
  { vm_compute. repeat constructor. }
  rewrite Forall_forall in Ha. destruct (Ha d Hd) as [H1 H2]. apply bool_decide_eq_true in H1. by split.
Qed.

Lemma hexdigit_plain c : hexdigit c -> plain c.
Proof.
  intros H. unfold plain, is_byte. split; [unfold hexdigit in H; lia|].
  rewrite !not_elem_of_cons. unfold hexdigit, ENQ_OF_COMMAND, ACK_OF_RESPONSE, NAK_OF_RESPONSE, END_OF_PACKET, CRC_MARK, RECORD_MARK in *.
  split_and!; try lia. apply not_elem_of_nil.
Qed.

Lemma todigits_hex f b n : 2 <= b <= 16 -> 0 <= n -> Forall hexdigit (todigits f b n).
Proof.
  intros Hb. revert n. induction f as [|f IH]; intros n Hn; [by constructor|]. cbn [todigits]. case_test.
  - constructor; [apply dig_hex; lia | constructor].
  - apply Forall_app. split; [apply IH, Z.div_pos; lia|]. constructor; [|constructor].
    apply dig_hex. pose proof (Z.mod_pos_bound n b). lia.
Qed.

Lemma todigits_len f b n : len (todigits f b n) <= Z.of_nat f.
Proof.
  revert n. induction f as [|f IH]; intros n; cbn [todigits]; [rewrite len_nil; lia|].
  case_test; [rewrite len_single; lia|]. rewrite len_app, len_single. specialize (IH (n / b)). lia.
Qed.

Lemma digits16_todigits f n rest : 0 <= n < 16 ^ Z.of_nat f -> n <= UINT32_MAX ->
  digits16 0 (todigits f 16 n ++ rest) = digits16 n rest.
Proof.
  revert n rest. induction f as [|f IH]; intros n rest Hn Hm; cbn [todigits].
  - replace n with 0 by (cbn in Hn; lia). done.
  - rewrite Nat2Z.inj_succ, Z.pow_succ_r in Hn by lia. case_test.
    + cbn [app digits16]. destruct (dig_hex n) as [_ ->]; [lia|]. f_equal. unfold UINT32_MAX in *. lia.
    + pose proof (Z.div_mod n 16 ltac:(lia)). pose proof (Z.mod_pos_bound n 16 ltac:(lia)).
      rewrite <- app_assoc, IH by (unfold UINT32_MAX in *; lia).
      cbn [app digits16]. destruct (dig_hex (n mod 16)) as [_ ->]; [lia|]. f_equal. unfold UINT32_MAX in *. lia.
Qed.

Lemma strtoul16_hex s : Forall hexdigit s -> strtoul16 s = digits16 0 s.
Proof.
  intros H. destruct s as [|c s]; [done|]. apply Forall_cons in H as [Hc H]. unfold strtoul16.
  assert (Es : skip_space (c :: s) = c :: s).
  { cbn. replace (isspace c) with false; [done|]. symmetry. unfold isspace, hexdigit in *.
    destruct (9 <=? c) eqn:E1, (c <=? 13) eqn:E2, (c =? 32) eqn:E3; zify_bool; (done || lia). }
  rewrite Es.
  assert (Ex : skip_0x (c :: s) = c :: s).
  { unfold skip_0x. destruct c as [|p|p]; try done. do 6 (destruct p as [p|p|]; try done).
    destruct s as [|x [|y s]]; try done. apply Forall_cons in H as [Hx _].
    replace ((x =? 120) || (x =? 88)) with false; [done|]. unfold hexdigit in Hx.
    destruct (x =? 120) eqn:E1, (x =? 88) eqn:E2; zify_bool; (done || lia). }
  clear Es. unfold hexdigit in Hc. destruct c as [|p|p]; try lia.
  do 6 (destruct p as [p|p|]; try (by rewrite Ex); try lia).
Qed.

#[export] Instance text_ref : TextSpec crc_ref itoa_ref.
Proof.
  split.
  - intros v Hv. exists (if v <? 0 then 45 :: todigits 10 10 (- v) else todigits 10 10 v). split; [done|].
    unfold INT32_MIN, INT32_MAX in Hv.
    assert (H : forall n, 0 <= n -> len (todigits 10 10 n) <= 10 /\ Forall plain (todigits 10 10 n)).
    { intros n Hn. split; [apply (todigits_len 10)|]. eapply Forall_impl; [apply todigits_hex; lia | apply hexdigit_plain]. }
    case_test.
    + destruct (H (- v)) as [H1 H2]; [lia|]. rewrite len_cons. split; [lia|]. constructor; [by_decide | done].
    + destruct (H v) as [H1 H2]; [lia|]. split; [lia | done].
  - intros v Hv. unfold UINT16_MAX in Hv. exists (todigits 8 16 v).
    assert (H : Forall hexdigit (todigits 8 16 v)) by (apply todigits_hex; lia).
    split_and!.
    + unfold itoa_ref. by rewrite u32_id by lia.
    + apply (todigits_len 8).
    + eapply Forall_impl; [exact H | apply hexdigit_plain].
    + rewrite strtoul16_hex by done. rewrite <- (app_nil_r (todigits 8 16 v)).
      rewrite digits16_todigits by (unfold UINT32_MAX; cbn; lia). cbn [digits16]. apply u16_id. lia.
  - intros l. unfold crc_ref. pose proof (u16_range (foldl (fun a c => a * 31 + c) 0 l)). unfold UINT16_MAX. lia.
Qed.

(** ** Concrete environment for the witnesses: [send] is the only call *)

Definition send_ref (s : list Z) : stp (list Z) Z hup_handle Z := ask s.
Definition str (s : string) : list Z := bytes_of_string s.
(** A command and a response handler that answer nothing. *)
Definition tables_ref : list (list Z * stp (list Z) Z hup_handle unit) := [(str "flash", mret tt); (str "ver", mret tt)].
(** A handle between packets. *)
Definition idle : hup_handle := reset_hupacket zero_handle.
Lemma idle_wf : wf idle.
Proof. done. Qed.

(** ** Properties *)

Section Props.
Context (crc16 : list Z -> Z) (itoa : Z -> Z -> option (list Z)).
Context {C R : Type} (send : list Z -> stp C R hup_handle Z).
Context (cmds resps : list (list Z * stp C R hup_handle unit)).
Local Abbreviation process_hupacket := (process_hupacket crc16 itoa send cmds resps).

(** C10: Receiving a well formed packet, whatever state the handle was in, runs
    the first handler registered under its command (in the command or the
    response table, by its start byte) on a handle that holds the command, the
    records as [argv[1..]], the id and the sequence as separate strings, and
    then resets the state machine.  This holds when the CRC text, if there is
    one, names the CRC of the bytes before it, and for responses in any case. *)
Theorem process_hupacket_receives stx i cmd q recs c h : wf h -> packet_ok stx i cmd q recs c ->
  let ok := crc_ok crc16 (header i cmd q ++ records RECORD_MARK recs) c in
  ok = true \/ stx <> ENQ_OF_COMMAND ->
  exists h1, parsed i cmd q recs h1 /\ response h1 = negb (stx =? ENQ_OF_COMMAND) /\
    (crc16_at h1 <> None <-> c <> None) /\ (c <> None -> crc_match h1 = ok) /\ tx_buffer h1 = tx_buffer h /\
    forall env H,
      run env (process_hupacket (packet stx i cmd q recs c) h) H =
      run env ((handler_of (if stx =? ENQ_OF_COMMAND then cmds else resps) cmd;; lift (modify reset_hupacket)) h1) H.
Proof. apply receive_ok. Qed.

(** The bytes of a stream may arrive in any chunks: processing two chunks
    one after the other is processing them at once. *)
Theorem process_hupacket_chunks d1 d2 h env H :
  run env (process_hupacket (d1 ++ d2) h) H = run env ((process_hupacket d1;; process_hupacket d2) h) H.
Proof. apply process_app_run. Qed.

(** Between packets every byte that starts no packet is ignored. *)
Theorem process_hupacket_ignores data h :
  state h = HUP_STATE_NONE -> Forall (fun c => is_stx c = false) data ->
  process_hupacket data h = Ret (tt, h).
Proof.
  intros Hs. induction 1 as [|c data Hc _ IH]; [done|]. cbn [HuPacket.process_hupacket]. unfold mbind, stp_bind.
  unfold process_char. rewrite Hs, Hc. exact IH.
Qed.

(** The invariant of reception: buffers of their size, indices in range. *)
Definition receiving (h : hup_handle) : Prop :=
  wf h /\ (state h = HUP_STATE_NONE \/ 0 <= state h <= RECV_BUFFER_SIZE) /\ 0 <= argc h <= ARGV_SIZE.

Definition marks (data : list Z) : Z := len (filter (fun c => c = RECORD_MARK) data).

Lemma marks_cons c data : marks (c :: data) = (if c =? RECORD_MARK then 1 else 0) + marks data.
Proof.
  unfold marks. rewrite filter_cons. destruct (decide (c = RECORD_MARK)) as [->|H]; [rewrite len_cons, Z.eqb_refl; lia|].
  apply Z.eqb_neq in H. by rewrite H.
Qed.

Lemma marks_nonneg data : 0 <= marks data.
Proof. apply len_nonneg. Qed.

Lemma put_char_safe ch h : receiving h -> 0 <= state h ->
  exists h', put_char ch h = Ok (tt, h') /\ receiving h' /\ argc h' <= argc h.
Proof.
  intros ([W1 W2 W3] & Hs & Ha) Hs0. unfold put_char, in_buffer, RECV_BUFFER_SIZE, HUP_STATE_NONE in *.
  rewrite u32_id by lia. case_test.
  - rewrite wr_ok by lia. step. eexists. split; [done|]. fields. split; [|lia].
    unfold receiving, RECV_BUFFER_SIZE, HUP_STATE_NONE. fields. split_and!; try lia.
    constructor; fields; try done. by rewrite len_insert.
  - eexists. split; [done|]. unfold receiving. fields. split_and!; try lia; by constructor || by left.
Qed.

Lemma store_char_safe ch h : receiving h -> 0 <= state h -> (ch = RECORD_MARK -> argc h < ARGV_SIZE) ->
  exists h', store_char ch h = Ok (tt, h') /\ receiving h' /\
    argc h' <= argc h + (if ch =? RECORD_MARK then 1 else 0).
Proof.
  intros Hr Hs0 Hm. unfold store_char. destruct (ch =? CRC_MARK) eqn:E1; zify_bool.
  - subst ch. change (CRC_MARK =? RECORD_MARK) with false. cbv iota.
    destruct Hr as ([W1 W2 W3] & Hs & Ha). unfold in_buffer, RECV_BUFFER_SIZE, HUP_STATE_NONE in *.
    rewrite u32_id by lia. case_test.
    + rewrite wr_ok by lia. step. eexists. split; [done|]. unfold receiving, RECV_BUFFER_SIZE, HUP_STATE_NONE. fields.
      split_and!; try lia. constructor; fields; try done. by rewrite len_insert.
    + eexists. split; [done|]. unfold receiving. fields. split_and!; try lia; by constructor || by left.
  - destruct (ch =? RECORD_MARK) eqn:E2; zify_bool.
    + destruct Hr as ([W1 W2 W3] & Hs & Ha). specialize (Hm E2). unfold ARGV_SIZE in *.
      erewrite stm_bind_ok.
      2: { apply updates_ok. rewrite wr_ok by (unfold len; rewrite W1; lia). step. reflexivity. }
      cbv beta iota.
      edestruct (put_char_safe ch) as (h' & E & Hr' & Ha'); [| |exists h'; split; [exact E|split; [exact Hr'|]]].
      * unfold receiving, ARGV_SIZE. fields. split_and!; try done; try lia. constructor; fields; try done.
        by rewrite length_insert.
      * by fields.
      * cbn [argc set_argc set_argv] in Ha'. lia.
    + destruct (put_char_safe ch h Hr Hs0) as (h' & E & Hr' & Ha'). exists h'. split_and!; try done. lia.
Qed.
Lemma process_char_safe ch h : receiving h -> ch <> END_OF_PACKET -> (ch = RECORD_MARK -> argc h < ARGV_SIZE) ->
  exists h', process_char crc16 itoa send cmds resps ch h = Ret (tt, h') /\ receiving h' /\
    argc h' <= Z.max 1 (argc h + (if ch =? RECORD_MARK then 1 else 0)).
Proof.
  intros Hr He Hm. pose proof Hr as (Hwf & Hs & Ha). destruct (is_stx ch) eqn:Estx.
  - rewrite process_stx by done. eexists. split; [done|]. destruct Hwf as [W1 W2 W3]. split; [|fields; lia].
    unfold receiving, ARGV_SIZE, RECV_BUFFER_SIZE. fields. split_and!; try lia. constructor; fields; try done.
    destruct (argv h); [done|]. by rewrite <- W1.
  - destruct Hs as [Hs | Hs].
    + exists h. split; [|split; [done|]; destruct (ch =? RECORD_MARK); lia].
      unfold process_char. by rewrite Hs, Estx.
    + destruct (store_char_safe ch h Hr (proj1 Hs) Hm) as (h' & E & Hr' & Ha'). exists h'.
      rewrite process_char_store; [|lia|done|by apply Z.eqb_neq]. unfold lift. rewrite E.
      split_and!; try done. lia.
Qed.

Lemma feed_safe data h :
  receiving h -> END_OF_PACKET ∉ data -> Z.max 1 (argc h) + marks data <= ARGV_SIZE ->
  exists h', process_hupacket data h = Ret (tt, h') /\ receiving h' /\
    argc h' <= Z.max 1 (argc h) + marks data.
Proof.
  revert h. induction data as [|c data IH]; intros h Hr He Hm.
  - exists h. split_and!; try done. change (marks []) with 0. lia.
  - apply not_elem_of_cons in He as [Hc He]. rewrite marks_cons in Hm |- *. pose proof (marks_nonneg data).
    destruct (process_char_safe c h Hr) as (h1 & E1 & Hr1 & Ha1); [congruence | |].
    { intros ->. rewrite Z.eqb_refl in Hm. lia. }
    assert (Hb : 0 <= (if c =? RECORD_MARK then 1 else 0) <= 1) by (destruct (c =? RECORD_MARK); lia).
    set (b := if c =? RECORD_MARK then 1 else 0) in *. clearbody b.
    destruct (IH h1 Hr1 He) as (h2 & E2 & Hr2 & Ha2); [lia|]. exists h2. split_and!; [|done|lia].
    cbn [HuPacket.process_hupacket]. unfold mbind, stp_bind. rewrite E1. exact E2.
Qed.

(** The end mark: ignored between packets, behind the buffer when that is full,
    and otherwise the NUL of the text [process_data] reads. *)
Lemma end_mark_anywhere h : receiving h ->
  process_hupacket [END_OF_PACKET] h =
    if state h =? HUP_STATE_NONE then Ret (tt, h)
    else if state h =? RECV_BUFFER_SIZE then Halt UB
    else (process_data crc16 itoa send cmds resps;; mret tt) (set_buffer (<[Z.to_nat (state h) := 0]> (buffer h)) h).
Proof.
  intros ([_ W2 _] & Hs & _). cbn [HuPacket.process_hupacket]. unfold mbind, stp_bind, process_char, HUP_STATE_NONE in *.
  change (is_stx END_OF_PACKET) with false. cbn [negb]. rewrite andb_true_r.
  destruct (state h =? -1) eqn:E1; [done|]. zify_bool. change (END_OF_PACKET =? END_OF_PACKET) with true. cbv iota.
  unfold mbind, stp_bind, lift, updates. destruct (state h =? RECV_BUFFER_SIZE) eqn:E2; zify_bool.
  - rewrite wr_oob by (rewrite W2; lia). done.
  - rewrite wr_ok by (rewrite W2; unfold RECV_BUFFER_SIZE in *; lia). done.
Qed.

(** C11: No byte sequence of any length without an end mark makes reception
    fault as long as it holds at most 63 record marks: the buffer index stays
    within the buffer, longer packets being dropped, and [argv] within its 64
    entries. The end mark after it is ignored when no packet is open; it stores
    its NUL inside the buffer, and the packet is processed, unless the packet
    fills the buffer exactly: then, and only then, the NUL lands behind it. *)
Theorem process_hupacket_safe data h :
  receiving h -> END_OF_PACKET ∉ data -> Z.max 1 (argc h) + marks data <= ARGV_SIZE ->
  exists h', process_hupacket data h = Ret (tt, h') /\ receiving h' /\
    argc h' <= Z.max 1 (argc h) + marks data /\
    process_hupacket (data ++ [END_OF_PACKET]) h =
      if state h' =? HUP_STATE_NONE then Ret (tt, h')
      else if state h' =? RECV_BUFFER_SIZE then Halt UB
      else (process_data crc16 itoa send cmds resps;; mret tt) (set_buffer (<[Z.to_nat (state h') := 0]> (buffer h')) h').
Proof.
  intros Hr He Hm. destruct (feed_safe data h Hr He Hm) as (h' & E & Hr' & Ha). exists h'. split_and!; try done.
  rewrite <- end_mark_anywhere by done. by apply process_app_ret.
Qed.

Lemma body_no_nul hdr recs : Forall plain hdr -> Forall (Forall plain) recs -> 0 ∉ hdr ++ records RECORD_MARK recs.
Proof.
  intros Hh Hr. apply not_elem_of_app. split; [by apply plain_no_nul|].
  induction Hr as [|r recs Hr0 _ IH]; [apply not_elem_of_nil|]. rewrite records_cons.
  apply not_elem_of_cons. split; [done|]. apply not_elem_of_app. split; [by apply plain_no_nul | done].
Qed.

(** C12: A command whose CRC does not match, and whose text leaves 24 bytes of
    the buffer for the answer, runs no handler: it is answered by a NAK that carries all of the received text, -2000 and a CRC of its own.
    The state machine is then not reset. *)
Theorem crc_mismatch_nak i cmd q recs t h `{!TextSpec crc16 itoa} :
  wf h -> packet_ok ENQ_OF_COMMAND i cmd q recs (Some t) ->
  let body := header i cmd q ++ records RECORD_MARK recs in
  crc_ok crc16 body (Some t) = false -> len body + 24 < RECV_BUFFER_SIZE ->
  exists s c h1, itoa (- ENMCRC16) 10 = Some s /\ 0 <= state h1 /\
    u16 (strtoul16 c) = crc16 (body ++ RECORD_MARK :: s) /\
    forall env H,
      run env (process_hupacket (packet ENQ_OF_COMMAND i cmd q recs (Some t)) h) H =
      run env ((send (NAK_OF_RESPONSE :: (body ++ RECORD_MARK :: s) ++ CRC_MARK :: c ++ [END_OF_PACKET]);; mret tt) h1) H.
Proof.
  intros Hwf Hpk body Hbad Hl. destruct (receive_complete crc16 itoa send cmds resps _ _ _ _ _ _ _ Hwf Hpk) as (h1 & Hco & Ep).
  destruct Hpk as [Hstx Hh (Pi & Pc & Pq & Pr & Pt) _ Ha].
  pose proof (check_crc_ok crc16 _ _ _ _ _ _ Hco Pt) as Ecrc. cbv zeta in Ecrc. fold body in Ecrc. rewrite Hbad in Ecrc.
  destruct Hco as [Hw Eac [rest Eav] [suf Eb] Er [Ei Es] Ec Et Est].
  assert (Hbody : 0 ∉ body).
  { by apply body_no_nul; [apply header_plain|]. }
  set (h2 := set_crc_match false h1) in *.
  assert (Hhd : headed None body None h2).
  { destruct Hw as [W1 W2 W3]. unfold h2; constructor; fields; try done.
    exists (Some 0). rewrite Eav. split; [done|]. unfold str_at. cbn [deref]. step. fields. rewrite Eb, app_assoc.
    by apply (cstr_app []). }
  destruct (respond_ok crc16 itoa (- ENMCRC16) [] None body None h2 Hhd) as (tx & s & c & Es' & _ & _ & Eresp & _ & Hc & _);
    [done | by constructor | unfold header; cbn [records concat map]; rewrite app_nil_r, len_nil; cbn [app]; lia |].
  destruct Hc as (t' & -> & Ht'); [unfold h2; fields; by rewrite Ec|].
  unfold header in Eresp, Ht'. cbn [app] in Eresp, Ht'. rewrite app_nil_r, records_cons in Eresp, Ht'.
  cbn [records concat map trailer] in Eresp, Ht'. rewrite app_nil_r in Eresp, Ht'.
  exists s, t', (set_tx tx h2). split_and!; try done.
  intros env H. rewrite Ep, run_ret_tt. unfold process_data. erewrite lift_bind_ok by apply Ecrc. cbv beta iota.
  change (negb false && (ENQ_OF_COMMAND =? ENQ_OF_COMMAND)) with true. cbv iota.
  destruct (stm_bind_inv _ _ _ _ Eresp) as ([] & h3 & Enak & Efin). cbn [record_strs] in Efin. rewrite stm_ret_bind in Efin.
  erewrite lift_bind_ok by exact Enak. cbv beta iota. unfold hupacket_send_buffer.
  rewrite !run_stp_bind. unfold lift. by rewrite Efin.
Qed.

(** A response is received by the peer. *)
Lemma respond_received `{!TextSpec crc16 itoa} rc recs i cmd q recs0 hs hc :
  parsed i cmd q recs0 hs -> wf hc -> header_ok i cmd q ->
  Forall plain (default [] i) -> Forall plain cmd -> Forall plain (default [] q) -> Forall (Forall plain) recs ->
  INT32_MIN <= rc <= INT32_MAX ->
  len (header i cmd q) + len (records RECORD_MARK recs) + 24 < RECV_BUFFER_SIZE -> 2 + len recs <= ARGV_SIZE ->
  exists bytes hs' s h1,
    respond crc16 itoa rc recs hs = Ok (bytes, hs') /\ itoa rc 10 = Some s /\
    parsed i cmd q (s :: recs) h1 /\ response h1 = true /\
    (crc16_at hs <> None -> crc16_at h1 <> None /\ crc_match h1 = true) /\ wf hs' /\
    forall env H, run env (process_hupacket bytes hc) H =
      run env ((handler_of resps cmd;; lift (modify reset_hupacket)) h1) H.
Proof.
  intros Hp Hwf Hh Pi Pc Pq Pr Hrc Hl Hn. pose proof (pa_wf _ _ _ _ _ Hp) as Hwfs. apply parsed_headed in Hp.
  destruct (respond_ok crc16 itoa rc recs i cmd q hs Hp Hrc Pr Hl) as (tx & s & c & Es & Hls & Hps & Eresp & Hc0 & Hc & Pt & Hlc & Hltx).
  set (stx := if rc =? NOERROR then ACK_OF_RESPONSE else NAK_OF_RESPONSE) in *.
  assert (Hstx : is_stx stx = true /\ stx <> ENQ_OF_COMMAND) by (unfold stx; by destruct (rc =? NOERROR)).
  destruct Hstx as [Hstx Hne].
  assert (Hpk : packet_ok stx i cmd q (s :: recs) c).
  { constructor; try done.
    - split_and!; try done. by constructor.
    - rewrite !len_app, records_cons, len_cons, len_app.
      assert (len (trailer c) <= 9) by (destruct c; unfold trailer; rewrite ?len_cons, ?len_nil; simpl in Hlc; lia). lia.
    - rewrite len_cons. lia. }
  destruct (receive_ok crc16 itoa send cmds resps _ _ _ _ _ _ _ Hwf Hpk (or_intror Hne))
    as (h1 & Hpa & Er & Hcr & Hm & _ & Hrun).
  exists (packet stx i cmd q (s :: recs) c), (set_tx tx hs), s, h1.
  assert (Eq : (stx =? ENQ_OF_COMMAND) = false) by by apply Z.eqb_neq.
  split_and!; try done.
  - rewrite Eresp. unfold packet. by rewrite <- !app_assoc.
  - by rewrite Er, Eq.
  - intros Hcrc. destruct (Hc Hcrc) as (t & -> & Ht). split; [by apply Hcr|].
    rewrite Hm by done. unfold crc_ok. rewrite Ht. apply Z.eqb_refl.
  - destruct Hwfs as [W1 W2 W3]. by constructor.
  - intros env H. rewrite Hrun, Eq. done.
Qed.

(** C9: A response built by [hupacket_ack_response] or [hupacket_nak_response],
    some [hupacket_record_str] and [hupacket_send_buffer] inside a handler is
    read back by the peer: its response handler for the same command runs with
    the status text and the records as arguments, the same id and sequence,
    and, when the request carried a CRC, with a CRC that matches. *)
Theorem response_roundtrip `{!TextSpec crc16 itoa} rc recs i cmd q recs0 hs hc :
  parsed i cmd q recs0 hs -> wf hc -> header_ok i cmd q ->
  Forall plain (default [] i) -> Forall plain cmd -> Forall plain (default [] q) -> Forall (Forall plain) recs ->
  INT32_MIN <= rc <= INT32_MAX ->
  len (header i cmd q) + len (records RECORD_MARK recs) + 24 < RECV_BUFFER_SIZE -> 2 + len recs <= ARGV_SIZE ->
  exists bytes hs' s h1,
    respond crc16 itoa rc recs hs = Ok (bytes, hs') /\ itoa rc 10 = Some s /\
    parsed i cmd q (s :: recs) h1 /\ response h1 = true /\
    (crc16_at hs <> None -> crc16_at h1 <> None /\ crc_match h1 = true) /\ wf hs' /\
    forall env H, run env (process_hupacket bytes hc) H =
      run env ((handler_of resps cmd;; lift (modify reset_hupacket)) h1) H.
Proof. apply respond_received. Qed.
End Props.

(** ** Faults *)

Section Faults.
Context (crc16 : list Z -> Z) (itoa : Z -> Z -> option (list Z)).
Context {C R : Type} (send : list Z -> stp C R hup_handle Z).
Context (cmds resps : list (list Z * stp C R hup_handle unit)).
Local Abbreviation process_hupacket := (process_hupacket crc16 itoa send cmds resps).

(** [process_hupacket] does not bound [argc]: a packet with 64 record marks
    or more, whatever else it holds, writes behind [argv]. *)
Theorem argv_overflow stx hdr recs rest h :
  wf h -> is_stx stx = true -> Forall plain hdr -> Forall (Forall plain) recs ->
  len recs = ARGV_SIZE - 1 -> len (hdr ++ records RECORD_MARK recs) < RECV_BUFFER_SIZE ->
  process_hupacket ((stx :: hdr ++ records RECORD_MARK recs) ++ RECORD_MARK :: rest) h = Halt UB.
Proof.
  intros Hwf Hstx Hh Hr Hn Hl. unfold ARGV_SIZE in Hn.
  destruct (feed_packet crc16 itoa send cmds resps stx hdr recs h) as (h1 & E1 & [[W1 _ _] Es Ea _ _ _ _ _]);
    try done; [lia | unfold ARGV_SIZE; lia |].
  erewrite process_app_ret by apply E1. cbn [HuPacket.process_hupacket]. unfold mbind, stp_bind.
  pose proof (len_nonneg (hdr ++ records RECORD_MARK recs)).
  rewrite process_char_store by (done || lia). unfold lift, store_char.
  change (RECORD_MARK =? CRC_MARK) with false. change (RECORD_MARK =? RECORD_MARK) with true. cbv iota.
  unfold mbind, stm_bind, push_argv, updates. rewrite wr_oob by (unfold len; rewrite W1, Ea; lia). done.
Qed.

(** The end mark of a packet that fills the buffer stores its NUL one byte
    behind it (over [response]). *)
Theorem end_overflow stx hdr recs rest h :
  wf h -> is_stx stx = true -> Forall plain hdr -> Forall (Forall plain) recs ->
  1 + len recs <= ARGV_SIZE -> len (hdr ++ records RECORD_MARK recs) = RECV_BUFFER_SIZE ->
  process_hupacket ((stx :: hdr ++ records RECORD_MARK recs) ++ END_OF_PACKET :: rest) h = Halt UB.
Proof.
  intros Hwf Hstx Hh Hr Hn Hl.
  destruct (feed_packet crc16 itoa send cmds resps stx hdr recs h) as (h1 & E1 & [[_ W2 _] Es Ea _ _ _ _ _]);
    try done; [lia|].
  erewrite process_app_ret by apply E1. cbn [HuPacket.process_hupacket]. unfold mbind, stp_bind.
  unfold process_char. change (is_stx END_OF_PACKET) with false. cbn [negb]. rewrite andb_true_r.
  rewrite Es, Hl. change (RECV_BUFFER_SIZE =? HUP_STATE_NONE) with false. change (END_OF_PACKET =? END_OF_PACKET) with true. cbv iota.
  unfold mbind, stp_bind, lift, updates. rewrite wr_oob by (rewrite Es, W2, Hl; lia). done.
Qed.
End Faults.

(** ** Witnesses *)

Definition flash_packet : list Z :=
  packet ENQ_OF_COMMAND (Some (str "19")) (str "flash") (Some (str "21345")) [str "slot0"; str "10000"] None.

Lemma flash_packet_ok : packet_ok ENQ_OF_COMMAND (Some (str "19")) (str "flash") (Some (str "21345")) [str "slot0"; str "10000"] None.
Proof.
  constructor; by_decide.
Qed.

Lemma process_hupacket_receives_witness :
  exists h1, parsed (Some (str "19")) (str "flash") (Some (str "21345")) [str "slot0"; str "10000"] h1 /\
    forall env H,
      run env (process_hupacket crc_ref itoa_ref send_ref tables_ref tables_ref flash_packet zero_handle) H =
      run env ((handler_of tables_ref (str "flash");; lift (modify reset_hupacket)) h1) H.
Proof.
  destruct (process_hupacket_receives crc_ref itoa_ref send_ref tables_ref tables_ref _ _ _ _ _ _ zero_handle wf_zero
    flash_packet_ok) as (h1 & Hp & _ & _ & _ & _ & Hrun); [by left|].
  exists h1. split; [exact Hp | exact Hrun].
Defined.

Lemma process_hupacket_ignores_witness :
  process_hupacket crc_ref itoa_ref send_ref tables_ref tables_ref (str "noise") idle = Ret (tt, idle).
Proof. apply process_hupacket_ignores; [reflexivity | by_decide]. Defined.

Lemma idle_receiving : receiving idle.
Proof. split; [exact idle_wf|]. split; [left; reflexivity | by_decide]. Qed.

Lemma process_hupacket_safe_witness :
  exists h', process_hupacket crc_ref itoa_ref send_ref tables_ref tables_ref [5; 30; 26; 30; 6; 21; 1] idle = Ret (tt, h') /\
    receiving h' /\ argc h' <= 3.
Proof.
  destruct (process_hupacket_safe crc_ref itoa_ref send_ref tables_ref tables_ref [5; 30; 26; 30; 6; 21; 1] idle idle_receiving)
    as (h' & E & Hr & Ha & _); [by_decide | by_decide|].
  exists h'. split; [exact E|]. split; [exact Hr | exact Ha].
Defined.

Lemma crc_mismatch_nak_witness :
  exists s c h1, itoa_ref (- ENMCRC16) 10 = Some s /\ 0 <= state h1 /\
    u16 (strtoul16 c) = crc_ref (str "ver" ++ RECORD_MARK :: s) /\
    forall env H,
      run env (process_hupacket crc_ref itoa_ref send_ref tables_ref tables_ref
        (packet ENQ_OF_COMMAND None (str "ver") None [] (Some (str "0"))) idle) H =
      run env ((send_ref (NAK_OF_RESPONSE :: (str "ver" ++ RECORD_MARK :: s) ++ CRC_MARK :: c ++ [END_OF_PACKET]);; mret tt) h1) H.
Proof.
  apply (crc_mismatch_nak crc_ref itoa_ref send_ref tables_ref tables_ref None (str "ver") None [] (str "0") idle);
    [exact idle_wf | | by_decide | by_decide].
  constructor; by_decide.
Defined.

(** A handle inside the handler of a [ver] packet. *)
Definition ver_handle : hup_handle :=
  set_buffer (str "ver" ++ replicate 1533 0) (set_argc 1 (set_argv (Some 0 :: replicate 63 None) (set_state 3 idle))).

Lemma ver_parsed : parsed None (str "ver") None [] ver_handle.
Proof.
  constructor; try done.
  exists (Some 0). split; reflexivity.
Qed.

Lemma response_roundtrip_witness :
  exists bytes hs' s h1,
    respond crc_ref itoa_ref (-5) [str "slot0"] ver_handle = Ok (bytes, hs') /\ itoa_ref (-5) 10 = Some s /\
    parsed None (str "ver") None (s :: [str "slot0"]) h1 /\ response h1 = true.
Proof.
  destruct (response_roundtrip crc_ref itoa_ref send_ref tables_ref tables_ref (-5) [str "slot0"] None (str "ver") None []
    ver_handle idle ver_parsed idle_wf) as (bytes & hs' & s & h1 & E1 & E2 & E3 & E4 & _);
    [unfold header_ok; split_and!; by_decide | by_decide .. |].
  exists bytes, hs', s, h1. split_and!; assumption.
Defined.

Lemma argv_overflow_witness :
  process_hupacket crc_ref itoa_ref send_ref tables_ref tables_ref
    ((5 :: str "ver" ++ records RECORD_MARK (replicate 63 [])) ++ RECORD_MARK :: [4]) idle = Halt UB.
Proof. apply argv_overflow; [exact idle_wf | reflexivity | by_decide | by_decide | reflexivity | by_decide]. Defined.

Lemma end_overflow_witness :
  process_hupacket crc_ref itoa_ref send_ref tables_ref tables_ref
    ((5 :: replicate 1536 65 ++ records RECORD_MARK []) ++ END_OF_PACKET :: []) idle = Halt UB.
Proof. apply end_overflow; [exact idle_wf | reflexivity | by_decide | by_decide | by_decide | reflexivity]. Defined.
