(* ===== verification/HuFlash.v ===== *)
(** The flash commands of src/lib/hu/huflash.c and the boot slot query of
    src/lib/hu/bootloader.c they use, as handlers of the packet layer.  The
    flash map and the bootloader information are calls; the static [last_size]
    is passed along. *)

From S2P Require Import Prelude Ascii85 HuPacket.

Definition ASCII85_ERROR_CODE_START : Z := 255.
Definition ASCII85_MAX_CHUNK_SIZE : Z := 256.

(** The argument positions of the anonymous enum. *)
Definition ARG_FLASH_PARTITION : Z := 1.
Definition ARG_ERASE_MAX : Z := 2.
Definition ARG_FLASH_WRITE_PROTECT : Z := ARG_ERASE_MAX.
Definition ARG_WRPRT_MAX : Z := 3.
Definition ARG_FLASH_OFFSET : Z := ARG_ERASE_MAX.
Definition ARG_FLASH_LENGTH : Z := 3.
Definition ARG_FLASH_ASCII85_DATA : Z := 4.
Definition ARG_FLASH_MAX : Z := 5.

(** ** strtol of the C library *)

Fixpoint digits_in (base acc : Z) (s : list Z) : Z :=
  match s with
  | c :: s' =>
      match digit16 c with
      | Some d => if d <? base then digits_in base (Z.min (2 ^ 31) (acc * base + d)) s' else acc
      | None => acc
      end
  | [] => acc
  end.
Definition strtol (s : list Z) (base : Z) : Z :=
  let body s := if base =? 16 then skip_0x s else s in
  match skip_space s with
  | 45 :: s' => - digits_in base 0 (body s')
  | 43 :: s' => Z.min INT32_MAX (digits_in base 0 (body s'))
  | s' => Z.min INT32_MAX (digits_in base 0 (body s'))
  end.

(** ** The environment: sending, the bootloader information and the flash map *)

Inductive fcall :=
  | Send (data : list Z)
  | settings_runtime_get
  | blinfo_lookup
  | flash_area_open (id : Z)
  | flash_area_erase (fa off size : Z)
  | flash_area_write (fa off : Z) (data : list Z)
  | flash_area_close (fa : Z).
(** The return value, and what a call stores through its pointer argument: the
    slot byte or the flash area (0 when the pointer is left NULL). *)
Record fans := Fans { ret : Z; out : Z }.

Definition NOFA : Z := 0.
Local Abbreviation io := (prog fcall fans).
Local Abbreviation hm := (stp fcall fans hup_handle).

Definition do {A} (p : io A) : hm A := fun h => a ← p; Ret (a, h).

Section HuFlash.
Context (crc16 : list Z -> Z) (itoa : Z -> Z -> option (list Z)).
(** From the devicetree: the partitions that exist, with their ids; from
    Kconfig: CONFIG_RETENTION_BOOTLOADER_INFO and its output to settings; from
    the flash map: [fa->fa_size]. *)
Context (slot0_partition slot1_partition : option Z).
Context (RETENTION_BOOTLOADER_INFO OUTPUT_SETTINGS : bool).
Context (fa_size : Z -> Z).

Definition bootloader_active_slot : io (Z * Z) :=
  if RETENTION_BOOTLOADER_INFO then
    if OUTPUT_SETTINGS then
      r ← call settings_runtime_get;
      if negb (ret r =? 1) then mret (if ret r <? 0 then ret r else - EIO, 255)
      else mret (0, u8 (out r))
    else
      r ← call blinfo_lookup;
      if ret r <? 0 then mret (ret r, 255) else mret (0, u8 (out r))
  else mret (- ENOTSUP, 255).

Definition fixed_partitions : list (list Z * Z) :=
  (if slot0_partition is Some i then [(bytes_of_string "slot0", i)] else []) ++
  (if slot1_partition is Some i then [(bytes_of_string "slot1", i)] else []).

Fixpoint find_partition (table : list (list Z * Z)) (partition_name : list Z) : Z :=
  match table with
  | [] => - EINVAL
  | (name, i) :: table => if bool_decide (partition_name = name) then i else find_partition table partition_name
  end.
Definition get_partition_id (partition_name : list Z) : Z := find_partition fixed_partitions partition_name.

Definition open_flash_partition (partition_name : list Z) : io (Z * Z) :=
  rc ← (if RETENTION_BOOTLOADER_INFO && bool_decide (partition_name = bytes_of_string "inactive") then
          '(rc, partition_id) ← bootloader_active_slot;
          mret (if negb (rc =? 0) then get_partition_id partition_name
                else if partition_id =? 0 then get_partition_id (bytes_of_string "slot1")
                else if partition_id =? 1 then get_partition_id (bytes_of_string "slot0")
                else - EINVAL)
        else mret (get_partition_id partition_name));
  if negb (rc =? 0) then mret (rc, NOFA)
  else r ← call (flash_area_open rc); mret (ret r, out r).

Definition close_flash_partition (fa : Z) : io unit :=
  if negb (fa =? NOFA) then call (flash_area_close fa);; mret tt else mret tt.

(** ** The handlers *)

Definition send (s : list Z) : hm Z := do (r ← call (Send s); mret (ret r)).

Definition arg (i : Z) : hm (list Z) := lift (reads (fun h => p ← rd (argv h) i; str_at p h)).

Definition _set_status (rc : Z) : hm unit :=
  lift (if rc =? 0 then hupacket_ack_response itoa else hupacket_nak_response itoa rc).

(** The loop of [_set_done] from argument [i], [n] times. *)
Fixpoint record_args (i : Z) (n : nat) : hm unit :=
  match n with
  | O => mret tt
  | S n => s ← arg i; lift (hupacket_record_str s);; record_args (i + 1) n
  end.
Definition _set_done (argc from to : Z) : hm unit :=
  let to := if to >=? argc then argc - 1 else to in
  record_args from (Z.to_nat (to - from + 1));;
  hupacket_send_buffer crc16 itoa send;;
  mret tt.

(** [CONFIG_FLASH_HAS_EX_OP]; answers the new [last_size]. *)
Definition _wrprt (last_size : Z) : hm Z :=
  argc ← lift (gets argc);
  '(rc, fa) ←
    (if argc >=? ARG_WRPRT_MAX then
       s ← arg ARG_FLASH_WRITE_PROTECT;
       let wrptr := strtol s 10 in
       name ← arg ARG_FLASH_PARTITION;
       do (open_flash_partition name)
     else mret (- EINVAL, NOFA));
  _set_status rc;;
  do (close_flash_partition fa);;
  _set_done argc ARG_FLASH_PARTITION ARG_FLASH_WRITE_PROTECT;;
  mret (-1).

Definition _erase (last_size : Z) : hm Z :=
  argc ← lift (gets argc);
  '(rc, fa) ←
    (if argc >=? ARG_ERASE_MAX then
       name ← arg ARG_FLASH_PARTITION;
       '(rc, fa) ← do (open_flash_partition name);
       if negb (rc =? 0) then mret (rc, fa)
       else do (r ← call (flash_area_erase fa 0 (fa_size fa)); mret (ret r, fa))
     else mret (- EINVAL, NOFA));
  _set_status rc;;
  do (close_flash_partition fa);;
  _set_done argc ARG_FLASH_PARTITION ARG_FLASH_PARTITION;;
  mret (-1).

(** [decode_ascii85(ptr, len, handle->tx_buffer, ASCII85_MAX_CHUNK_SIZE * 5)] on
    the string of argument [i]. *)
Definition decode_arg (i : Z) : stm hup_handle Z := fun h =>
  p ← rd (argv h) i; o ← deref p; s ← cstr (buffer h) o;
  '(n, tx) ← decode_ascii85 (drop (Z.to_nat o) (buffer h)) (len s) (tx_buffer h) (ASCII85_MAX_CHUNK_SIZE * 5);
  Ok (n, set_tx tx h).

(** The part of [_flash] on an open partition. *)
Definition flash_chunk (fa last_size : Z) : hm (Z * Z) :=
  slen ← arg ARG_FLASH_LENGTH;
  let size := strtol slen 16 in
  if size <=? ASCII85_MAX_CHUNK_SIZE then mret (- EINVAL, last_size)
  else
    soff ← arg ARG_FLASH_OFFSET;
    let offset := strtol soff 16 in
    bin_len ← lift (decode_arg ARG_FLASH_ASCII85_DATA);
    let rc := if bin_len <? 0 then - (bin_len + ASCII85_ERROR_CODE_START + EASCII85) else 0 in
    let rc := if (rc =? 0) && negb (bin_len =? size) then - EDESZA85 else rc in
    if negb (rc =? 0) then mret (rc, last_size)
    else
      data ← lift (gets tx_buffer);
      rc ← do (r ← call (flash_area_write fa offset (take (Z.to_nat size) data)); mret (ret r));
      mret (rc, if rc =? 0 then size else last_size).

Definition _flash (last_size : Z) : hm Z :=
  argc ← lift (gets argc);
  '(rc, fa, last_size) ←
    (if argc <? ARG_FLASH_MAX then mret (- EINVAL, NOFA, last_size)
     else
       name ← arg ARG_FLASH_PARTITION;
       '(rc, fa) ← do (open_flash_partition name);
       if negb (rc =? 0) then mret (rc, fa, last_size)
       else '(rc, last_size) ← flash_chunk fa last_size; mret (rc, fa, last_size));
  _set_status rc;;
  do (close_flash_partition fa);;
  _set_done argc ARG_FLASH_PARTITION ARG_FLASH_LENGTH;;
  mret last_size.
End HuFlash.
