(* ===== verification/HuFlashThm.v ===== *)
(** Properties of the flash commands. *)

From S2P Require Import Prelude Ascii85 HuPacket HuPacketProof HuPacketThm HuPacketProps HuFlash.

Section HuFlashThm.
Context (crc16 : list Z -> Z) (itoa : Z -> Z -> option (list Z)).
Context (slot0_partition slot1_partition : option Z).
Context (RETENTION_BOOTLOADER_INFO OUTPUT_SETTINGS : bool).
Context (fa_size : Z -> Z).
Local Abbreviation _wrprt := (_wrprt crc16 itoa slot0_partition slot1_partition RETENTION_BOOTLOADER_INFO OUTPUT_SETTINGS).
Local Abbreviation _erase := (_erase crc16 itoa slot0_partition slot1_partition RETENTION_BOOTLOADER_INFO OUTPUT_SETTINGS fa_size).
Local Abbreviation _flash := (_flash crc16 itoa slot0_partition slot1_partition RETENTION_BOOTLOADER_INFO OUTPUT_SETTINGS).
Local Abbreviation open_flash_partition := (open_flash_partition slot0_partition slot1_partition RETENTION_BOOTLOADER_INFO OUTPUT_SETTINGS).
Local Abbreviation get_partition_id := (get_partition_id slot0_partition slot1_partition).

(** ** Calls *)

Definition arg_str (i : Z) (h : hup_handle) : res (list Z) := p ← rd (argv h) i; str_at p h.

Lemma arg_cases i h : (exists s, arg_str i h = Ok s /\ arg i h = Ret (s, h)) \/ (exists e, arg i h = Halt e).
Proof.
  unfold arg, lift, reads. fold (arg_str i h). destruct (arg_str i h) as [s|e]; [left | right]; by eexists.
Qed.

Lemma always_arg (P : fcall -> Prop) (Q : list Z * hup_handle -> Prop) i h :
  (forall s, arg_str i h = Ok s -> Q (s, h)) -> always P Q (arg i h).
Proof. intros H. destruct (arg_cases i h) as [(s & Es & ->) | (e & ->)]; [by apply H | done]. Qed.

Lemma always_do {A} (P : fcall -> Prop) (Q : A * hup_handle -> Prop) (p : prog fcall fans A) h :
  always P (fun a => Q (a, h)) p -> always P Q (do p h).
Proof. intros H. unfold do. apply always_bind. eapply always_mono; [| |exact H]; done. Qed.

Lemma always_true {C R A} (p : prog C R A) P : always P (fun _ => True) p <-> always P (fun _ => True) p.
Proof. done. Qed.

(** The end of a handler only closes and sends. *)
Definition closing (c : fcall) : Prop := match c with Send _ | flash_area_close _ => True | _ => False end.

Lemma always_record_args (P : fcall -> Prop) i n h : always P (fun _ => True) (record_args i n h).
Proof.
  revert i h. induction n as [|n IH]; intros i h; cbn [record_args]; [done|].
  apply always_stp_bind, always_arg. intros s _. apply always_stp_bind, always_lift.
  destruct (hupacket_record_str s h) as [[[] h']|]; [apply IH | done].
Qed.

Lemma always_lift_true {A} (P : fcall -> Prop) (m : stm hup_handle A) h :
  always (R := fans) P (fun _ => True) (lift m h).
Proof. apply always_lift. by destruct (m h). Qed.

Lemma always_stp_bind_true {A B} (P : fcall -> Prop) (m : stp fcall fans hup_handle A)
    (f : A -> stp fcall fans hup_handle B) h :
  always P (fun _ => True) (m h) -> (forall a h', always P (fun _ => True) (f a h')) ->
  always P (fun _ => True) ((m ≫= f) h).
Proof.
  intros H1 H2. apply always_stp_bind. eapply always_mono; [| |exact H1]; [done|]. intros [a s'] _. apply H2.
Qed.

Lemma always_finish (P : fcall -> Prop) rc fa n from to {A} (a : A) h :
  (forall c, closing c -> P c) -> (fa = NOFA -> True) ->
  always P (fun _ => True)
    ((_set_status itoa rc;; do (close_flash_partition fa);; _set_done crc16 itoa n from to;; mret a) h).
Proof.
  intros HP _. apply always_stp_bind_true; [apply always_lift_true|]. intros [] h1.
  apply always_stp_bind_true.
  { apply always_do. unfold close_flash_partition. destruct (negb _); [|done]. cbn. split; [by apply HP | done]. }
  intros [] h2. apply always_stp_bind_true; [|done]. unfold _set_done.
  apply always_stp_bind_true; [apply always_record_args|]. intros [] h3.
  apply always_stp_bind_true; [|done]. unfold hupacket_send_buffer.
  apply always_stp_bind_true; [apply always_lift_true|]. intros s h4. apply always_do. cbn. split; [by apply HP | done].
Qed.

(** ** Opening a partition *)

Definition map_call (c : fcall) : Prop :=
  match c with flash_area_open _ | flash_area_erase _ _ _ | flash_area_write _ _ _ | flash_area_close _ => True | _ => False end.

Lemma get_partition_id_nonzero name :
  (forall i, slot0_partition = Some i \/ slot1_partition = Some i -> 0 < i) -> get_partition_id name <> 0.
Proof.
  intros H. unfold HuFlash.get_partition_id, fixed_partitions.
  destruct slot0_partition as [i|] eqn:E0, slot1_partition as [j|] eqn:E1; cbn [app find_partition];
    repeat case_test; try (pose proof (H i (or_introl eq_refl)); lia); try (pose proof (H j (or_intror eq_refl)); lia);
    unfold EINVAL; lia.
Qed.

Lemma bootloader_calls (P : fcall -> Prop) : P settings_runtime_get -> P blinfo_lookup ->
  always P (fun _ => True) (bootloader_active_slot RETENTION_BOOTLOADER_INFO OUTPUT_SETTINGS).
Proof.
  intros H1 H2. unfold bootloader_active_slot. destruct RETENTION_BOOTLOADER_INFO, OUTPUT_SETTINGS; cbn; try done;
    (split; [done|]; intros r; by repeat case_test).
Qed.

Lemma open_nonzero name :
  (forall i, slot0_partition = Some i \/ slot1_partition = Some i -> 0 < i) ->
  always (fun c => ~ map_call c) (fun p => fst p <> 0 /\ snd p = NOFA) (open_flash_partition name).
Proof.
  intros H. unfold HuFlash.open_flash_partition.
  assert (Hret : forall rc : Z, rc <> 0 ->
    always (fun c => ~ map_call c) (fun p : Z * Z => fst p <> 0 /\ snd p = NOFA)
      (if negb (rc =? 0) then mret (rc, NOFA) else (r ← call (flash_area_open rc); mret (ret r, out r)))).
  { intros rc Hrc. apply Z.eqb_neq in Hrc as E. rewrite E. by cbn. }
  apply always_bind. destruct (_ && _).
  - apply always_bind.
    assert (Hk : forall rc partition_id, always (fun c => ~ map_call c)
      (fun rc => always (fun c => ~ map_call c) (fun p : Z * Z => fst p <> 0 /\ snd p = NOFA)
        (if negb (rc =? 0) then mret (rc, NOFA) else (r ← call (flash_area_open rc); mret (ret r, out r))))
      (mret (M := prog fcall fans) (if negb (rc =? 0) then get_partition_id name
        else if partition_id =? 0 then get_partition_id (bytes_of_string "slot1")
        else if partition_id =? 1 then get_partition_id (bytes_of_string "slot0") else - EINVAL))).
    { intros rc pid. apply Hret. repeat case_test; try (by apply get_partition_id_nonzero); done. }
    eapply always_mono; [| |apply (bootloader_calls (fun c => ~ map_call c)); cbn; tauto]; [done|]. intros [rc pid] _. apply Hk.
  - by apply Hret, get_partition_id_nonzero.
Qed.

(** ** Writes *)

(** What [_flash] writes from handle [h]. *)
Definition exact_write (h : hup_handle) (c : fcall) : Prop :=
  match c with
  | flash_area_write _ off data => exists soff slen s,
      arg_str ARG_FLASH_OFFSET h = Ok soff /\ arg_str ARG_FLASH_LENGTH h = Ok slen /\
      arg_str ARG_FLASH_ASCII85_DATA h = Ok s /\
      off = strtol soff 16 /\ len data = strtol slen 16 /\ decode_spec s = inr data /\
      ASCII85_MAX_CHUNK_SIZE < len data /\ ch_z ∈ s
  | _ => True
  end.

Lemma cstr_split b o s : cstr b o = Ok s -> exists t, drop (Z.to_nat o) b = s ++ t.
Proof.
  unfold cstr. case_test; [done|]. generalize (drop (Z.to_nat o) b) as l. intros l. revert s.
  induction l as [|c l IH]; intros s E; [done|]. cbn in E. destruct (c =? 0).
  - injection E as <-. by eexists.
  - destruct (until_nul l) eqn:El; [|done]. injection E as <-. destruct (IH _ eq_refl) as [t ->]. by exists t.
Qed.

(** The decoder behind [_flash] yields more than 256 bytes only from a text
    that is decodable, fits 320 characters and uses the shortcut for zeros. *)
Lemma decode_arg_large i h n h' : len (tx_buffer h) = RECV_BUFFER_SIZE ->
  decode_arg i h = Ok (n, h') -> ASCII85_MAX_CHUNK_SIZE < n ->
  exists s bs, arg_str i h = Ok s /\ decode_spec s = inr bs /\ n = len bs /\ take (Z.to_nat n) (tx_buffer h') = bs /\ ch_z ∈ s.
Proof.
  intros Htx E Hn. unfold decode_arg in E. change (ASCII85_MAX_CHUNK_SIZE * 5) with 1280 in E.
  unfold ASCII85_MAX_CHUNK_SIZE in *. unfold arg_str, str_at. unfold mbind, res_bind in *.
  destruct (rd (argv h) i) as [p|]; [|done]. destruct (deref p) as [o|]; [|done].
  destruct (cstr (buffer h) o) as [s|] eqn:Es; [|done]. exists s.
  destruct (cstr_split _ _ _ Es) as [t Et]. rewrite Et in E. pose proof (len_nonneg s).
  destruct (decode_ascii85 (s ++ t) (len s) (tx_buffer h) 1280) as [[k tx]|] eqn:Ed; [|done].
  injection E as -> <-. cbn [tx_buffer set_tx].
  destruct (decide (len s <= 320)) as [Hs|Hs].
  - pose proof (decode_ascii85_run s t (tx_buffer h) 1280) as Hr. rewrite Ed in Hr.
    assert (Hr' : dec_result (Ok (n, tx)) [] (tx_buffer h) (decode_spec s)).
    { apply Hr; unfold ascii85_in_length_max, RECV_BUFFER_SIZE in *; lia. }
    destruct (decode_spec s) as [e|bs] eqn:Eds; cbn in Hr'.
    + destruct Hr' as (outp' & [= -> _] & _). destruct (decode_spec_errors _ _ Eds); subst; done.
    + destruct Hr' as (rest' & [= -> ->] & _). exists bs. rewrite len_nil, Z.add_0_l. split_and!; try done.
      * unfold len. rewrite Nat2Z.id. cbn [app]. apply take_app_length.
      * destruct (decode_spec_ratio s bs Eds) as [_ H5]. destruct (decide (ch_z ∈ s)) as [|Hz]; [done|].
        specialize (H5 Hz). rewrite len_nil in Hn. lia.
  - exfalso. unfold decode_ascii85 in Ed. destruct (decide (len s <= ascii85_in_length_max)).
    + rewrite max_decoded in Ed by lia. destruct (_ <? 0) eqn:E1 in Ed; zify_bool; [lia|].
      destruct (_ >? _) eqn:E2 in Ed; zify_bool; [|lia]. by injection Ed as <- _.
    + rewrite max_decoded_err in Ed by lia. by injection Ed as <- _.
Qed.

Lemma flash_chunk_writes fa ls h : len (tx_buffer h) = RECV_BUFFER_SIZE ->
  always (exact_write h) (fun _ => True) (flash_chunk fa ls h).
Proof.
  intros Htx. unfold flash_chunk. apply always_stp_bind, always_arg. intros slen Hslen.
  case_test; [done|]. apply always_stp_bind, always_arg. intros soff Hsoff.
  apply always_stp_bind, always_lift. destruct (decode_arg ARG_FLASH_ASCII85_DATA h) as [[n h']|] eqn:Ed; [|done].
  case_test; [done|]. apply Z.eqb_eq in Heqb0. apply always_stp_bind, always_lift. cbn.
  apply always_stp_bind, always_do. split; [|done].
  destruct (_ && _) eqn:Eb in Heqb0; [done|]. rewrite Heqb0 in Eb. cbn [andb] in Eb.
  apply negb_false_iff, Z.eqb_eq in Eb. subst n.
  destruct (decode_arg_large _ _ _ _ Htx Ed Heqb) as (s & bs & Es & Eds & El & -> & Hz).
  exists soff, slen, s. split_and!; try done. by rewrite <- El.
Qed.

Lemma open_no_write name h : always (exact_write h) (fun _ => True) (open_flash_partition name).
Proof.
  unfold HuFlash.open_flash_partition. apply always_bind.
  assert (Hret : forall rc : Z, always (exact_write h) (fun _ => True)
    (if negb (rc =? 0) then mret (rc, NOFA) else (r ← call (flash_area_open rc); mret (ret r, out r)))).
  { intros rc. by case_test. }
  destruct (_ && _); [|apply Hret]. apply always_bind.
  eapply always_mono; [| |by apply (bootloader_calls (exact_write h))]; [done|]. intros [rc pid] _. apply Hret.
Qed.

(** C13: Whatever the environment answers, the only data [_flash] ever writes
    are the bytes its fourth argument decodes to, as many as its third says, at
    the offset its second says.  As [size <= 256] is refused and the decoder
    is given room for 320 characters only, the text then has more than 256
    bytes in it and uses the [z] shortcut: data without four zero bytes in a
    row cannot be flashed. *)
Theorem flash_write_exact last_size h tr out :
  wf h -> runs (_flash last_size h) tr out -> Forall (fun e => exact_write h (fst e)) tr.
Proof.
  intros [_ _ Htx] Hr.
  assert (H : always (exact_write h) (fun _ => True) (_flash last_size h)); [|by eapply always_runs in Hr as [? _]].
  unfold HuFlash._flash. apply always_stp_bind, always_lift. cbn [gets].
  apply always_stp_bind_true.
  - case_test; [done|]. apply always_stp_bind, always_arg. intros name _. apply always_stp_bind, always_do.
    eapply always_mono; [| |apply open_no_write]; [done|]. intros [rc fa] _. case_test; [done|].
    apply always_stp_bind_true; [by apply flash_chunk_writes | by intros [] ?].
  - intros [[rc fa] ls] h1. apply always_finish; [|done]. by intros [] ?.
Qed.

(** ** Reaching the flash map *)

(** With an area that is not open the end of a handler only sends. *)
Lemma always_finish_closed rc n from to {A} (a : A) h :
  always (fun c => ~ map_call c) (fun _ => True)
    ((_set_status itoa rc;; do (close_flash_partition NOFA);; _set_done crc16 itoa n from to;; mret a) h).
Proof.
  apply always_stp_bind_true; [apply always_lift_true|]. intros [] h1.
  apply always_stp_bind_true; [by apply always_do|]. intros [] h2.
  apply always_stp_bind_true; [|done]. unfold _set_done.
  apply always_stp_bind_true; [apply always_record_args|]. intros [] h3.
  apply always_stp_bind_true; [|done]. unfold hupacket_send_buffer.
  apply always_stp_bind_true; [apply always_lift_true|]. intros s h4. apply always_do. cbn. tauto.
Qed.

(** The start of a handler, given what it does with the area it opened. *)
Lemma no_map_call (n k : Z) name rest h {A} (a : A) from to :
  (forall i, slot0_partition = Some i \/ slot1_partition = Some i -> 0 < i) ->
  (forall rc fa, rc <> 0 -> fa = NOFA -> rest (rc, fa) = mret (M := stp fcall fans hup_handle) (rc, fa)) ->
  always (fun c => ~ map_call c) (fun _ => True)
    (('(rc, fa) ← (if n >=? k then (s ← arg name; p ← do (open_flash_partition s); rest p) else mret (- EINVAL, NOFA));
      _set_status itoa rc;; do (close_flash_partition fa);; _set_done crc16 itoa n from to;; mret a) h).
Proof.
  intros Hid Hrest. apply always_stp_bind.
  assert (Hfin : forall rc fa h', fa = NOFA -> always (fun c => ~ map_call c) (fun _ => True)
    ((_set_status itoa rc;; do (close_flash_partition fa);; _set_done crc16 itoa n from to;; mret a) h')).
  { intros rc fa h' ->. apply always_finish_closed. }
  case_test.
  - apply always_stp_bind, always_arg. intros s _. apply always_stp_bind, always_do.
    eapply always_mono; [| |by apply open_nonzero]; [done|]. intros [rc fa] [Hrc Hfa]. cbn in Hrc, Hfa.
    rewrite Hrest by done. by apply Hfin.
  - by apply Hfin.
Qed.

(** C14: [open_flash_partition] returns every non-zero result of
    [get_partition_id] as if it were an error: when the partitions have non-zero
    ids, no flash command of a peer ever reaches the flash map. *)
Theorem flash_map_unreachable last_size h tr out :
  (forall i, slot0_partition = Some i \/ slot1_partition = Some i -> 0 < i) ->
  runs (_erase last_size h) tr out \/ runs (_flash last_size h) tr out ->
  Forall (fun e => ~ map_call (fst e)) tr.
Proof.
  intros Hid Hr.
  assert (He : always (fun c => ~ map_call c) (fun _ => True) (_erase last_size h)).
  { unfold HuFlash._erase. apply always_stp_bind, always_lift. cbn [gets].
    apply (no_map_call (argc h) ARG_ERASE_MAX ARG_FLASH_PARTITION
      (fun '(rc, fa) => if negb (rc =? 0) then mret (rc, fa)
        else do (r ← call (flash_area_erase fa 0 (fa_size fa)); mret (ret r, fa)))); [done|].
    intros rc fa Hrc _. apply Z.eqb_neq in Hrc. by rewrite Hrc. }
  assert (Hf : always (fun c => ~ map_call c) (fun _ => True) (_flash last_size h)).
  { unfold HuFlash._flash. apply always_stp_bind, always_lift. cbn [gets]. apply always_stp_bind.
    case_test; [apply always_finish_closed|]. apply always_stp_bind, always_arg. intros name _.
    apply always_stp_bind, always_do. eapply always_mono; [| |by apply open_nonzero]; [done|].
    intros [rc fa] [Hrc Hfa]. cbn in Hrc, Hfa. subst fa. apply Z.eqb_neq in Hrc. rewrite Hrc. apply always_finish_closed. }
  destruct Hr as [Hr | Hr]; [by eapply always_runs in He as [? _] | by eapply always_runs in Hf as [? _]].
Qed.

(** ** Answering and closing *)

Definition opened (tr : list (fcall * fans)) : list Z :=
  omap (fun e => match fst e with flash_area_open _ => if out (snd e) =? NOFA then None else Some (out (snd e)) | _ => None end) tr.
Definition closed (tr : list (fcall * fans)) : list Z :=
  omap (fun e => match fst e with flash_area_close fa => Some fa | _ => None end) tr.
Definition sent (tr : list (fcall * fans)) : list (list Z) :=
  omap (fun e => match fst e with Send s => Some s | _ => None end) tr.

Definition quiet_call (c : fcall) : Prop :=
  match c with Send _ | flash_area_open _ | flash_area_close _ => False | _ => True end.
Definition effect (tr : list (fcall * fans)) (o c : list Z) (n : nat) : Prop :=
  opened tr = o /\ closed tr = c /\ length (sent tr) = n.

Lemma effect_app t1 t2 o1 o2 c1 c2 n1 n2 : effect t1 o1 c1 n1 -> effect t2 o2 c2 n2 ->
  effect (t1 ++ t2) (o1 ++ o2) (c1 ++ c2) (n1 + n2).
Proof.
  intros (<- & <- & <-) (<- & <- & <-). unfold effect, opened, closed, sent. rewrite !omap_app, length_app. done.
Qed.

Lemma effect_nil : effect [] [] [] 0.
Proof. done. Qed.

Lemma quiet_effect tr : Forall (fun e => quiet_call (fst e)) tr -> effect tr [] [] 0.
Proof.
  induction 1 as [|[c r] tr Hc _ IH]; [done|]. destruct IH as (E1 & E2 & E3).
  destruct c; cbn in Hc; try done; split_and!; cbn; assumption.
Qed.

Lemma traces_quiet {A} (p : prog fcall fans A) : always quiet_call (fun _ => True) p ->
  traces p (fun tr _ => effect tr [] [] 0).
Proof. intros H tr a Hr. eapply always_runs in H as [H _]; [|exact Hr]. by apply quiet_effect. Qed.

Definition areas (fa : Z) : list Z := if fa =? NOFA then [] else [fa].

Lemma open_effect name h :
  traces (do (open_flash_partition name) h) (fun tr x => effect tr (areas (snd (fst x))) [] 0).
Proof.
  unfold do. apply traces_bind.
  assert (Hret : forall rc : Z, traces (if negb (rc =? 0) then mret (rc, NOFA) else (r ← call (flash_area_open rc); mret (ret r, out r)))
    (fun tr p => effect tr (areas (snd p)) [] 0)).
  { intros rc. case_test; [by apply traces_ret|]. apply traces_call. intros r. apply traces_ret.
    unfold effect, opened, closed, sent, areas. cbn. by destruct (out r =? NOFA). }
  unfold HuFlash.open_flash_partition. apply traces_bind.
  assert (Hq : forall (p : prog fcall fans Z), always quiet_call (fun _ => True) p ->
    traces p (fun tr rc => traces (if negb (rc =? 0) then mret (rc, NOFA) else (r ← call (flash_area_open rc); mret (ret r, out r)))
      (fun tr' a => traces (Ret (a, h)) (fun tr'' x => effect ((tr ++ tr') ++ tr'') (areas (snd (fst x))) [] 0)))).
  { intros p Hp tr rc Hr. apply traces_quiet in Hp. specialize (Hp _ _ Hr). eapply traces_mono; [|apply Hret].
    intros tr' a He. apply traces_ret. rewrite app_nil_r. exact (effect_app _ _ _ _ _ _ _ _ Hp He). }
  apply Hq. destruct (_ && _); [|done]. apply always_bind.
  eapply always_mono; [| |by apply (bootloader_calls quiet_call)]; [done|]. by intros [rc pid] _.
Qed.

Lemma finish_effect rc fa n from to {A} (a : A) h :
  traces ((_set_status itoa rc;; do (close_flash_partition fa);; _set_done crc16 itoa n from to;; mret a) h)
    (fun tr _ => effect tr [] (areas fa) 1).
Proof.
  apply traces_stp_bind, traces_lift. intros [] h1 _. apply traces_stp_bind.
  assert (Hc : traces (do (close_flash_partition fa) h1) (fun tr _ => effect tr [] (areas fa) 0)).
  { unfold do, close_flash_partition, areas. destruct (fa =? NOFA); cbn [negb]; [by apply traces_ret|].
    apply traces_call. intros r. by apply traces_ret. }
  eapply traces_mono; [|exact Hc]. intros tr [[] h2] He. cbn [fst snd].
  apply traces_stp_bind. unfold _set_done. apply traces_stp_bind.
  assert (Hra : traces (record_args from (Z.to_nat ((if to >=? n then n - 1 else to) - from + 1)) h2) (fun tr _ => effect tr [] [] 0))
    by apply traces_quiet, always_record_args.
  eapply traces_mono; [|exact Hra]. intros tr2 [[] h3] He2. cbn [fst snd].
  apply traces_stp_bind. unfold hupacket_send_buffer. apply traces_stp_bind, traces_lift. intros s h4 _. cbn [fst snd].
  apply traces_call. intros r. repeat apply traces_ret. cbn.
  pose proof (effect_app _ _ _ _ _ _ _ _ He (effect_app _ _ _ _ _ _ _ _ He2
    (conj eq_refl (conj eq_refl eq_refl) : effect [(Send s, r)] [] [] 1))) as E.
  rewrite !app_nil_r in E. cbn in E. rewrite app_nil_r. exact E.
Qed.

Lemma traces_arg i h (Q : list (fcall * fans) -> list Z * hup_handle -> Prop) :
  (forall s, Q [] (s, h)) -> traces (arg i h) Q.
Proof. intros H. destruct (arg_cases i h) as [(s & _ & ->) | (e & ->)]; [by apply traces_ret | apply traces_halt]. Qed.

(** A handler opens an area, works on it without opening or closing any, and
    finishes. *)
Definition opens {A} (m : stp fcall fans hup_handle A) (area : A -> Z) : Prop :=
  forall h, traces (m h) (fun tr x => effect tr (areas (area (fst x))) [] 0).

Lemma opens_open name : opens (do (open_flash_partition name)) snd.
Proof. intros h. apply open_effect. Qed.

Lemma opens_ret {A} (a : A) area : area a = NOFA -> opens (mret a) area.
Proof. intros E h. apply traces_ret. cbn. by rewrite E. Qed.

Lemma opens_arg {A} i (f : list Z -> stp fcall fans hup_handle A) area : (forall s, opens (f s) area) -> opens (s ← arg i; f s) area.
Proof. intros H h. apply traces_stp_bind, traces_arg. intros s. apply H. Qed.

Lemma opens_then {A B} (m : stp fcall fans hup_handle A) (f : A -> stp fcall fans hup_handle B) area area' :
  opens m area -> (forall a h, always quiet_call (fun x => area' (fst x) = area a) (f a h)) -> opens (m ≫= f) area'.
Proof.
  intros Hm Hf h. apply traces_stp_bind. eapply traces_mono; [|apply Hm]. intros t1 [a h1] He tr2 b Hr. cbn [fst snd] in *.
  destruct (always_runs _ _ _ _ _ (Hf a h1) Hr) as [Hq Ea]. cbn in Ea. rewrite Ea.
  pose proof (effect_app _ _ _ _ _ _ _ _ He (quiet_effect _ Hq)) as E. by rewrite !app_nil_r in E.
Qed.

Lemma opens_finish {A} (m : stp fcall fans hup_handle A) (area : A -> Z) (f : A -> stp fcall fans hup_handle Z) h :
  opens m area -> (forall x h, traces (f x h) (fun tr _ => effect tr [] (areas (area x)) 1)) ->
  traces ((m ≫= f) h) (fun tr _ => closed tr = opened tr /\ length (sent tr) = 1%nat).
Proof.
  intros Hm Hf. apply traces_stp_bind. eapply traces_mono; [|apply Hm]. intros t1 [x h1] He.
  eapply traces_mono; [|apply Hf]. intros t2 ? He2.
  destruct (effect_app _ _ _ _ _ _ _ _ He He2) as (-> & -> & ->). by rewrite app_nil_r.
Qed.

Lemma flash_chunk_quiet fa ls h : always quiet_call (fun _ => True) (flash_chunk fa ls h).
Proof.
  unfold flash_chunk. apply always_stp_bind, always_arg. intros slen _. case_test; [done|].
  apply always_stp_bind, always_arg. intros soff _. apply always_stp_bind_true; [apply always_lift_true|].
  intros n h1. case_test; [done|]. apply always_stp_bind_true; [apply always_lift_true|]. intros data h2.
  apply always_stp_bind_true; [|done]. by apply always_do.
Qed.

(** Every flash command that completes sends exactly one response and
    closes exactly the flash areas it opened. *)
Theorem flash_handlers_answer last_size h tr o :
  runs (_wrprt last_size h) tr (Ok o) \/ runs (_erase last_size h) tr (Ok o) \/ runs (_flash last_size h) tr (Ok o) ->
  closed tr = opened tr /\ length (sent tr) = 1%nat.
Proof.
  assert (Hw : traces (_wrprt last_size h) (fun tr _ => closed tr = opened tr /\ length (sent tr) = 1%nat)).
  { unfold HuFlash._wrprt. apply traces_stp_bind, traces_lift. intros n h1 _. cbn [fst snd app].
    apply (opens_finish _ snd); [|intros [rc fa] h2; apply finish_effect].
    case_test; [|by apply opens_ret]. apply opens_arg. intros s. apply opens_arg. intros name. apply opens_open. }
  assert (He : traces (_erase last_size h) (fun tr _ => closed tr = opened tr /\ length (sent tr) = 1%nat)).
  { unfold HuFlash._erase. apply traces_stp_bind, traces_lift. intros n h1 _. cbn [fst snd app].
    apply (opens_finish _ snd); [|intros [rc fa] h2; apply finish_effect].
    case_test; [|by apply opens_ret]. apply opens_arg. intros name. apply (opens_then _ _ snd); [apply opens_open|].
    intros [rc fa] h2. case_test; [done|]. by apply always_do. }
  assert (Hf : traces (_flash last_size h) (fun tr _ => closed tr = opened tr /\ length (sent tr) = 1%nat)).
  { unfold HuFlash._flash. apply traces_stp_bind, traces_lift. intros n h1 _. cbn [fst snd app].
    apply (opens_finish _ (fun x => snd (fst x))); [|intros [[rc fa] ls] h2; apply finish_effect].
    case_test; [by apply opens_ret|]. apply opens_arg. intros name. apply (opens_then _ _ snd); [apply opens_open|].
    intros [rc fa] h2. case_test; [done|]. apply always_stp_bind. eapply always_mono; [| |apply flash_chunk_quiet]; [done|].
    by intros [[rc' ls'] h3] _. }
  intros [Hr | [Hr | Hr]]; [exact (Hw _ _ Hr) | exact (He _ _ Hr) | exact (Hf _ _ Hr)].
Qed.
End HuFlashThm.

(** ** Witnesses *)



(** Inside the handler of a flash packet whose text is 65 times [z]. *)
Definition flash_handle : hup_handle :=
  let text := str "flash" ++ [0] ++ str "slot0" ++ [0] ++ str "10" ++ [0] ++ str "104" ++ [0] ++ replicate 65 ch_z in
  set_buffer (text ++ replicate (1536 - length text) 0)
    (set_argc 5 (set_argv ([Some 0; Some 6; Some 12; Some 15; Some 19] ++ replicate 59 None) (set_state 84 idle))).

Definition env_ok (h : list (fcall * fans)) (c : fcall) : fans :=
  match c with flash_area_open id => Fans 0 (id + 100) | _ => Fans 0 0 end.

Definition flash_run (slot0 : Z) : res (Z * hup_handle) * list (fcall * fans) :=
  run env_ok (_flash crc_ref itoa_ref (Some slot0) None false false 0 flash_handle) [].

Definition is_write (c : fcall) : bool := match c with flash_area_write _ _ _ => true | _ => false end.

Lemma flash_run_runs slot0 : runs (_flash crc_ref itoa_ref (Some slot0) None false false 0 flash_handle)
  (snd (flash_run slot0)) (fst (flash_run slot0)).
Proof.
  destruct (run_history (_flash crc_ref itoa_ref (Some slot0) None false false 0 flash_handle) env_ok []) as (tr & E & Hr).
  unfold flash_run. cbn in E. by rewrite E.
Qed.

Lemma flash_handle_wf : wf flash_handle.
Proof. constructor; reflexivity. Qed.

Lemma flash_write_exact_witness :
  existsb (fun e => is_write (fst e)) (snd (flash_run 0)) = true /\
  Forall (fun e => exact_write flash_handle (fst e)) (snd (flash_run 0)).
Proof.
  split; [vm_compute; reflexivity|].
  exact (flash_write_exact crc_ref itoa_ref (Some 0) None false false 0 flash_handle _ _ flash_handle_wf (flash_run_runs 0)).
Defined.

Lemma flash_map_unreachable_witness :
  length (snd (flash_run 1)) = 1%nat /\ Forall (fun e => ~ map_call (fst e)) (snd (flash_run 1)).
Proof.
  split; [vm_compute; reflexivity|].
  apply (flash_map_unreachable crc_ref itoa_ref (Some 1) None false false (fun _ => 0) 0 flash_handle _ (fst (flash_run 1))).
  - intros i [H | H]; [injection H as <-; reflexivity | discriminate].
  - right. exact (flash_run_runs 1).
Defined.

Lemma flash_run_done : exists o, fst (flash_run 0) = Ok o.
Proof. vm_compute. eexists. reflexivity. Qed.

Lemma flash_handlers_answer_witness :
  closed (snd (flash_run 0)) = opened (snd (flash_run 0)) /\ length (sent (snd (flash_run 0))) = 1%nat.
Proof.
  destruct flash_run_done as [o E].
  apply (flash_handlers_answer crc_ref itoa_ref (Some 0) None false false (fun _ => 0) 0 flash_handle _ o).
  right. right. rewrite <- E. exact (flash_run_runs 0).
Defined.
