(* ===== verification/HuFlashReplies.v ===== *)
(** What the handlers of src/lib/hu/huflash.c do on a packet the packet layer
    has received: every flash command completes, whatever the flash map and the
    bootloader answer, and sends one response that the layer of the peer can
    read. *)

From S2P Require Import Prelude Ascii85 HuPacket HuPacketProof HuPacketThm HuPacketProps HuFlash HuFlashThm.

Definition int32 (z : Z) : Prop := INT32_MIN <= z <= INT32_MAX.
(** The calls return C integers. *)
Definition int_answer (_ : fcall) (r : fans) : Prop := int32 (ret r).

(** The handle of a received packet, when only its transmit buffer has been
    used since. *)
Definition used_tx (h h' : hup_handle) : Prop := exists tx, len tx = RECV_BUFFER_SIZE /\ h' = set_tx tx h.

Lemma used_tx_refl h : wf h -> used_tx h h.
Proof. intros [_ _ W]. exists (tx_buffer h). split; [done|]. by destruct h. Qed.

Lemma used_tx_trans h1 h2 h3 : used_tx h1 h2 -> used_tx h2 h3 -> used_tx h1 h3.
Proof. intros (tx1 & _ & ->) (tx2 & W & ->). by exists tx2. Qed.

Lemma parsed_used_tx i cmd q args h h' : used_tx h h' -> parsed i cmd q args h -> parsed i cmd q args h'.
Proof. intros (tx & W & ->) [[W1 W2 W3] H2 H3 H4 H5 H6]. constructor; try done. Qed.

(** The arguments of a received packet can be read. *)
Lemma arg_parsed i cmd q args h k s : parsed i cmd q args h -> args !! k = Some s -> arg (Z.of_nat k + 1) h = Ret (s, h).
Proof.
  intros Hp Hk. destruct (pa_recs _ _ _ _ _ Hp k s Hk) as (p & Ep & Es).
  unfold arg, lift. erewrite reads_ok; [done|]. rewrite Ep. exact Es.
Qed.

(** ** Decoding into the transmit buffer *)

Lemma decode_any s t tx : len tx = RECV_BUFFER_SIZE ->
  exists n tx', decode_ascii85 (s ++ t) (len s) tx (ASCII85_MAX_CHUNK_SIZE * 5) = Ok (n, tx') /\ len tx' = RECV_BUFFER_SIZE /\ -255 <= n <= 1280.
Proof.
  intros W. change (ASCII85_MAX_CHUNK_SIZE * 5) with 1280. pose proof (len_nonneg s). unfold RECV_BUFFER_SIZE in *.
  destruct (decide (len s <= 320)) as [Hs|Hs].
  - pose proof (decode_ascii85_run s t tx 1280) as Hr. unfold ascii85_in_length_max in Hr.
    specialize (Hr ltac:(lia) ltac:(lia) ltac:(lia)). destruct (decode_spec s) as [e|bs] eqn:Es.
    + destruct Hr as (tx' & E & Hl). exists e, tx'. split; [exact E|]. rewrite len_nil in Hl.
      destruct (decode_spec_errors _ _ Es) as [-> | ->]; (split; [lia | by_decide]).
    + destruct Hr as (rest & E & Hl). exists (len bs), (bs ++ rest). rewrite len_nil in E. split; [exact E|].
      rewrite len_app. pose proof (len_nonneg bs). destruct (decode_spec_ratio _ _ Es) as [Hb _]. lia.
  - unfold decode_ascii85. destruct (decide (len s <= ascii85_in_length_max)).
    + rewrite max_decoded by lia. case_test; [lia|]. case_test; [|lia]. eexists _, tx. split; [done|]. split; [done | by_decide].
    + rewrite max_decoded_err by lia. eexists _, tx. split; [vm_compute; reflexivity|]. split; [done | by_decide].
Qed.

Lemma decode_arg_parsed i cmd q args h k s : parsed i cmd q args h -> args !! k = Some s ->
  exists n h', decode_arg (Z.of_nat k + 1) h = Ok (n, h') /\ used_tx h h' /\ -255 <= n <= 1280.
Proof.
  intros Hp Hk. destruct (pa_recs _ _ _ _ _ Hp k s Hk) as (p & Ep & Es). destruct (pa_wf _ _ _ _ _ Hp) as [_ _ W].
  unfold decode_arg. rewrite Ep. step. unfold str_at in Es. destruct (deref p) as [o|]; [|done]. revert Es. step. intros Es.
  step. rewrite Es. step. destruct (cstr_split _ _ _ Es) as [t Et]. rewrite Et.
  destruct (decode_any s t (tx_buffer h) W) as (n & tx & E & Htx & Hn). rewrite E. step.
  exists n, (set_tx tx h). split; [done|]. split; [by exists tx | done].
Qed.

(** ** Building a response uses the transmit buffer only *)

Definition uses {A} (m : stm hup_handle A) : Prop := forall h a h', wf h -> m h = Ok (a, h') -> used_tx h h'.

Lemma wf_used_tx h h' : wf h -> used_tx h h' -> wf h'.
Proof. intros [W1 W2 _] (tx & W3 & ->). by constructor. Qed.

Lemma uses_bind {A B} (m : stm hup_handle A) (f : A -> stm hup_handle B) : uses m -> (forall a, uses (f a)) -> uses (m ≫= f).
Proof.
  intros Hm Hf h b h' Hwf E. apply stm_bind_inv in E as (a & h1 & E1 & E2).
  pose proof (Hm _ _ _ Hwf E1) as H1. eapply used_tx_trans; [exact H1|]. eapply Hf; [|exact E2]. by eapply wf_used_tx.
Qed.
Lemma uses_ret {A} (a : A) : uses (mret a).
Proof. intros h b h' Hwf [= <- <-]. by apply used_tx_refl. Qed.
Lemma uses_reads {A} (f : hup_handle -> res A) : uses (reads f).
Proof. intros h b h' Hwf. unfold reads. destruct (f h); [|done]. intros [= <- <-]. by apply used_tx_refl. Qed.
Lemma uses_gets {A} (f : hup_handle -> A) : uses (gets f).
Proof. intros h b h' Hwf [= <- <-]. by apply used_tx_refl. Qed.
Lemma uses_tx (f : list Z -> res (list Z)) : (forall tx tx', f tx = Ok tx' -> len tx' = len tx) ->
  uses (updates (fun h => tx ← f (tx_buffer h); Ok (set_tx tx h))).
Proof.
  intros Hf h b h' [_ _ W] E. unfold updates, mbind, res_bind in E. destruct (f (tx_buffer h)) as [tx|] eqn:Ef; [|done].
  injection E as _ <-. exists tx. split; [|done]. rewrite <- W. by apply Hf.
Qed.

Lemma strcat_len dst s dst' : strcat dst s = Ok dst' -> len dst' = len dst.
Proof.
  unfold strcat. destruct (until_nul dst) as [d|]; [|done]. step. case_test; [|done]. intros [= <-].
  rewrite !len_app, len_cons. unfold len in *. rewrite length_drop. lia.
Qed.

Ltac uses_step :=
  match goal with
  | |- uses (_ ≫= _) => apply uses_bind; [|intros ?]
  | |- uses (mret _) => apply uses_ret
  | |- uses (reads _) => apply uses_reads
  | |- uses (gets _) => apply uses_gets
  | |- uses (hupacket_append_str _) => apply (uses_tx (fun tx => strcat tx _)); intros; by eapply strcat_len
  | |- uses (if ?b then _ else _) => destruct b
  | |- uses (match ?o with Some _ => _ | None => _ end) => destruct o
  end.

Lemma uses_char c : uses (hupacket_append_char c).
Proof. unfold hupacket_append_char. repeat uses_step. Qed.
Lemma uses_record_str s : uses (hupacket_record_str s).
Proof. unfold hupacket_record_str. uses_step; [apply uses_char | uses_step]. Qed.
Lemma uses_reset stx : uses (hupacket_reset_buffer stx).
Proof.
  unfold hupacket_reset_buffer, append_at. uses_step.
  - apply (uses_tx (fun tx => wr tx 0 0)). intros tx tx' E. apply wr_inv in E as [_ ->]. apply len_insert.
  - repeat first [apply uses_char | uses_step].
Qed.
Lemma uses_status itoa rc : uses (if rc =? NOERROR then hupacket_ack_response itoa else hupacket_nak_response itoa rc).
Proof.
  assert (Hi : forall v b size, uses (append_itoa itoa v b size)).
  { intros v b size. unfold append_itoa. destruct (itoa v b); [|uses_step]. destruct (_ <=? _); [uses_step|].
    by intros h a h' _ [=]. }
  assert (Hr : forall v, uses (hupacket_record_int itoa v)).
  { intros v. unfold hupacket_record_int. uses_step; [apply uses_char | apply Hi]. }
  destruct (rc =? NOERROR); (apply uses_bind; [apply uses_reset | intros _; apply Hr]).
Qed.

(** ** The end of a handler *)

Lemma record_args_parsed i cmd q args n : forall k h, parsed i cmd q args h -> (k + n <= length args)%nat ->
  record_args (Z.of_nat k + 1) n h = lift (record_strs (take n (drop k args))) h.
Proof.
  induction n as [|n IH]; intros k h Hp Hk; [done|]. cbn [record_args].
  destruct (args !! k) as [s|] eqn:Es; [|apply lookup_ge_None in Es; lia].
  rewrite (drop_S _ _ _ Es). cbn [take record_strs]. unfold mbind at 1, stp_bind at 1.
  rewrite (arg_parsed _ _ _ _ _ _ _ Hp Es). cbn [prog_bind']. unfold mbind, stp_bind, lift, stm_bind.
  destruct (hupacket_record_str s h) as [[[] h1]|e] eqn:E; [|done]. cbn [of_res prog_bind'].
  pose proof (uses_record_str s _ _ _ (pa_wf _ _ _ _ _ Hp) E) as Hu. pose proof (parsed_used_tx _ _ _ _ _ _ Hu Hp) as Hp1.
  replace (Z.of_nat k + 1 + 1) with (Z.of_nat (S k) + 1) by lia. rewrite IH by (done || lia). done.
Qed.

(** The records a command is answered with: its first [n] arguments. *)
Definition echo (n : Z) (args : list (list Z)) : list (list Z) := take (Z.to_nat n) args.

Section Replies.
Context (crc16 : list Z -> Z) (itoa : Z -> Z -> option (list Z)).
Context (slot0_partition slot1_partition : option Z) (RETENTION_BOOTLOADER_INFO OUTPUT_SETTINGS : bool) (fa_size : Z -> Z).
Local Abbreviation open_flash_partition := (open_flash_partition slot0_partition slot1_partition RETENTION_BOOTLOADER_INFO OUTPUT_SETTINGS).

Lemma finish_replies i cmd q args rc fa n {A} (a : A) h bytes h' :
  parsed i cmd q args h -> 0 <= n -> respond crc16 itoa rc (echo n args) h = Ok (bytes, h') ->
  outcomes ((_set_status itoa rc;; do (close_flash_partition fa);; _set_done crc16 itoa (argc h) ARG_FLASH_PARTITION n;; mret a) h)
    (fun tr out => out = Ok (a, h') /\ sent tr = [bytes]).
Proof.
  intros Hp Hn E. unfold respond in E. apply stm_bind_inv in E as ([] & h1 & E1 & E).
  apply stm_bind_inv in E as ([] & h2 & E2 & E3).
  pose proof (uses_status _ _ _ _ _ (pa_wf _ _ _ _ _ Hp) E1) as Hu. pose proof (parsed_used_tx _ _ _ _ _ _ Hu Hp) as Hp1.
  pose proof (pa_argc _ _ _ _ _ Hp) as Hargc. pose proof (len_nonneg args).
  unfold _set_status. eapply outcomes_lift; [exact E1|].
  assert (Hdone : outcomes ((_set_done crc16 itoa (argc h) ARG_FLASH_PARTITION n;; mret a) h1)
    (fun tr out => out = Ok (a, h') /\ sent tr = [bytes])).
  { unfold _set_done. cbv zeta. repeat wp_step. change ARG_FLASH_PARTITION with (Z.of_nat 0 + 1).
    set (k := Z.to_nat _). assert (Hk : k = Nat.min (Z.to_nat n) (length args)) by (subst k; case_test; unfold len in *; lia).
    apply outcomes_stp. rewrite (record_args_parsed _ _ _ _ _ _ _ Hp1) by lia. rewrite drop_0.
    replace (take k args) with (echo n args) by (rewrite Hk; unfold echo; by rewrite <- take_take, (take_ge args (length args))).
    unfold lift. rewrite E2. cbn [of_res]. apply outcomes_ret. cbn [app].
    repeat wp_step. unfold hupacket_send_buffer. wp_step. eapply outcomes_lift; [exact E3|].
    unfold send, do. apply outcomes_call. intros r. apply outcomes_ret. cbn. done. }
  unfold close_flash_partition, do. unfold mbind, stp_bind. destruct (negb (fa =? NOFA)); [|exact Hdone].
  apply outcomes_call. intros r. eapply outcomes_mono; [|exact Hdone]. by intros tr out [-> Hs].
Qed.

(** ** The handlers *)

Context `{!TextSpec crc16 itoa}.
(** [struct fixed_partition] holds the ids in a byte. *)
Hypothesis partition_ids : forall i, slot0_partition = Some i \/ slot1_partition = Some i -> 0 <= i <= 255.

(** What a handler does for a received packet: it completes with one response
    made of a status and its first [n] arguments, and reports success only when
    a call that does the work answered 0. *)
Definition answers (n : Z) (work : fcall -> Prop) (args : list (list Z)) (m : stp fcall fans hup_handle Z) (h : hup_handle) : Prop :=
  outcomes (m h) (fun tr out => Forall (fun '(c, r) => int_answer c r) tr ->
    exists rc h0 bytes last_size h', int32 rc /\ used_tx h h0 /\ respond crc16 itoa rc (echo n args) h0 = Ok (bytes, h') /\
      out = Ok (last_size, h') /\ sent tr = [bytes] /\ (rc = 0 -> exists c r, (c, r) ∈ tr /\ work c /\ ret r = 0)).

(** The part before the response: it uses the transmit buffer only, sends
    nothing, and is honest about its result, given the calls before it. *)
Definition prepares {X} (work : fcall -> Prop) (rc : X -> Z) (pre : list (fcall * fans)) (m : stp fcall fans hup_handle X) (h : hup_handle) : Prop :=
  outcomes (m h) (fun tr out => Forall (fun '(c, r) => int_answer c r) tr ->
    exists x h1, out = Ok (x, h1) /\ int32 (rc x) /\ used_tx h h1 /\ sent tr = [] /\
      (rc x = 0 -> exists c r, (c, r) ∈ pre ++ tr /\ work c /\ ret r = 0)).

Lemma prepares_answers {X} work rc (fa last : X -> Z) n i cmd q args (m : stp fcall fans hup_handle X) f h :
  parsed i cmd q args h -> 0 <= n -> Forall (Forall plain) args ->
  len (header i cmd q) + len (records RECORD_MARK (echo n args)) + 24 < RECV_BUFFER_SIZE ->
  (forall x, f x = (_set_status itoa (rc x);; do (close_flash_partition (fa x));;
    _set_done crc16 itoa (argc h) ARG_FLASH_PARTITION n;; mret (last x))) ->
  prepares work rc [] m h -> answers n work args (m ≫= f) h.
Proof.
  intros Hp Hn Hpl Hl Hf Hm. unfold answers. apply outcomes_stp. intros tr out Hr. specialize (Hm tr out Hr). destruct out as [[x h1]|e].
  - intros tr' out' Hr' Hall. rewrite Hf in Hr'. apply Forall_app in Hall as [Hall _].
    destruct (Hm Hall) as (? & ? & [= <- <-] & Hrc & Hu & Hs & Hw). pose proof (parsed_used_tx _ _ _ _ _ _ Hu Hp) as Hp1.
    destruct (respond_ok crc16 itoa (rc x) (echo n args) i cmd q h1 (parsed_headed _ _ _ _ _ Hp1) Hrc) as (tx & s & c & _ & _ & _ & E & _);
      [by apply Forall_take | done|].
    replace (argc h) with (argc h1) in Hr' by (by rewrite (pa_argc _ _ _ _ _ Hp), (pa_argc _ _ _ _ _ Hp1)).
    destruct (finish_replies _ _ _ _ _ (fa x) n (last x) _ _ _ Hp1 Hn E _ _ Hr') as [-> Hs'].
    eexists (rc x), h1, _, (last x), _. split_and!; try done.
    + unfold sent in *. by rewrite omap_app, Hs, Hs'.
    + intros H0. destruct (Hw H0) as (c' & r & Hin & Hc). exists c', r. split; [apply elem_of_app; by left | done].
  - intros Hall. by destruct (Hm Hall) as (? & ? & [=] & _).
Qed.

Lemma prepares_bind {X Y} work rc pre (m : stp fcall fans hup_handle Y) (f : Y -> stp fcall fans hup_handle X) h :
  outcomes (m h) (fun tr out => Forall (fun '(c, r) => int_answer c r) tr ->
    exists y h1, out = Ok (y, h1) /\ used_tx h h1 /\ sent tr = [] /\ prepares work rc (pre ++ tr) (f y) h1) ->
  prepares work rc pre (m ≫= f) h.
Proof.
  intros Hm. unfold prepares. apply outcomes_stp. intros tr out Hr. specialize (Hm tr out Hr). destruct out as [[y h1]|e].
  - intros tr' out' Hr' Hall. apply Forall_app in Hall as [Hall Hall']. destruct (Hm Hall) as (? & ? & [= <- <-] & Hu & Hs & Hf).
    destruct (Hf _ _ Hr' Hall') as (x & h2 & -> & Hrc & Hu2 & Hs2 & Hw). exists x, h2. split_and!; try done.
    + by eapply used_tx_trans.
    + unfold sent in *. by rewrite omap_app, Hs, Hs2.
    + intros H0. destruct (Hw H0) as (c & r & Hin & Hc). exists c, r. split; [by rewrite app_assoc | done].
  - intros Hall. by destruct (Hm Hall) as (? & ? & [=] & _).
Qed.

Lemma prepares_ret {X} work rc pre (x : X) h : wf h -> int32 (rc x) ->
  (rc x = 0 -> exists c r, (c, r) ∈ pre /\ work c /\ ret r = 0) -> prepares work rc pre (mret x) h.
Proof.
  intros Hwf Hi Hw. apply outcomes_ret. intros _. exists x, h. split_and!; try done; [by apply used_tx_refl|]. by rewrite app_nil_r.
Qed.

Lemma prepares_arg {X} work rc pre i cmd q args k s (f : list Z -> stp fcall fans hup_handle X) h :
  parsed i cmd q args h -> args !! k = Some s -> prepares work rc pre (f s) h ->
  prepares work rc pre (s ← arg (Z.of_nat k + 1); f s) h.
Proof.
  intros Hp Hk Hf. apply prepares_bind. rewrite (arg_parsed _ _ _ _ _ _ _ Hp Hk). apply outcomes_ret. intros _.
  exists s, h. split_and!; try done; [apply used_tx_refl, Hp|]. by rewrite app_nil_r.
Qed.

Lemma prepares_call {X} work rc pre c (g : fans -> stp fcall fans hup_handle X) h : wf h -> (forall s, c <> Send s) ->
  (forall r, int32 (ret r) -> prepares work rc (pre ++ [(c, r)]) (g r) h) ->
  prepares work rc pre (r ← do (call c); g r) h.
Proof.
  intros Hwf Hc Hg. apply prepares_bind. apply outcomes_call. intros r. apply outcomes_ret. intros Hall. forall_cons.
  exists r, h. split_and!; try done; [by apply used_tx_refl | | by apply Hg]. by destruct c; try done; destruct (Hc data).
Qed.

Lemma partition_id_int32 name : int32 (get_partition_id slot0_partition slot1_partition name).
Proof.
  unfold get_partition_id, fixed_partitions, int32, INT32_MIN, INT32_MAX.
  destruct slot0_partition as [x|] eqn:E0, slot1_partition as [y|] eqn:E1; cbn [app find_partition]; repeat case_test;
    try (pose proof (partition_ids x (or_introl eq_refl))); try (pose proof (partition_ids y (or_intror eq_refl))); unfold EINVAL in *; lia.
Qed.

Definition is_open (c : fcall) : Prop := match c with flash_area_open _ => True | _ => False end.

Definition opened_ok (tr : list (fcall * fans)) (p : Z * Z) : Prop :=
  sent tr = [] /\ int32 (fst p) /\ (fst p = 0 -> exists c r, (c, r) ∈ tr /\ is_open c /\ ret r = 0).

(** Opening a partition answers an area or an error. *)
Lemma open_outcomes name :
  outcomes (open_flash_partition name) (fun tr out => Forall (fun '(c, r) => int_answer c r) tr ->
    exists p, out = Ok p /\ opened_ok tr p).
Proof.
  unfold HuFlash.open_flash_partition.
  assert (Hopen : forall pre rc, sent pre = [] -> int32 rc ->
    outcomes (if negb (rc =? 0) then mret (rc, NOFA) else (r ← call (flash_area_open rc); mret (ret r, out r)))
    (fun tr out => Forall (fun '(c, r) => int_answer c r) (pre ++ tr) -> exists p, out = Ok p /\ opened_ok (pre ++ tr) p)).
  { intros pre rc Hpre Hrc. destruct (rc =? 0) eqn:E; zify_bool.
    - apply outcomes_call. intros r. apply outcomes_ret. intros Hall. apply Forall_app in Hall as [_ Hall]. forall_cons.
      exists (ret r, out r). split; [done|]. split_and!; [unfold sent in *; by rewrite omap_app, Hpre | done|].
      intros Hz. exists (flash_area_open rc), r. split; [apply elem_of_app; right; by left | done].
    - apply outcomes_ret. intros _. exists (rc, NOFA). split; [done|]. rewrite app_nil_r. by split_and!. }
  apply outcomes_bind. destruct (_ && _); [|apply outcomes_ret, (Hopen []); [done | apply partition_id_int32]].
  apply outcomes_bind. unfold bootloader_active_slot. destruct RETENTION_BOOTLOADER_INFO.
  - destruct OUTPUT_SETTINGS; apply outcomes_call; intros r; case_test; apply outcomes_ret, outcomes_ret, (Hopen [_]); try done;
      repeat case_test; try apply partition_id_int32; by_decide.
  - apply outcomes_ret, outcomes_ret, (Hopen []); [done|]. repeat case_test; try apply partition_id_int32; by_decide.
Qed.

Lemma do_open_outcomes name h :
  outcomes (do (open_flash_partition name) h) (fun tr out => Forall (fun '(c, r) => int_answer c r) tr ->
    exists p, out = Ok (p, h) /\ opened_ok tr p).
Proof.
  unfold do. apply outcomes_bind. eapply outcomes_mono; [|apply open_outcomes].
  intros tr [p|e] H; [|intros Hall; by destruct (H Hall) as (? & [=] & _)].
  apply outcomes_ret. rewrite app_nil_r. intros Hall. destruct (H Hall) as (? & [= <-] & Hok). by exists p.
Qed.

Lemma prepares_open {X} work rc pre name (g : Z * Z -> stp fcall fans hup_handle X) h : wf h ->
  (forall p tr, opened_ok tr p -> prepares work rc (pre ++ tr) (g p) h) ->
  prepares work rc pre (p ← do (open_flash_partition name); g p) h.
Proof.
  intros Hwf Hg. apply prepares_bind. eapply outcomes_mono; [|apply do_open_outcomes]. intros tr out H Hall.
  destruct (H Hall) as (p & -> & Hok). exists p, h. split_and!; [done | by apply used_tx_refl | apply Hok | by apply Hg].
Qed.

Lemma prepares_only_open pre name h : wf h -> prepares is_open fst pre (do (open_flash_partition name)) h.
Proof.
  intros Hwf. unfold prepares. eapply outcomes_mono; [|apply do_open_outcomes]. intros tr out H Hall.
  destruct (H Hall) as (p & -> & Hs & Hi & Ho). exists p, h. split_and!; try done; [by apply used_tx_refl|].
  intros Hz. destruct (Ho Hz) as (c & r & Hin & Hc). exists c, r. split; [apply elem_of_app; by right | done].
Qed.

Lemma prepares_map {X Y} work (rc : X -> Z) (rc' : Y -> Z) pre (m : stp fcall fans hup_handle X) f h :
  (forall x h, exists y, f x h = Ret (y, h) /\ rc' y = rc x) -> prepares work rc pre m h -> prepares work rc' pre (m ≫= f) h.
Proof.
  intros Hf Hm. unfold prepares. apply outcomes_stp. eapply outcomes_mono; [|exact Hm]. cbv beta. intros tr [[x h1]|e] H.
  - destruct (Hf x h1) as (y & -> & Ey). apply outcomes_ret. rewrite app_nil_r. intros Hall.
    destruct (H Hall) as (? & ? & [= <- <-] & Hx). exists y, h1. by rewrite Ey.
  - intros Hall. by destruct (H Hall) as (? & ? & [=] & _).
Qed.

Definition erases (c : fcall) : Prop := exists fa, c = flash_area_erase fa 0 (fa_size fa).
Definition writes (c : fcall) : Prop := match c with flash_area_write _ _ _ => True | _ => False end.

Lemma lookup_parsed i cmd q args h k : parsed i cmd q args h -> Z.of_nat k + 1 < argc h -> exists s, args !! k = Some s.
Proof. intros Hp Hk. rewrite (pa_argc _ _ _ _ _ Hp) in Hk. apply lookup_lt_is_Some. unfold len in Hk. lia. Qed.

Section Handlers.
Context (i : option (list Z)) (cmd : list Z) (q : option (list Z)) (args : list (list Z)) (h : hup_handle).
Hypothesis Hp : parsed i cmd q args h.
Hypothesis Hpl : Forall (Forall plain) args.
Local Abbreviation fits n := (len (header i cmd q) + len (records RECORD_MARK (echo n args)) + 24 < RECV_BUFFER_SIZE).

Lemma wrprt_answers last_size : fits ARG_FLASH_WRITE_PROTECT ->
  answers ARG_FLASH_WRITE_PROTECT is_open args (_wrprt crc16 itoa slot0_partition slot1_partition RETENTION_BOOTLOADER_INFO OUTPUT_SETTINGS last_size) h.
Proof.
  intros Hl. unfold _wrprt. apply (prepares_answers is_open fst snd (fun _ => -1) _ i cmd q); try done; [by intros []|].
  pose proof (pa_wf _ _ _ _ _ Hp) as Hwf. unfold ARG_WRPRT_MAX. case_test; [|by apply prepares_ret].
  destruct (lookup_parsed _ _ _ _ _ 0 Hp) as [s0 E0]; [lia|]. destruct (lookup_parsed _ _ _ _ _ 1 Hp) as [s1 E1]; [lia|].
  apply (prepares_arg _ _ _ i cmd q args 1 s1); [done..|]. apply (prepares_arg _ _ _ i cmd q args 0 s0); [done..|].
  by apply prepares_only_open.
Qed.

Lemma erase_answers last_size : fits ARG_FLASH_PARTITION ->
  answers ARG_FLASH_PARTITION erases args (_erase crc16 itoa slot0_partition slot1_partition RETENTION_BOOTLOADER_INFO OUTPUT_SETTINGS fa_size last_size) h.
Proof.
  intros Hl. unfold _erase. apply (prepares_answers erases fst snd (fun _ => -1) _ i cmd q); try done; [by intros []|].
  pose proof (pa_wf _ _ _ _ _ Hp) as Hwf. unfold ARG_ERASE_MAX. case_test; [|by apply prepares_ret].
  destruct (lookup_parsed _ _ _ _ _ 0 Hp) as [s0 E0]; [lia|].
  apply (prepares_arg _ _ _ i cmd q args 0 s0); [done..|]. apply prepares_open; [done|].
  intros [rc fa] tr (_ & Hi & _). cbn in Hi. case_test; [by apply prepares_ret|].
  unfold prepares, do. apply outcomes_call. intros r. apply outcomes_ret. intros Hall. forall_cons.
  exists (ret r, fa), h. split_and!; try done; [by apply used_tx_refl|]. intros Hz.
  exists (flash_area_erase fa 0 (fa_size fa)), r. split; [apply elem_of_app; right; by left|]. split; [by exists fa | done].
Qed.

(** The part of [_flash] on an open partition, with the texts of the offset,
    the length and the data. *)
Lemma chunk_prepares fa last_size pre soff slen sdata :
  args !! 1%nat = Some soff -> args !! 2%nat = Some slen -> args !! 3%nat = Some sdata ->
  prepares writes fst pre (flash_chunk fa last_size) h.
Proof.
  intros E1 E2 E3. pose proof (pa_wf _ _ _ _ _ Hp) as Hwf. unfold flash_chunk.
  apply (prepares_arg _ _ _ i cmd q args 2 slen); [done..|]. case_test; [by apply prepares_ret|].
  apply (prepares_arg _ _ _ i cmd q args 1 soff); [done..|].
  destruct (decode_arg_parsed _ _ _ _ _ 3 _ Hp E3) as (n & h1 & Ed & Hu & Hn).
  apply prepares_bind. unfold lift. change ARG_FLASH_ASCII85_DATA with (Z.of_nat 3 + 1). rewrite Ed. cbn [of_res]. apply outcomes_ret. intros _.
  exists n, h1. split_and!; try done. rewrite app_nil_r. cbv zeta.
  pose proof (wf_used_tx _ _ Hwf Hu) as Hwf1.
  set (rc := if (_ =? 0) && _ then _ else _). assert (Hrc : int32 rc).
  { unfold rc, int32, INT32_MIN, INT32_MAX, EDESZA85, EASCII85, ASCII85_ERROR_CODE_START, ELASTERROR. repeat case_test; lia. }
  case_test; [by apply prepares_ret|].
  apply prepares_bind. apply outcomes_ret. intros _. eexists _, h1. split_and!; try done; [by apply used_tx_refl|]. rewrite app_nil_r.
  apply (prepares_map _ (fun r => r)); [intros x h2; eexists; split; [reflexivity | done]|].
  unfold prepares, do. apply outcomes_call. intros r. apply outcomes_ret. intros Hall. forall_cons.
  exists (ret r), h1. split_and!; try done; [by apply used_tx_refl|]. intros Hz.
  eexists _, r. split; [apply elem_of_app; right; by left | done].
Qed.

Lemma flash_answers last_size : fits ARG_FLASH_LENGTH ->
  answers ARG_FLASH_LENGTH writes args (_flash crc16 itoa slot0_partition slot1_partition RETENTION_BOOTLOADER_INFO OUTPUT_SETTINGS last_size) h.
Proof.
  intros Hl. unfold _flash. apply (prepares_answers writes (fun x => fst (fst x)) (fun x => snd (fst x)) snd _ i cmd q); try done; [by intros [[] ?]|].
  pose proof (pa_wf _ _ _ _ _ Hp) as Hwf. unfold ARG_FLASH_MAX. case_test; [by apply prepares_ret|].
  destruct (lookup_parsed _ _ _ _ _ 0 Hp) as [s0 E0]; [lia|]. destruct (lookup_parsed _ _ _ _ _ 1 Hp) as [s1 E1]; [lia|].
  destruct (lookup_parsed _ _ _ _ _ 2 Hp) as [s2 E2]; [lia|]. destruct (lookup_parsed _ _ _ _ _ 3 Hp) as [s3 E3]; [lia|].
  apply (prepares_arg _ _ _ i cmd q args 0 s0); [done..|]. apply prepares_open; [done|].
  intros [rc fa] tr (_ & Hi & _). cbn in Hi. case_test; [by apply prepares_ret|].
  apply (prepares_map _ fst); [intros [rc' ls] h2; eexists; split; [reflexivity | done]|].
  by apply (chunk_prepares _ _ _ s1 s2 s3).
Qed.
End Handlers.

Inductive flash_cmd := Wrprt | Erase | Flash.
Definition flash_handler (c : flash_cmd) (last_size : Z) : stp fcall fans hup_handle Z :=
  match c with
  | Wrprt => _wrprt crc16 itoa slot0_partition slot1_partition RETENTION_BOOTLOADER_INFO OUTPUT_SETTINGS last_size
  | Erase => _erase crc16 itoa slot0_partition slot1_partition RETENTION_BOOTLOADER_INFO OUTPUT_SETTINGS fa_size last_size
  | Flash => _flash crc16 itoa slot0_partition slot1_partition RETENTION_BOOTLOADER_INFO OUTPUT_SETTINGS last_size
  end.
(** How many arguments a command echoes, and the call that does its work. *)
Definition echoed (c : flash_cmd) : Z := match c with Wrprt => 2 | Erase => 1 | Flash => 3 end.
Definition works (c : flash_cmd) : fcall -> Prop := match c with Wrprt => is_open | Erase => erases | Flash => writes end.

Lemma handler_answers c last_size i cmd q args h :
  parsed i cmd q args h -> Forall (Forall plain) args ->
  len (header i cmd q) + len (records RECORD_MARK (echo (echoed c) args)) + 24 < RECV_BUFFER_SIZE ->
  answers (echoed c) (works c) args (flash_handler c last_size) h.
Proof. destruct c; intros; [eapply wrprt_answers | eapply erase_answers | eapply flash_answers]; eassumption. Qed.

Lemma handler_balanced c last_size h tr o :
  runs (flash_handler c last_size h) tr (Ok o) -> closed tr = opened tr.
Proof.
  intros Hr. eapply (flash_handlers_answer crc16 itoa slot0_partition slot1_partition RETENTION_BOOTLOADER_INFO OUTPUT_SETTINGS fa_size last_size h tr o).
  destruct c; auto.
Qed.

End Replies.

(** ** A concrete command *)

Definition flash_args : list (list Z) := [str "slot0"; str "10"; str "104"; replicate 65 ch_z].

Lemma flash_parsed : parsed None (str "flash") None flash_args flash_handle.
Proof.
  constructor; try done.
  - exists (Some 0). split; vm_compute; reflexivity.
  - intros k r Hk. do 4 (destruct k as [|k]; [injection Hk as <-; eexists; split; [vm_compute; reflexivity | vm_compute; reflexivity]|]).
    done.
Qed.

