(* ===== verification/Uart.v ===== *)
(** The serial transports of src/lib/app/uart.c (asynchronous, interrupt
    driven and polling).  Zephyr's ring buffer is the interface [RingBuf];
    the driver API and the points where a thread blocks are calls. *)

From S2P Require Import Prelude.

(** ** Zephyr's ring buffer, as documented *)

(** [rb_get_claim] answers the oldest bytes that lie in one piece and
    [rb_get_finish] frees some of them; [rb_put_claim] answers the size of a
    writable piece and [rb_put_finish] commits the bytes written there.
    [claimed] and [put_claimed] count what is claimed and not yet finished. *)
Class RingBuf (RB : Type) := {
  contents : RB -> list Z;
  space : RB -> Z;
  claimed : RB -> Z;
  put_claimed : RB -> Z;
  rb_put : RB -> list Z -> Z * RB;
  rb_get : RB -> Z -> list Z * RB;
  rb_get_claim : RB -> Z -> list Z * RB;
  rb_get_finish : RB -> Z -> Z * RB;
  rb_put_claim : RB -> Z -> Z * RB;
  rb_put_finish : RB -> list Z -> Z * RB;
  rb_is_empty : RB -> bool
}.

Class RingBufSpec (RB : Type) `{RingBuf RB} : Prop := {
  space_nonneg r : 0 <= space r;
  put_spec r data n r' : rb_put r data = (n, r') ->
    n = Z.min (len data) (space r) /\ contents r' = contents r ++ take (Z.to_nat n) data;
  get_spec r n l r' : rb_get r n = (l, r') ->
    l = take (Z.to_nat n) (contents r) /\ contents r' = drop (Z.to_nat n) (contents r);
  get_claim_spec r n l r' : rb_get_claim r n = (l, r') -> claimed r = 0 ->
    l `prefix_of` contents r /\ contents r' = contents r /\ claimed r' = len l /\
    (0 < n -> contents r <> [] -> l <> []);
  get_finish_spec r n rc r' : rb_get_finish r n = (rc, r') -> 0 <= n <= claimed r ->
    contents r' = drop (Z.to_nat n) (contents r) /\ claimed r' = 0;
  put_claim_spec r n k r' : rb_put_claim r n = (k, r') -> put_claimed r = 0 ->
    0 <= k <= Z.max 0 n /\ contents r' = contents r /\ put_claimed r' = k;
  put_finish_spec r data rc r' : rb_put_finish r data = (rc, r') -> len data <= put_claimed r ->
    rc = 0 /\ contents r' = contents r ++ data /\ put_claimed r' = 0;
  is_empty_spec r : rb_is_empty r = true <-> contents r = []
}.

Definition RX_BUF_SIZE : Z := 512.
Definition TX_BUF_SIZE : Z := 512.
Definition UART_FIFO_SIZE : Z := 64.

Section Uart.
Context {RB : Type} `{RingBuf RB}.

(** [struct handle]; [fifo_next] is the address of the spare receive buffer. *)
Record handle := Handle {
  dev : Z;
  tx_done : Z;
  rx_done : Z;
  tx_buffer : RB;
  rx_buffer : RB;
  fifo_next : Z;
  bytes_send : Z
}.
Definition set_tx_done x h := Handle (dev h) x (rx_done h) (tx_buffer h) (rx_buffer h) (fifo_next h) (bytes_send h).
Definition set_rx_done x h := Handle (dev h) (tx_done h) x (tx_buffer h) (rx_buffer h) (fifo_next h) (bytes_send h).
Definition set_tx_buffer x h := Handle (dev h) (tx_done h) (rx_done h) x (rx_buffer h) (fifo_next h) (bytes_send h).
Definition set_rx_buffer x h := Handle (dev h) (tx_done h) (rx_done h) (tx_buffer h) x (fifo_next h) (bytes_send h).
Definition set_fifo_next x h := Handle (dev h) (tx_done h) (rx_done h) (tx_buffer h) (rx_buffer h) x (bytes_send h).
Definition set_bytes_send x h := Handle (dev h) (tx_done h) (rx_done h) (tx_buffer h) (rx_buffer h) (fifo_next h) x.

(** The points of a thread at which other contexts run on the handle. *)
Inductive point :=
  | k_msleep (ms : Z)
  | uart_irq_tx_enable    (* the interrupt service routine runs at once *)
  | wait_tx_done          (* k_sem_take that blocks until the semaphore is given *)
  | wait_rx_done.

(** Calls into the driver API and the kernel; [others p h] is a point [p]
    reached with the shared handle [h]. *)
Inductive ucall :=
  | uart_tx (data : list Z)
  | uart_rx_buf_rsp (buf size : Z)
  | uart_irq_update
  | uart_irq_is_pending
  | uart_irq_rx_ready
  | uart_fifo_read (size : Z)
  | uart_irq_tx_ready
  | uart_fifo_fill (data : list Z)
  | uart_irq_tx_disable
  | uart_poll_out (c : Z)
  | uart_poll_in
  | uart_callback_set
  | uart_rx_enable (buf size timeout : Z)
  | uart_irq_callback_user_data_set
  | uart_irq_rx_enable
  | device_is_ready (dev : Z)
  | malloc
  | free
  | others (p : point) (h : handle).

(** The return value, the bytes a call stores, and the handle as the other
    contexts left it ([None]: unchanged). *)
Record uans := UAns { uret : Z; ubytes : list Z; uhandle : option handle }.

Local Abbreviation um := (stp ucall uans handle).

Definition invoke (c : ucall) : um Z := fun h => Call c (fun r => Ret (uret r, h)).
Definition yield (p : point) : um unit := fun h => Call (others p h) (fun r => Ret (tt, default h (uhandle r))).
Definition update (f : handle -> handle) : um unit := fun h => Ret (tt, f h).
(** A call whose answer the code inspects as a whole. *)
Definition query (c : ucall) : um uans := ask c.
(** Reading the handle. *)
Definition look {A} (f : handle -> A) : um A := fun h => Ret (f h, h).
Definition on_tx {A} (f : RB -> A * RB) : um A := fun h => let '(a, r) := f (tx_buffer h) in Ret (a, set_tx_buffer r h).
Definition on_rx {A} (f : RB -> A * RB) : um A := fun h => let '(a, r) := f (rx_buffer h) in Ret (a, set_rx_buffer r h).

(** Binary semaphores. *)
Definition give_tx_done : um unit := update (fun h => set_tx_done (Z.min 1 (tx_done h + 1)) h).
Definition give_rx_done : um unit := update (fun h => set_rx_done (Z.min 1 (rx_done h + 1)) h).
Definition take_tx_done : um unit := fun h =>
  if tx_done h >? 0 then Ret (tt, set_tx_done (tx_done h - 1) h) else yield wait_tx_done h.
Definition take_rx_done : um unit := fun h =>
  if rx_done h >? 0 then Ret (tt, set_rx_done (rx_done h - 1) h) else yield wait_rx_done h.
(** [k_sem_take(&h->tx_done, K_NO_WAIT) == 0] *)
Definition try_tx_done : um bool := fun h =>
  if tx_done h >? 0 then Ret (true, set_tx_done (tx_done h - 1) h) else Ret (false, h).

(** ** CONFIG_UART_ASYNC_API *)

Definition _tx_from_queue : um Z :=
  data_ptr ← on_tx (fun r => rb_get_claim r TX_BUF_SIZE);
  update (set_bytes_send (len data_ptr));;
  (if len data_ptr >? 0 then
     rc ← invoke (uart_tx data_ptr);
     update (set_bytes_send rc)
   else update (set_bytes_send 0));;
  look bytes_send.

Inductive uart_event :=
  | UART_TX_DONE
  | UART_RX_RDY (data : list Z)     (* evt->data.rx: len bytes from buf + offset *)
  | UART_RX_BUF_REQUEST
  | UART_RX_BUF_RELEASED (buf : Z)
  | UART_RX_DISABLED
  | UART_OTHER.

Definition _async_cb (evt : uart_event) : um unit :=
  match evt with
  | UART_TX_DONE =>
      sent ← look bytes_send;
      on_tx (fun r => rb_get_finish r sent);;
      n ← _tx_from_queue;
      if n =? 0 then give_tx_done else mret tt
  | UART_RX_RDY data =>
      on_rx (fun r => rb_put r data);;
      if len data >? 0 then give_rx_done else mret tt
  | UART_RX_BUF_REQUEST =>
      buf ← look fifo_next;
      invoke (uart_rx_buf_rsp buf UART_FIFO_SIZE);; mret tt
  | UART_RX_BUF_RELEASED buf => update (set_fifo_next buf)
  | UART_RX_DISABLED => mret tt
  | UART_OTHER => mret tt
  end.

(** The loop runs [fuel] turns at most. *)
Fixpoint _send_async (fuel : nat) (data : list Z) : um Z :=
  match fuel with
  | O => fun _ => Halt OutOfFuel
  | S fuel =>
      written_to_buf ← on_tx (fun r => rb_put r data);
      let rest := drop (Z.to_nat written_to_buf) data in
      t ← try_tx_done;
      (if t : bool then _tx_from_queue;; mret tt else mret tt);;
      if len rest =? 0 then mret (len rest)
      else yield (k_msleep 7);; _send_async fuel rest
  end.

(** ** CONFIG_UART_INTERRUPT_DRIVEN *)

(** The receive part of the interrupt service routine. *)
Definition irq_rx : um unit :=
  _claimed ← on_rx (fun r => rb_put_claim r RX_BUF_SIZE);
  r ← query (uart_fifo_read _claimed);
  if uret r <? 0 then mret tt
  else if uret r >? 0 then
    err ← on_rx (fun rb => rb_put_finish rb (take (Z.to_nat (uret r)) (ubytes r)));
    if negb (err =? 0) then mret tt else give_rx_done
  else mret tt.

(** The transmit part. *)
Definition irq_tx : um unit :=
  data_ptr ← on_tx (fun r => rb_get_claim r TX_BUF_SIZE);
  if len data_ptr >? 0 then
    sent ← invoke (uart_fifo_fill data_ptr);
    if sent >? 0 then on_tx (fun r => rb_get_finish r sent);; give_tx_done else mret tt
  else
    e ← look (fun h => rb_is_empty (tx_buffer h));
    if e : bool then invoke uart_irq_tx_disable;; mret tt else mret tt.

Fixpoint _irq_cb (fuel : nat) : um unit :=
  match fuel with
  | O => fun _ => Halt OutOfFuel
  | S fuel =>
      invoke uart_irq_update;;
      p ← invoke uart_irq_is_pending;
      if p <=? 0 then mret tt
      else
        r ← invoke uart_irq_rx_ready;
        (if negb (r =? 0) then irq_rx else mret tt);;
        t ← invoke uart_irq_tx_ready;
        (if negb (t =? 0) then irq_tx else mret tt);;
        _irq_cb fuel
  end.

Fixpoint _send_int (fuel : nat) (data : list Z) : um Z :=
  match fuel with
  | O => fun _ => Halt OutOfFuel
  | S fuel =>
      written_to_buf ← on_tx (fun r => rb_put r data);
      let rest := drop (Z.to_nat written_to_buf) data in
      yield uart_irq_tx_enable;;
      if len rest =? 0 then mret (len rest)
      else take_tx_done;; _send_int fuel rest
  end.

(** ** Polling *)

Fixpoint poll_out (data : list Z) : um unit :=
  match data with [] => mret tt | c :: data => invoke (uart_poll_out c);; poll_out data end.

Definition _send_poll (data : list Z) : um Z :=
  take_tx_done;; poll_out data;; give_tx_done;; mret (len data).

(** Reads up to [n] bytes, [acc] being read already. *)
Fixpoint poll_in (n : nat) (acc : list Z) : um (list Z) :=
  match n with
  | O => mret acc
  | S n =>
      r ← query uart_poll_in;
      if uret r <? 0 then mret acc else poll_in n (acc ++ take 1 (ubytes r))
  end.

Definition _recv_poll (n : Z) : um (list Z) :=
  take_rx_done;; l ← poll_in (Z.to_nat n) []; give_rx_done;; mret l.

Fixpoint recv_wait (fuel : nat) (n : Z) : um (list Z) :=
  match fuel with
  | O => fun _ => Halt OutOfFuel
  | S fuel =>
      take_rx_done;;
      l ← on_rx (fun r => rb_get r n);
      if len l =? 0 then recv_wait fuel n else mret l
  end.

(** The bytes stored, whose number is the return value. *)
Definition _recv_async_int (fuel : nat) (n : Z) : um (list Z) :=
  l ← on_rx (fun r => rb_get r n);
  if len l =? 0 then recv_wait fuel n else mret l.

(** ** Creation *)

(** [ring_buf_init] gives empty buffers; [fb i] is the address of
    [fifo_buffer[i]]. *)
Context (ring_buf_init : Z -> RB) (fb : Z -> Z).
Local Abbreviation io := (prog ucall uans).

Definition _init_handle (d : Z) : io (option handle) :=
  if d =? 0 then Halt UB (* LOG_ERR reads dev->name *)
  else
    r ← call (device_is_ready d);
    if uret r =? 0 then mret None
    else
      r ← call malloc;
      if uret r =? 0 then mret None
      else mret (Some (Handle d 1 0 (ring_buf_init TX_BUF_SIZE) (ring_buf_init RX_BUF_SIZE) 0 0)).

Definition _deinit_uart (h : option handle) : io unit :=
  if h is Some _ then call free;; mret tt else mret tt.

Definition _init_async (arg1 : Z) : io (option handle) :=
  h ← _init_handle arg1;
  match h with
  | None => mret None
  | Some h =>
      let h := set_fifo_next (fb 1) h in
      call uart_callback_set;;
      call (uart_rx_enable (fb 0) UART_FIFO_SIZE 3000);;
      mret (Some h)
  end.

Definition _init_int (arg1 : Z) : io (option handle) :=
  h ← _init_handle arg1;
  match h with
  | None => mret None
  | Some h =>
      call uart_irq_callback_user_data_set;;
      call uart_irq_rx_enable;;
      mret (Some (set_tx_done 0 h))
  end.

Definition _init_poll (d : Z) : io (option handle) :=
  h ← _init_handle d;
  match h with
  | None => mret None
  | Some h => mret (Some (set_rx_done (Z.min 1 (rx_done h + 1)) h))
  end.
End Uart.
