(* ===== verification/UartThm.v ===== *)
(** Theorems on the serial transports of Uart.v: the interrupt service
    routine and the sender move every byte once and in order, and the
    asynchronous transport never frees what it sent. *)

From S2P Require Import Prelude Uart.

Section UartThm.
Context {RB : Type} `{RingBufSpec RB}.
Local Abbreviation handle := (@handle RB).
Local Abbreviation ucall := (@ucall RB).
Local Abbreviation uans := (@uans RB).
Implicit Types (h : handle) (tr : list (ucall * uans)).

(** ** The interrupt service routine *)

(** The bytes one event moves to the transmit FIFO, and from the receive
    FIFO. *)
Definition filled (e : ucall * uans) : list Z :=
  match fst e with uart_fifo_fill d => take (Z.to_nat (uret (snd e))) d | _ => [] end.
Definition fetched (e : ucall * uans) : list Z :=
  match fst e with uart_fifo_read _ => take (Z.to_nat (uret (snd e))) (ubytes (snd e)) | _ => [] end.

(** A UART driver that works as documented: when it reports room or data it
    moves at least one byte, and no more than it was given. *)
Definition fifo_ok (e : ucall * uans) : Prop :=
  match fst e with
  | uart_fifo_fill d => 0 < uret (snd e) <= len d
  | uart_fifo_read n =>
      uret (snd e) <= n /\ (0 < n -> 0 < uret (snd e)) /\ len (ubytes (snd e)) = Z.max 0 (uret (snd e))
  | _ => True
  end.

(** No claim is open. *)
Definition settled h : Prop := claimed (tx_buffer h) = 0 /\ put_claimed (rx_buffer h) = 0.

(** What a run with trace [tr] from [h] to [h'] did to the buffers. *)
Definition moved h tr h' : Prop :=
  contents (tx_buffer h) = concat (map filled tr) ++ contents (tx_buffer h') /\
  contents (rx_buffer h') = contents (rx_buffer h) ++ concat (map fetched tr).

Lemma moved_trans h1 t1 h2 t2 h3 : moved h1 t1 h2 -> moved h2 t2 h3 -> moved h1 (t1 ++ t2) h3.
Proof.
  intros [A1 B1] [A2 B2]. unfold moved. rewrite !map_app, !concat_app, <- !app_assoc.
  by rewrite A1, A2, B2, B1, <- app_assoc.
Qed.

(** One part of the routine, run under a working driver. *)
Definition isr_part {A} h (p : prog ucall uans (A * handle)) : Prop :=
  traces p (fun tr x => Forall fifo_ok tr -> settled h -> settled (snd x) /\ moved h tr (snd x)).

Lemma isr_part_bind {A B} h (m : stp ucall uans handle A) (f : A -> stp ucall uans handle B) :
  isr_part h (m h) -> (forall a h', isr_part h' (f a h')) -> isr_part h ((m ≫= f) h).
Proof.
  intros Hm Hf. apply traces_stp_bind. intros tr [a h1] Hr tr' [b h2] Hr' Hok Hs.
  apply Forall_app in Hok as [Hok Hok']. cbn in *.
  destruct (Hm _ _ Hr Hok Hs) as [Hs1 M1]. destruct (Hf a h1 _ _ Hr' Hok' Hs1) as [Hs2 M2].
  split; [done | by eapply moved_trans].
Qed.

Lemma isr_part_ret {A} h (a : A) : isr_part h ((mret a : stp ucall uans handle A) h).
Proof.
  apply traces_ret. intros _ Hs. split; [done|]. split; [done|]. cbn. by rewrite app_nil_r.
Qed.

Lemma isr_part_invoke h c :
  (match c with uart_fifo_fill _ | uart_fifo_read _ => False | _ => True end) -> isr_part h (invoke c h).
Proof.
  intros Hc. apply traces_call. intros r. apply traces_ret. intros _ Hs. split; [done|].
  split; destruct c; cbn; rewrite ?app_nil_r; done.
Qed.

Lemma isr_part_give h : isr_part h (give_rx_done h).
Proof. apply traces_ret. intros _ Hs. split; [done|]. split; cbn; by rewrite ?app_nil_r. Qed.

Lemma isr_part_rx h : isr_part h (irq_rx h).
Proof.
  unfold irq_rx, on_rx, query, ask, isr_part. destruct (rb_put_claim (rx_buffer h) RX_BUF_SIZE) as [k r1] eqn:E1.
  steps. unfold stp_bind. rewrite E1. cbn [prog_bind']. apply traces_call. intros a.
  repeat case_test; try (apply traces_ret; intros Hok [Hs1 Hs2]; destruct (put_claim_spec _ _ _ _ E1 Hs2) as (Hk & C1 & Q1)).
  - forall_cons. cbn in *. assert (k = 0) as -> by lia.
    split; [by split|]. unfold moved. cbn. replace (Z.to_nat (uret a)) with 0%nat by lia. by rewrite C1, take_0, !app_nil_r.
  - cbn. destruct (rb_put_finish r1 _) as [err r2] eqn:E2. cbn.
    case_test; unfold give_rx_done, update; cbn; apply traces_ret;
      intros Hok [Hs1 Hs2]; destruct (put_claim_spec _ _ _ _ E1 Hs2) as (Hk & C1 & Q1);
      forall_cons; cbn in *; destruct (put_finish_spec _ _ _ _ E2) as (-> & C2 & Q2);
      try (rewrite len_take by lia; lia); try done.
    split; [by split|]. unfold moved. cbn. by rewrite C2, C1, app_nil_r.
  - forall_cons. cbn in *. assert (k = 0) as -> by lia.
    split; [by split|]. unfold moved. cbn. replace (Z.to_nat (uret a)) with 0%nat by lia. by rewrite C1, take_0, !app_nil_r.
Qed.

Lemma isr_part_tx h : isr_part h (irq_tx h).
Proof.
  unfold irq_tx, on_tx, invoke, look, give_tx_done, update, isr_part.
  destruct (rb_get_claim (tx_buffer h) TX_BUF_SIZE) as [d r1] eqn:E1.
  steps. unfold stp_bind. rewrite E1. cbn [prog_bind']. case_test.
  - cbn. apply traces_call. intros a. cbn. case_test; cbn.
    + destruct (rb_get_finish r1 (uret a)) as [rc r2] eqn:E2. apply traces_ret. intros Hok [Hs1 Hs2].
      destruct (get_claim_spec _ _ _ _ E1 Hs1) as ([t Ht] & C1 & Q1 & _). forall_cons. cbn in *.
      destruct (get_finish_spec _ _ _ _ E2) as [C2 Q2]; [lia|]. split; [by split|].
      split; cbn; rewrite ?app_nil_r; [|done]. rewrite C2, C1, Ht.
      rewrite <- (take_drop (Z.to_nat (uret a)) (d ++ t)) at 1. by rewrite take_app_le by len_lia.
    + apply traces_ret. intros Hok _. forall_cons. cbn in *. lia.
  - assert (d = []) as -> by (destruct d; [done | len_lia]). cbn.
    destruct (rb_is_empty r1); cbn; [apply traces_call; intros a; cbn|]; apply traces_ret; intros Hok [Hs1 Hs2];
      destruct (get_claim_spec _ _ _ _ E1 Hs1) as (_ & C1 & Q1 & _);
      (split; [by split | split; cbn; by rewrite ?app_nil_r, ?C1]).
Qed.

Lemma isr_part_if {A} h (b : bool) (m1 m2 : stp ucall uans handle A) :
  isr_part h (m1 h) -> isr_part h (m2 h) -> isr_part h ((if b then m1 else m2) h).
Proof. by destruct b. Qed.

Lemma isr_part_irq fuel h : isr_part h (_irq_cb fuel h).
Proof.
  revert h. induction fuel as [|fuel IH]; intros h; [apply traces_halt|]. cbn [_irq_cb].
  apply isr_part_bind; [by apply isr_part_invoke|]. intros _ h1.
  apply isr_part_bind; [by apply isr_part_invoke|]. intros p h2.
  apply isr_part_if; [apply isr_part_ret|].
  apply isr_part_bind; [by apply isr_part_invoke|]. intros r h3.
  apply isr_part_bind; [apply isr_part_if; [apply isr_part_rx | apply isr_part_ret]|]. intros _ h4.
  apply isr_part_bind; [by apply isr_part_invoke|]. intros t h5.
  apply isr_part_bind; [apply isr_part_if; [apply isr_part_tx | apply isr_part_ret]|]. intros _ h6.
  apply IH.
Qed.

(** C16: one run of the interrupt service routine [_irq_cb], however many turns
    it makes, moves bytes without loss, duplication or reordering: what it
    filled into the transmit FIFO followed by what stays queued is what was
    queued before, and the receive queue is extended by exactly the bytes it
    read, in order. *)
Theorem irq_cb_moves_bytes fuel h tr h' :
  runs (_irq_cb fuel h) tr (Ok (tt, h')) -> Forall fifo_ok tr -> settled h ->
  contents (tx_buffer h) = concat (map filled tr) ++ contents (tx_buffer h') /\
  contents (rx_buffer h') = contents (rx_buffer h) ++ concat (map fetched tr) /\
  settled h'.
Proof. intros Hr Hok Hs. destruct (isr_part_irq _ _ _ _ Hr Hok Hs) as [Hs' [M1 M2]]. done. Qed.

(** ** The sender *)

(** The bytes the interrupt service routine took while a thread stood at a
    point. *)
Definition left_over (h : handle) (a : uans) : handle := default h (uhandle a).
Definition taken (e : ucall * uans) : list Z :=
  match fst e with
  | others _ h =>
      take (length (contents (tx_buffer h)) - length (contents (tx_buffer (left_over h (snd e))))) (contents (tx_buffer h))
  | _ => []
  end.

(** The other contexts take bytes from the front of the transmit queue only
    and give [tx_done] at most once per byte; a blocked [k_sem_take] returns
    after a byte was taken. *)
Definition isr_serves (e : ucall * uans) : Prop :=
  match fst e with
  | others p h =>
      contents (tx_buffer h) = taken e ++ contents (tx_buffer (left_over h (snd e))) /\
      0 <= tx_done (left_over h (snd e)) <= tx_done h + len (taken e) /\
      (p = wait_tx_done -> 0 < len (taken e) /\ tx_done (left_over h (snd e)) < tx_done h + len (taken e))
  | _ => True
  end.

(** What a sender still has to move, and the semaphore counts it can use up. *)
Definition pending h (data : list Z) : Z := len (contents (tx_buffer h)) + len data + tx_done h.

Lemma send_put h data n r :
  rb_put (tx_buffer h) data = (n, r) ->
  let h1 := set_tx_buffer r h in let rest := drop (Z.to_nat n) data in
  contents (tx_buffer h) ++ data = contents (tx_buffer h1) ++ rest /\ pending h1 rest = pending h data.
Proof.
  intros E. destruct (put_spec _ _ _ _ E) as [-> C1]. unfold pending. cbn. rewrite C1.
  pose proof (space_nonneg (tx_buffer h)).
  split; [by rewrite <- app_assoc, take_drop|]. rewrite len_app, len_take, len_drop by (pose proof (len_nonneg data); lia). pose proof (len_nonneg data). lia.
Qed.

Lemma isr_served p h a data :
  isr_serves (others p h, a) ->
  let h' := left_over h a in
  contents (tx_buffer h) ++ data = taken (others p h, a) ++ contents (tx_buffer h') ++ data /\
  pending h' data <= pending h data /\ 0 <= tx_done h' /\ (p = wait_tx_done -> pending h' data < pending h data).
Proof.
  unfold isr_serves. cbn [fst snd]. set (k := taken (others p h, a)). intros (E & Ht & Hp). unfold pending.
  assert (L : len (contents (tx_buffer h)) =
      len k + len (contents (tx_buffer (left_over h a)))) by (rewrite E at 1; by rewrite len_app).
  split; [by rewrite E at 1; rewrite <- app_assoc|]. split; [lia|]. split; [lia|].
  intros Hw. specialize (Hp Hw). lia.
Qed.

Lemma send_int_spec fuel : forall h data tr out,
  runs (_send_int fuel data h) tr out -> Forall isr_serves tr -> 0 <= tx_done h -> pending h data < Z.of_nat fuel ->
  exists h', out = Ok (0, h') /\ contents (tx_buffer h) ++ data = concat (map taken tr) ++ contents (tx_buffer h').
Proof.
  induction fuel as [|fuel IH]; intros h data tr out Hr Hok Hd Hf; [unfold pending, len in Hf; lia|].
  cbn [_send_int] in Hr. unfold on_tx, yield, take_tx_done in Hr. revert Hr. steps. unfold stp_bind.
  destruct (rb_put (tx_buffer h) data) as [n r] eqn:E. destruct (send_put _ _ _ _ E) as [Hc Hp].
  cbn [prog_bind']. set (rest := drop (Z.to_nat n) data) in *. set (h1 := set_tx_buffer r h) in *.
  intros Hr. apply runs_call_inv in Hr as (a & tr1 & -> & Hr). cbn [prog_bind'] in Hr.
  apply Forall_cons in Hok as [Ha Hok]. destruct (isr_served _ _ _ rest Ha) as (Hc1 & Hp1 & Hd1 & _).
  change (default h1 (uhandle a)) with (left_over h1 a) in Hr. set (h2 := left_over h1 a) in *.
  rewrite Hc, Hc1. revert Hr. case_test; intros Hr.
  - apply runs_ret_inv in Hr as [-> ->]. exists h2.
    assert (rest = []) as -> by (destruct rest; [done | len_lia]). cbn [map concat]. by rewrite !app_nil_r.
  - revert Hr. case_test; cbn [prog_bind']; intros Hr.
    + eapply IH in Hr as (h' & -> & Hh'); [|done|cbn; lia|unfold pending in *; cbn; lia].
      exists h'. split; [done|]. cbn in Hh'. cbn [map concat]. by rewrite Hh', app_assoc.
    + apply runs_call_inv in Hr as (b & tr2 & -> & Hr). cbn [prog_bind'] in Hr.
      apply Forall_cons in Hok as [Hb Hok]. destruct (isr_served _ _ _ rest Hb) as (Hc2 & Hp2 & Hd2 & Hw).
      specialize (Hw eq_refl). change (default h2 (uhandle b)) with (left_over h2 b) in Hr.
      eapply IH in Hr as (h' & -> & Hh'); [|done|lia|lia]. exists h'. split; [done|].
      cbn [map concat]. by rewrite <- !app_assoc, <- Hh', Hc2.
Qed.

(** C17: [_send_int] returns, and answers 0, with all its data queued behind
    what was queued before: the bytes the interrupt service routine took
    while the sender ran, followed by those still queued, are the earlier
    queue followed by the data. Every turn of its loop moves a byte or uses
    up a semaphore count, so [pending h data] bounds the turns. *)
Theorem send_int_delivers fuel h data tr out :
  runs (_send_int fuel data h) tr out -> Forall isr_serves tr -> 0 <= tx_done h -> pending h data < Z.of_nat fuel ->
  exists h', out = Ok (0, h') /\ contents (tx_buffer h) ++ data = concat (map taken tr) ++ contents (tx_buffer h').
Proof. apply send_int_spec. Qed.

(** ** The asynchronous transport *)

(** [n] transmit-done events, one after the other. *)
Fixpoint tx_done_events (n : nat) : stp ucall uans handle unit :=
  match n with O => mret tt | S n => _async_cb UART_TX_DONE;; tx_done_events n end.

(** Asked to send, the transport calls [uart_tx] and takes its return code. *)
Lemma tx_from_queue_zero h tr out :
  claimed (tx_buffer h) = 0 -> contents (tx_buffer h) <> [] ->
  runs (_tx_from_queue h) tr out -> Forall (fun e => uret (snd e) = 0) tr ->
  exists d r h', tr = [(uart_tx d, r)] /\ out = Ok (0, h') /\ d <> [] /\ d `prefix_of` contents (tx_buffer h) /\
    contents (tx_buffer h') = contents (tx_buffer h) /\ 0 <= claimed (tx_buffer h') /\ bytes_send h' = 0 /\ tx_done h' = tx_done h.
Proof.
  intros Hcl Hne Hr Hok. unfold _tx_from_queue, on_tx, update, invoke, look in Hr. revert Hr.
  destruct (rb_get_claim (tx_buffer h) TX_BUF_SIZE) as [d r1] eqn:E.
  destruct (get_claim_spec _ _ _ _ E Hcl) as (Hpre & C1 & Q1 & Hpos). specialize (Hpos ltac:(done) Hne).
  steps. unfold stp_bind. rewrite E. cbn [prog_bind']. case_test; [|destruct d; [done | len_lia]].
  intros Hr. apply runs_call_inv in Hr as (a & tr1 & -> & Hr). apply Forall_cons in Hok as [Ha Hok]. cbn in *.
  apply runs_ret_inv in Hr as [-> ->]. rewrite Ha. eexists d, a, _. repeat split; try done. cbn. rewrite Q1. apply len_nonneg.
Qed.

Lemma async_resends_once h tr out :
  bytes_send h = 0 -> 0 <= claimed (tx_buffer h) -> contents (tx_buffer h) <> [] ->
  runs (_async_cb UART_TX_DONE h) tr out -> Forall (fun e => uret (snd e) = 0) tr ->
  exists d r h', tr = [(uart_tx d, r)] /\ out = Ok (tt, h') /\ d <> [] /\ d `prefix_of` contents (tx_buffer h) /\
    contents (tx_buffer h') = contents (tx_buffer h) /\ 0 <= claimed (tx_buffer h') /\ bytes_send h' = 0 /\
    tx_done h' = Z.min 1 (tx_done h + 1).
Proof.
  intros Hb Hcl Hne Hr Hok. cbn [_async_cb] in Hr. unfold look, on_tx in Hr. revert Hr. steps. unfold stp_bind at 1.
  cbn [prog_bind']. rewrite Hb. unfold stp_bind at 1. destruct (rb_get_finish (tx_buffer h) 0) as [rc r1] eqn:E. cbn [prog_bind'].
  destruct (get_finish_spec _ _ _ _ E ltac:(lia)) as [C1 Q1]. cbn in C1. rewrite drop_0 in C1. intros Hr.
  apply runs_bind_inv in Hr as [([n h2] & tr1 & tr2 & -> & H1 & H2) | (s & H1 & ->)].
  - apply Forall_app in Hok as [Hok1 Hok2].
    destruct (tx_from_queue_zero (set_tx_buffer r1 h) _ _ Q1 ltac:(by cbn; rewrite C1) H1 Hok1)
      as (d & r & h' & -> & [= -> ->] & Hd & Hpre & Hc & Hq & Hs & Ht). cbn in *.
    apply runs_ret_inv in H2 as [-> ->]. eexists d, r, _. cbn. rewrite <- C1, Ht. done.
  - destruct (tx_from_queue_zero (set_tx_buffer r1 h) _ _ Q1 ltac:(by cbn; rewrite C1) H1 Hok)
      as (d & r & h' & _ & He & _). done.
Qed.

(** With a driver whose [uart_tx] answers 0 for success, as documented,
    the [UART_TX_DONE] handler never frees a byte of the transmit queue: it
    takes the return code of [uart_tx] for the number of bytes sent. After any
    number of transmit-done events the queue is unchanged and every event has
    handed a non-empty beginning of the same bytes to [uart_tx] again. *)
Theorem async_resends n h tr out :
  bytes_send h = 0 -> 0 <= claimed (tx_buffer h) -> contents (tx_buffer h) <> [] ->
  runs (tx_done_events n h) tr out -> Forall (fun e => uret (snd e) = 0) tr ->
  length tr = n /\
  Forall (fun e => exists d, fst e = uart_tx d /\ d <> [] /\ d `prefix_of` contents (tx_buffer h)) tr /\
  exists h', out = Ok (tt, h') /\ contents (tx_buffer h') = contents (tx_buffer h).
Proof.
  revert h tr. induction n as [|n IH]; intros h tr Hb Hcl Hne Hr Hok.
  { apply runs_ret_inv in Hr as [-> ->]. split_and!; [done | done | by eexists]. }
  apply runs_bind_inv in Hr as [([[] h1] & tr1 & tr2 & -> & H1 & H2) | (s & H1 & ->)].
  - apply Forall_app in Hok as [Hok1 Hok2].
    destruct (async_resends_once h _ _ Hb Hcl Hne H1 Hok1) as (d & r & h' & -> & [= ->] & Hd & Hpre & Hc & Hq & Hs & Ht).
    rewrite <- Hc in Hne. destruct (IH h' tr2 Hs Hq Hne H2 Hok2) as (Hl & Hf & h2 & -> & Hc2). rewrite Hc in Hf, Hc2.
    split_and!; [by cbn; rewrite Hl | constructor; [by exists d | done] | by eexists].
  - destruct (async_resends_once h _ _ Hb Hcl Hne H1 Hok) as (d & r & h' & _ & He & _). done.
Qed.
End UartThm.

(** ** Concrete runs *)

(** A ring buffer of 8 bytes that lies in one piece. *)
Record ring := Ring { ring_data : list Z; ring_claim : Z; ring_put_claim : Z }.
Definition ring_space (r : ring) : Z := Z.max 0 (8 - len (ring_data r)).
#[export] Instance ring_buf : RingBuf ring := {
  contents := ring_data;
  space := ring_space;
  claimed := ring_claim;
  put_claimed := ring_put_claim;
  rb_put r data :=
    let n := Z.min (len data) (ring_space r) in
    (n, Ring (ring_data r ++ take (Z.to_nat n) data) (ring_claim r) (ring_put_claim r));
  rb_get r n := (take (Z.to_nat n) (ring_data r), Ring (drop (Z.to_nat n) (ring_data r)) (ring_claim r) (ring_put_claim r));
  rb_get_claim r n :=
    let l := take (Z.to_nat n) (ring_data r) in (l, Ring (ring_data r) (len l) (ring_put_claim r));
  rb_get_finish r n := (0, Ring (drop (Z.to_nat n) (ring_data r)) 0 (ring_put_claim r));
  rb_put_claim r n :=
    let k := Z.min (Z.max 0 n) (ring_space r) in (k, Ring (ring_data r) (ring_claim r) k);
  rb_put_finish r data := (0, Ring (ring_data r ++ data) (ring_claim r) 0);
  rb_is_empty r := bool_decide (ring_data r = [])
}.

#[export] Instance ring_spec : RingBufSpec ring.
Proof.
  split; cbn; unfold ring_space.
  - lia.
  - by intros r data n r' [= <- <-].
  - by intros r n l r' [= <- <-].
  - intros r n l r' [= <- <-] _. split_and!; [by apply prefix_take | done | done|].
    intros Hn Hne. cbn. destruct (ring_data r); [done|]. by replace (Z.to_nat n) with (S (Z.to_nat (n - 1))) by lia.
  - by intros r n rc r' [= _ <-].
  - intros r n k r' [= <- <-] _. cbn. split_and!; try done; lia.
  - intros r data rc r' [= <- <-]. done.
  - intros r. cbn. by rewrite bool_decide_eq_true.
Qed.

Definition idle_handle (tx : list Z) : @handle ring := Handle 1 0 0 (Ring tx 0 0) (Ring [] 0 0) 0 0.

(** A driver that is pending for [n] turns, has bytes 1, 2 in its receive
    FIFO each time and room for two bytes in its transmit FIFO. *)
Definition isr_env (n : nat) (hist : list (@ucall ring * @uans ring)) (c : @ucall ring) : @uans ring :=
  match c with
  | uart_irq_is_pending =>
      UAns (if (length (List.filter (fun e => match fst e with uart_irq_update => true | _ => false end) hist) <=? n)%nat
            then 1 else 0) [] None
  | uart_irq_rx_ready => UAns 1 [] None
  | uart_irq_tx_ready => UAns 1 [] None
  | uart_fifo_read k => UAns (Z.min k 2) (take (Z.to_nat k) [1; 2]) None
  | uart_fifo_fill d => UAns (Z.min 2 (len d)) [] None
  | _ => UAns 0 [] None
  end.

Definition isr_run := run (isr_env 2) (_irq_cb 4 (idle_handle [7; 8; 9])) [].
#[export] Instance fifo_ok_dec (e : @ucall ring * @uans ring) : Decision (fifo_ok e).
Proof. destruct e as [[] ?]; cbn; apply _. Defined.

Lemma irq_cb_moves_bytes_witness :
  exists h', fst isr_run = Ok (tt, h') /\ contents (tx_buffer h') = [] /\ contents (rx_buffer h') = [1; 2; 1; 2] /\
    [7; 8; 9] = concat (map filled (snd isr_run)) ++ contents (tx_buffer h').
Proof.
  eexists. split; [vm_compute; reflexivity|]. split; [reflexivity|]. split; [reflexivity|].
  refine (proj1 (irq_cb_moves_bytes 4 (idle_handle [7; 8; 9]) (snd isr_run) _ _ _ _)).
  - apply (run_runs _ (isr_env 2)). vm_compute. reflexivity.
  - by_decide.
  - split; reflexivity.
Defined.

(** The interrupt service routine takes two bytes and gives [tx_done]. *)
Definition take_two (h : @handle ring) : @handle ring :=
  let r := tx_buffer h in set_tx_done 0 (set_tx_buffer (Ring (drop 2 (ring_data r)) 0 0) h).
Definition send_env (hist : list (@ucall ring * @uans ring)) (c : @ucall ring) : @uans ring :=
  match c with others wait_tx_done h => UAns 0 [] (Some (take_two h)) | _ => UAns 0 [] None end.
Definition send_data : list Z := [1; 2; 3; 4; 5; 6; 7; 8; 9; 10; 11].
Definition send_run := run send_env (_send_int 30 send_data (idle_handle [])) [].
#[export] Instance point_eq_dec : EqDecision point.
Proof. solve_decision. Defined.
#[export] Instance isr_serves_dec (e : @ucall ring * @uans ring) : Decision (isr_serves e).
Proof. destruct e as [[] ?]; cbn; apply _. Defined.

Lemma send_int_delivers_witness :
  exists h', fst send_run = Ok (0, h') /\ contents (tx_buffer h') = [5; 6; 7; 8; 9; 10; 11] /\
    exists h'', fst send_run = Ok (0, h'') /\ contents (tx_buffer (idle_handle [])) ++ send_data = concat (map taken (snd send_run)) ++ contents (tx_buffer h'').
Proof.
  eexists. split; [vm_compute; reflexivity|]. split; [reflexivity|].
  apply (send_int_delivers 30 (idle_handle []) send_data (snd send_run) (fst send_run)).
  - apply (run_runs _ send_env). vm_compute. reflexivity.
  - by_decide.
  - cbn. lia.
  - vm_compute. reflexivity.
Defined.

Lemma async_resends_witness :
  let hist := snd (run send_env (tx_done_events 3 (idle_handle [4; 5])) []) in
  length hist = 3%nat /\ map fst hist = [uart_tx [4; 5]; uart_tx [4; 5]; uart_tx [4; 5]].
Proof.
  split; [|vm_compute; reflexivity].
  refine (proj1 (async_resends 3 (idle_handle [4; 5]) _ _ _ _ _ _ _)).
  - reflexivity.
  - cbn. lia.
  - done.
  - apply (run_runs _ send_env). vm_compute. reflexivity.
  - by_decide.
Defined.
