(* ===== verification/Server.v ===== *)
(** app/src/hup_server.c: a thread that feeds what a transport receives to the
    packet layer, its creation and its release. The heap holds the [struct
    handle] blocks, so that using one after [pfree] is an error of the model;
    the transport, the allocator and the kernel are calls, and the thread of a
    server takes turns while the caller is preempted or waits for it. *)

From S2P Require Import Prelude HuPacket.

(** [struct app_api]: which of its optional function pointers are set; the
    functions themselves are the calls [api_init], [api_deinit], [api_recv]. *)
Record app_api := AppApi { has_init : bool; has_deinit : bool }.

(** [struct handle]; [drv], [tid] are NULL when 0. *)
Record server := Server { hup : option hup_handle; drv : Z; api_set : bool; tid : Z }.
Definition set_hup x s := Server x (drv s) (api_set s) (tid s).
Definition set_drv x s := Server (hup s) x (api_set s) (tid s).
Definition set_api x s := Server (hup s) (drv s) x (tid s).
Definition set_tid x s := Server (hup s) (drv s) (api_set s) x.

(** What the thread asks of its transport is [thread_recv]; the answer of
    [k_thread_join], which the code does not use, is how many turns the thread
    takes until it ends or the time is over. *)
Inductive scall :=
  | api_init (arg1 arg2 arg3 : Z)
  | api_deinit (drv : Z)
  | palloc_server (size : Z)
  | pfree_server (p : Z)
  | palloc_hup (size : Z)
  | pfree_hup
  | k_thread_create (p : Z)
  | k_thread_name_set (tid : Z)
  | k_thread_join (tid ms : Z)
  | thread_recv (drv : Z)
  | k_thread_abort (tid : Z).

Section Server.
Context (sizeof_handle sizeof_hup_handle : Z).

Local Abbreviation heap := (gmap Z server).
Local Abbreviation sm := (stp scall Z heap).

(** Access to a block of the heap; a freed block is gone. *)
Definition hget (p : Z) : sm server := lift (reads (fun m : heap => match m !! p with Some s => Ok s | None => Stop UB end)).
Definition hset (f : server -> server) (p : Z) : sm unit :=
  lift (updates (fun m : heap => match m !! p with Some s => Ok (<[p := f s]> m) | None => Stop UB end)).
Definition alloc : sm Z :=
  p ← ask (palloc_server sizeof_handle);
  if p =? 0 then mret 0 else lift (modify (fun m : heap => <[p := Server None 0 false 0]> m));; mret p.
Definition release (p : Z) : sm unit :=
  hget p;; ask (pfree_server p);; lift (modify (fun m : heap => delete p m)).

(** The packet layer's allocator calls. *)
Definition new_hup (size : Z) : prog scall Z (option hup_handle) :=
  r ← call (palloc_hup size); mret (if r =? 0 then None else Some zero_handle).
Definition drop_hup (_ : hup_handle) : prog scall Z unit := call pfree_hup;; mret tt.
Definition io {A} (p : prog scall Z A) : sm A := fun m => a ← p; Ret (a, m).

(** [api->deinit(d)]: calling a NULL pointer is undefined. *)
Definition call_deinit (api : app_api) (d : Z) : sm unit :=
  if has_deinit api then ask (api_deinit d);; mret tt else lift (fun _ => Stop UB).

(** Turns of the thread's loop as far as they touch the handle: [recv] on the
    transport, and the packet layer on what it brought. *)
Fixpoint thread_turns (turns : nat) (handle : Z) : sm unit :=
  match turns with
  | O => mret tt
  | S turns =>
      s ← hget handle;
      received ← ask (thread_recv (drv s));
      if received <? 0 then mret tt
      else (if negb (received =? 0) then hget handle;; mret tt else mret tt);; thread_turns turns handle
  end.

Definition deinit_hup_server (handle : Z) (api : option app_api) : sm unit :=
  if handle =? 0 then mret tt
  else
    s ← hget handle;
    match api with
    | Some api => if negb (drv s =? 0) then call_deinit api (drv s) else mret tt
    | None => mret tt
    end;;
    (if negb (tid s =? 0) then
       turns ← ask (k_thread_join (tid s) 1000);
       thread_turns (Z.to_nat turns) handle;;
       ask (k_thread_abort (tid s));; mret tt
     else mret tt);;
    io (deinit_hupacket drop_hup (hup s));;
    release handle.

(** The tails of [init_hup_server] behind its error labels. *)
Definition error_drv_init_hup_server (h : Z) : sm Z := release h;; mret 0.
Definition error_hup_init_hup_server (api : app_api) (h : Z) : sm Z :=
  (if has_deinit api then s ← hget h; call_deinit api (drv s) else mret tt);;
  error_drv_init_hup_server h.

Definition init_hup_server (api : app_api) (stack arg1 arg2 arg3 : Z) : sm Z :=
  if negb (has_init api) then mret 0
  else
    h ← alloc;
    if h =? 0 then mret 0
    else
      d ← ask (api_init arg1 arg2 arg3);
      hset (set_drv d) h;;
      if d =? 0 then error_drv_init_hup_server h
      else
        hset (set_api true) h;;
        hp ← io (init_hupacket new_hup sizeof_hup_handle None);
        hset (set_hup hp) h;;
        if bool_decide (hp = None) then error_hup_init_hup_server api h
        else if negb (stack =? 0) then
          t ← ask (k_thread_create h);
          hset (set_tid t) h;;
          ask (k_thread_name_set t);;
          mret h
        else
          deinit_hup_server h (Some api);;
          error_hup_init_hup_server api h.
End Server.

(** ** The thread *)

Section Loop.
Context (crc16 : list Z -> Z) (itoa : Z -> Z -> option (list Z)) {C R : Type}.
(** [api->recv(h->drv, h->buffer, n)]: its return value, and the bytes it
    stored. *)
Context (api_recv : Z -> C) (received : R -> Z) (stored : R -> list Z).
Context (send : list Z -> stp C R hup_handle Z).
Context (cmds resps : list (list Z * stp C R hup_handle unit)).

Fixpoint _hup_server (fuel : nat) : stp C R hup_handle unit :=
  match fuel with
  | O => fun _ => Halt OutOfFuel
  | S fuel =>
      r ← ask (api_recv RECV_BUFFER_SIZE);
      if received r <? 0 then mret tt
      else
        (if negb (received r =? 0)
         then process_hupacket crc16 itoa send cmds resps (take (Z.to_nat (received r)) (stored r))
         else mret tt);;
        _hup_server fuel
  end.
End Loop.
