(* ===== verification/ServerThm.v ===== *)
(** Theorems on app/src/hup_server.c: a server started and stopped leaves
    nothing allocated, without a stack it is freed and used again, and its
    thread is the packet layer run on the received stream. *)

From Stdlib Require Import Permutation.
From S2P Require Import Prelude HuPacket Server.

(** ** Ownership *)

Inductive resource := Block (p : Z) | Driver (d : Z) | Packet | Thread (t : Z).
Definition acquired (e : scall * Z) : list resource :=
  if snd e =? 0 then []
  else match fst e with
       | palloc_server _ => [Block (snd e)]
       | api_init _ _ _ => [Driver (snd e)]
       | palloc_hup _ => [Packet]
       | k_thread_create _ => [Thread (snd e)]
       | _ => []
       end.
Definition released (e : scall * Z) : list resource :=
  match fst e with
  | pfree_server p => [Block p]
  | api_deinit d => [Driver d]
  | pfree_hup => [Packet]
  | k_thread_abort t => [Thread t]
  | _ => []
  end.

Definition acq (tr : list (scall * Z)) : list resource := concat (map acquired tr).
Definition rel (tr : list (scall * Z)) : list resource := concat (map released tr).

(** The allocator answers fresh blocks and a created thread has an id. *)
Definition kernel_ok (m : gmap Z server) (e : scall * Z) : Prop :=
  match fst e with
  | palloc_server _ => m !! snd e = None
  | k_thread_create _ => snd e <> 0
  | _ => True
  end.

Section Ownership.
Context (sizeof_handle sizeof_hup_handle : Z).
Local Abbreviation smQ A := (list (scall * Z) -> res (A * gmap Z server) -> Prop).

Lemma wp_hget {B} p s (f : server -> stp scall Z (gmap Z server) B) m (Q : smQ B) :
  m !! p = Some s -> outcomes (f s m) Q -> outcomes ((hget p ≫= f) m) Q.
Proof. intros E H. apply (outcomes_lift _ _ _ s m); [|done]. unfold reads. by rewrite E. Qed.

Lemma wp_hset {B} p g s (f : unit -> stp scall Z (gmap Z server) B) m (Q : smQ B) :
  m !! p = Some s -> outcomes (f tt (<[p := g s]> m)) Q -> outcomes ((hset g p ≫= f) m) Q.
Proof. intros E H. apply (outcomes_lift _ _ _ tt (<[p := g s]> m)); [|done]. unfold updates. by rewrite E. Qed.

Lemma wp_release {B} p s (f : unit -> stp scall Z (gmap Z server) B) m (Q : smQ B) :
  m !! p = Some s ->
  (forall r, outcomes (f tt (delete p m)) (fun tr out => Q ((pfree_server p, r) :: tr) out)) ->
  outcomes ((release p ≫= f) m) Q.
Proof.
  intros E H. unfold release. wp_step. eapply wp_hget; [done|]. do 2 wp_step.
  eapply outcomes_lift; [reflexivity|]. apply H.
Qed.

Definition blank : server := Server None 0 false 0.

Lemma wp_alloc {B} (f : Z -> stp scall Z (gmap Z server) B) m (Q : smQ B) :
  (outcomes (f 0 m) (fun tr out => Q ((palloc_server sizeof_handle, 0) :: tr) out)) ->
  (forall p, p <> 0 -> outcomes (f p (<[p := blank]> m)) (fun tr out => Q ((palloc_server sizeof_handle, p) :: tr) out)) ->
  outcomes ((alloc sizeof_handle ≫= f) m) Q.
Proof.
  intros H0 Hp. unfold alloc. do 2 wp_step. destruct (r =? 0) eqn:E; zify_bool; subst; [by wp_step|].
  wp_step. eapply outcomes_lift; [reflexivity|]. wp_step. by apply Hp.
Qed.

Lemma wp_init_hup {B} (f : option hup_handle -> stp scall Z (gmap Z server) B) m (Q : smQ B) :
  (forall r, outcomes (f (if r =? 0 then None else Some (reset_hupacket zero_handle)) m)
    (fun tr out => Q ((palloc_hup sizeof_hup_handle, r) :: tr) out)) ->
  outcomes ((io (init_hupacket new_hup sizeof_hup_handle None) ≫= f) m) Q.
Proof.
  intros H. apply outcomes_call. intros r. specialize (H r). by destruct (r =? 0).
Qed.

Lemma wp_deinit {B} api d (f : unit -> stp scall Z (gmap Z server) B) m (Q : smQ B) :
  has_deinit api = true ->
  (forall r, outcomes (f tt m) (fun tr out => Q ((api_deinit d, r) :: tr) out)) ->
  outcomes ((call_deinit api d ≫= f) m) Q.
Proof. intros E H. unfold call_deinit. rewrite E. do 2 wp_step. wp_step. apply H. Qed.

Lemma wp_drop_hup {B} h (f : unit -> stp scall Z (gmap Z server) B) m (Q : smQ B) :
  (forall r, outcomes (f tt m) (fun tr out => Q ((pfree_hup, r) :: tr) out)) ->
  outcomes ((io (deinit_hupacket drop_hup (Some h)) ≫= f) m) Q.
Proof. intros H. apply outcomes_call. exact H. Qed.

(** The thread finds the handle and changes nothing. *)
Lemma wp_turns {B} n p s (f : unit -> stp scall Z (gmap Z server) B) m (Q : smQ B) :
  m !! p = Some s ->
  (forall tr, acq tr = [] -> rel tr = [] -> Forall (fun e => fst e = thread_recv (drv s)) tr ->
     outcomes (f tt m) (fun tr' out => Q (tr ++ tr') out)) ->
  outcomes ((thread_turns n p ≫= f) m) Q.
Proof.
  intros E. revert Q. induction n as [|n IH]; intros Q H; cbn [thread_turns]; [wp_step; by apply (H [])|].
  repeat wp_step. eapply wp_hget; [done|]. do 2 wp_step. rename r into received.
  assert (Hcons : forall tr, acq tr = [] -> rel tr = [] ->
    acq ((thread_recv (drv s), received) :: tr) = [] /\ rel ((thread_recv (drv s), received) :: tr) = []).
  { intros tr Ha Hl. unfold acq, rel in *. cbn. rewrite Ha, Hl. unfold acquired. cbn. by destruct (received =? 0). }
  wp_step.
  - wp_step. destruct (Hcons [] eq_refl eq_refl) as [Ha Hl]. apply (H _ Ha Hl). by repeat constructor.
  - repeat wp_step. all: try (eapply wp_hget; [done|]; repeat wp_step).
    all: apply IH; intros tr Ha Hl Ht; destruct (Hcons tr Ha Hl) as [Ha' Hl'].
    all: eapply outcomes_mono; [|apply (H _ Ha' Hl'); by constructor]; done.
Qed.

(** Evaluate the two ledgers of a known trace. *)
Ltac ledger :=
  unfold acq, rel, acquired, released; cbn [map concat fst snd app];
  repeat (case_test; try lia); cbn [app]; try solve [done | solve_Permutation].

(** [init_hup_server] with a stack: it owns nothing when it fails, and one of
    everything when it succeeds. *)
Lemma init_server_spec api stack a1 a2 a3 m :
  has_deinit api = true -> stack <> 0 ->
  outcomes (init_hup_server sizeof_handle sizeof_hup_handle api stack a1 a2 a3 m) (fun tr out =>
    Forall (kernel_ok m) tr ->
    (out = Ok (0, m) /\ acq tr ≡ₚ rel tr) \/
    (exists p d t, out = Ok (p, <[p := Server (Some (reset_hupacket zero_handle)) d true t]> m) /\
      m !! p = None /\ p <> 0 /\ d <> 0 /\ t <> 0 /\ rel tr = [] /\ acq tr = [Block p; Driver d; Packet; Thread t])).
Proof.
  intros Hd Hs. unfold init_hup_server, error_hup_init_hup_server, error_drv_init_hup_server. rewrite Hd.
  wp_step; [wp_step; by left|]. apply wp_alloc; [do 1 wp_step; [|done]; wp_step; by left|]. intros p Hp.
  wp_step; [done|]. wp_step. rename r into d.
  eapply wp_hset; [apply lookup_insert_eq|]. rewrite insert_insert_eq. wp_step.
  - eapply wp_release; [apply lookup_insert_eq|]. intros r. wp_step. intros Hok. forall_cons. cbn [kernel_ok fst snd] in *. left.
    rewrite delete_insert_id by done. split; [done|]. ledger.
  - eapply wp_hset; [apply lookup_insert_eq|]. rewrite insert_insert_eq.
    apply wp_init_hup. intros r. eapply wp_hset; [apply lookup_insert_eq|]. rewrite insert_insert_eq.
    destruct (r =? 0) eqn:Er; zify_bool.
    + wp_step; [|done]. wp_step. eapply wp_hget; [apply lookup_insert_eq|].
      apply wp_deinit; [done|]. intros r1. eapply wp_release; [apply lookup_insert_eq|]. intros r2. wp_step.
      intros Hok. forall_cons. cbn [kernel_ok fst snd] in *. left. rewrite delete_insert_id by done. split; [done|].
      ledger.
    + wp_step; [done|]. wp_step; [|done]. wp_step. eapply wp_hset; [apply lookup_insert_eq|]. rewrite insert_insert_eq.
      do 2 wp_step. intros Hok. forall_cons. cbn [kernel_ok fst snd] in *. right. eexists p, d, r0. split; [done|].
      split_and!; try done; ledger.
Qed.

(** It completes whatever the allocator answers. *)
Lemma init_server_total api stack a1 a2 a3 m :
  has_deinit api = true -> stack <> 0 ->
  outcomes (init_hup_server sizeof_handle sizeof_hup_handle api stack a1 a2 a3 m) (fun tr out =>
    exists h m', out = Ok (h, m') /\ (h = 0 \/ is_Some (m' !! h))).
Proof.
  intros Hd Hs. unfold init_hup_server, error_hup_init_hup_server, error_drv_init_hup_server. rewrite Hd.
  wp_step; [wp_step; eauto|]. apply wp_alloc; [do 1 wp_step; [|done]; wp_step; eauto|]. intros p Hp.
  wp_step; [done|]. wp_step. rename r into d.
  eapply wp_hset; [apply lookup_insert_eq|]. rewrite insert_insert_eq. wp_step.
  - eapply wp_release; [apply lookup_insert_eq|]. intros r. wp_step. eauto.
  - eapply wp_hset; [apply lookup_insert_eq|]. rewrite insert_insert_eq.
    apply wp_init_hup. intros r. eapply wp_hset; [apply lookup_insert_eq|]. rewrite insert_insert_eq.
    wp_step.
    + wp_step. eapply wp_hget; [apply lookup_insert_eq|]. apply wp_deinit; [done|]. intros r1.
      eapply wp_release; [apply lookup_insert_eq|]. intros r2. wp_step. eauto.
    + wp_step; [|done]. wp_step. eapply wp_hset; [apply lookup_insert_eq|]. rewrite insert_insert_eq.
      do 2 wp_step. eexists p, _. split; [done|]. right. rewrite lookup_insert_eq. eauto.
Qed.

(** [deinit_hup_server] of a running server gives everything back. *)
Lemma deinit_server_spec api p d t h m :
  has_deinit api = true -> p <> 0 -> d <> 0 -> t <> 0 ->
  outcomes (deinit_hup_server p (Some api) (<[p := Server (Some h) d true t]> m)) (fun tr out =>
    out = Ok (tt, delete p m) /\ acq tr = [] /\ rel tr ≡ₚ [Block p; Driver d; Packet; Thread t]).
Proof.
  intros Hd Hp Hdr Ht. unfold deinit_hup_server. wp_step; [done|]. eapply wp_hget; [apply lookup_insert_eq|]. cbn [drv tid].
  wp_step; [|done]. apply wp_deinit; [done|]. intros r1. wp_step; [|done].
  do 3 wp_step. eapply wp_turns; [apply lookup_insert_eq|]. intros turns Ha Hl _.
  repeat wp_step. apply wp_drop_hup. intros r4.
  unfold release. eapply wp_hget; [apply lookup_insert_eq|]. wp_step.
  apply outcomes_ret. rewrite delete_insert_eq. split; [done|]. unfold acq, rel in *. cbn [map concat].
  rewrite !map_app, !concat_app, Ha, Hl. split; ledger.
Qed.
End Ownership.

(** A server is started, its thread takes turns, and it is stopped. *)
Definition start_serve_stop sizeof_handle sizeof_hup_handle api stack a1 a2 a3 (turns : nat) : stp scall Z (gmap Z server) unit :=
  h ← init_hup_server sizeof_handle sizeof_hup_handle api stack a1 a2 a3;
  (if h =? 0 then mret tt else thread_turns turns h);;
  deinit_hup_server h (Some api).

(** C19: A server started with a stack, by a transport with a [deinit], and
    stopped after any number of turns of its thread, which takes more while the
    stop waits for it, has given back every resource it acquired exactly once
    (the blocks, the transport, the packet handle and the thread), leaves the
    heap as it was, and neither the caller nor the thread uses a freed [struct
    handle]; this holds too when a part of the start fails. It does not say
    that the transport is unused once it is given back: the Example
    [recv_after_deinit] shows that the thread may still receive then. *)
Theorem server_start_stop sizeof_handle sizeof_hup_handle api stack a1 a2 a3 turns m tr out :
  has_deinit api = true -> stack <> 0 ->
  runs (start_serve_stop sizeof_handle sizeof_hup_handle api stack a1 a2 a3 turns m) tr out ->
  Forall (kernel_ok m) tr ->
  out = Ok (tt, m) /\ acq tr ≡ₚ rel tr.
Proof.
  intros Hd Hs Hr. revert tr out Hr.
  refine (outcomes_stp _ _ _ (fun tr out => Forall (kernel_ok m) tr -> out = Ok (tt, m) /\ acq tr ≡ₚ rel tr) _). eapply outcomes_mono; [|by apply init_server_spec].
  intros tr [[h m']|s] Hi; cycle 1.
  { intros Hok. by destruct (Hi Hok) as [[? _]|(? & ? & ? & ? & _)]. }
  intros tr' out Hr Hok. apply Forall_app in Hok as [Hok _].
  destruct (Hi Hok) as [[[= -> ->] Hp] | (p & d & t & [= -> ->] & Hm & Hp & Hdr & Ht & Hrel & Hacq)].
  - apply runs_ret_inv in Hr as [-> ->]. by rewrite app_nil_r.
  - rewrite (proj2 (Z.eqb_neq p 0)) in Hr by done.
    eapply (wp_turns turns p _ _ _ (fun tr out => out = Ok (tt, m) /\ acq tr = [] /\ rel tr ≡ₚ [Block p; Driver d; Packet; Thread t])) in Hr
      as (-> & Ha & Hl); [| apply lookup_insert_eq |].
    + split; [done|]. unfold acq, rel in *. rewrite !map_app, !concat_app. by rewrite Ha, Hrel, Hacq, Hl.
    + intros t1 Ha Hl _. eapply outcomes_mono; [|by apply deinit_server_spec].
      intros t2 o2 (-> & Ha2 & Hl2). rewrite delete_id by done. split; [done|].
      unfold acq, rel in *. rewrite !map_app, !concat_app, Ha, Hl. by split.
Qed.

(** An environment that has memory and a working transport. *)
Definition memory_ok (e : scall * Z) : Prop :=
  match fst e with palloc_server _ | palloc_hup _ | api_init _ _ _ => snd e <> 0 | _ => True end.

(** The tail of [init_hup_server] without a stack. *)
Lemma stop_then_use api p d h m (pre : list (scall * Z)) :
  has_deinit api = true -> p <> 0 -> d <> 0 ->
  outcomes ((deinit_hup_server p (Some api);; error_hup_init_hup_server api p) (<[p := Server (Some h) d true 0]> m))
    (fun tr out => Forall memory_ok (pre ++ tr) ->
       out = Stop UB /\ exists p, pfree_server p ∈ map fst (pre ++ tr)).
Proof.
  intros Hd Hp Hdr. unfold deinit_hup_server, error_hup_init_hup_server. rewrite Hd.
  rewrite (proj2 (Z.eqb_neq _ _) Hp). repeat wp_step. eapply wp_hget; [apply lookup_insert_eq|]. cbn [drv tid hup].
  rewrite (proj2 (Z.eqb_neq _ _) Hdr). cbn [negb Z.eqb]. repeat wp_step. apply wp_deinit; [done|]. intros r. repeat wp_step.
  apply wp_drop_hup. intros r2. eapply wp_release; [apply lookup_insert_eq|]. intros r3. wp_step.
  eapply outcomes_lift_stop; [unfold reads; by rewrite lookup_delete_eq|]. intros _. split; [done|].
  exists p. rewrite !map_app. set_solver.
Qed.

(** Without a stack [init_hup_server] stops the server it has made with
    [deinit_hup_server], which frees it, and then goes on to its error labels
    with the freed block: whenever the allocations and the transport succeed
    the call is undefined behaviour. *)
Theorem init_without_stack_faults sizeof_handle sizeof_hup_handle api a1 a2 a3 m tr out :
  has_init api = true -> has_deinit api = true ->
  runs (init_hup_server sizeof_handle sizeof_hup_handle api 0 a1 a2 a3 m) tr out ->
  Forall memory_ok tr ->
  out = Stop UB /\ exists p, pfree_server p ∈ map fst tr.
Proof.
  intros Hi Hd Hr. revert tr out Hr. change (outcomes (init_hup_server sizeof_handle sizeof_hup_handle api 0 a1 a2 a3 m)
    (fun tr out => Forall memory_ok tr -> out = Stop UB /\ exists p, pfree_server p ∈ map fst tr)).
  unfold init_hup_server. wp_step; [congruence|].
  apply wp_alloc; [wp_step; [|done]; wp_step; intros Hok; by forall_cons|]. intros p Hp.
  wp_step; [done|]. wp_step. rename r into d.
  eapply wp_hset; [apply lookup_insert_eq|]. rewrite insert_insert_eq.
  destruct (decide (d = 0)) as [->|Hdr].
  { intros tr out _ Hok. by forall_cons. }
  wp_step; [done|]. eapply wp_hset; [apply lookup_insert_eq|]. rewrite insert_insert_eq.
  apply wp_init_hup. intros r. eapply wp_hset; [apply lookup_insert_eq|]. rewrite insert_insert_eq.
  destruct (r =? 0) eqn:Er; zify_bool.
  { intros tr out _ Hok. by forall_cons. }
  wp_step; [done|]. wp_step; [done|]. 
  apply (stop_then_use api p d _ _ [(palloc_server sizeof_handle, p); (api_init a1 a2 a3, d); (palloc_hup sizeof_hup_handle, r)]); done.
Qed.

(** ** The thread *)

Section Loop.
Context (crc16 : list Z -> Z) (itoa : Z -> Z -> option (list Z)) {C R : Type}.
Context (api_recv : Z -> C) (received : R -> Z) (stored : R -> list Z).
Context (send : list Z -> stp C R hup_handle Z).
Context (cmds resps : list (list Z * stp C R hup_handle unit)).
Local Abbreviation process := (process_hupacket crc16 itoa send cmds resps).
Local Abbreviation server_loop := (_hup_server crc16 itoa api_recv received stored send cmds resps).

Lemma runs_process_app d1 d2 h h1 t1 t2 out :
  runs (process d1 h) t1 (Ok (tt, h1)) -> runs (process d2 h1) t2 out -> runs (process (d1 ++ d2) h) (t1 ++ t2) out.
Proof.
  revert h t1. induction d1 as [|c d1 IH]; intros h t1 H1 H2.
  - by apply runs_ret_inv in H1 as [-> [= ->]].
  - cbn [app HuPacket.process_hupacket] in H1 |- *.
    apply runs_bind_inv in H1 as [([[] h2] & ta & tb & -> & Ha & Hb) | (s & _ & ?)]; [|done].
    rewrite <- app_assoc. eapply runs_bind; [exact Ha|]. by apply IH.
Qed.

(** The bytes one call of [recv] brought, and the events of the steps of the
    loop: a receive call and what the handlers did then. *)
Definition chunk (a : R) : list Z := take (Z.to_nat (received a)) (stored a).
Definition events (steps : list (R * list (C * R))) : list (C * R) :=
  concat (map (fun '(a, tr) => (api_recv RECV_BUFFER_SIZE, a) :: tr) steps).
Definition stream (steps : list (R * list (C * R))) : list Z := concat (map (fun '(a, _) => chunk a) steps).

Lemma server_loop_spec fuel : forall h tr h',
  runs (server_loop fuel h) tr (Ok (tt, h')) ->
  exists steps a, tr = events steps ++ [(api_recv RECV_BUFFER_SIZE, a)] /\ received a < 0 /\
    Forall (fun '(a, _) => 0 <= received a) steps /\
    runs (process (stream steps) h) (concat (map snd steps)) (Ok (tt, h')).
Proof.
  induction fuel as [|fuel IH]; intros h tr h' Hr; [inversion Hr|]. cbn [_hup_server] in Hr.
  apply runs_call_inv in Hr as (a & tr' & -> & Hr). cbv beta in Hr. revert Hr. case_test; intros Hr.
  - apply runs_ret_inv in Hr as [-> [= <-]]. exists [], a. split_and!; [done | done | done | constructor].
  - apply runs_bind_inv in Hr as [([[] h1] & t1 & t2 & -> & H1 & H2) | (s & _ & ?)]; [|done].
    apply IH in H2 as (steps & b & -> & Hb & Hs & Hp). exists ((a, t1) :: steps), b.
    split_and!; [cbn; by rewrite <- app_assoc | done | by constructor |].
    cbn. eapply runs_process_app; [|exact Hp]. revert H1. destruct (received a =? 0) eqn:Ez; cbn [negb]; intros H1; [|done].
    apply runs_ret_inv in H1 as [-> [= <-]]. apply Z.eqb_eq in Ez. unfold chunk. rewrite Ez. constructor.
Qed.

(** However a run of the thread ends: the transport failed, the fuel ran out
    between two steps, or the packet layer stopped in the last one. *)
Lemma server_loop_outcomes fuel : forall h tr out,
  runs (server_loop fuel h) tr out ->
  exists steps tail, tr = events steps ++ tail /\
    ((exists h', runs (process (stream steps) h) (concat (map snd steps)) (Ok (tt, h')) /\
        ((out = Ok (tt, h') /\ exists a, tail = [(api_recv RECV_BUFFER_SIZE, a)] /\ received a < 0) \/
         (out = Stop OutOfFuel /\ tail = [] /\ length steps = fuel))) \/
     (exists s, tail = [] /\ out = Stop s /\ runs (process (stream steps) h) (concat (map snd steps)) (Stop s))).
Proof.
  induction fuel as [|fuel IH]; intros h tr out Hr; cbn [_hup_server] in Hr.
  { inversion Hr; subst. exists [], []. split; [done|]. left. exists h. split; [constructor | by right]. }
  apply runs_call_inv in Hr as (a & tr' & -> & Hr). cbv beta in Hr. revert Hr. case_test; intros Hr.
  - apply runs_ret_inv in Hr as [-> ->]. exists [], [(api_recv RECV_BUFFER_SIZE, a)]. split; [done|]. left. exists h. split; [constructor|].
    left. split; [done|]. by exists a.
  - assert (Hz : forall t o, runs ((if negb (received a =? 0) then process (take (Z.to_nat (received a)) (stored a)) else mret tt) h) t o ->
      runs (process (chunk a) h) t o).
    { intros t o H. revert H. destruct (received a =? 0) eqn:Ez; cbn [negb]; intros H; [|done].
      apply Z.eqb_eq in Ez. unfold chunk. by rewrite Ez. }
    apply runs_bind_inv in Hr as [([[] h1] & t1 & t2 & -> & H1 & H2) | (s & H1 & ->)]; apply Hz in H1.
    + apply IH in H2 as (steps & tail & -> & H2). exists ((a, t1) :: steps), tail.
      split; [cbn; by rewrite <- app_assoc|]. cbn [stream map concat snd length].
      destruct H2 as [(h' & Hp & Hend)|(s & -> & -> & Hp)].
      * left. exists h'. split; [by eapply runs_process_app|]. destruct Hend as [?|(-> & -> & <-)]; [by left | by right].
      * right. exists s. split_and!; [done | done |]. by eapply runs_process_app.
    + exists [(a, tr')], []. split; [cbn; by rewrite !app_nil_r|]. right. exists s. cbn [stream map concat snd]. rewrite !app_nil_r. by split_and!.
Qed.

(** C18: Until the transport fails the server thread is the packet layer run
    once on the whole received stream: apart from its [recv] calls, its calls
    and its final state are those of [process_hupacket] on the concatenation
    of the chunks, however the transport cut them. *)
Theorem server_is_stream fuel h tr h' :
  runs (server_loop fuel h) tr (Ok (tt, h')) ->
  exists steps a, tr = events steps ++ [(api_recv RECV_BUFFER_SIZE, a)] /\ received a < 0 /\
    Forall (fun '(a, _) => 0 <= received a) steps /\
    runs (process (stream steps) h) (concat (map snd steps)) (Ok (tt, h')).
Proof. apply server_loop_spec. Qed.
End Loop.

(** ** Concrete runs *)

(** A kernel that always answers 8. *)
Definition env8 (_ : list (scall * Z)) (_ : scall) : Z := 8.
Definition cycle := run env8 (start_serve_stop 100 3200 (AppApi true true) 1 4241 0 0 2 (∅ : gmap Z server)) [].

Lemma server_start_stop_witness :
  length (snd cycle) = 20%nat /\ fst cycle = Ok (tt, ∅) /\ acq (snd cycle) ≡ₚ rel (snd cycle).
Proof.
  split; [vm_compute; reflexivity|].
  apply (server_start_stop 100 3200 (AppApi true true) 1 4241 0 0 2 ∅); [done | done | |].
  - apply (run_runs _ env8). vm_compute. reflexivity.
  - unfold cycle. apply run_answers; [|constructor]. intros h c. by destruct c.
Defined.

(** The transport is given back while the thread still runs: it receives from
    it after that. *)
Example recv_after_deinit : exists before rest,
  map fst (snd cycle) = before ++ [api_deinit 8; k_thread_join 8 1000; thread_recv 8] ++ rest.
Proof. eexists (_ :: _ :: _ :: _ :: _ :: _ :: _ :: []), _. vm_compute. reflexivity. Qed.

Definition no_stack := run env8 (init_hup_server 100 3200 (AppApi true true) 0 4241 0 0 (∅ : gmap Z server)) [].

Lemma init_without_stack_faults_witness :
  fst no_stack = Stop UB /\ exists p, pfree_server p ∈ map fst (snd no_stack).
Proof.
  apply (init_without_stack_faults 100 3200 (AppApi true true) 4241 0 0 ∅); [done | done | |].
  - apply (run_runs _ env8). vm_compute. reflexivity.
  - repeat (constructor; [vm_compute; done|]). constructor.
Defined.

(** A transport that brings [ENQ ver EOT] in two chunks and then fails. *)
Definition net_env (hist : list (Z * (Z * list Z))) (_ : Z) : Z * list Z :=
  match length hist with O => (3, [5; 118; 101]) | S O => (2, [114; 4]) | _ => (-1, []) end.
Definition crc0 (_ : list Z) : Z := 0.
Definition itoa0 (_ _ : Z) : option (list Z) := Some [48].
Definition net_run :=
  run net_env (_hup_server crc0 itoa0 (fun n => n) fst snd (fun _ => mret 0) [] [] 5 (reset_hupacket zero_handle)) [].

Lemma server_is_stream_witness :
  exists h' steps a, fst net_run = Ok (tt, h') /\
    snd net_run = events (fun n => n) steps ++ [(RECV_BUFFER_SIZE, a)] /\ fst a < 0 /\
    runs (process_hupacket crc0 itoa0 (fun _ => mret 0) [] [] (stream fst snd steps) (reset_hupacket zero_handle))
      (concat (map snd steps)) (Ok (tt, h')).
Proof.
  assert (Hr : runs (_hup_server crc0 itoa0 (fun n => n) fst snd (fun _ => mret 0) [] [] 5 (reset_hupacket zero_handle))
    (snd net_run) (fst net_run)) by (apply (run_runs _ net_env); unfold net_run; apply surjective_pairing).
  destruct (fst net_run) as [[[] h']|s] eqn:E; [|vm_compute in E; discriminate E].
  exists h'.
  destruct (server_is_stream crc0 itoa0 (fun n : Z => n) fst snd (fun _ => mret 0) [] [] 5 (reset_hupacket zero_handle) (snd net_run) h' Hr)
    as (steps & a & E1 & E2 & E3 & E4).
  by exists steps, a.
Defined.
