(* ===== verification/AppLib.v ===== *)
(** src/lib/app and src/lib/custom beside the UART: the boot counter in backup
    RAM (bbram.c), bringing up USB (usb.c), the UDP transport (udp.c) and the
    example library (custom.c). Drivers, kernel and sockets are calls. *)

From S2P Require Import Prelude.

Inductive acall :=
  | device_is_ready
  | bbram_get_size
  | bbram_read (offset size : Z)
  | bbram_write (offset : Z) (data : list Z)
  | sample_usbd_init_device
  | usbd_can_detect_vbus
  | usbd_enable
  | usbd_disable
  | uart_line_ctrl_get (ctrl : Z)
  | uart_line_ctrl_set (ctrl val : Z)
  | k_sem_take_dtr
  | k_msleep (ms : Z)
  | malloc
  | free
  | zsock_socket
  | zsock_bind (sock sin_port : Z)
  | zsock_shutdown (sock : Z)
  | close_sock (sock : Z)        (* close and zsock_close *)
  | sendto (sock : Z) (data : list Z)
  | recvfrom (sock size : Z).

Local Abbreviation io := (prog acall answer).

(** ** bbram.c *)

(** Only the first byte of [boot_counter], the lowest on these little-endian
    targets, is read and written. *)
Definition init_bbram : io Z :=
  r ← call device_is_ready;
  if aret r =? 0 then mret (- ENODEV)
  else
    call bbram_get_size;;
    r ← call (bbram_read 0 1);
    if negb (aret r =? 0) then mret (aret r)
    else
      let boot_counter := u32 (u8 (out0 0 r) + 1) in
      w ← call (bbram_write 0 [u8 boot_counter]);
      if negb (aret w =? 0) then mret (aret w) else mret 0.

(** ** usb.c *)

(** [sample_usbd] (NULL when 0) and the binary semaphore [dtr_sem]. *)
Record usb := Usb { sample_usbd : Z; dtr_sem : Z }.
Definition set_sample_usbd x u := Usb x (dtr_sem u).
Definition set_dtr_sem x u := Usb (sample_usbd u) x.
Local Abbreviation um := (stp acall answer usb).
Definition tell (c : acall) : um Z := r ← ask c; mret (aret r).

Inductive usbd_msg :=
  | USBD_MSG_VBUS_READY
  | USBD_MSG_VBUS_REMOVED
  | USBD_MSG_CDC_ACM_CONTROL_LINE_STATE
  | USBD_MSG_CDC_ACM_LINE_CODING
  | USBD_MSG_OTHER.

Section Usb.
Context (UART_LINE_CTRL_BAUD_RATE UART_LINE_CTRL_DTR UART_LINE_CTRL_DCD UART_LINE_CTRL_DSR : Z).
(** CONFIG_UART_LINE_CTRL_WAIT_DTR *)
Context (WAIT_DTR : bool).

Definition print_baudrate : um unit := tell (uart_line_ctrl_get UART_LINE_CTRL_BAUD_RATE);; mret tt.

Definition sample_msg_cb (msg : usbd_msg) : um unit :=
  v ← tell usbd_can_detect_vbus;
  (if negb (v =? 0) then
     match msg with
     | USBD_MSG_VBUS_READY => tell usbd_enable;; mret tt
     | USBD_MSG_VBUS_REMOVED => tell usbd_disable;; mret tt
     | _ => mret tt
     end
   else mret tt);;
  match msg with
  | USBD_MSG_CDC_ACM_CONTROL_LINE_STATE =>
      r ← ask (uart_line_ctrl_get UART_LINE_CTRL_DTR);
      if negb (out0 0 r =? 0) then lift (modify (fun u => set_dtr_sem (Z.min 1 (dtr_sem u + 1)) u)) else mret tt
  | USBD_MSG_CDC_ACM_LINE_CODING => print_baudrate
  | _ => mret tt
  end.

Definition enable_usb_device_next : um Z :=
  d ← tell sample_usbd_init_device;
  lift (modify (set_sample_usbd d));;
  if d =? 0 then mret (- ENODEV)
  else
    v ← tell usbd_can_detect_vbus;
    if v =? 0 then
      err ← tell usbd_enable;
      if negb (err =? 0) then mret err else mret 0
    else mret 0.

(** [k_sem_take(&dtr_sem, K_FOREVER)]: it returns at once, or when the message
    callback has given the semaphore. *)
Definition take_dtr : um unit :=
  n ← lift (gets dtr_sem);
  if n >? 0 then lift (modify (set_dtr_sem (n - 1))) else tell k_sem_take_dtr;; mret tt.

Definition init_app_usb : um Z :=
  rdy ← tell device_is_ready;
  if rdy =? 0 then mret 0
  else
    ret ← enable_usb_device_next;
    if negb (ret =? 0) then mret 0
    else
      (if WAIT_DTR then
         take_dtr;;
         tell (uart_line_ctrl_set UART_LINE_CTRL_DCD 1);;
         tell (uart_line_ctrl_set UART_LINE_CTRL_DSR 1);;
         mret tt
       else mret tt);;
      tell (k_msleep 500);;
      mret 0.
End Usb.

(** ** udp.c *)

(** [struct handle] and [errno]; a call that fails stores its [errno]. The
    peer's address stays in the handle and is opaque. *)
Record udp := Udp { sock : Z; client_sz : Z; errno : Z }.
Definition set_sock x h := Udp x (client_sz h) (errno h).
Definition set_client_sz x h := Udp (sock h) x (errno h).
Definition set_errno x h := Udp (sock h) (client_sz h) x.
Local Abbreviation sm := (stp acall answer udp).
Definition sys (c : acall) : sm answer :=
  r ← ask c;
  (if aret r <? 0 then lift (modify (fun h => set_errno (out0 (errno h) r) h)) else mret tt);;
  mret r.

Definition _send_udp (buffer : list Z) : sm Z :=
  s ← lift (gets sock);
  r ← sys (sendto s buffer);
  if aret r <? 0 then e ← lift (gets errno); mret (- e) else mret (aret r).

(** [sizeof(struct sockaddr)] is a parameter; the bytes received come back
    with the result. *)
Definition _recv_udp (sizeof_sockaddr size : Z) : sm (Z * list Z) :=
  lift (modify (set_client_sz sizeof_sockaddr));;
  s ← lift (gets sock);
  r ← sys (recvfrom s size);
  if aret r <? 0 then e ← lift (gets errno); mret (- e, []) else mret (aret r, aout r).

(** The byte order of the network on a little-endian target. *)
Definition htons (p : Z) : Z := Z.lor (Z.shiftl (Z.land p 255) 8) (Z.shiftr (u16 p) 8).

Definition _bind_udp (sin_port : Z) : sm Z :=
  r ← sys zsock_socket;
  lift (modify (set_sock (aret r)));;
  if aret r <? 0 then e ← lift (gets errno); mret (- e)
  else
    b ← sys (zsock_bind (aret r) sin_port);
    if aret b <? 0 then
      sys (close_sock (aret r));;
      e ← lift (gets errno); mret (- e)
    else mret 0.

(** Answers whether a handle was made. *)
Definition _init_udp (port : Z) : sm bool :=
  p ← ask malloc;
  if aret p =? 0 then mret false
  else
    rc ← _bind_udp (htons port);
    if negb (rc =? 0) then ask free;; mret false else mret true.

Definition _deinit_udp : sm unit :=
  s ← lift (gets sock);
  (if s >=? 0 then sys (zsock_shutdown s);; sys (close_sock s);; mret tt else mret tt);;
  ask free;; mret tt.

(** ** custom.c *)

Definition custom_get_value (CONFIG_CUSTOM_GET_VALUE_DEFAULT val : Z) : Z :=
  if negb (val =? 0) then val else CONFIG_CUSTOM_GET_VALUE_DEFAULT.
