(* ===== verification/AppMain.v ===== *)
(** app/src/main.c: the boot sequence with its blinking LED, the network event
    handler, the clock, and the [ver] and [reboot] commands. The components it
    starts are the definitions of their own files. *)

From S2P Require Import Prelude HuPacket HuFlash Server AppLib.

Definition MY_PORT : Z := 4241.
Definition HUP_UDP_THREAD_STACK_SIZE : Z := 1024 - 128.
Definition HUP_UART_THREAD_STACK_SIZE : Z := 1024 - 512.
Definition MAGIC_VALUE : Z := 0xA500FF5A.
Definition SLEEP_TIME_MS : Z := 1000.

(** [struct app_data app] and the other variables the functions share: the
    USB context, the backup store, and the blocks of the server handles. *)
Record app_data := App {
  connected : bool;
  hup_uart : Z;
  hup_udp : Z;
  app_usb : usb;
  backup_magic : Z;
  servers : gmap Z server
}.
Definition set_connected x a := App x (hup_uart a) (hup_udp a) (app_usb a) (backup_magic a) (servers a).
Definition set_hup_uart x a := App (connected a) x (hup_udp a) (app_usb a) (backup_magic a) (servers a).
Definition set_hup_udp x a := App (connected a) (hup_uart a) x (app_usb a) (backup_magic a) (servers a).
Definition set_app_usb x a := App (connected a) (hup_uart a) (hup_udp a) x (backup_magic a) (servers a).
Definition set_backup_magic x a := App (connected a) (hup_uart a) (hup_udp a) (app_usb a) x (servers a).
Definition set_servers x a := App (connected a) (hup_uart a) (hup_udp a) (app_usb a) (backup_magic a) x.

Inductive mcall :=
  | Lib (c : acall)
  | Boot (c : fcall)
  | Srv (api : bool) (c : scall)     (* api: udp_server rather than uart_interrupt *)
  | palloc_init (start last : Z)
  | net_if_get_default
  | net_if_flag_is_set_ipv4
  | net_mgmt_init_event_callback (mask : Z)
  | net_mgmt_add_event_callback
  | net_mgmt_del_event_callback
  | conn_mgr_mon_resend_status
  | init_vlan
  | init_tunnel
  | mktime (year mday : Z)
  | rtc_set_time (year mon mday hour min sec wday isdst : Z)
  | rtc_get_time
  | backup_is_ready
  | gpio_is_ready_dt
  | gpio_pin_configure_dt (active : bool)
  | gpio_pin_toggle_dt
  | k_sleep_ms (ms : Z)
  | k_sleep_forever.

Local Abbreviation mm := (stp mcall answer app_data).

(** The parts' own calls and states within those of the application. *)
Definition in_lib {A} (p : prog acall answer A) : mm A := fun a => via Lib (fun r => r) (x ← p; mret (x, a)).
Definition in_usb {A} (m : stp acall answer usb A) : mm A := fun a =>
  via Lib (fun r => r) ('(x, u) ← m (app_usb a); mret (x, set_app_usb u a)).
Definition in_boot {A} (p : prog fcall fans A) : mm A := fun a =>
  via Boot (fun r => Fans (aret r) (out0 0 r)) (x ← p; mret (x, a)).
Definition in_server {A} (udp : bool) (m : stp scall Z (gmap Z server) A) : mm A := fun a =>
  via (Srv udp) aret ('(x, s) ← m (servers a); mret (x, set_servers s a)).
Definition tellm (c : mcall) : mm Z := r ← ask c; mret (aret r).
Definition setm (f : app_data -> app_data) : mm unit := lift (modify f).

Section Main.
(** Zephyr's constants, the build configuration, device tree values, and the
    sizes of the structures. *)
Context (NET_EVENT_L4_CONNECTED NET_EVENT_L4_DISCONNECTED : Z).
Context (HU_APP NET_IPV4 NET_CONNECTION_MANAGER NET_L2_ETHERNET HAS_RTC VBAT_BATTERY HAS_BACKUP BACKUP_DEV PALLOC : bool).
Context (CTRL_DCD CTRL_DSR : Z) (WAIT_DTR : bool).
Context (RETENTION_BOOTLOADER_INFO OUTPUT_SETTINGS : bool).
Context (dtcm_start dtcm_end dtcm_size cdc_acm_uart udp_stack uart_stack n81 : Z).
Context (sizeof_handle sizeof_hup_handle : Z).

Definition EVENT_MASK : Z := Z.lor NET_EVENT_L4_CONNECTED NET_EVENT_L4_DISCONNECTED.

(** The function tables [udp_server] and [uart_interrupt]. *)
Definition udp_server : app_api := AppApi NET_L2_ETHERNET NET_L2_ETHERNET.
Definition uart_interrupt : app_api := AppApi true true.

Definition event_handler (mgmt_event : Z) (a : app_data) : app_data :=
  if negb (Z.land mgmt_event EVENT_MASK =? mgmt_event) then a
  else if mgmt_event =? NET_EVENT_L4_CONNECTED then if negb (connected a) then set_connected true a else a
  else if mgmt_event =? NET_EVENT_L4_DISCONNECTED then if connected a then set_connected false a else a
  else a.

Definition init_app : mm Z :=
  if HU_APP then
    (if NET_IPV4 then
       tellm net_if_get_default;;
       f ← tellm net_if_flag_is_set_ipv4;
       if negb (f =? 0) then
         (if NET_CONNECTION_MANAGER then
            tellm (net_mgmt_init_event_callback EVENT_MASK);;
            tellm net_mgmt_add_event_callback;;
            tellm conn_mgr_mon_resend_status;;
            mret tt
          else mret tt);;
         tellm init_vlan;;
         tellm init_tunnel;;
         mret tt
       else mret tt
     else mret tt);;
    in_lib init_bbram;;
    in_usb (init_app_usb CTRL_DCD CTRL_DSR WAIT_DTR)
  else mret 0.

Definition deinit_app : mm unit :=
  if HU_APP then
    u ← lift (gets hup_uart);
    in_server false (deinit_hup_server u (Some uart_interrupt));;
    d ← lift (gets hup_udp);
    in_server true (deinit_hup_server d (Some udp_server));;
    (if NET_CONNECTION_MANAGER then tellm net_mgmt_del_event_callback;; mret tt else mret tt)
  else mret tt.

(** [mktime] stores the weekday and the daylight saving flag. *)
Definition set_date_time : mm Z :=
  r ← ask (mktime (2026 - 1900) 1);
  ret ← tellm (rtc_set_time (2026 - 1900) 0 1 0 0 0 (nth 0 (aout r) 0) (nth 1 (aout r) 0));
  if ret <? 0 then mret ret else mret ret.

Definition get_date_time : mm Z :=
  ret ← tellm rtc_get_time;
  if ret <? 0 then mret ret else mret ret.

Definition start_servers : mm unit :=
  (if NET_L2_ETHERNET then
     h ← in_server true (init_hup_server sizeof_handle sizeof_hup_handle udp_server udp_stack MY_PORT 0 0);
     setm (set_hup_udp h)
   else mret tt);;
  h ← in_server false (init_hup_server sizeof_handle sizeof_hup_handle uart_interrupt uart_stack cdc_acm_uart 115200 n81);
  setm (set_hup_uart h);;
  (if HAS_RTC then
     (if negb VBAT_BATTERY then set_date_time;; mret tt else mret tt);;
     get_date_time;; mret tt
   else mret tt).

Definition check_backup : mm unit :=
  b ← lift (gets backup_magic);
  if b =? MAGIC_VALUE then mret tt else setm (set_backup_magic MAGIC_VALUE).

(** The value of [led_state] before the loop. *)
Definition init_led : mm Z :=
  r ← tellm gpio_is_ready_dt;
  if r =? 0 then mret (-1)
  else
    rc ← tellm (gpio_pin_configure_dt true);
    if rc <? 0 then mret (-1) else mret 1.

(** One turn of the loop; [!led_state] of C. *)
Definition blink (led_state : Z) : mm Z :=
  if negb (led_state =? -1) then
    rc ← tellm gpio_pin_toggle_dt;
    if rc <? 0 then mret (-1)
    else
      let led_state := if led_state =? 0 then 1 else 0 in
      tellm (k_sleep_ms (if negb (led_state =? 0) then SLEEP_TIME_MS / 10 else SLEEP_TIME_MS - 100));;
      mret led_state
  else tellm k_sleep_forever;; mret led_state.

(** [turns] turns of the endless loop. *)
Fixpoint blink_loop (turns : nat) (led_state : Z) : mm Z :=
  match turns with O => mret led_state | S turns => s ← blink led_state; blink_loop turns s end.

(** [main] up to its loop, and [turns] turns of it. *)
Definition main (turns : nat) : mm Z :=
  (if PALLOC then tellm (palloc_init dtcm_end (u32 (dtcm_end + (dtcm_size - (dtcm_end - dtcm_start)))));; mret tt else mret tt);;
  init_app;;
  (if HU_APP then
     in_boot (bootloader_active_slot RETENTION_BOOTLOADER_INFO OUTPUT_SETTINGS);;
     start_servers
   else mret tt);;
  (if HAS_BACKUP then
     (if BACKUP_DEV then r ← tellm backup_is_ready; (if r =? 0 then mret tt else check_backup) else check_backup)
   else mret tt);;
  s ← init_led;
  blink_loop turns s.
End Main.

(** ** The commands *)

Inductive hcall :=
  | h_send (data : list Z)
  | log_flush
  | h_palloc (size : Z)
  | sys_reboot
  | k_timer_init (timer : Z)
  | k_timer_start (timer duration period : Z).
Local Abbreviation hm := (stp hcall Z hup_handle).

Section Commands.
Context (crc16 : list Z -> Z) (itoa : Z -> Z -> option (list Z)).
Context (app_version kernel_version build_date : list Z) (sizeof_k_timer : Z).

Definition send_cmd (s : list Z) : hm Z := ask (h_send s).

Definition _ver : hm unit :=
  lift (hupacket_ack_response itoa);;
  lift (hupacket_record_str app_version);;
  lift (hupacket_record_str kernel_version);;
  lift (hupacket_record_str build_date);;
  hupacket_send_buffer crc16 itoa send_cmd;;
  mret tt.

Definition _reboot_timer_handler : hm unit := ask sys_reboot;; mret tt.

Definition _reboot : hm unit :=
  lift (hupacket_ack_response itoa);;
  hupacket_send_buffer crc16 itoa send_cmd;;
  ask log_flush;;
  reboot_timer ← ask (h_palloc sizeof_k_timer);
  if reboot_timer =? 0 then ask sys_reboot;; mret tt
  else
    ask (k_timer_init reboot_timer);;
    ask (k_timer_start reboot_timer 1500 0);;
    mret tt.
End Commands.
