(* ===== verification/AppThm.v ===== *)
(** Theorems on app/src/main.c and the libraries it starts: boot never faults
    and reaches the blinking loop whatever fails, the loop's duty cycle, the
    connection state, the commands, and the UDP transport's resources. *)

From S2P Require Import Prelude HuPacket HuFlash Server ServerThm AppLib AppMain.

(** ** The loop of main *)

Local Abbreviation event := (mcall * answer)%type.

(** [k] turns with working toggles: the LED, lit at first, is toggled and
    kept off 900 ms, toggled and kept lit 100 ms, and so on. *)
Inductive blinking : nat -> bool -> list event -> bool -> Prop :=
  | blinking_0 on : blinking 0 on [] on
  | blinking_S k on r s tr on' :
      0 <= aret r -> blinking k (negb on) tr on' ->
      blinking (S k) on ((gpio_pin_toggle_dt, r) :: (k_sleep_ms (if negb on then 100 else 900), s) :: tr) on'.

(** Turns without LED. *)
Definition asleep (tr : list event) : Prop := Forall (fun e => fst e = k_sleep_forever) tr.

Lemma asleep_runs n a tr out :
  runs (blink_loop n (-1) a) tr out -> out = Ok (-1, a) /\ asleep tr /\ length tr = n.
Proof.
  revert tr. induction n as [|n IH]; intros tr Hr.
  - apply runs_ret_inv in Hr as [-> ->]. split_and!; [done | constructor | done].
  - apply runs_call_inv in Hr as (r & tr' & -> & Hr). destruct (IH _ Hr) as (-> & Hs & Hl).
    split_and!; [done | by constructor | by cbn; rewrite Hl].
Qed.

Lemma blink_runs n : forall on a tr out,
  runs (blink_loop n (if on : bool then 1 else 0) a) tr out ->
  exists k on' tr1 tr2, tr = tr1 ++ tr2 /\ blinking k on tr1 on' /\
    ((k = n /\ tr2 = [] /\ out = Ok (if on' then 1 else 0, a)) \/
     (exists r tr3, (k < n)%nat /\ tr2 = (gpio_pin_toggle_dt, r) :: tr3 /\ aret r < 0 /\ out = Ok (-1, a) /\
        asleep tr3 /\ (k + 1 + length tr3 = n)%nat)).
Proof.
  induction n as [|n IH]; intros on a tr out Hr.
  - apply runs_ret_inv in Hr as [-> ->]. exists 0%nat, on, [], []. split_and!; [done | constructor | by left].
  - cbn [blink_loop] in Hr. unfold blink in Hr.
    replace (negb ((if on then 1 else 0) =? -1)) with true in Hr by by destruct on.
    apply runs_call_inv in Hr as (r & tr' & -> & Hr). cbn [prog_bind'] in Hr. revert Hr. cbn. case_test; intros Hr.
    + destruct (asleep_runs _ _ _ _ Hr) as (-> & Hs & Hl). exists 0%nat, on, [], ((gpio_pin_toggle_dt, r) :: tr').
      split_and!; [done | constructor |]. right. exists r, tr'. split_and!; [lia | done | done | done | done | lia].
    + apply runs_call_inv in Hr as (s & tr2 & -> & Hr). cbn [prog_bind'] in Hr.
      replace (if (if on then 1 else 0) =? 0 then 1 else 0) with (if negb on then 1 else 0) in Hr by by destruct on.
      apply IH in Hr as (k & on' & t1 & t2 & -> & Hb & Ho).
      exists (S k), on', ((gpio_pin_toggle_dt, r) :: (k_sleep_ms (if negb on then 100 else 900), s) :: t1), t2.
      split_and!; [by destruct on | by constructor |]. destruct Ho as [(-> & Ht & ->) | (r' & t3 & Hk & -> & Hr' & -> & Hs & Hl)].
      * by left.
      * right. exists r', t3. split_and!; [lia | done | done | done | done | lia].
Qed.

(** ** Boot *)

Section Boot.
Context (NET_EVENT_L4_CONNECTED NET_EVENT_L4_DISCONNECTED : Z).
Context (HU_APP NET_IPV4 NET_CONNECTION_MANAGER NET_L2_ETHERNET HAS_RTC VBAT_BATTERY HAS_BACKUP BACKUP_DEV PALLOC : bool).
Context (CTRL_DCD CTRL_DSR : Z) (WAIT_DTR : bool) (RETENTION_BOOTLOADER_INFO OUTPUT_SETTINGS : bool).
Context (dtcm_start dtcm_end dtcm_size cdc_acm_uart udp_stack uart_stack n81 sizeof_handle sizeof_hup_handle : Z).
Hypothesis stacks : udp_stack <> 0 /\ uart_stack <> 0.

Local Abbreviation main := (main NET_EVENT_L4_CONNECTED NET_EVENT_L4_DISCONNECTED HU_APP NET_IPV4 NET_CONNECTION_MANAGER
  NET_L2_ETHERNET HAS_RTC VBAT_BATTERY HAS_BACKUP BACKUP_DEV PALLOC CTRL_DCD CTRL_DSR WAIT_DTR RETENTION_BOOTLOADER_INFO OUTPUT_SETTINGS
  dtcm_start dtcm_end dtcm_size cdc_acm_uart udp_stack uart_stack n81 sizeof_handle sizeof_hup_handle).

Local Abbreviation any := (fun (_ : mcall) (_ : answer) => True).
Local Abbreviation completes m := (forall a, sure any (fun _ => True) (m a)).

Lemma completes_bind {A B} (m : stp mcall answer app_data A) (f : A -> stp mcall answer app_data B) :
  completes m -> (forall x, completes (f x)) -> completes (m ≫= f).
Proof. intros Hm Hf a. apply sure_stp_bind. eapply sure_mono; [|apply Hm]. intros [x a'] _. apply Hf. Qed.

Lemma completes_ret {A} (x : A) : completes (mret x : stp mcall answer app_data A).
Proof. done. Qed.

Lemma completes_tellm c : completes (tellm c).
Proof. done. Qed.

Lemma completes_ask c : completes (ask c : stp mcall answer app_data answer).
Proof. done. Qed.

Lemma completes_setm f : completes (setm f).
Proof. done. Qed.

Lemma completes_if {A} (b : bool) (m1 m2 : stp mcall answer app_data A) :
  completes m1 -> completes m2 -> completes (if b then m1 else m2).
Proof. by destruct b. Qed.

(** A part that completes on its own completes within the application. *)
Lemma completes_lib {A} (p : prog acall answer A) : sure (fun _ _ => True) (fun _ => True) p -> completes (in_lib p).
Proof.
  intros H a. eapply sure_via; [|apply sure_bind; eapply sure_mono; [|exact H]]; done.
Qed.

Lemma completes_usb {A} (m : stp acall answer usb A) :
  (forall u, sure (fun _ _ => True) (fun _ => True) (m u)) -> completes (in_usb m).
Proof.
  intros H a. eapply sure_via; [|apply sure_bind; eapply sure_mono; [|apply H]]; [done|]. by intros [x u] _.
Qed.

Lemma completes_boot {A} (p : prog fcall fans A) : sure (fun _ _ => True) (fun _ => True) p -> completes (in_boot p).
Proof. intros H a. eapply sure_via; [|apply sure_bind; eapply sure_mono; [|exact H]]; done. Qed.

Lemma completes_server udp api stack a1 a2 a3 :
  has_deinit api = true -> stack <> 0 ->
  completes (in_server udp (init_hup_server sizeof_handle sizeof_hup_handle api stack a1 a2 a3)).
Proof.
  intros Hd Hs a. eapply (sure_via _ _ (fun _ _ => True)); [done|]. apply sure_bind.
  apply (sure_mono _ (fun _ => True)); [by intros [x s] _|]. apply sure_of_runs. intros tr out Hr _.
  destruct (init_server_total _ _ api stack a1 a2 a3 (servers a) Hd Hs _ _ Hr) as (h & m' & -> & _). eauto.
Qed.

Lemma bbram_sure : sure (fun _ _ => True) (fun _ => True) init_bbram.
Proof. cbn. intros r _. case_test; cbn; [done|]. intros _ _ s _. case_test; cbn; [done|]. intros t _. by case_test. Qed.

Lemma usb_sure u : sure (fun _ _ => True) (fun _ => True) (init_app_usb CTRL_DCD CTRL_DSR WAIT_DTR u).
Proof.
  unfold init_app_usb, enable_usb_device_next, take_dtr, tell.
  repeat first [sure_step | done].
Qed.

Lemma slot_sure : sure (fun _ _ => True) (fun _ => True) (bootloader_active_slot RETENTION_BOOTLOADER_INFO OUTPUT_SETTINGS).
Proof. unfold bootloader_active_slot. repeat case_test; cbn; try done; intros r _; by case_test. Qed.

Ltac completes :=
  repeat first
    [ apply completes_ret | apply completes_tellm | apply completes_ask | apply completes_setm | apply completes_lib, bbram_sure
    | apply completes_usb, usb_sure | apply completes_boot, slot_sure
    | apply completes_bind; [|intros ?] | apply completes_if | done ].

Lemma completes_init_app : completes (init_app NET_EVENT_L4_CONNECTED NET_EVENT_L4_DISCONNECTED HU_APP NET_IPV4 NET_CONNECTION_MANAGER CTRL_DCD CTRL_DSR WAIT_DTR).
Proof. unfold init_app. completes. Qed.

Lemma completes_start_servers : completes (start_servers NET_L2_ETHERNET HAS_RTC VBAT_BATTERY cdc_acm_uart udp_stack uart_stack n81 sizeof_handle sizeof_hup_handle).
Proof.
  destruct stacks as [Hu Ha]. unfold start_servers, set_date_time, get_date_time. apply completes_bind; [|intros _].
  - destruct NET_L2_ETHERNET eqn:E; [|done]. apply completes_bind; [by apply completes_server | done].
  - apply completes_bind; [by apply completes_server|]. intros h. completes.
Qed.

(** Programs that end in the loop. *)
Definition reaches_loop (turns : nat) (m : stp mcall answer app_data Z) : Prop :=
  forall a tr out, runs (m a) tr out -> exists boot loop led a', tr = boot ++ loop /\ (led = 1 \/ led = -1) /\
    runs (blink_loop turns led a') loop out.

Lemma reaches_bind {A} turns (m : stp mcall answer app_data A) (f : A -> stp mcall answer app_data Z) :
  completes m -> (forall x, reaches_loop turns (f x)) -> reaches_loop turns (m ≫= f).
Proof.
  intros Hm Hf a tr out Hr. apply runs_bind_inv in Hr as [([x a1] & t1 & t2 & -> & H1 & H2) | (s & H1 & ->)].
  - destruct (Hf x a1 _ _ H2) as (boot & loop & led & a' & -> & Hl & Hr). exists (t1 ++ boot), loop, led, a'.
    by rewrite app_assoc.
  - destruct (sure_runs _ _ _ _ _ (Hm a) H1) as (? & ? & _); [by apply Forall_forall; intros [] | done].
Qed.

Lemma led_reaches turns : reaches_loop turns (s ← init_led; blink_loop turns s).
Proof.
  intros a tr out Hr. unfold init_led in Hr. apply runs_call_inv in Hr as (r & t1 & -> & Hr). cbn in Hr.
  revert Hr. case_test; cbn [prog_bind']; intros Hr.
  - by exists [(gpio_is_ready_dt, r)], t1, (-1), a; split_and!; [|right|].
  - apply runs_call_inv in Hr as (s & t2 & -> & Hr). cbn in Hr.
    exists [(gpio_is_ready_dt, r); (gpio_pin_configure_dt true, s)], t2. revert Hr.
    case_test; cbn [prog_bind']; intros Hr; eexists _, a; (split; [done|]; split; [|exact Hr]); auto.
Qed.

Lemma main_reaches turns : reaches_loop turns (main turns).
Proof.
  unfold AppMain.main. apply reaches_bind; [completes|]. intros _.
  apply reaches_bind; [apply completes_init_app|]. intros _.
  apply reaches_bind.
  { apply completes_if; [|done]. apply completes_bind; [completes|]. intros _. apply completes_start_servers. }
  intros _. apply reaches_bind; [|intros _; apply led_reaches].
  unfold check_backup. completes.
Qed.

(** C21: [main] reaches its loop without a fault whatever fails on the way
    (devices that are not ready, no memory, no transport), and then, for any
    number of turns, blinks the LED that [GPIO_OUTPUT_ACTIVE] lit: 900 ms off
    and 100 ms on in alternation, until a toggle fails (or at once when the
    LED cannot be set up), after which it sleeps forever. *)
Theorem main_blinks turns a tr out :
  runs (main turns a) tr out ->
  exists boot loop a' s, tr = boot ++ loop /\ out = Ok (s, a') /\
    ((s = -1 /\ asleep loop /\ length loop = turns) \/
     exists k on tr1 tr2, loop = tr1 ++ tr2 /\ blinking k true tr1 on /\
       ((k = turns /\ tr2 = [] /\ s = if on then 1 else 0) \/
        (exists r tr3, (k < turns)%nat /\ tr2 = (gpio_pin_toggle_dt, r) :: tr3 /\ aret r < 0 /\ s = -1 /\
           asleep tr3 /\ (k + 1 + length tr3 = turns)%nat))).
Proof.
  intros Hr. destruct (main_reaches _ _ _ _ Hr) as (boot & loop & led & a' & -> & [-> | ->] & Hl).
  - destruct (blink_runs _ true _ _ _ Hl) as (k & on & t1 & t2 & -> & Hb & [(Hk & Ht & ->) | (r & t3 & Hk & Ht & Hr' & -> & Hs & Hn)]);
      eexists boot, _, a', _; (split; [done|]; split; [done|]); right; exists k, on, t1, t2; split_and!; try done.
    + by left.
    + right. by exists r, t3.
  - destruct (asleep_runs _ _ _ _ Hl) as (-> & Hs & Hn). eexists boot, loop, a', (-1). split_and!; try done. by left.
Qed.
End Boot.

(** ** The connection state *)

Section Events.
Context (NET_EVENT_L4_CONNECTED NET_EVENT_L4_DISCONNECTED : Z).

(** The last of the events that are exactly one of the two. *)
Fixpoint last_state (init : bool) (evs : list Z) : bool :=
  match evs with
  | [] => init
  | e :: evs =>
      last_state (if e =? NET_EVENT_L4_CONNECTED then true else if e =? NET_EVENT_L4_DISCONNECTED then false else init) evs
  end.

Lemma mask_connected : Z.land NET_EVENT_L4_CONNECTED (EVENT_MASK NET_EVENT_L4_CONNECTED NET_EVENT_L4_DISCONNECTED) = NET_EVENT_L4_CONNECTED.
Proof. unfold EVENT_MASK. apply Z.bits_inj'. intros n Hn. rewrite Z.land_spec, Z.lor_spec. by destruct (Z.testbit _ n). Qed.
Lemma mask_disconnected : Z.land NET_EVENT_L4_DISCONNECTED (EVENT_MASK NET_EVENT_L4_CONNECTED NET_EVENT_L4_DISCONNECTED) = NET_EVENT_L4_DISCONNECTED.
Proof.
  unfold EVENT_MASK. apply Z.bits_inj'. intros n Hn. rewrite Z.land_spec, Z.lor_spec.
  destruct (Z.testbit NET_EVENT_L4_DISCONNECTED n); [by rewrite orb_true_r | done].
Qed.

(** [app.connected] is what the last layer-4 event said: events outside
    the mask and combined events change nothing, repeated ones neither, and
    nothing else of the application's state is touched. *)
Theorem connected_tracks_events evs a :
  let a' := fold_left (fun a e => event_handler NET_EVENT_L4_CONNECTED NET_EVENT_L4_DISCONNECTED e a) evs a in
  connected a' = last_state (connected a) evs /\ a' = set_connected (connected a') a.
Proof.
  revert a. induction evs as [|e evs IH]; intros a; cbn; [by destruct a|].
  destruct (IH (event_handler NET_EVENT_L4_CONNECTED NET_EVENT_L4_DISCONNECTED e a)) as [H1 H2].
  assert (E : event_handler NET_EVENT_L4_CONNECTED NET_EVENT_L4_DISCONNECTED e a =
    set_connected (if e =? NET_EVENT_L4_CONNECTED then true else if e =? NET_EVENT_L4_DISCONNECTED then false else connected a) a).
  { unfold event_handler. destruct (e =? NET_EVENT_L4_CONNECTED) eqn:E1; zify_bool; [subst e; rewrite mask_connected, Z.eqb_refl; by destruct a as [[] ? ? ? ? ?]|].
    destruct (e =? NET_EVENT_L4_DISCONNECTED) eqn:E2; zify_bool;
      [subst e; rewrite mask_disconnected, Z.eqb_refl; by destruct a as [[] ? ? ? ? ?] | by destruct a; case_test]. }
  rewrite E in H1, H2 |- *. split; [done|]. by rewrite H2 at 1.
Qed.
End Events.

(** ** The UDP transport *)

Inductive net_resource := Memory | Socket (s : Z).
Definition got (e : acall * answer) : list net_resource :=
  match fst e with
  | malloc => if aret (snd e) =? 0 then [] else [Memory]
  | zsock_socket => if aret (snd e) <? 0 then [] else [Socket (aret (snd e))]
  | _ => []
  end.
Definition gave (e : acall * answer) : list net_resource :=
  match fst e with free => [Memory] | close_sock s => [Socket s] | _ => [] end.

Lemma wp_sys {B} c (f : answer -> stp acall answer udp B) h (Q : list (acall * answer) -> res (B * udp) -> Prop) :
  (forall r, outcomes (f r (if aret r <? 0 then set_errno (out0 (errno h) r) h else h)) (fun tr out => Q ((c, r) :: tr) out)) ->
  outcomes ((sys c ≫= f) h) Q.
Proof.
  intros H. unfold sys. repeat wp_step; [|by specialize (H r); rewrite (proj2 (Z.ltb_ge _ _)) in H by lia].
  eapply outcomes_lift; [reflexivity|]. wp_step. specialize (H r). by rewrite (proj2 (Z.ltb_lt _ _)) in H by lia.
Qed.

Lemma wp_modify {C R S B} (g : S -> S) (f : unit -> stp C R S B) s (Q : list (C * R) -> res (B * S) -> Prop) :
  outcomes (f tt (g s)) Q -> outcomes ((lift (modify g) ≫= f) s) Q.
Proof. apply outcomes_lift. reflexivity. Qed.

Lemma wp_gets {C R S A B} (g : S -> A) (f : A -> stp C R S B) s (Q : list (C * R) -> res (B * S) -> Prop) :
  outcomes (f (g s) s) Q -> outcomes ((lift (gets g) ≫= f) s) Q.
Proof. apply outcomes_lift. reflexivity. Qed.

(** Making a transport and releasing it when it was made. *)
Definition udp_session (port : Z) : stp acall answer udp unit :=
  ok ← _init_udp port; if ok : bool then _deinit_udp else mret tt.

(** A call that fails stores a positive [errno]. *)
Definition errno_set (e : acall * answer) : Prop := aret (snd e) < 0 -> 0 < out0 0 (snd e).

Definition balanced (port : Z) (tr : list (acall * answer)) (out : res (unit * udp)) : Prop :=
  Forall errno_set tr ->
  (exists h', out = Ok (tt, h')) /\ concat (map got tr) ≡ₚ concat (map gave tr) /\
  Forall (fun e => match fst e with zsock_bind _ p => p = htons port | _ => True end) tr.

Ltac finish :=
  intros Hok; forall_cons; unfold errno_set, out0 in *; cbn [fst snd] in *;
  first
    [ exfalso; lia
    | split; [by eexists|]; split;
      [unfold got, gave; cbn [map concat fst snd app]; repeat (case_test; try lia); cbn [app]; try solve [done | solve_Permutation]
      | by repeat constructor] ].

Lemma udp_session_spec port h : outcomes (udp_session port h) (balanced port).
Proof.
  unfold udp_session, _init_udp, _bind_udp, _deinit_udp, balanced.
  do 2 wp_step. wp_step; [repeat wp_step; finish|].
  do 2 wp_step. apply wp_sys. intros s. wp_step. apply wp_modify. cbv beta. destruct (aret s <? 0) eqn:Es; zify_bool.
  - wp_step. apply wp_gets. wp_step. wp_step; [repeat wp_step; finish|].
    wp_step. apply wp_gets. cbn [sock set_sock]. wp_step; [lia|]. repeat wp_step. finish.
  - wp_step. apply wp_sys. intros b. destruct (aret b <? 0) eqn:Eb; zify_bool.
    + wp_step. apply wp_sys. intros c. wp_step. apply wp_gets. wp_step. wp_step; [repeat wp_step; finish|].
      intros tr out _ Hok. forall_cons. exfalso. revert Heqb0. unfold errno_set, out0 in *. cbn [fst snd] in *.
      destruct (aout b) as [|eb]; [cbn in *; lia|].
      destruct (aret c <? 0) eqn:Ec; zify_bool; cbn [errno set_errno set_sock out0 hd] in *; [|lia].
      destruct (aout c) as [|ec]; cbn [hd] in *; lia.
    + wp_step. wp_step; [done|]. wp_step. apply wp_gets. cbn [sock set_sock]. wp_step; [|lia].
      wp_step. apply wp_sys. intros u. wp_step. apply wp_sys. intros v. repeat wp_step. finish.
Qed.

(** C20: Initialising the UDP transport and releasing it closes every socket it
    opened and frees the memory it allocated exactly once, also when creating
    or binding the socket fails, and it binds the port in network byte order. *)
Theorem udp_session_balanced port h tr out :
  runs (udp_session port h) tr out -> Forall errno_set tr ->
  (exists h', out = Ok (tt, h')) /\ concat (map got tr) ≡ₚ concat (map gave tr) /\
  Forall (fun e => match fst e with zsock_bind _ p => p = htons port | _ => True end) tr.
Proof. intros Hr. exact (udp_session_spec port h tr out Hr). Qed.

(** ** Concrete runs *)

(** A board where everything works but the third toggle. *)
Definition board (hist : list event) (c : mcall) : answer :=
  match c with
  | gpio_pin_toggle_dt =>
      if (length (List.filter (fun e => match fst e with gpio_pin_toggle_dt => true | _ => false end) hist) =? 2)%nat
      then Answer (-5) [] else Answer 0 []
  | Srv _ _ => Answer (len hist + 1) []
  | Lib sample_usbd_init_device => Answer 1 []
  | Lib (bbram_read _ _) => Answer 0 [41]
  | Lib usbd_enable => Answer 0 []
  | Lib (bbram_write _ _) => Answer 0 []
  | gpio_pin_configure_dt _ => Answer 0 []
  | _ => Answer 1 []
  end.
Definition app0 : app_data := App false 0 0 (Usb 0 0) 0 ∅.
Definition boot_run :=
  run board (main 1 2 true true true true true false true true true 3 4 false true false
    0x20000000 0x20001000 0x10000 5 6 7 8 1700 3200 5 app0) [].

Lemma main_blinks_witness :
  Forall (fun e => e <> Lib (bbram_write 0 [0])) (map fst (snd boot_run)) /\
  exists boot loop a' s, snd boot_run = boot ++ loop /\ fst boot_run = Ok (s, a') /\
    ((s = -1 /\ asleep loop /\ length loop = 5%nat) \/
     exists k on tr1 tr2, loop = tr1 ++ tr2 /\ blinking k true tr1 on /\
       ((k = 5%nat /\ tr2 = [] /\ s = if on then 1 else 0) \/
        (exists r tr3, (k < 5)%nat /\ tr2 = (gpio_pin_toggle_dt, r) :: tr3 /\ aret r < 0 /\ s = -1 /\
           asleep tr3 /\ (k + 1 + length tr3 = 5)%nat))).
Proof.
  split; [vm_compute; repeat (constructor; [discriminate|]); constructor|].
  eapply (main_blinks 1 2 true true true true true false true true true 3 4 false true false
    0x20000000 0x20001000 0x10000 5 6 7 8 1700 3200).
  - split; discriminate.
  - apply (run_runs _ board). unfold boot_run. apply surjective_pairing.
Defined.

Definition net_board (_ : list (acall * answer)) (c : acall) : answer :=
  match c with zsock_bind _ _ => Answer (-1) [112] | _ => Answer 3 [] end.
Definition udp_run := run net_board (udp_session 4241 (Udp 0 0 0)) [].

Lemma udp_session_balanced_witness :
  length (snd udp_run) = 5%nat /\
  (exists h', fst udp_run = Ok (tt, h')) /\ concat (map got (snd udp_run)) ≡ₚ concat (map gave (snd udp_run)) /\
  Forall (fun e => match fst e with zsock_bind _ p => p = htons 4241 | _ => True end) (snd udp_run).
Proof.
  split; [vm_compute; reflexivity|].
  apply (udp_session_balanced 4241 (Udp 0 0 0)).
  - apply (run_runs _ net_board). unfold udp_run. apply surjective_pairing.
  - unfold udp_run. repeat (constructor; [vm_compute; intros; done|]). constructor.
Defined.
