(* ===== verification/SystemThm.v ===== *)
(** The request path as one program: the server thread of
    app/src/hup_server.c over a transport, the packet layer of
    lib/hu/hupacket.c inside it, and the commands of app/src/main.c and
    lib/hu/huflash.c as the handlers it dispatches to.  The theorem at the end
    composes the properties of the four: a peer's requests are answered once
    each, in their order, with responses that the packet layer of the peer
    receives. *)

From S2P Require Import Prelude Ascii85 HuPacket HuPacketProof HuPacketThm HuPacketProps HuFlash HuFlashReplies Server ServerThm AppMain.

(** ** The composed program *)

(** The calls of the server thread and of the handlers that run on it. *)
Inductive syscall := s_recv (size : Z) | s_app (c : hcall) | s_flash (c : fcall).
(** What a call returned, and the bytes it stored. *)
Record sysans := Sysans { sval : Z; sbytes : list Z }.
Local Abbreviation thread := (stp syscall sysans hup_handle).
Local Abbreviation trace := (list (syscall * sysans)).

(** Handlers on the server's thread. The static [last_size] of huflash.c only
    decides about a log message: a flash handler runs from any value of it. *)
Definition on_thread (m : stp hcall Z hup_handle unit) : thread unit := fun h => via s_app sval (m h).
Definition to_fans (r : sysans) : fans := Fans (sval r) (hd 0 (sbytes r)).
Definition flash_on_thread (m : stp fcall fans hup_handle Z) : thread unit := fun h => via s_flash to_fans ((m;; mret tt) h).
Definition thread_send (data : list Z) : thread Z := r ← ask (s_app (h_send data)); mret (sval r).

(** What a trace handed to [h->send]. *)
Definition payload (c : syscall) : option (list Z) :=
  match c with s_app (h_send data) | s_flash (Send data) => Some data | _ => None end.
Definition sent (tr : trace) : list (list Z) := omap (fun e => payload (fst e)) tr.
Definition app_sent (tr : list (hcall * Z)) : list (list Z) := omap (fun e => payload (s_app (fst e))) tr.

(** The calls to the flash map and the bootloader return C integers. *)
Definition sys_int (e : syscall * sysans) : Prop := match fst e with s_flash _ => int32 (sval (snd e)) | _ => True end.

#[export] Instance sys_int_dec e : Decision (sys_int e).
Proof. unfold sys_int, int32. destruct (fst e); apply _. Defined.

Lemma sent_app t1 t2 : sent (t1 ++ t2) = sent t1 ++ sent t2.
Proof. apply omap_app. Qed.

Lemma app_part tr tr' : part_of s_app sval tr tr' -> sent tr' = app_sent tr.
Proof.
  induction 1 as [|[c r] [c' r'] tr tr' [Ec _] _ IH]; [done|]. cbn [fst snd] in Ec. subst c'. unfold sent, app_sent in *.
  cbn. by rewrite IH.
Qed.

Lemma flash_part tr tr' : part_of s_flash to_fans tr tr' ->
  sent tr' = HuFlashThm.sent tr /\ (Forall sys_int tr' -> Forall (fun '(c, r) => int_answer c r) tr) /\
  (forall c r, (c, r) ∈ tr -> exists r', (s_flash c, r') ∈ tr' /\ sval r' = ret r).
Proof.
  induction 1 as [|[c r] [c' r'] tr tr' [Ec Er] _ (IH1 & IH2 & IH3)]; [split_and!; try done; by intros c r H%elem_of_nil|].
  cbn [fst snd] in Ec, Er. subst c' r. split_and!.
  - unfold sent, HuFlashThm.sent in *. cbn. rewrite IH1. by destruct c.
  - intros Hall. apply Forall_cons in Hall as [Hi Hall]. constructor; [exact Hi | by apply IH2].
  - intros c' r [[= -> ->] | Hin]%elem_of_cons; [exists r'; split; [by left | done]|].
    destruct (IH3 _ _ Hin) as (r'' & Hin' & E). exists r''. split; [by right | done].
Qed.

Section System.
Context (crc16 : list Z -> Z) (itoa : Z -> Z -> option (list Z)) `{!TextSpec crc16 itoa}.

(** ** What a handler promises the packet layer *)

(** The records a command is answered with, given its arguments, and what the
    calls of its handler tell about the status it reports. *)
Record service := Service { reply : list (list Z) -> list (list Z); honest : trace -> Z -> Prop }.

(** On a received packet the handler completes, having sent one response made
    of a status and the records. *)
Class Serves (m : thread unit) (s : service) : Prop :=
  serves i cmd q args h : parsed i cmd q args h -> Forall (Forall plain) args -> Forall (Forall plain) (reply s args) ->
    len (header i cmd q) + len (records RECORD_MARK (reply s args)) + 24 < RECV_BUFFER_SIZE ->
    outcomes (m h) (fun tr out => Forall sys_int tr ->
      exists rc h0 bytes h', int32 rc /\ used_tx h h0 /\ respond crc16 itoa rc (reply s args) h0 = Ok (bytes, h') /\
        out = Ok (tt, h') /\ sent tr = [bytes] /\ honest s tr rc).

(** The end of a handler of main.c: the built response is sent, and calls that
    send nothing may follow. *)
Lemma send_outcomes (f : Z -> stp hcall Z hup_handle unit) h bytes h' :
  finish_buffer crc16 itoa h = Ok (bytes, h') ->
  (forall r, outcomes (f r h') (fun tr out => out = Ok (tt, h') /\ app_sent tr = [])) ->
  outcomes ((hupacket_send_buffer crc16 itoa send_cmd ≫= f) h) (fun tr out => out = Ok (tt, h') /\ app_sent tr = [bytes]).
Proof.
  intros E H. unfold hupacket_send_buffer, send_cmd. wp_step. eapply outcomes_lift; [exact E|].
  apply outcomes_ask. intros r. eapply outcomes_mono; [|exact (H r)]. intros tr out [-> Hs]. split; [done|].
  unfold app_sent in *. cbn. by f_equal.
Qed.

(** A handler of main.c always reports success. *)
Definition app_service (recs : list (list Z)) : service := Service (fun _ => recs) (fun _ rc => rc = NOERROR).

Lemma app_serves m recs :
  (forall h bytes h', respond crc16 itoa NOERROR recs h = Ok (bytes, h') ->
    outcomes (m h) (fun tr out => out = Ok (tt, h') /\ app_sent tr = [bytes])) ->
  Serves (on_thread m) (app_service recs).
Proof.
  intros Hm i cmd q args h Hp _ Hpl Hl. cbn [reply app_service] in *.
  destruct (respond_ok crc16 itoa NOERROR recs i cmd q h (parsed_headed _ _ _ _ _ Hp) ltac:(by_decide) Hpl Hl)
    as (tx & s & c & _ & _ & _ & E & _).
  apply outcomes_via. eapply outcomes_mono; [|exact (Hm _ _ _ E)]. intros tr out [-> Hs] tr' Ht _.
  eexists NOERROR, h, _, _. split_and!; [by_decide | apply used_tx_refl, Hp | exact E | done | by rewrite (app_part _ _ Ht) | done].
Qed.

#[export] Instance ver_serves app kernel date : Serves (on_thread (_ver crc16 itoa app kernel date)) (app_service [app; kernel; date]).
Proof.
  apply app_serves. intros h bytes h' E. unfold respond in E. cbn [Z.eqb NOERROR record_strs] in E.
  apply stm_bind_inv in E as ([] & h1 & E1 & E). apply stm_bind_inv in E as ([] & h5 & E5 & E).
  apply stm_bind_inv in E5 as ([] & h2 & E2 & E5). apply stm_bind_inv in E5 as ([] & h3 & E3 & E5).
  apply stm_bind_inv in E5 as ([] & h4 & E4 & [= <-]). unfold _ver.
  do 4 (eapply outcomes_lift; [eassumption|]). apply send_outcomes; [done|]. intros r. by wp_step.
Qed.

#[export] Instance reboot_serves size : Serves (on_thread (_reboot crc16 itoa size)) (app_service []).
Proof.
  apply app_serves. intros h bytes h' E. unfold respond in E. cbn [Z.eqb NOERROR record_strs] in E.
  apply stm_bind_inv in E as ([] & h1 & E1 & E). rewrite stm_ret_bind in E.
  unfold _reboot. eapply outcomes_lift; [exact E1|]. apply send_outcomes; [done|]. intros r.
  do 3 wp_step; repeat wp_step; done.
Qed.

Section Flash.
Context (slot0_partition slot1_partition : option Z) (RETENTION_BOOTLOADER_INFO OUTPUT_SETTINGS : bool) (fa_size : Z -> Z).
Hypothesis partition_ids : forall i, slot0_partition = Some i \/ slot1_partition = Some i -> 0 <= i <= 255.

(** A flash command echoes its first arguments, and reports success only when
    the call that does its work answered 0. *)
Definition flash_service (c : flash_cmd) : service :=
  Service (echo (echoed c)) (fun tr rc => rc = 0 -> exists call r, (s_flash call, r) ∈ tr /\ works fa_size c call /\ sval r = 0).

Lemma flash_serves c last_size :
  Serves (flash_on_thread (flash_handler crc16 itoa slot0_partition slot1_partition RETENTION_BOOTLOADER_INFO OUTPUT_SETTINGS fa_size c last_size))
    (flash_service c).
Proof.
  intros i cmd q args h Hp Hpl _ Hl. apply outcomes_via, outcomes_stp.
  eapply outcomes_mono; [|by eapply handler_answers]. cbv beta. intros tr out H.
  assert (Hend : Forall (fun '(c, r) => int_answer c r) tr -> exists rc h0 bytes last h', out = Ok (last, h') /\ int32 rc /\ used_tx h h0 /\
      respond crc16 itoa rc (echo (echoed c) args) h0 = Ok (bytes, h') /\ HuFlashThm.sent tr = [bytes] /\
      (rc = 0 -> exists call r, (call, r) ∈ tr /\ works fa_size c call /\ ret r = 0)).
  { intros Hall. destruct (H Hall) as (rc & h0 & bytes & last & h' & ? & ? & ? & ? & ? & ?). by exists rc, h0, bytes, last, h'. }
  clear H. destruct out as [[last h']|e].
  - apply outcomes_ret. rewrite app_nil_r. intros tr' Ht Hall. destruct (flash_part _ _ Ht) as (Hs & Hi & Hin).
    destruct (Hend (Hi Hall)) as (rc & h0 & bytes & ? & ? & [= <- <-] & Hrc & Hu & E & Es & Hw). exists rc, h0, bytes, h'.
    split_and!; try done; [by rewrite Hs|]. intros Hz. destruct (Hw Hz) as (call & r & Hc & Hwk & Hr).
    destruct (Hin _ _ Hc) as (r' & Hc' & E'). exists call, r'. split_and!; try done. by rewrite E'.
  - intros tr' Ht Hall. destruct (flash_part _ _ Ht) as (_ & Hi & _). by destruct (Hend (Hi Hall)) as (? & ? & ? & ? & ? & [=] & _).
Qed.
End Flash.

(** ** Requests *)

(** A request as its sender makes it: bytes that start no packet, and a
    command packet. *)
Record request := Request {
  noise : list Z;
  rid : option (list Z);
  rcmd : list Z;
  rseq : option (list Z);
  rargs : list (list Z);
  rcrc : option (list Z)
}.
Definition wire (r : request) : list Z :=
  noise r ++ packet ENQ_OF_COMMAND (rid r) (rcmd r) (rseq r) (rargs r) (rcrc r).

Section Requests.
(** What the commands do. *)
Context (services : list Z -> service).
Definition records_of (r : request) : list (list Z) := reply (services (rcmd r)) (rargs r).

Record request_ok (r : request) : Prop := {
  rq_noise : Forall (fun c => is_stx c = false) (noise r);
  rq_packet : packet_ok ENQ_OF_COMMAND (rid r) (rcmd r) (rseq r) (rargs r) (rcrc r);
  rq_crc : crc_ok crc16 (header (rid r) (rcmd r) (rseq r) ++ records RECORD_MARK (rargs r)) (rcrc r) = true;
  rq_plain : Forall (Forall plain) (records_of r);
  rq_fits : len (header (rid r) (rcmd r) (rseq r)) + len (records RECORD_MARK (records_of r)) + 24 < RECV_BUFFER_SIZE;
  rq_args : 2 + len (records_of r) <= ARGV_SIZE
}.

(** A response received by the packet layer of a peer, whatever the peer does
    with it: its handler for the command runs with the status and the records
    as arguments under the same id and sequence, and with a matching CRC when
    the request carried one. *)
Definition received (r : request) (rc : Z) (bytes : list Z) : Prop :=
  forall (C R : Type) (send : list Z -> stp C R hup_handle Z) cmds resps hc, wf hc ->
  exists s h1, itoa rc 10 = Some s /\
    parsed (rid r) (rcmd r) (rseq r) (s :: records_of r) h1 /\ response h1 = true /\
    (rcrc r <> None -> crc16_at h1 <> None /\ crc_match h1 = true) /\
    forall env H, run env (process_hupacket crc16 itoa send cmds resps bytes hc) H =
      run env ((handler_of resps (rcmd r);; lift (modify reset_hupacket)) h1) H.

(** The calls made for a request: one response among them, which the peer
    receives, with an honest status. *)
Definition answered (r : request) (tr : trace) : Prop :=
  exists rc bytes, sent tr = [bytes] /\ received r rc bytes /\ honest (services (rcmd r)) tr rc.

Context (cmds resps : list (list Z * thread unit)).
Local Abbreviation process := (process_hupacket crc16 itoa thread_send cmds resps).

Definition ready (h : hup_handle) : Prop := wf h /\ state h = HUP_STATE_NONE /\ argc h = 0.
Definition served (r : request) : Prop := request_ok r /\ Serves (handler_of cmds (rcmd r)) (services (rcmd r)).

Lemma outcomes_process_app d1 d2 h Q :
  outcomes ((process d1;; process d2) h) Q -> outcomes (process (d1 ++ d2) h) Q.
Proof. apply (outcomes_run_eq (Sysans 0 [])). intros env H. apply process_app_run. Qed.

(** A response made on the handle of the request. *)
Lemma response_received r rc h0 bytes h' :
  request_ok r -> int32 rc -> parsed (rid r) (rcmd r) (rseq r) (rargs r) h0 -> (rcrc r <> None -> crc16_at h0 <> None) ->
  respond crc16 itoa rc (records_of r) h0 = Ok (bytes, h') -> received r rc bytes.
Proof.
  intros [_ [_ Hh (Pi & Pc & Pq & _) _ _] _ Hpl Hl Ha] Hrc Hp Hat E C R send pc pr hc Hc.
  destruct (respond_received crc16 itoa send pc pr rc _ _ _ _ _ h0 hc Hp Hc Hh Pi Pc Pq Hpl Hrc Hl Ha)
    as (b & h3 & s & h4 & Er & Es & Hp4 & Hre & Hcm & _ & Hrun).
  injection (eq_trans (eq_sym E) Er) as <- <-. exists s, h4. split_and!; try done. intros Hn. by apply Hcm, Hat.
Qed.

(** One request: one response, and the thread is ready again. *)
Lemma request_served r h : served r -> wf h -> state h = HUP_STATE_NONE ->
  outcomes (process (wire r) h) (fun tr out => Forall sys_int tr -> exists h', out = Ok (tt, h') /\ ready h' /\ answered r tr).
Proof.
  intros [Hok Hm] Hwf Hs. pose proof Hok as [Hn Hpk Hcrc Hpl Hl _].
  unfold wire. apply outcomes_process_app, outcomes_stp. rewrite process_hupacket_ignores by done. apply outcomes_ret.
  destruct (receive_ok crc16 itoa thread_send cmds resps _ _ _ _ _ _ _ Hwf Hpk (or_introl Hcrc))
    as (h1 & Hpa & _ & Hat & _ & _ & Hrun).
  apply (outcomes_run_eq (Sysans 0 []) _ _ _ Hrun). change (ENQ_OF_COMMAND =? ENQ_OF_COMMAND) with true. cbv iota.
  destruct Hpk as [_ _ (_ & _ & _ & Pr & _) _ _]. apply outcomes_stp.
  eapply outcomes_mono; [|exact (serves _ _ _ _ _ Hpa Pr Hpl Hl)]. cbv beta. intros tr [[[] h']|e] H; cycle 1.
  { intros Hall. by destruct (H Hall) as (? & ? & ? & ? & _ & _ & _ & [=] & _). }
  apply outcomes_ret. rewrite app_nil_r. intros Hall.
  destruct (H Hall) as (rc & h0 & bytes & h2 & Hrc & Hu & E & [= <-] & Hsent & Hw). pose proof (parsed_used_tx _ _ _ _ _ _ Hu Hpa) as Hp0.
  exists (reset_hupacket h'). split_and!; try done.
  - destruct (respond_ok crc16 itoa rc _ _ _ _ h0 (parsed_headed _ _ _ _ _ Hp0) Hrc Hpl Hl) as (tx & s & c & _ & _ & _ & E' & Hx).
    injection (eq_trans (eq_sym E) E') as _ ->. destruct Hx as (_ & _ & _ & _ & Htx). destruct (pa_wf _ _ _ _ _ Hp0) as [W1 W2 _].
    by constructor.
  - exists rc, bytes. split_and!; try done. eapply response_received; try done.
    intros Hc. destruct Hu as (tx & _ & ->). by apply Hat.
Qed.

(** Requests in a row, each with its own calls. *)
Lemma requests_served reqs : forall h, Forall served reqs -> ready h ->
  outcomes (process (concat (map wire reqs)) h) (fun tr out => Forall sys_int tr ->
    exists h' trs, out = Ok (tt, h') /\ ready h' /\ tr = concat trs /\ Forall2 answered reqs trs).
Proof.
  induction reqs as [|r reqs IH]; intros h Hreqs Hr; cbn [map concat].
  { apply outcomes_ret. intros _. exists h, []. by split_and!. }
  apply Forall_cons in Hreqs as [Hsv Hreqs]. destruct Hr as (Hwf & Hs & _).
  apply outcomes_process_app, outcomes_stp. eapply outcomes_mono; [|by apply request_served].
  cbv beta. intros tr [[[] h1]|e] H; [|intros Hall; by destruct (H Hall) as (? & [=] & _)].
  intros tr' out Hrun Hall. apply Forall_app in Hall as [Hall Hall']. destruct (H Hall) as (? & [= <-] & Hr1 & Hans).
  destruct (IH h1 Hreqs Hr1 _ _ Hrun Hall') as (h' & trs & -> & Hr' & -> & Hf). exists h', (tr :: trs).
  split_and!; [done | apply Hr'..| done |]. by constructor.
Qed.

(** And the beginning of another packet behind them. *)
Lemma stream_served reqs rest h :
  Forall served reqs -> END_OF_PACKET ∉ rest -> 1 + marks rest <= ARGV_SIZE -> ready h ->
  outcomes (process (concat (map wire reqs) ++ rest) h) (fun tr out => Forall sys_int tr ->
    exists h' trs, out = Ok (tt, h') /\ tr = concat trs /\ Forall2 answered reqs trs).
Proof.
  intros Hreqs He Hm Hr. apply outcomes_process_app, outcomes_stp. eapply outcomes_mono; [|by apply requests_served].
  cbv beta. intros tr [[[] h1]|e] H; [|intros Hall; by destruct (H Hall) as (? & ? & [=] & _)].
  intros tr' out Hrun Hall. apply Forall_app in Hall as [Hall _].
  destruct (H Hall) as (? & trs & [= <-] & (Hw & Hs & Ha) & -> & Hf).
  destruct (feed_safe crc16 itoa thread_send cmds resps rest h1) as (h2 & E & _); [|done|rewrite Ha; lia|].
  { split_and!; [done | by left | rewrite Ha; unfold ARGV_SIZE; lia..]. }
  rewrite E in Hrun. apply runs_ret_inv in Hrun as [-> ->]. exists h2, trs. by rewrite app_nil_r.
Qed.

(** The server thread over a transport, however long it runs. *)
Lemma server_served reqs rest fuel h tr out :
  Forall served reqs -> END_OF_PACKET ∉ rest -> 1 + marks rest <= ARGV_SIZE -> ready h -> Forall sys_int tr ->
  runs (_hup_server crc16 itoa s_recv sval sbytes thread_send cmds resps fuel h) tr out ->
  exists steps tail, tr = events s_recv steps ++ tail /\
    (stream sval sbytes steps = concat (map wire reqs) ++ rest ->
      (exists trs, concat (map snd steps) = concat trs /\ Forall2 answered reqs trs) /\
      ((exists h' a, out = Ok (tt, h') /\ tail = [(s_recv RECV_BUFFER_SIZE, a)] /\ sval a < 0) \/
       (out = Stop OutOfFuel /\ tail = [] /\ length steps = fuel))).
Proof.
  intros Hreqs He Hm Hr Hall Hrun. destruct (server_loop_outcomes _ _ _ _ _ _ _ _ _ _ _ _ Hrun) as (steps & tail & -> & Hend).
  exists steps, tail. split; [done|]. intros Es. rewrite Es in Hend.
  assert (Hall' : Forall sys_int (concat (map snd steps))).
  { apply Forall_app in Hall as [Hall _]. clear - Hall. unfold events in Hall. induction steps as [|[a t] steps IH]; [done|].
    cbn in Hall |- *. apply Forall_cons in Hall as [_ Hall]. rewrite Forall_app in Hall |- *. destruct Hall as [Ht Hall]. split; [done | by apply IH]. }
  pose proof (stream_served reqs rest h Hreqs He Hm Hr) as Hserved.
  destruct Hend as [(h' & Hp & Hend) | (s & _ & _ & Hp)].
  - destruct (Hserved _ _ Hp Hall') as (h2 & trs & _ & Etr & Hf). split; [by exists trs|].
    destruct Hend as [(-> & a & -> & Ha) | Hend]; [left; by exists h', a | by right].
  - by destruct (Hserved _ _ Hp Hall') as (h2 & trs & [=] & _).
Qed.
End Requests.

(** ** The commands of the application *)

Section Application.
Context (app_version kernel_version build_date : list Z) (sizeof_k_timer : Z).
Context (slot0_partition slot1_partition : option Z) (RETENTION_BOOTLOADER_INFO OUTPUT_SETTINGS : bool) (fa_size : Z -> Z).
Context (cmds resps : list (list Z * thread unit)).

(** What the registered commands do; a command that nobody registered does
    nothing, and is no request of the theorem below. *)
Definition flash_cmd_of (cmd : list Z) : option flash_cmd :=
  if bool_decide (cmd = str "wrprt") then Some Wrprt
  else if bool_decide (cmd = str "erase") then Some Erase
  else if bool_decide (cmd = str "flash") then Some Flash
  else None.
Definition app_services (cmd : list Z) : service :=
  if bool_decide (cmd = str "ver") then app_service [app_version; kernel_version; build_date]
  else match flash_cmd_of cmd with Some c => flash_service fa_size c | None => app_service [] end.

(** The section of commands: the names of main.c and huflash.c are bound to
    their handlers. *)
Definition registered (last_size : Z) : Prop :=
  handler_of cmds (str "ver") = on_thread (_ver crc16 itoa app_version kernel_version build_date) /\
  handler_of cmds (str "reboot") = on_thread (_reboot crc16 itoa sizeof_k_timer) /\
  forall name c, flash_cmd_of name = Some c ->
    handler_of cmds name = flash_on_thread (flash_handler crc16 itoa slot0_partition slot1_partition RETENTION_BOOTLOADER_INFO OUTPUT_SETTINGS fa_size c last_size).
Definition known (cmd : list Z) : Prop := cmd = str "ver" \/ cmd = str "reboot" \/ flash_cmd_of cmd <> None.

Lemma app_served last_size r : (forall i, slot0_partition = Some i \/ slot1_partition = Some i -> 0 <= i <= 255) ->
  registered last_size -> known (rcmd r) -> request_ok app_services r -> served app_services cmds r.
Proof.
  intros Hids (Hver & Hreb & Hflash) Hk Hok. split; [done|]. clear Hok. destruct Hk as [E | [E | E]].
  - rewrite E, Hver. apply ver_serves.
  - rewrite E, Hreb. apply reboot_serves.
  - destruct (flash_cmd_of (rcmd r)) as [c|] eqn:Ec; [|done]. rewrite (Hflash _ _ Ec). unfold app_services. rewrite Ec.
    case_bool_decide as Hv; [by rewrite Hv in Ec|]. by apply flash_serves.
Qed.

(** C1: Whatever the transport's chunks, the results of the calls and the bytes
    between the packets: when an idle server thread has received a number of
    requests for the application's commands, and perhaps the beginning of
    another packet, its calls are, request by request and in their order, those
    of one handler each, with exactly one response among them; the packet layer
    of the peer receives it as the response to that command, with the
    request's id and sequence, the status, the records (the versions for [ver],
    the echoed arguments for the flash commands) and a CRC that matches when
    the request had one; a flash command reports success only when its work on
    the flash map succeeded; and the thread ends only when the transport
    fails. *)
Theorem requests_answered last_size reqs rest fuel h tr out :
  (forall i, slot0_partition = Some i \/ slot1_partition = Some i -> 0 <= i <= 255) -> registered last_size ->
  Forall (fun r => known (rcmd r) /\ request_ok app_services r) reqs ->
  END_OF_PACKET ∉ rest -> 1 + marks rest <= ARGV_SIZE -> ready h -> Forall sys_int tr ->
  runs (_hup_server crc16 itoa s_recv sval sbytes thread_send cmds resps fuel h) tr out ->
  exists steps tail, tr = events s_recv steps ++ tail /\
    (stream sval sbytes steps = concat (map wire reqs) ++ rest ->
      (exists trs, concat (map snd steps) = concat trs /\ Forall2 (answered app_services) reqs trs) /\
      ((exists h' a, out = Ok (tt, h') /\ tail = [(s_recv RECV_BUFFER_SIZE, a)] /\ sval a < 0) \/
       (out = Stop OutOfFuel /\ tail = [] /\ length steps = fuel))).
Proof.
  intros Hids Hreg Hreqs. apply server_served. eapply Forall_impl; [exact Hreqs|]. cbv beta.
  intros r [Hk Hok]. by apply (app_served last_size).
Qed.
End Application.
End System.

(** ** A concrete session *)

Definition v_app := str "1.2.0".
Definition v_kernel := str "4.1.0".
Definition v_date := str "Jan 02 2026 10:11:12".
Definition flash_ref (c : flash_cmd) : thread unit :=
  flash_on_thread (flash_handler crc_ref itoa_ref (Some 0) None false false (fun _ => 0x8000) c 0).
Definition app_cmds : list (list Z * thread unit) :=
  [(str "erase", flash_ref Erase); (str "flash", flash_ref Flash); (str "reboot", on_thread (_reboot crc_ref itoa_ref 56));
   (str "ver", on_thread (_ver crc_ref itoa_ref v_app v_kernel v_date)); (str "wrprt", flash_ref Wrprt)].

(** The versions, asked for with an id, a sequence and a CRC behind line noise;
    an erase; a chunk of 260 zero bytes; a reboot. *)
Definition req_body : list Z := header (Some (str "7")) (str "ver") (Some (str "42")) ++ records RECORD_MARK [str "x"].
Definition requests : list request := [
  Request [13; 10; 4] (Some (str "7")) (str "ver") (Some (str "42")) [str "x"] (itoa_ref (crc_ref req_body) 16);
  Request [] None (str "erase") (Some (str "1")) [str "slot0"] None;
  Request [0] None (str "flash") None [str "slot0"; str "10"; str "104"; replicate 65 ch_z] None;
  Request [65] None (str "reboot") None [] None].
Definition started : list Z := [0; 5; 118; 101; 30].
Definition received_bytes : list Z := concat (map wire requests) ++ started.

(** A transport that delivers the bytes seven at a time and then fails; the
    flash map opens area 100; every other call answers 0. *)
Definition delivered (hist : trace) : nat :=
  length (List.filter (fun e => match fst e with s_recv _ => true | _ => false end) hist).
Definition net (hist : trace) (c : syscall) : sysans :=
  match c with
  | s_recv _ =>
      match take 7 (drop (7 * delivered hist) received_bytes) with
      | [] => Sysans (-1) []
      | chunk => Sysans (len chunk) chunk
      end
  | s_flash (flash_area_open _) => Sysans 0 [100]
  | _ => Sysans 0 []
  end.
Definition server_run :=
  run net (_hup_server crc_ref itoa_ref s_recv sval sbytes thread_send app_cmds [] 40 (reset_hupacket zero_handle)) [].

Example server_run_calls :
  length (sent (snd server_run)) = 4%nat /\
  List.filter (fun c => match c with s_flash (Send _) => false | s_flash _ => true | _ => false end) (map fst (snd server_run)) =
    [s_flash (flash_area_open 0); s_flash (flash_area_erase 100 0 0x8000); s_flash (flash_area_close 100);
     s_flash (flash_area_open 0); s_flash (flash_area_write 100 0x10 (replicate 260 0)); s_flash (flash_area_close 100)].
Proof. split; vm_compute; reflexivity. Qed.

Lemma requests_answered_witness :
  exists steps tail, snd server_run = events s_recv steps ++ tail /\
    (stream sval sbytes steps = received_bytes ->
      (exists trs, concat (map snd steps) = concat trs /\
        Forall2 (answered crc_ref itoa_ref (app_services v_app v_kernel v_date (fun _ => 0x8000))) requests trs) /\
      ((exists h' a, fst server_run = Ok (tt, h') /\ tail = [(s_recv RECV_BUFFER_SIZE, a)] /\ sval a < 0) \/
       (fst server_run = Stop OutOfFuel /\ tail = [] /\ length steps = 40%nat))).
Proof.
  apply (requests_answered crc_ref itoa_ref v_app v_kernel v_date 56 (Some 0) None false false (fun _ => 0x8000) app_cmds [] 0
    requests started 40 (reset_hupacket zero_handle)).
  - intros i [[= <-] | [=]]. lia.
  - split_and!; [reflexivity | reflexivity|]. intros name c. unfold flash_cmd_of. repeat case_bool_decide; intros [= <-]; subst name; reflexivity.
  - unfold requests. repeat (apply Forall_cons; split); [..|constructor].
    all: split; [first [by left | by right; left | right; right; by vm_compute]|].
    all: constructor; [by_decide | constructor; [reflexivity | unfold header_ok; split_and!; by_decide | split_and!; by_decide | by_decide | by_decide] | vm_compute; reflexivity | by_decide ..].
  - by_decide.
  - by_decide.
  - split_and!; [by constructor | reflexivity | reflexivity].
  - by_decide.
  - apply (run_runs _ net). unfold server_run. apply surjective_pairing.
Defined.
