(* ===== verification/Drivers.v ===== *)
(** The device side of the application: the blink driver
    (drivers/blink/gpio_led.c and its interface include/app/drivers/blink.h),
    the example sensor (drivers/sensor/example_sensor), the PWM demonstration
    thread (app/src/pwmleds.c) and the camera preview (app/src/camera.c). *)

From S2P Require Import Prelude.

Inductive dcall :=
  | gpio_is_ready_dt
  | gpio_pin_configure_dt (flags : Z)
  | gpio_pin_toggle_dt
  | gpio_pin_set_dt (value : Z)
  | gpio_pin_get_dt
  | device_is_ready (dev : Z)
  | k_timer_init
  | k_timer_user_data_set
  | k_timer_start (duration period : Z)
  | k_timer_stop
  | pwm_is_ready_dt
  | pwm_get_cycles_per_sec
  | pwm_set_dt (period pulse : Z)
  | k_sleep_s (s : Z)
  | video_get_caps
  | video_get_format
  | video_set_selection (target left top width height : Z)
  | video_get_selection (target : Z)
  | video_set_format (width height pixelformat : Z)
  | video_buffer_aligned_alloc (size align : Z)
  | video_enqueue (buf : Z)
  | video_dequeue
  | video_set_ctrl (id val : Z)
  | video_stream_start
  | display_blanking_off
  | lv_img_create
  | lv_img_set_src (img src : Z)
  | lv_obj_align (img : Z)
  | lv_task_handler.

Local Abbreviation io := (prog dcall answer).

(** ** blink_gpio_led: [period_ms] of the instance's configuration *)

Section Blink.
Context (GPIO_OUTPUT_INACTIVE GPIO_INPUT config_period_ms : Z).

Definition blink_gpio_led_on_timer_expire : io unit := call gpio_pin_toggle_dt;; mret tt.

Definition blink_gpio_led_set_period_ms (period_ms : Z) : io Z :=
  if period_ms =? 0 then
    call k_timer_stop;;
    r ← call (gpio_pin_set_dt 0);
    mret (aret r)
  else
    call (k_timer_start period_ms period_ms);;
    mret 0.

Definition blink_gpio_led_init : io Z :=
  r ← call gpio_is_ready_dt;
  if aret r =? 0 then mret (- ENODEV)
  else
    r ← call (gpio_pin_configure_dt GPIO_OUTPUT_INACTIVE);
    if aret r <? 0 then mret (aret r)
    else
      call k_timer_init;;
      call k_timer_user_data_set;;
      (if config_period_ms >? 0 then call (k_timer_start config_period_ms config_period_ms);; mret tt else mret tt);;
      mret 0.

(** The driver class: its operation and the calls of its interface. *)
Record blink_driver_api := BlinkApi { set_period_ms : Z -> io Z }.
Definition blink_gpio_led_api : blink_driver_api := BlinkApi blink_gpio_led_set_period_ms.
Definition blink_set_period_ms (api : blink_driver_api) (period_ms : Z) : io Z := set_period_ms api period_ms.
Definition blink_off (api : blink_driver_api) : io Z := blink_set_period_ms api 0.

(** ** example_sensor: [data->state] *)

Context (SENSOR_CHAN_PROX port : Z).

Definition example_sensor_sample_fetch : stp dcall answer Z Z := fun _ =>
  Call gpio_pin_get_dt (fun r => Ret (0, aret r)).

(** The value stored in [val->val1], if any. *)
Definition example_sensor_channel_get (chan : Z) : stp dcall answer Z (Z * option Z) := fun state =>
  if negb (chan =? SENSOR_CHAN_PROX) then Ret ((- ENOTSUP, None), state) else Ret ((0, Some state), state).

Definition example_sensor_init : io Z :=
  r ← call (device_is_ready port);
  if aret r =? 0 then mret (- ENODEV)
  else
    r ← call (gpio_pin_configure_dt GPIO_INPUT);
    if aret r <? 0 then mret (aret r) else mret 0.
End Blink.

(** ** pwmleds *)

Definition MIN_SCALE : Z := 50.

Section Pwm.
(** [pwm_led.period] *)
Context (led_period : Z).

Definition min_period : Z := led_period / MIN_SCALE.

(** The calibration loop: the period the device accepts. *)
Fixpoint calibrate (fuel : nat) (max_period : Z) : io (option Z) :=
  match fuel with
  | O => Halt OutOfFuel
  | S fuel =>
      r ← call (pwm_set_dt max_period (max_period / 2));
      if negb (aret r =? 0) then
        let max_period := max_period / 2 in
        if max_period <? u32 (4 * min_period) then mret None else calibrate fuel max_period
      else mret (Some max_period)
  end.

(** The next period and direction. *)
Definition next_period (max_period period dir : Z) : Z * Z :=
  let period := if negb (dir =? 0) then u32 (period * 2) else period / 2 in
  if period >? max_period then (max_period / 2, 0)
  else if period <? min_period then (u32 (min_period * 2), 1)
  else (period, dir).

(** The endless loop, [turns] turns of it. *)
Fixpoint pwm_loop (turns : nat) (max_period period dir : Z) : io unit :=
  match turns with
  | O => mret tt
  | S turns =>
      r ← call (pwm_set_dt period (period / 2));
      if negb (aret r =? 0) then mret tt
      else
        let '(period, dir) := next_period max_period period dir in
        call (k_sleep_s 4);;
        pwm_loop turns max_period period dir
  end.

Definition start_pwmleds (fuel turns : nat) : io unit :=
  r ← call pwm_is_ready_dt;
  if aret r =? 0 then mret tt
  else
    call pwm_get_cycles_per_sec;;
    m ← calibrate fuel led_period;
    match m with None => mret tt | Some max_period => pwm_loop turns max_period max_period 0 end.
End Pwm.

(** ** camera *)

Section Camera.
(** The build configuration and the constants of the video API. *)
Context (display_dev video_dev : Z) (SEL_CROP SEL_COMPOSE PIX_FMT_RGB565 CID_HFLIP CID_VFLIP : Z).
Context (CROP_LEFT CROP_TOP CROP_WIDTH CROP_HEIGHT WIDTH HEIGHT POOL_ALIGN : Z) (HFLIP VFLIP : bool).

(** The early returns of [_main] all answer 0: [None] is such a return. *)
Local Abbreviation cam A := (io (option A)).
Definition need {A} (ok : bool) (k : cam A) : cam A := if ok then k else mret None.

(** Setting the crop rectangle when it is configured. *)
Definition set_crop : cam unit :=
  if negb (CROP_WIDTH =? 0) && negb (CROP_HEIGHT =? 0) then
    r ← call (video_set_selection SEL_CROP CROP_LEFT CROP_TOP CROP_WIDTH CROP_HEIGHT);
    need (aret r =? 0) (mret (Some tt))
  else mret (Some tt).

(** Comparing the crop with the wanted size; the call stores the width and
    the height of the selection. *)
Definition set_compose : cam unit :=
  r ← call (video_get_selection SEL_CROP);
  if (aret r <? 0) && negb (aret r =? - ENOSYS) then mret None
  else if (aret r =? 0) && (negb (nth 0 (aout r) 0 =? WIDTH) || negb (nth 1 (aout r) 0 =? HEIGHT)) then
    w ← call (video_set_selection SEL_COMPOSE 0 0 WIDTH HEIGHT);
    need (negb ((aret w <? 0) && negb (aret w =? - ENOSYS))) (mret (Some tt))
  else mret (Some tt).

(** Allocating and queueing [n] buffers of the size the driver chose. *)
Fixpoint alloc_buffers (n : nat) (size : Z) (acc : list Z) : cam (list Z) :=
  match n with
  | O => mret (Some acc)
  | S n =>
      b ← call (video_buffer_aligned_alloc size POOL_ALIGN);
      if aret b =? 0 then mret None
      else call (video_enqueue (aret b));; alloc_buffers n size (acc ++ [aret b])
  end.

(** The capture loop, [turns] turns of it. *)
Fixpoint grab_frames (turns : nat) (screen img : Z) : cam unit :=
  match turns with
  | O => mret (Some tt)
  | S turns =>
      r ← call video_dequeue;
      if negb (aret r =? 0) then mret None
      else
        let vbuf := out0 0 r in
        call (lv_img_set_src screen img);;
        call (lv_obj_align screen);;
        call lv_task_handler;;
        r ← call (video_enqueue vbuf);
        if negb (aret r =? 0) then mret None else grab_frames turns screen img
  end.

(** Starting the capture and the display. *)
Definition start_capture (turns : nat) (buffers : list Z) : cam unit :=
  (if HFLIP then call (video_set_ctrl CID_HFLIP 1);; mret tt else mret tt);;
  (if VFLIP then call (video_set_ctrl CID_VFLIP 1);; mret tt else mret tt);;
  r ← call video_stream_start;
  if negb (aret r =? 0) then mret None
  else
    r ← call display_blanking_off;
    if (aret r <? 0) && negb (aret r =? - ENOSYS) then mret None
    else
      s ← call lv_img_create;
      grab_frames turns (aret s) (nth 0 buffers 0).

(** Running [k] after [m] when [m] does not return early. *)
Definition andthen {A B} (m : cam A) (k : A -> cam B) : cam B :=
  r ← m; match r with Some a => k a | None => mret None end.

Definition camera_main (turns : nat) : cam unit :=
  r ← call (device_is_ready display_dev);
  need (negb (aret r =? 0))
    (r ← call (device_is_ready video_dev);
     need (negb (aret r =? 0))
       (r ← call video_get_caps;
        need (aret r =? 0)
          (r ← call video_get_format;
           need (aret r =? 0)
             (andthen set_crop (fun _ => andthen set_compose (fun _ =>
                r ← call (video_set_format WIDTH HEIGHT PIX_FMT_RGB565);
                need (aret r =? 0)
                  (andthen (alloc_buffers 2 (out0 0 r) []) (start_capture turns)))))))).
End Camera.
