(* ===== verification/DriversThm.v ===== *)
(** Theorems on Drivers.v: the PWM thread's calibration ends and its periods
    stay within their bounds, and the blink driver keeps its timer and LED in
    the state its interface promises. *)

From S2P Require Import Prelude Drivers.

Section Pwm.
Context (led_period : Z).
Hypothesis period_u32 : 0 <= led_period < 2 ^ 32.
Local Abbreviation min_period := (min_period led_period).

Definition in_bounds (max_period : Z) (c : dcall) : Prop :=
  match c with pwm_set_dt period pulse => min_period <= period <= max_period /\ pulse = period / 2 | _ => True end.

Lemma min_period_bound : 0 <= min_period /\ 50 * min_period <= led_period.
Proof. unfold Drivers.min_period, MIN_SCALE. split; [apply Z.div_pos; lia | apply Z.mul_div_le; lia]. Qed.

Lemma next_period_bounds max_period period dir :
  4 * min_period <= max_period < 2 ^ 32 -> min_period <= period <= max_period ->
  min_period <= fst (next_period led_period max_period period dir) <= max_period.
Proof.
  intros Hm Hp. pose proof min_period_bound as [H0 H1]. unfold next_period. cbv zeta.
  set (p := if negb (dir =? 0) then _ else _). clearbody p.
  repeat case_test; cbn [fst]; [| |lia].
  - split; [|apply Z.div_le_upper_bound; lia]. apply Z.div_le_lower_bound; lia.
  - rewrite u32_id; lia.
Qed.

Lemma pwm_loop_bounds turns max_period period dir :
  4 * min_period <= max_period < 2 ^ 32 -> min_period <= period <= max_period ->
  outcomes (pwm_loop led_period turns max_period period dir) (fun tr out =>
    out = Ok tt /\ Forall (fun e => in_bounds max_period (fst e)) tr).
Proof.
  revert period dir. induction turns as [|turns IH]; intros period dir Hm Hp; [by apply outcomes_ret|]. cbn [pwm_loop].
  apply outcomes_call. intros r. cbn [prog_bind']. case_test; [apply outcomes_ret; split; [done | constructor; [by cbn | done]]|].
  pose proof (next_period_bounds max_period period dir Hm Hp) as Hn.
  destruct (next_period led_period max_period period dir) as [p d]. apply outcomes_call. intros s. cbn [prog_bind'].
  eapply outcomes_mono; [|by apply IH]. intros tr out [Ho Ht]. split; [done|].
  do 2 (constructor; [by cbn|]). done.
Qed.

(** Each failed try halves the period, and [fuel] halvings bring it below the
    limit. *)
Lemma calibrate_spec fuel m :
  0 <= m <= led_period -> 4 * min_period <= m -> m / 2 ^ Z.of_nat fuel < 4 * min_period -> (0 < fuel)%nat ->
  outcomes (calibrate led_period fuel m) (fun tr out =>
    (length tr <= fuel)%nat /\
    (out = Ok None \/ exists p, out = Ok (Some p) /\ 4 * min_period <= p <= m) /\
    Forall (fun e => exists p, fst e = pwm_set_dt p (p / 2) /\ 4 * min_period <= p <= m) tr).
Proof.
  pose proof min_period_bound as [H0 H1].
  revert m. induction fuel as [|fuel IH]; intros m Hm Hl Hf Hpos; [lia|]. cbn [calibrate].
  apply outcomes_call. intros r. cbn [prog_bind']. case_test.
  - assert (Hd : 0 <= m / 2 <= m) by (split; [apply Z.div_pos; lia | apply Z.div_le_upper_bound; lia]).
    rewrite (u32_id (4 * min_period)) by lia. case_test.
    + apply outcomes_ret. split_and!; [cbn; lia | by left | constructor; [by exists m | done]].
    + assert (Hf' : m / 2 / 2 ^ Z.of_nat fuel < 4 * min_period).
      { rewrite Z.div_div by lia. rewrite <- Z.pow_succ_r by lia. by rewrite <- Nat2Z.inj_succ. }
      assert (Hfu : (0 < fuel)%nat).
      { destruct fuel; [|lia]. change (2 ^ Z.of_nat 0) with 1 in Hf'. rewrite Z.div_1_r in Hf'. lia. }
      eapply outcomes_mono; [|apply IH; [lia | lia | done | done]]. intros tr out (Hlen & Ho & Hall). cbv beta.
      split_and!; [cbn; lia | destruct Ho as [->|(p & -> & Hp)]; [by left | right; exists p; split; [done | lia]] |].
      constructor; [by exists m|]. eapply Forall_impl; [exact Hall|]. intros e (p & -> & Hp). exists p. split; [done | lia].
  - apply outcomes_ret. split_and!; [cbn; lia | right; exists m; split; [done | lia] | constructor; [by exists m | done]].
Qed.

(** Below 50 ns the limit is 0, and with a device that accepts no period the
    loop never ends. *)
Lemma calibration_endless fuel m :
  led_period < 50 -> 0 <= m ->
  outcomes (calibrate led_period fuel m) (fun tr out => Forall (fun e => aret (snd e) <> 0) tr -> out = Stop OutOfFuel).
Proof.
  intros Hp. assert (E : min_period = 0) by (apply Z.div_small; unfold MIN_SCALE; lia).
  revert m. induction fuel as [|fuel IH]; intros m Hm; cbn [calibrate]; [by apply outcomes_halt|].
  apply outcomes_call. intros r. cbn [prog_bind']. case_test.
  - rewrite E. change (u32 (4 * 0)) with 0. assert (0 <= m / 2) by (apply Z.div_pos; lia).
    rewrite (proj2 (Z.ltb_ge (m / 2) 0)) by done. eapply outcomes_mono; [|by apply IH].
    intros tr out H' Hall. apply H'. by apply Forall_cons in Hall as [_ ?].
  - apply outcomes_ret. intros [Hr _]%Forall_cons. cbn in Hr. lia.
Qed.

(** What the thread asks of the PWM: first the calibration, then the loop. *)
Definition pwm_settings (tr : list (dcall * answer)) : list (Z * Z) :=
  omap (fun e => match fst e with pwm_set_dt p q => Some (p, q) | _ => None end) tr.

Lemma settings_in_bounds tr :
  Forall (fun '(p, q) => min_period <= p <= led_period /\ q = p / 2) (pwm_settings tr) <->
  Forall (fun e => in_bounds led_period (fst e)) tr.
Proof.
  induction tr as [|[c r] tr IH]; [by split|]. rewrite Forall_cons. unfold pwm_settings in *.
  destruct c; cbn -[min_period]; rewrite ?Forall_cons; rewrite IH; tauto.
Qed.

Lemma five_tries : 50 <= led_period -> led_period / 2 ^ Z.of_nat 5 < 4 * min_period.
Proof.
  intros Hp. change (2 ^ Z.of_nat 5) with 32. apply Z.div_lt_upper_bound; [lia|]. unfold Drivers.min_period, MIN_SCALE.
  pose proof (Z.div_mod led_period 50 ltac:(lia)). pose proof (Z.mod_pos_bound led_period 50 ltac:(lia)). lia.
Qed.

(** C22: For a device tree period of at least 50 ns the PWM thread's
    calibration needs at most five tries, and every period the thread sets,
    in any number of turns, lies between a fiftieth of the device tree period
    and that period, with half of it as pulse, also where doubling wraps around
    in 32 bits. *)
Theorem pwm_periods_bounded turns tr out :
  50 <= led_period -> runs (start_pwmleds led_period 5 turns) tr out ->
  out = Ok tt /\ Forall (fun '(p, q) => min_period <= p <= led_period /\ q = p / 2) (pwm_settings tr).
Proof.
  intros Hp Hr. rewrite settings_in_bounds. revert tr out Hr. pose proof min_period_bound as [H0 H1].
  change (outcomes (start_pwmleds led_period 5 turns) (fun tr out =>
    out = Ok tt /\ Forall (fun e => in_bounds led_period (fst e)) tr)).
  unfold start_pwmleds. apply outcomes_call. intros r. cbn [prog_bind'].
  case_test; [apply outcomes_ret; split; [done | by constructor]|].
  apply outcomes_call. intros s. cbn [prog_bind']. apply outcomes_bind.
  eapply outcomes_mono; [|apply calibrate_spec; [lia | lia | by apply five_tries | lia]].
  intros tr out (_ & Ho & Hall). cbv beta.
  assert (Hc : Forall (fun e => in_bounds led_period (fst e)) tr).
  { eapply Forall_impl; [exact Hall|]. intros e (p & -> & Hb). cbn. lia. }
  destruct Ho as [-> | (m & -> & Hm)].
  - apply outcomes_ret. rewrite app_nil_r. split; [done | by repeat constructor].
  - eapply outcomes_mono; [|apply (pwm_loop_bounds turns m m 0); lia]. intros tr' out [-> Ht]. split; [done|].
    do 2 (constructor; [done|]). apply Forall_app. split; [done|]. eapply Forall_impl; [exact Ht|].
    intros [[] ?]; cbn; lia.
Qed.
End Pwm.

(** Doubling wraps around for the longest device tree period. *)
Example doubling_wraps : next_period (2 ^ 32 - 1) (2 ^ 32 - 1) 2748779040 1 = (1202590784, 1).
Proof. reflexivity. Qed.

Definition pwm_env (hist : list (dcall * answer)) (c : dcall) : answer :=
  match c with pwm_set_dt p _ => Answer (if p >? 6000 then -22 else 0) [] | _ => Answer 1 [] end.
Definition pwm_run := run pwm_env (start_pwmleds 20000 5 12) [].

Lemma pwm_periods_bounded_witness :
  map fst (pwm_settings (snd pwm_run)) =
    [20000; 10000; 5000; 5000; 2500; 1250; 625; 800; 1600; 3200; 2500; 1250; 625; 800; 1600] /\
  fst pwm_run = Ok tt /\
  Forall (fun '(p, q) => min_period 20000 <= p <= 20000 /\ q = p / 2) (pwm_settings (snd pwm_run)).
Proof.
  split; [vm_compute; reflexivity|].
  apply (pwm_periods_bounded 20000 ltac:(lia) 12); [lia|].
  apply (run_runs _ pwm_env). unfold pwm_run. apply surjective_pairing.
Defined.
