(* ===== verification/Py.v ===== *)
(** What the files of the MicroPython port share: code that updates a state,
    calls its environment and may raise a Python exception, and Python's values
    as far as the port builds them. Parsing arguments is the runtime's work:
    the operations of the port's files take the parsed values. *)

From S2P Require Import Prelude.

(** ** Exceptions *)

(** The exceptions the port raises: OSError with an [errno] argument, or with a
    message that names an [errno] (0 when it names none); [Pending] is what a
    scheduled callback or Ctrl-C raises, by its object. *)
Inductive exn :=
  | OSError (errno : Z)
  | OSErrorMsg (errno : Z)
  | ValueError
  | TypeError
  | RuntimeError
  | NotImplementedError
  | Pending (e : Z).
Inductive py_res (A : Type) :=
  | Val (a : A)
  | Raise (e : exn).
Arguments Val {A} _.
Arguments Raise {A} _.

(** Code that may raise: the state survives the exception. *)
Definition py (C R S A : Type) : Type := stp C R S (py_res A).
#[export] Instance py_ret {C R S} : MRet (py C R S) := fun _ a s => Ret (Val a, s).
#[export] Instance py_bind {C R S} : MBind (py C R S) := fun A B f m s =>
  prog_bind' (fun '(r, s') => match r with Val a => f a s' | Raise e => Ret (Raise e, s') end) (m s).

Definition raise {C R S A} (e : exn) : py C R S A := fun s => Ret (Raise e, s).
Definition py_call {C R S} (c : C) : py C R S R := fun s => Call c (fun r => Ret (Val r, s)).
Definition py_get {C R S A} (f : S -> A) : py C R S A := fun s => Ret (Val (f s), s).
Definition py_set {C R S} (f : S -> S) : py C R S unit := fun s => Ret (Val tt, f s).
(** Code of the C level, which raises nothing. *)
Definition py_lift {C R S A} (m : stm S A) : py C R S A := fun s =>
  match m s with Ok (a, s') => Ret (Val a, s') | Stop e => Halt e end.
Definition py_fault {C R S A} : py C R S A := fun _ => Halt UB.
(** C code that calls but raises nothing. *)
Definition py_stp {C R S A} (m : stp C R S A) : py C R S A := fun s => '(a, s') ← m s; Ret (Val a, s').

(** ** Values *)

(** The objects the port returns; [Obj] is any other object, by its address. *)
Inductive value :=
  | None_
  | Bool (b : bool)
  | Int (z : Z)
  | Str (s : list Z)
  | Bytes (s : list Z)
  | Tuple (l : list value)
  | List (l : list value)
  | Obj (p : Z).

Definition MP_STREAM_ERROR : Z := UINT32_MAX.

(** ** Reasoning about every run *)

Section Py.
Context {C R S : Type}.

Lemma py_bind_val {A B} (m : py C R S A) (f : A -> py C R S B) s a s' :
  m s = Ret (Val a, s') -> (m ≫= f) s = f a s'.
Proof. intros E. unfold mbind, py_bind. by rewrite E. Qed.

Lemma py_bind_raise {A B} (m : py C R S A) (f : A -> py C R S B) s e s' :
  m s = Ret (Raise e, s') -> (m ≫= f) s = Ret (Raise e, s').
Proof. intros E. unfold mbind, py_bind. by rewrite E. Qed.

Lemma outcomes_py {A B} (m : py C R S A) (f : A -> py C R S B) s (Q : list (C * R) -> res (py_res B * S) -> Prop) :
  outcomes (m s) (fun tr out => match out with
    | Ok (Val a, s') => outcomes (f a s') (fun tr' out' => Q (tr ++ tr') out')
    | Ok (Raise e, s') => Q tr (Ok (Raise e, s'))
    | Stop e => Q tr (Stop e)
    end) -> outcomes ((m ≫= f) s) Q.
Proof.
  intros H. unfold mbind, py_bind. change (prog_bind' ?f ?p) with (p ≫= f). apply outcomes_bind.
  eapply outcomes_mono; [|exact H]. intros tr [[[a|e] s']|e]; try done.
  intros HQ. apply outcomes_ret. by rewrite app_nil_r.
Qed.

Lemma outcomes_py_call {B} c (f : R -> py C R S B) s (Q : list (C * R) -> res (py_res B * S) -> Prop) :
  (forall r, outcomes (f r s) (fun tr out => Q ((c, r) :: tr) out)) -> outcomes ((py_call c ≫= f) s) Q.
Proof. intros H. by apply outcomes_call. Qed.

Lemma outcomes_py_assoc {A B D} (m : py C R S A) (f : A -> py C R S B) (g : B -> py C R S D) s Q :
  outcomes ((m ≫= (fun a => f a ≫= g)) s) Q -> outcomes (((m ≫= f) ≫= g) s) Q.
Proof.
  intros H tr out Hr. apply H. clear H Q. revert tr out Hr. unfold mbind, py_bind.
  induction (m s) as [[[a|e] s'] | e | c k IH]; intros tr out Hr; [done | done | done|].
  cbn in *. apply runs_call_inv in Hr as (r & tr' & -> & Hr). constructor. by apply IH.
Qed.
End Py.

(** Run the next operation of Python-level code in an [outcomes] goal. *)
Ltac py_step :=
  lazymatch goal with
  | |- outcomes (((_ ≫= _) ≫= _) _) _ => apply outcomes_py_assoc
  | |- outcomes ((py_call _ ≫= _) _) _ => apply outcomes_py_call; intros ?
  | |- outcomes ((mret _ ≫= _) _) _ => erewrite py_bind_val by reflexivity; cbv beta
  | |- outcomes ((py_get _ ≫= _) _) _ => erewrite py_bind_val by reflexivity; cbv beta
  | |- outcomes ((py_set _ ≫= _) _) _ => erewrite py_bind_val by reflexivity; cbv beta
  | |- outcomes ((raise _ ≫= _) _) _ => erewrite py_bind_raise by reflexivity; apply outcomes_ret
  | |- outcomes (mret _ _) _ => apply outcomes_ret
  | |- outcomes (raise _ _) _ => apply outcomes_ret
  | |- outcomes (py_get _ _) _ => apply outcomes_ret
  | |- outcomes (py_set _ _) _ => apply outcomes_ret
  | |- outcomes (Ret _) _ => apply outcomes_ret
  | |- outcomes (Halt _) _ => apply outcomes_halt
  | |- outcomes (((if ?b then _ else _) ≫= _) _) _ => destruct b eqn:?; zify_bool
  | |- outcomes ((if ?b then _ else _) _) _ => destruct b eqn:?; zify_bool
  end.
