(* ===== verification/Fs.v ===== *)
(** app/micropython/zephyr_filesystem.c: MicroPython's VFS object over Zephyr's
    file system. Zephyr's file system calls are the environment; MicroPython's
    [vstr] is a byte list whose buffer has an address, because the paths the
    code builds are pointers into it. *)

From S2P Require Import Prelude Py.

Definition slash : Z := 47.
Definition dot : Z := 46.

Inductive fscall :=
  | fs_open (fp : Z) (path : list Z) (flags : Z)
  | fs_close (fp : Z)
  | fs_read (fp size : Z)
  | fs_write (fp : Z) (data : list Z)
  | fs_seek (fp offset whence : Z)
  | fs_tell (fp : Z)
  | fs_sync (fp : Z)
  | fs_opendir (dir : Z) (path : list Z)
  | fs_readdir (dir : Z)
  | fs_closedir (dir : Z)
  | fs_mkdir (path : list Z)
  | fs_stat (path : list Z)
  | fs_unlink (path : list Z)
  | fs_rename (old new : list Z)
  | fs_statvfs (mount : list Z)
  | fs_mount (mount : list Z)
  | fs_unmount (mount : list Z)
  | fs_mkfs (mount : list Z)
  | mount_is_linked (mount : list Z)
  | mount_fs (mount : list Z)          (* the pointer mount->fs *)
  | obj_malloc_with_finaliser
  | m_del_obj (p : Z).

(** [struct fs_dirent] as a call stores it: type, size and name. *)
Definition st_type (r : answer) : Z := nth 0 (aout r) 0.
Definition st_size (r : answer) : Z := nth 1 (aout r) 0.
Definition st_name (r : answer) : list Z := drop 2 (aout r).

(** [zephyr_fs_obj_t]: the mount, the current directory below it, and the
    string [root_dir] with the buffer it lies in: its address, its size, and
    the C string it was last made to hold. *)
Record zephyr_fs_obj := FsObj {
  mount : list Z;
  cur_dir : list Z;
  root_dir : list Z;
  buf_addr : Z;
  buf_alloc : Z;
  buf_str : list Z
}.
Definition set_cur_dir x o := FsObj (mount o) x (root_dir o) (buf_addr o) (buf_alloc o) (buf_str o).
Definition set_buf a n s o := FsObj (mount o) (cur_dir o) (root_dir o) a n s.

Local Abbreviation fm := (py fscall answer zephyr_fs_obj).

Section Fs.
(** Constants of Zephyr and MicroPython, and the configuration. *)
Context (FS_O_READ FS_O_WRITE FS_O_RDWR FS_O_CREATE FS_O_APPEND FS_O_TRUNC : Z).
Context (FS_DIR_ENTRY_FILE FS_DIR_ENTRY_DIR MP_S_IFDIR MP_S_IFREG MAX_FILE_NAME : Z).
Context (MP_STREAM_SEEK MP_STREAM_FLUSH MP_STREAM_CLOSE : Z).
Context (zephyr_fs_mounts : list (list Z)) (automount : list Z -> bool).
(** MicroPython's [vstr]: cutting bytes out of a string, and the buffer (its
    address and size) after making room for so many bytes. *)
Context (vstr_cut_out_bytes : list Z -> Z -> Z -> list Z).
Context (vstr_extend : Z * Z -> Z -> Z * Z).

(** Making the buffer of [root_dir] hold the C string [s]. *)
Definition store (s : list Z) : fm Z := fun o =>
  let '(a, n) := vstr_extend (buf_addr o, buf_alloc o) (len s + 1) in Ret (Val a, set_buf a n s o).
(** The C string a path pointer points to, when it is read: the buffer's
    present contents, if the buffer is still there. *)
Definition deref (p : Z) : fm (list Z) := fun o =>
  if p =? buf_addr o then Ret (Val (buf_str o), o) else Halt UB.

(** [path[0] != '/'] of a C string. *)
Definition relative (path : list Z) : bool := negb (nth 0 path 0 =? slash).

Definition zephyr_fs_make_path (path : list Z) : fm Z := fun o =>
  let path_len := len path in
  let root := if relative path then root_dir o ++ [slash] ++ cur_dir o else root_dir o in
  let path_len :=
    if (path_len >? 0) && ((nth (Z.to_nat (path_len - 1)) path 0 =? dot) &&
         ((path_len =? 1) || (nth (Z.to_nat (path_len - 2)) path 0 =? slash)))
    then path_len - 1 else path_len in
  store (root ++ take (Z.to_nat path_len) path) o.

(** ** Files: the return value and [*errcode] *)

Definition stream_result (err : Z) : fm (Z * Z) :=
  if err <? 0 then mret (MP_STREAM_ERROR, - err) else mret (err, 0).

(** Answers the bytes read beside the result. *)
Definition file_obj_read (fp size : Z) : fm (Z * Z * list Z) :=
  r ← py_call (fs_read fp size);
  '(n, e) ← stream_result (aret r);
  mret (n, e, aout r).

Definition file_obj_write (fp : Z) (data : list Z) : fm (Z * Z) :=
  r ← py_call (fs_write fp data);
  stream_result (aret r).

(** The new offset of a seek comes with the result. *)
Definition file_obj_ioctl (fp request offset whence : Z) : fm (Z * Z * Z) :=
  if request =? MP_STREAM_SEEK then
    r ← py_call (fs_seek fp offset whence);
    if aret r <? 0 then mret (MP_STREAM_ERROR, - aret r, offset)
    else
      t ← py_call (fs_tell fp);
      if aret t <? 0 then mret (MP_STREAM_ERROR, - aret r, offset) else mret (0, 0, aret t)
  else if request =? MP_STREAM_FLUSH then
    r ← py_call (fs_sync fp);
    if aret r <? 0 then mret (MP_STREAM_ERROR, - aret r, offset) else mret (0, 0, offset)
  else if request =? MP_STREAM_CLOSE then
    r ← py_call (fs_close fp);
    if aret r <? 0 then mret (MP_STREAM_ERROR, - aret r, offset) else mret (0, 0, offset)
  else mret (MP_STREAM_ERROR, EINVAL, offset).

(** The flags, the x mode and whether the file is binary, after one character
    of the mode string; [None] where the code raises ValueError. *)
Definition mode_char (c : Z) (st : Z * bool * bool) : option (Z * bool * bool) :=
  let '(flags, x_mode, binary) := st in
  let set new_flags x_mode := if negb (new_flags =? 0) then
      if negb (flags =? 0) then None else Some (new_flags, x_mode, binary)
    else Some (flags, x_mode, binary) in
  if c =? 114 (* r *) then set FS_O_READ x_mode
  else if c =? 119 (* w *) then set (Z.lor (Z.lor FS_O_WRITE FS_O_CREATE) FS_O_TRUNC) x_mode
  else if c =? 120 (* x *) then set FS_O_WRITE true
  else if c =? 97 (* a *) then set (Z.lor (Z.lor FS_O_WRITE FS_O_CREATE) FS_O_APPEND) x_mode
  else if c =? 43 (* + *) then Some (Z.lor flags FS_O_RDWR, x_mode, binary)
  else if c =? 98 (* b *) then Some (flags, x_mode, true)
  else if c =? 116 (* t *) then Some (flags, x_mode, false)
  else Some st.
Fixpoint parse_mode (mode : list Z) (st : Z * bool * bool) : option (Z * bool * bool) :=
  match mode with
  | [] => Some st
  | c :: mode => match mode_char c st with Some st => parse_mode mode st | None => None end
  end.

(** The file object, and whether it is a FileIO rather than a TextIOWrapper. *)
Definition zephyr_fs_open (path_in mode : list Z) : fm (Z * bool) :=
  path ← zephyr_fs_make_path path_in;
  match parse_mode mode (0, false, false) with
  | None => raise ValueError
  | Some (flags, x_mode, binary) =>
      o ← py_call obj_malloc_with_finaliser;
      let fp := aret o in
      p ← deref path;
      r ← py_call (fs_open fp p flags);
      e ← (if x_mode && (aret r <? 0) then
             p ← deref path;
             r ← py_call (fs_open fp p (Z.lor flags FS_O_CREATE));
             mret (aret r)
           else if x_mode then
             py_call (fs_close fp);;
             raise (OSErrorMsg (- aret r))
           else mret (aret r));
      if e <? 0 then
        py_call (m_del_obj fp);;
        raise (OSErrorMsg (- e))
      else mret (fp, binary)
  end.

(** ** Directories *)

(** [None] for [MP_OBJ_STOP_ITERATION]. *)
Definition mp_zephyr_fs_ilistdir_it_iternext (dir : Z) (is_str : bool) : fm (option value) :=
  r ← py_call (fs_readdir dir);
  if (aret r <? 0) || (nth 0 (st_name r) 0 =? 0) then
    py_call (fs_closedir dir);;
    mret None
  else
    mret (Some (Tuple [if is_str then Str (st_name r) else Bytes (st_name r);
      Int (if st_type r =? FS_DIR_ENTRY_DIR then MP_S_IFDIR else MP_S_IFREG);
      Int 0; Int (st_size r)])).

Definition mp_zephyr_fs_ilistdir_it_del (dir : Z) : fm value :=
  py_call (fs_closedir dir);; mret None_.

(** The argument: none, a string or bytes; the iterator and its [is_str]. *)
Definition zephyr_fs_ilistdir_func (arg : option (list Z * bool)) : fm (Z * bool) :=
  let is_str_type := match arg with Some (_, is_bytes) => negb is_bytes | None => true end in
  path ← match arg with Some (p, _) => q ← zephyr_fs_make_path p; mret (Some q) | None => mret None end;
  iter ← py_call obj_malloc_with_finaliser;
  p ← match path with Some q => deref q | None => mret [] end;
  r ← py_call (fs_opendir (aret iter) p);
  if aret r <? 0 then raise (OSErrorMsg (- aret r)) else mret (aret iter, is_str_type).

Definition zephyr_fs_mkdir (path_o : list Z) : fm value :=
  path ← zephyr_fs_make_path path_o;
  p ← deref path;
  r ← py_call (fs_mkdir p);
  if aret r <? 0 then raise (OSErrorMsg (- aret r)) else mret None_.

(** [for (; from < CWD_LEN && p(cwd[from]); ++from)] over the bytes from
    [from] on. *)
Fixpoint scan (p : Z -> bool) (s : list Z) (from : Z) : Z :=
  match s with
  | c :: s => if p c then scan p s (from + 1) else from
  | [] => from
  end.
Definition scan_from (p : Z -> bool) (cwd : list Z) (from : Z) : Z := scan p (drop (Z.to_nat from) cwd) from.

(** [for (--to; to > 1 && cwd[to - 1] != '/'; --to)] *)
Fixpoint skip_back (n : nat) (cwd : list Z) (to : Z) : Z :=
  match n with
  | O => to
  | S n => if (to >? 1) && negb (nth (Z.to_nat (to - 1)) cwd 0 =? slash) then skip_back n cwd (to - 1) else to
  end.

(** One turn of the loop that squeezes the path, from [to] and [from]. *)
Definition squeeze_step (cwd : list Z) (to from : Z) : list Z * Z * Z :=
  let from := scan_from (fun c => c =? slash) cwd from in
  let '(cwd, from) := if from >? to then (vstr_cut_out_bytes cwd to (from - to), to) else (cwd, from) in
  let from := scan_from (fun c => negb (c =? slash)) cwd from in
  if (from - to =? 1) && (nth (Z.to_nat to) cwd 0 =? dot) then
    (vstr_cut_out_bytes cwd to (from + 1 - to), to, to)
  else if (from - to =? 2) && ((nth (Z.to_nat to) cwd 0 =? dot) && (nth (Z.to_nat (to + 1)) cwd 0 =? dot)) then
    let back := if to >? 1 then skip_back (Z.to_nat to) cwd (to - 1) else to in
    (vstr_cut_out_bytes cwd back (from + 1 - back), back, back)
  else (cwd, from + 1, from + 1).

(** The loop runs [fuel] turns at most. *)
Fixpoint squeeze (fuel : nat) (cwd : list Z) (to from : Z) : res (list Z) :=
  if from <? len cwd then
    match fuel with
    | O => Stop OutOfFuel
    | S fuel => let '(cwd, to, from) := squeeze_step cwd to from in squeeze fuel cwd to from
    end
  else Ok cwd.

Definition zephyr_fs_chdir (path : list Z) : fm value :=
  o ← py_get (fun o => o);
  let l := len (root_dir o) in
  let chdir := root_dir o ++ (if relative path then [slash] ++ cur_dir o else []) ++ path ++ [slash] in
  chdir ← py_lift (fun o => c ← squeeze (length chdir) chdir 1 1; Ok (c, o));
  r ← py_call (fs_stat chdir);
  let chdir := vstr_cut_out_bytes chdir 0 (l + 1) in
  if aret r <? 0 then raise (OSErrorMsg (- aret r))
  else if negb (st_type r =? FS_DIR_ENTRY_DIR) then raise (OSError ENOTDIR)
  else
    py_set (set_cur_dir chdir);;
    mret None_.

Definition zephyr_fs_getcwd : fm value :=
  o ← py_get (fun o => o);
  if len (cur_dir o) =? 0 then mret (Str [slash])
  else
    let l := len (root_dir o) in
    path ← store (root_dir o ++ [slash] ++ cur_dir o);
    p ← deref path;
    mret (Str (drop (Z.to_nat l) p)).

(** ** Entries *)

Definition zephyr_fs_rmdir (path_in : list Z) : fm value :=
  path ← zephyr_fs_make_path path_in;
  p ← deref path;
  r ← py_call (fs_stat p);
  if aret r <? 0 then raise (OSErrorMsg (- aret r))
  else if st_type r =? FS_DIR_ENTRY_FILE then raise (OSErrorMsg 0)
  else
    p ← deref path;
    r ← py_call (fs_unlink p);
    if aret r <? 0 then raise (OSErrorMsg (- aret r)) else mret None_.

Definition zephyr_fs_remove (path_in : list Z) : fm value :=
  path ← zephyr_fs_make_path path_in;
  p ← deref path;
  r ← py_call (fs_stat p);
  if aret r <? 0 then raise (OSErrorMsg (- aret r))
  else if st_type r =? FS_DIR_ENTRY_DIR then raise (OSErrorMsg 0)
  else
    p ← deref path;
    r ← py_call (fs_unlink p);
    if aret r <? 0 then raise (OSErrorMsg (- aret r)) else mret None_.

Definition zephyr_fs_rename (path_in path_out : list Z) : fm value :=
  old_path ← zephyr_fs_make_path path_in;
  new_path ← zephyr_fs_make_path path_out;
  old ← deref old_path;
  new ← deref new_path;
  r ← py_call (fs_rename old new);
  if aret r <? 0 then raise (OSErrorMsg (- aret r)) else mret None_.

Inductive import_stat := MP_IMPORT_STAT_NO_EXIST | MP_IMPORT_STAT_DIR | MP_IMPORT_STAT_FILE.

Definition zephyr_fs_import_stat (path : list Z) : fm import_stat :=
  ppath ← zephyr_fs_make_path path;
  p ← deref ppath;
  r ← py_call (fs_stat p);
  if aret r =? 0 then
    mret (if st_type r =? FS_DIR_ENTRY_DIR then MP_IMPORT_STAT_DIR else MP_IMPORT_STAT_FILE)
  else mret MP_IMPORT_STAT_NO_EXIST.

Definition zephyr_fs_stat (path_in : list Z) : fm value :=
  path ← zephyr_fs_make_path path_in;
  p ← deref path;
  r ← py_call (fs_stat p);
  if aret r <? 0 then raise (OSErrorMsg (- aret r))
  else
    mret (Tuple [Int (if st_type r =? FS_DIR_ENTRY_DIR then MP_S_IFDIR else MP_S_IFREG);
      Int 0; Int 0; Int 0; Int 0; Int 0; Int (st_size r); Int 0; Int 0; Int 0]).

(** ** Mounting *)

(** The call stores f_bsize, f_frsize, f_blocks and f_bfree. *)
Definition zephyr_fs_statvfs : fm value :=
  o ← py_get (fun o => o);
  r ← py_call (fs_statvfs (mount o));
  if aret r <? 0 then raise (OSErrorMsg (- aret r))
  else
    let f n := nth n (aout r) 0 in
    let bsize := if f 1%nat >? f 0%nat then f 1%nat else f 0%nat in
    mret (Tuple [Int bsize; Int (f 1%nat); Int (f 2%nat); Int (f 3%nat); Int (f 3%nat);
      Int 0; Int 0; Int 0; Int 0; Int MAX_FILE_NAME]).

Definition zephyr_fs_umount : fm value :=
  o ← py_get (fun o => o);
  r ← py_call (fs_unmount (mount o));
  if aret r <? 0 then raise (OSErrorMsg (- aret r)) else mret None_.

Definition zephyr_fs_mount : fm value :=
  o ← py_get (fun o => o);
  linked ← py_call (mount_is_linked (mount o));
  if negb (aret linked =? 0) && automount (mount o) then mret None_
  else
    r ← py_call (fs_mount (mount o));
    e ← (if aret r =? - EBUSY then
           u ← py_call (fs_unmount (mount o));
           if aret u <? 0 then raise (OSErrorMsg (- aret u))
           else r ← py_call (fs_mount (mount o)); mret (aret r)
         else mret (aret r));
    if e =? - EROFS then raise (OSErrorMsg 0)
    else if e <? 0 then raise (OSErrorMsg (- e))
    else mret None_.

Definition zephyr_fs_mkfs : fm value :=
  o ← py_get (fun o => o);
  r ← py_call (fs_mkfs (mount o));
  if aret r <? 0 then raise (OSErrorMsg 0) else mret None_.

(** The argument, when it is a string; a new object has a fresh buffer of 128
    bytes at the address its allocation answers. *)
Definition zephyr_fs_make_new (arg : option (list Z)) : py fscall answer unit zephyr_fs_obj :=
  match arg with
  | None => raise ValueError
  | Some mountpoint =>
      if bool_decide (mountpoint ∈ zephyr_fs_mounts) then
        fs ← py_call (mount_fs mountpoint);
        (if aret fs =? 0 then
           r ← py_call (fs_mount mountpoint);
           if negb (aret r =? 0) then raise RuntimeError else mret tt
         else mret tt);;
        b ← py_call obj_malloc_with_finaliser;
        let '(a, n) := vstr_extend (aret b, 128) (len mountpoint) in
        mret (FsObj mountpoint [] mountpoint a n mountpoint)
      else raise ValueError
  end.

Definition zephyr_fs_fstab : value := List (map Str zephyr_fs_mounts).
End Fs.
