(* ===== verification/FsThm.v ===== *)
(** Theorems on app/micropython/zephyr_filesystem.c: changing the directory
    resolves the path component by component and terminates, and renaming
    passes the new name twice. *)

From S2P Require Import Prelude Py Fs.

(** ** Paths as components *)

(** Components, each followed by a slash. *)
Definition join (cs : list (list Z)) : list Z := concat (map (fun c => c ++ [slash]) cs).
Definition component (c : list Z) : Prop := slash ∉ c.

(** Resolving components one after the other, with [st] the directories so
    far: empty components and [.] stay, [..] goes to the parent, which at the
    top is the top. *)
Definition enter (st : list (list Z)) (c : list Z) : list (list Z) :=
  if bool_decide (c = [] \/ c = [dot]) then st
  else if bool_decide (c = [dot; dot]) then take (length st - 1) st
  else st ++ [c].
Definition resolve (st cs : list (list Z)) : list (list Z) := fold_left enter cs st.

(** The components of a string that ends with a slash. *)
Fixpoint components (acc s : list Z) : list (list Z) :=
  match s with
  | [] => []
  | c :: s => if c =? slash then acc :: components [] s else components (acc ++ [c]) s
  end.

Lemma join_app a b : join (a ++ b) = join a ++ join b.
Proof. unfold join. by rewrite map_app, concat_app. Qed.
Lemma join_cons c cs : join (c :: cs) = c ++ [slash] ++ join cs.
Proof. unfold join. cbn. by rewrite <- app_assoc. Qed.

Lemma components_component acc s : component acc -> Forall component (components acc s).
Proof.
  revert acc. induction s as [|c s IH]; intros acc Ha; cbn; [done|]. destruct (c =? slash) eqn:E; zify_bool.
  - constructor; [done|]. apply IH. unfold component. apply not_elem_of_nil.
  - apply IH. unfold component in *. rewrite elem_of_app, list_elem_of_singleton. intros [?|E']; [done | by subst].
Qed.

Lemma components_join acc s : join (components acc (s ++ [slash])) = acc ++ s ++ [slash].
Proof.
  revert acc. induction s as [|c s IH]; intros acc; cbn [components app].
  - by rewrite Z.eqb_refl, join_cons, !app_nil_r.
  - destruct (c =? slash) eqn:E; zify_bool.
    + rewrite join_cons, IH. by subst.
    + rewrite IH. by rewrite <- app_assoc.
Qed.

(** ** The loop *)

Section Squeeze.
Context (cut : list Z -> Z -> Z -> list Z).
Hypothesis cut_inside : forall l pos n,
  0 <= pos -> 0 <= n -> pos + n <= len l -> cut l pos n = take (Z.to_nat pos) l ++ drop (Z.to_nat (pos + n)) l.

Lemma cut_app P x r n : n = len x -> cut (P ++ x ++ r) (len P) n = P ++ r.
Proof.
  intros ->. rewrite cut_inside; [| apply len_nonneg | apply len_nonneg | rewrite !len_app; pose proof (len_nonneg r); lia].
  unfold len. rewrite Nat2Z.id, take_app_length. f_equal. rewrite app_assoc.
  replace (Z.to_nat _) with (length (P ++ x)) by (rewrite length_app; lia). by rewrite drop_app_length.
Qed.

Lemma scan_run p x r k :
  Forall (fun c => p c = true) x -> match r with [] => True | c :: _ => p c = false end ->
  scan p (x ++ r) k = k + len x.
Proof.
  intros Hx Hr. revert k. induction Hx as [|c x Hc Hx IH]; intros k; cbn [app scan].
  - destruct r as [|c r]; cbn; [change (len []) with 0; lia | rewrite Hr; change (len []) with 0; lia].
  - rewrite Hc, IH, len_cons. lia.
Qed.

Lemma scan_from_app p P s k : k = len P -> scan_from p (P ++ s) k = scan p s k.
Proof. intros ->. unfold scan_from, len. by rewrite Nat2Z.id, drop_app_length. Qed.

(** Going back over the last component to the slash before it. *)
Lemma skip_back_run n P x r :
  component x -> 1 <= len P -> len P = 1 \/ nth (length P - 1) P 0 = slash -> (length x <= n)%nat ->
  skip_back n (P ++ x ++ r) (len P + len x) = len P.
Proof.
  intros Hx HP Hend. revert x Hx r. induction n as [|n IH]; intros x Hx r Hn.
  - destruct x; [|cbn in Hn; lia]. cbn. change (len []) with 0. lia.
  - cbn [skip_back]. destruct x as [|c x _] using rev_ind.
    + change (len []) with 0. cbn [app]. rewrite Z.add_0_r.
      replace (Z.to_nat (len P - 1)) with (length P - 1)%nat by (unfold len; lia).
      rewrite app_nth1 by (unfold len in HP; lia).
      destruct Hend as [E|E]; [by rewrite E | by rewrite E, Z.eqb_refl, andb_false_r].
    + unfold component in Hx. rewrite elem_of_app, list_elem_of_singleton in Hx.
      rewrite <- app_assoc. cbn [app].
      replace (Z.to_nat (len P + len (x ++ [c]) - 1)) with (length (P ++ x)) by (unfold len; rewrite !length_app; cbn; lia).
      rewrite (app_assoc P x), nth_middle. rewrite <- app_assoc.
      assert (Hc : (c =? slash) = false) by (apply Z.eqb_neq; intros ->; tauto). rewrite Hc.
      replace (len P + len (x ++ [c]) >? 1) with true by (symmetry; rewrite Z.gtb_ltb; apply Z.ltb_lt; unfold len in *; rewrite length_app; cbn; lia).
      cbn [negb andb]. replace (len P + len (x ++ [c]) - 1) with (len P + len x) by (unfold len; rewrite length_app; cbn; lia).
      apply IH; [unfold component; tauto|]. rewrite length_app in Hn. cbn in Hn. lia.
Qed.

(** One turn behind the prefix [P], with the leading slashes [x]. *)
Definition core (cwd : list Z) (to from : Z) : list Z * Z * Z :=
  let from := scan_from (fun c => negb (c =? slash)) cwd from in
  if (from - to =? 1) && (nth (Z.to_nat to) cwd 0 =? dot) then (cut cwd to (from + 1 - to), to, to)
  else if (from - to =? 2) && ((nth (Z.to_nat to) cwd 0 =? dot) && (nth (Z.to_nat (to + 1)) cwd 0 =? dot)) then
    let back := if to >? 1 then skip_back (Z.to_nat to) cwd (to - 1) else to in
    (cut cwd back (from + 1 - back), back, back)
  else (cwd, from + 1, from + 1).

Lemma step_slashes P x r :
  Forall (fun c => c = slash) x -> match r with [] => True | c :: _ => c <> slash end ->
  squeeze_step cut (P ++ x ++ r) (len P) (len P) = core (P ++ r) (len P) (len P).
Proof.
  intros Hx Hr. unfold squeeze_step. rewrite (scan_from_app _ P) by done.
  rewrite (scan_run _ x r); [|eapply Forall_impl; [exact Hx | by intros ? ->] | destruct r; [done | by apply Z.eqb_neq]].
  destruct x as [|c x].
  - change (len []) with 0. case_test; [lia|]. rewrite Z.add_0_r. done.
  - rewrite len_cons. case_test; [|pose proof (len_nonneg x); lia].
    rewrite (cut_app P (c :: x) r) by (rewrite len_cons; lia). done.
Qed.

Lemma core_end P : core P (len P) (len P) = (P, len P + 1, len P + 1).
Proof.
  unfold core. assert (E : scan_from (fun c => negb (c =? slash)) P (len P) = len P).
  { rewrite <- (app_nil_r P) at 1. by rewrite (scan_from_app _ P). }
  cbv zeta. by rewrite !E, Z.sub_diag.
Qed.

Lemma nth_app_len P s i k : k = len P + Z.of_nat i -> nth (Z.to_nat k) (P ++ s) 0 = nth i s 0.
Proof. intros ->. rewrite app_nth2 by (unfold len; lia). f_equal. unfold len. lia. Qed.

Lemma core_component P c r :
  component c -> c <> [] ->
  core (P ++ c ++ [slash] ++ r) (len P) (len P) =
    if bool_decide (c = [dot]) then (P ++ r, len P, len P)
    else if bool_decide (c = [dot; dot]) then
      let back := if len P >? 1 then skip_back (Z.to_nat (len P)) (P ++ c ++ [slash] ++ r) (len P - 1) else len P in
      (cut (P ++ c ++ [slash] ++ r) back (len P + 3 - back), back, back)
    else (P ++ c ++ [slash] ++ r, len P + len c + 1, len P + len c + 1).
Proof.
  intros Hc Hne. unfold core. rewrite (scan_from_app _ P) by done.
  rewrite (scan_run _ c ([slash] ++ r)); cycle 1.
  { apply Forall_forall. intros a Ha. apply negb_true_iff, Z.eqb_neq. by intros ->. }
  { done. }
  rewrite (nth_app_len P _ 0) by lia. rewrite (nth_app_len P _ 1) by lia.
  replace (len P + len c - len P) with (len c) by lia.
  destruct c as [|a [|b [|d c]]]; [done | | |].
  - change (len [a]) with 1. cbn [nth app andb Z.eqb]. case_bool_decide as E1.
    + injection E1 as ->. rewrite Z.eqb_refl. cbn. f_equal. f_equal.
      change (dot :: slash :: r) with ([dot; slash] ++ r). apply cut_app. change (len [dot; slash]) with 2. lia.
    + case_test; [exfalso; apply E1; by f_equal|]. rewrite bool_decide_eq_false_2 by done. done.
  - change (len [a; b]) with 2. cbn [nth app]. rewrite bool_decide_eq_false_2 by done.
    change (2 =? 1) with false. change (2 =? 2) with true. cbn [andb]. case_bool_decide as E1.
    + injection E1 as -> ->. rewrite Z.eqb_refl. cbn [andb]. replace (len P + 2 + 1) with (len P + 3) by lia. done.
    + destruct ((a =? dot) && (b =? dot)) eqn:E; [|done]. apply andb_true_iff in E as [Ha Hb]. zify_bool. by subst.
  - rewrite !bool_decide_eq_false_2 by done.
    replace (len (a :: b :: d :: c) =? 1) with false by (symmetry; apply Z.eqb_neq; rewrite !len_cons; pose proof (len_nonneg c); lia).
    replace (len (a :: b :: d :: c) =? 2) with false by (symmetry; apply Z.eqb_neq; rewrite !len_cons; pose proof (len_nonneg c); lia).
    done.
Qed.

(** The string [c0 / done / comps] of the loop, and its position behind
    [done]. *)
Definition prefix (c0 : Z) (done : list (list Z)) : list Z := c0 :: join done.

Lemma prefix_snoc c0 d x : prefix c0 (d ++ [x]) = prefix c0 d ++ x ++ [slash].
Proof. unfold prefix. rewrite join_app. unfold join at 2. cbn. by rewrite app_nil_r. Qed.

Lemma prefix_end c0 d : len (prefix c0 d) = 1 \/ nth (length (prefix c0 d) - 1) (prefix c0 d) 0 = slash.
Proof.
  destruct d as [|x d _] using rev_ind; [by left|]. right. rewrite prefix_snoc, app_assoc, length_app. cbn [length].
  replace (_ + 1 - 1)%nat with (length (prefix c0 d ++ x)) by lia. apply nth_middle.
Qed.

Lemma len_prefix c0 d : 1 <= len (prefix c0 d).
Proof. unfold prefix. rewrite len_cons. pose proof (len_nonneg (join d)). lia. Qed.

(** [..] behind [d] leaves [d] without its last component. *)
Lemma core_parent c0 d r :
  Forall component d ->
  core (prefix c0 d ++ [dot; dot] ++ [slash] ++ r) (len (prefix c0 d)) (len (prefix c0 d)) =
    let P := prefix c0 (take (length d - 1) d) in (P ++ r, len P, len P).
Proof.
  intros Hd. rewrite core_component; [|unfold component; rewrite !not_elem_of_cons; split_and!; [done | done | apply not_elem_of_nil] | done].
  rewrite bool_decide_eq_false_2, bool_decide_eq_true_2 by done.
  destruct d as [|x d _] using rev_ind.
  - cbn. f_equal. f_equal. apply (cut_app [c0] [dot; dot; slash] r). done.
  - apply Forall_app in Hd as [Hd Hx]. forall_cons. cbv zeta.
    rewrite length_app. cbn [length]. replace (length d + 1 - 1)%nat with (length d) by lia. rewrite take_app_length.
    rewrite prefix_snoc, !len_app. pose proof (len_prefix c0 d). pose proof (len_nonneg x). change (len [slash]) with 1.
    replace (len (prefix c0 d) + (len x + 1) >? 1) with true by (symmetry; rewrite Z.gtb_ltb; apply Z.ltb_lt; lia).
    replace (len (prefix c0 d) + (len x + 1) - 1) with (len (prefix c0 d) + len x) by lia.
    rewrite <- !app_assoc. rewrite skip_back_run; [|done|done|apply prefix_end|unfold len; lia].
    f_equal. f_equal. cbn [app].
    replace (x ++ slash :: dot :: dot :: slash :: r) with ((x ++ [slash; dot; dot; slash]) ++ r) by by rewrite <- app_assoc.
    apply cut_app. rewrite len_app. change (len [slash; dot; dot; slash]) with 4. lia.
Qed.

(** One turn consumes the leading slashes and one component. *)
Lemma core_enter c0 d c r :
  Forall component d -> component c -> c <> [] ->
  core (prefix c0 d ++ c ++ [slash] ++ r) (len (prefix c0 d)) (len (prefix c0 d)) =
    let P := prefix c0 (enter d c) in (P ++ r, len P, len P).
Proof.
  intros Hd Hc Hne. unfold enter. case_bool_decide as E.
  - destruct E as [?| ->]; [done|]. rewrite core_component by done. by rewrite bool_decide_eq_true_2.
  - case_bool_decide as E2; [subst; by apply core_parent|]. rewrite core_component by done.
    rewrite bool_decide_eq_false_2 by tauto. rewrite bool_decide_eq_false_2 by done. cbv zeta.
    rewrite prefix_snoc, !len_app. change (len [slash]) with 1. rewrite <- !app_assoc. f_equal; [f_equal|]; lia.
Qed.

Lemma enter_component d c : Forall component d -> component c -> Forall component (enter d c).
Proof.
  intros Hd Hc. unfold enter. repeat case_bool_decide; [done | by apply Forall_take | apply Forall_app; by repeat constructor].
Qed.

(** Empty components at the front of the rest. *)
Lemma leading_empty cs :
  Forall component cs ->
  exists x cs', join cs = x ++ join cs' /\ Forall (fun c => c = slash) x /\ (length cs' <= length cs)%nat /\
    (forall d, resolve d cs = resolve d cs') /\ Forall component cs' /\
    match cs' with [] => True | c :: _ => c <> [] end.
Proof.
  induction 1 as [|c cs Hc Hcs IH]; [by exists [], []|].
  destruct (decide (c = [])) as [->|Hne]; [|exists [], (c :: cs); by repeat constructor].
  destruct IH as (x & cs' & E & Hx & Hl & Hr & Hc' & Hh). exists (slash :: x), cs'.
  split_and!; [by rewrite join_cons, E | by constructor | cbn; lia | intros d; apply Hr | done | done].
Qed.

Lemma squeeze_resolve fuel c0 d cs :
  Forall component d -> Forall component cs -> (length cs <= fuel)%nat ->
  squeeze cut fuel (prefix c0 d ++ join cs) (len (prefix c0 d)) (len (prefix c0 d)) = Ok (prefix c0 (resolve d cs)).
Proof.
  revert d cs. induction fuel as [|fuel IH]; intros d cs Hd Hcs Hf.
  { destruct cs; [|cbn in Hf; lia]. cbn. by rewrite app_nil_r, Z.ltb_irrefl. }
  destruct (leading_empty cs Hcs) as (x & cs' & E & Hx & Hl & Hr & Hc' & Hh). rewrite E, Hr.
  cbn [squeeze]. destruct cs' as [|c cs'].
  - cbn [join concat map]. change (join []) with (@nil Z). rewrite app_nil_r. case_test; cycle 1.
    { rewrite len_app in Heqb. destruct x; [by rewrite app_nil_r | rewrite len_cons in Heqb; pose proof (len_nonneg x); lia]. }
    rewrite <- (app_nil_r (prefix c0 d ++ x)), <- app_assoc, step_slashes by done. rewrite app_nil_r, core_end.
    destruct fuel; cbn; (case_test; [lia | done]).
  - apply Forall_cons in Hc' as [Hcc Hc']. case_test; cycle 1.
    { rewrite !len_app, join_cons, !len_app in Heqb. pose proof (len_nonneg x). pose proof (len_nonneg c).
      pose proof (len_nonneg (join cs')). change (len [slash]) with 1 in Heqb. lia. }
    rewrite step_slashes; [|done|]; cycle 1.
    { rewrite join_cons. destruct c as [|a c]; [done|]. cbn. intros ->. by apply Hcc, list_elem_of_here. }
    rewrite join_cons, core_enter by done. cbv zeta.
    change (resolve d (c :: cs')) with (resolve (enter d c) cs').
    apply IH; [by apply enter_component | done | cbn in Hl; lia].
Qed.
End Squeeze.

(** ** Changing the directory *)

(** A directory name. *)
Definition name (c : list Z) : Prop := component c /\ c <> [] /\ c <> [dot] /\ c <> [dot; dot].

Lemma enter_name d c : name c -> enter d c = d ++ [c].
Proof. intros (_ & ? & ? & ?). unfold enter. by rewrite !bool_decide_eq_false_2 by tauto. Qed.

Lemma resolve_names d cs : Forall name cs -> resolve d cs = d ++ cs.
Proof.
  intros H. revert d. induction H as [|c cs Hc Hcs IH]; intros d; [by rewrite app_nil_r|].
  change (resolve d (c :: cs)) with (resolve (enter d c) cs). rewrite IH, enter_name by done. by rewrite <- app_assoc.
Qed.

Lemma resolve_app d a b : resolve d (a ++ b) = resolve (resolve d a) b.
Proof. apply fold_left_app. Qed.

Lemma enter_names d c : Forall name d -> component c -> Forall name (enter d c).
Proof.
  intros Hd Hc. unfold enter. repeat case_bool_decide; [done | by apply Forall_take|].
  apply Forall_app. split; [done|]. constructor; [|done]. unfold name. tauto.
Qed.

Lemma resolve_all_names d cs : Forall name d -> Forall component cs -> Forall name (resolve d cs).
Proof.
  intros Hd Hcs. revert d Hd. induction Hcs as [|c cs Hc Hcs IH]; intros d Hd; [done|]. by apply IH, enter_names.
Qed.

Lemma len_components cs : Forall component cs -> (length cs <= length (join cs))%nat.
Proof.
  induction 1 as [|c cs Hc Hcs IH]; [done|]. rewrite join_cons, !length_app. cbn. lia.
Qed.

Section Chdir.
Context (FS_DIR_ENTRY_DIR : Z) (cut : list Z -> Z -> Z -> list Z) (extend : Z * Z -> Z -> Z * Z).
Hypothesis cut_inside : forall l pos n,
  0 <= pos -> 0 <= n -> pos + n <= len l -> cut l pos n = take (Z.to_nat pos) l ++ drop (Z.to_nat (pos + n)) l.

(** The components of a path, which the code ends with a slash. *)
Definition path_components (path : list Z) : list (list Z) := components [] (path ++ [slash]).

(** A VFS object whose root directory is [c0 / rc] and whose current
    directory below it is [cd]. *)
Definition at_dir (c0 : Z) (rc cd : list (list Z)) (o : zephyr_fs_obj) : Prop :=
  Forall name rc /\ Forall name cd /\ root_dir o ++ [slash] = prefix c0 rc /\ cur_dir o = join cd.

(** Where a path leads from there. *)
Definition target (rc cd : list (list Z)) (path : list Z) : list (list Z) :=
  resolve (if relative path then rc ++ cd else rc) (path_components path).

Lemma components_nil_component s : Forall component (components [] s).
Proof. apply components_component. apply not_elem_of_nil. Qed.

Lemma relative_false path : relative path = false -> exists p, path = slash :: p.
Proof. unfold relative. destruct path as [|c p]; [done|]. cbn. intros E. zify_bool. by exists p; subst. Qed.

Lemma chdir_string c0 rc cd o path :
  at_dir c0 rc cd o ->
  exists cs, root_dir o ++ (if relative path then [slash] ++ cur_dir o else []) ++ path ++ [slash] = prefix c0 [] ++ join cs /\
    Forall component cs /\ resolve [] cs = target rc cd path.
Proof.
  intros (Hrc & Hcd & Hr & Hc). unfold target.
  assert (Hn : forall l, Forall name l -> Forall component l) by (intros l Hl; eapply Forall_impl; [exact Hl | by intros ? [? _]]).
  destruct (relative path) eqn:E.
  - exists ((rc ++ cd) ++ path_components path). split_and!.
    + rewrite !join_app. unfold path_components. rewrite components_join, Hc. cbn [app].
      change (slash :: join cd ++ path ++ [slash]) with ([slash] ++ join cd ++ path ++ [slash]).
      rewrite (app_assoc (root_dir o)), Hr. unfold prefix. cbn. by rewrite <- app_assoc.
    + rewrite !Forall_app. eauto using components_nil_component.
    + rewrite resolve_app. rewrite (resolve_names [] (rc ++ cd)); [done | by apply Forall_app].
  - destruct (relative_false path E) as [p ->]. exists (rc ++ components [] (p ++ [slash])). split_and!.
    + rewrite join_app, components_join. cbn [app].
      change (slash :: p ++ [slash]) with ([slash] ++ p ++ [slash]). rewrite (app_assoc (root_dir o)), Hr. done.
    + rewrite Forall_app. eauto using components_nil_component.
    + rewrite resolve_app, (resolve_names [] rc) by done. unfold path_components.
      by change (components [] ((slash :: p) ++ [slash])) with ([] :: components [] (p ++ [slash])).
Qed.

(** C23: [chdir] terminates on every path, and asks the file system about
    exactly the directory the path names: the components of the path, resolved
    one after the other from the current directory, or from the root directory
    for an absolute path, with [.] and empty components dropped and [..] going
    to the parent. When that is a directory at or below the root directory it
    becomes the current one; in every other case with an exception the object
    is unchanged. *)
Theorem chdir_resolves c0 rc cd o path tr out :
  at_dir c0 rc cd o ->
  runs (zephyr_fs_chdir FS_DIR_ENTRY_DIR cut path o) tr out ->
  let d := target rc cd path in
  Forall name d /\
  exists r, tr = [(fs_stat (prefix c0 d), r)] /\
    if aret r <? 0 then out = Ok (Raise (OSErrorMsg (- aret r)), o)
    else if negb (st_type r =? FS_DIR_ENTRY_DIR) then out = Ok (Raise (OSError ENOTDIR), o)
    else exists o', out = Ok (Val None_, o') /\
      forall below, d = rc ++ below -> at_dir c0 rc below o' /\ o' = set_cur_dir (join below) o.
Proof.
  intros Hat Hr d. destruct (chdir_string c0 rc cd o path Hat) as (cs & Es & Hcs & Ed).
  destruct Hat as (Hrc & Hcd & Hroot & Hcur). fold d in Ed.
  assert (Hd : Forall name d).
  { unfold d, target. apply resolve_all_names; [|apply components_nil_component].
    destruct (relative path); [by apply Forall_app | done]. }
  split; [done|]. unfold zephyr_fs_chdir in Hr. erewrite py_bind_val in Hr by reflexivity. cbv zeta in Hr.
  rewrite Es in Hr.
  erewrite (py_bind_val (py_lift _)) in Hr; cycle 1.
  { unfold py_lift. rewrite (squeeze_resolve _ cut_inside _ c0 [] cs); [|done|done|].
    - cbn. rewrite Ed. reflexivity.
    - rewrite length_app. pose proof (len_components cs Hcs). lia. }
  apply runs_call_inv in Hr as (r & tr' & -> & Hr). cbn [prog_bind'] in Hr.
  assert (Hl : len (root_dir o) + 1 = len (prefix c0 rc)) by (rewrite <- Hroot, len_app; done).
  cut (tr' = [] /\ if aret r <? 0 then out = Ok (Raise (OSErrorMsg (- aret r)), o)
    else if negb (st_type r =? FS_DIR_ENTRY_DIR) then out = Ok (Raise (OSError ENOTDIR), o)
    else out = Ok (Val None_, set_cur_dir (cut (prefix c0 d) 0 (len (root_dir o) + 1)) o)).
  2:{ revert Hr. repeat case_test; intros Hr; by apply runs_ret_inv in Hr as [-> ->]. }
  intros [-> Hout]. exists r. split; [done|]. revert Hout. repeat case_test; [done | done|]. intros ->.
  eexists. split; [done|]. intros below Hb. rewrite Hl, Hb.
  replace (prefix c0 (rc ++ below)) with ([] ++ prefix c0 rc ++ join below) by by (unfold prefix; rewrite join_app).
  change 0 with (len (@nil Z)). rewrite (cut_app cut cut_inside [] (prefix c0 rc) (join below)) by done.
  split; [|done]. unfold at_dir. split_and!; [done | | done | done]. rewrite Hb in Hd. by apply Forall_app in Hd as [_ ?].
Qed.
End Chdir.

(** ** Paths in the shared buffer *)

Section Buffer.
Context (extend : Z * Z -> Z -> Z * Z).
(** A buffer with enough room stays where it is. *)
Hypothesis room : forall a n k, k <= n -> extend (a, n) k = (a, n).

(** The string [zephyr_fs_make_path] builds. *)
Definition full_path (o : zephyr_fs_obj) (path : list Z) : list Z :=
  let k := len path in
  (if relative path then root_dir o ++ [slash] ++ cur_dir o else root_dir o) ++
  (if (k >? 0) && ((nth (Z.to_nat (k - 1)) path 0 =? dot) && ((k =? 1) || (nth (Z.to_nat (k - 2)) path 0 =? slash)))
   then take (Z.to_nat (k - 1)) path else path).

Lemma make_path_store o path : zephyr_fs_make_path extend path o = store extend (full_path o path) o.
Proof.
  unfold zephyr_fs_make_path, full_path. cbv zeta. do 2 f_equal. case_test; [done|].
  unfold len. rewrite Nat2Z.id. by apply take_ge.
Qed.

Lemma make_path_fits o path :
  len (full_path o path) < buf_alloc o ->
  zephyr_fs_make_path extend path o = Ret (Val (buf_addr o), set_buf (buf_addr o) (buf_alloc o) (full_path o path) o).
Proof. intros Hf. rewrite make_path_store. unfold store. by rewrite room by lia. Qed.

(** [rename] passes the new name to the file system twice: both paths are
    built in the buffer of [root_dir], so when the second fits in it the old
    path is gone, and no file is ever renamed. *)
Theorem rename_renames_nothing o path_in path_out tr out :
  len (full_path o path_in) < buf_alloc o -> len (full_path o path_out) < buf_alloc o ->
  runs (zephyr_fs_rename extend path_in path_out o) tr out ->
  Forall (fun e => fst e = fs_rename (full_path o path_out) (full_path o path_out)) tr /\ length tr = 1%nat.
Proof.
  intros Hi Ho Hr. unfold zephyr_fs_rename in Hr.
  rewrite (py_bind_val _ _ _ _ _ (make_path_fits o path_in Hi)) in Hr.
  erewrite py_bind_val in Hr by (apply (make_path_fits (set_buf _ _ _ o)); exact Ho).
  unfold deref in Hr. cbn [buf_addr set_buf] in Hr.
  erewrite (py_bind_val (fun _ => _)) in Hr by (cbn; by rewrite Z.eqb_refl).
  erewrite (py_bind_val (fun _ => _)) in Hr by (cbn; by rewrite Z.eqb_refl).
  apply runs_call_inv in Hr as (r & tr' & -> & Hr). cbn [prog_bind'] in Hr.
  assert (tr' = []) as -> by (revert Hr; case_test; intros Hr; by apply runs_ret_inv in Hr as [-> _]).
  split; [by constructor | done].
Qed.
End Buffer.

(** ** Concrete runs *)

Definition cut_ref (l : list Z) (pos n : Z) : list Z := take (Z.to_nat pos) l ++ drop (Z.to_nat (pos + n)) l.
Definition extend_ref (b : Z * Z) (k : Z) : Z * Z := if k <=? snd b then b else (fst b + 1000, k).
Definition path_of (s : string) : list Z := bytes_of_string s.

(** "/lfs" with the current directory "/lfs/a/b". *)
Definition vfs : zephyr_fs_obj := FsObj (path_of "/lfs") (path_of "a/b/") (path_of "/lfs") 500 128 [].
Definition all_dirs (_ : list (fscall * answer)) (_ : fscall) : answer := Answer 0 [1; 0].
Definition chdir_run (s : string) := run all_dirs (zephyr_fs_chdir 1 cut_ref (path_of s) vfs) [].

Lemma vfs_at : at_dir slash [path_of "lfs"] [path_of "a"; path_of "b"] vfs.
Proof.
  unfold at_dir, name, component. split_and!; try reflexivity;
    repeat (constructor; [split_and!; [by_decide | done | done | done]|]); constructor.
Qed.

Lemma chdir_resolves_witness :
  target [path_of "lfs"] [path_of "a"; path_of "b"] (path_of ".././/c/./") = [path_of "lfs"; path_of "a"; path_of "c"] /\
  map fst (snd (chdir_run ".././/c/./")) = [fs_stat (path_of "/lfs/a/c/")] /\
  Forall name (target [path_of "lfs"] [path_of "a"; path_of "b"] (path_of ".././/c/./")) /\
  exists r, snd (chdir_run ".././/c/./") =
      [(fs_stat (prefix slash (target [path_of "lfs"] [path_of "a"; path_of "b"] (path_of ".././/c/./"))), r)] /\
    if aret r <? 0 then fst (chdir_run ".././/c/./") = Ok (Raise (OSErrorMsg (- aret r)), vfs)
    else if negb (st_type r =? 1) then fst (chdir_run ".././/c/./") = Ok (Raise (OSError ENOTDIR), vfs)
    else exists o', fst (chdir_run ".././/c/./") = Ok (Val None_, o') /\
      forall below, target [path_of "lfs"] [path_of "a"; path_of "b"] (path_of ".././/c/./") = [path_of "lfs"] ++ below ->
        at_dir slash [path_of "lfs"] below o' /\ o' = set_cur_dir (join below) vfs.
Proof.
  split; [vm_compute; reflexivity|]. split; [vm_compute; reflexivity|].
  apply (chdir_resolves 1 cut_ref (fun _ _ _ _ _ _ => eq_refl) slash [path_of "lfs"] [path_of "a"; path_of "b"] vfs).
  - exact vfs_at.
  - apply (run_runs _ all_dirs). unfold chdir_run. apply surjective_pairing.
Defined.

(** Leaving the root directory: the directory that was found is not the one
    that becomes current. *)
Example chdir_leaves_root :
  map fst (snd (chdir_run "../../../other")) = [fs_stat (path_of "/other/")] /\
  match fst (chdir_run "../../../other") with Ok (Val None_, o) => cur_dir o = path_of "r/" | _ => False end.
Proof. split; vm_compute; reflexivity. Qed.

Lemma rename_renames_nothing_witness :
  let r := run all_dirs (zephyr_fs_rename extend_ref (path_of "old") (path_of "new") vfs) [] in
  Forall (fun e => fst e = fs_rename (full_path vfs (path_of "new")) (full_path vfs (path_of "new"))) (snd r) /\
  length (snd r) = 1%nat.
Proof.
  refine (rename_renames_nothing extend_ref _ vfs (path_of "old") (path_of "new") _ _ _ _ _).
  - intros a n k Hk. unfold extend_ref. cbn. case_test; [done | lia].
  - vm_compute. reflexivity.
  - vm_compute. reflexivity.
  - apply (run_runs _ all_dirs). apply surjective_pairing.
Defined.
