(* ===== verification/FsSafe.v ===== *)
(** Well-formedness of the VFS object of app/micropython/zephyr_filesystem.c:
    the methods of the object as one type of operations, and that every one of
    them, in every well-formed object, keeps it well-formed, follows no path
    pointer but that of the live buffer and hands the file system only paths that
    begin, as text, with its mount point, except that [chdir] hands it a path it
    has normalised, which can name another part of the file system (Example
    [chdir_leaves_root] of FsThm.v), and [ilistdir] without an argument the empty
    path. *)

From S2P Require Import Prelude Py Fs FsThm.

(** ** Operations *)

(** The entries of [zephyr_fs_locals_dict_table], the import protocol, and the
    streams and iterators that [open] and [ilistdir] answer. *)
Inductive vfs_op :=
  | Open (path mode : list Z)
  | Ilistdir (arg : option (list Z * bool))
  | Iternext (dir : Z) (is_str : bool)
  | IterDel (dir : Z)
  | Mkdir (path : list Z)
  | Chdir (path : list Z)
  | Getcwd
  | Rmdir (path : list Z)
  | Remove (path : list Z)
  | Rename (path_in path_out : list Z)
  | ImportStat (path : list Z)
  | Stat (path : list Z)
  | Statvfs
  | Umount
  | Mount
  | Mkfs
  | Read (fp size : Z)
  | Write (fp : Z) (data : list Z)
  | Ioctl (fp request offset whence : Z).

Section Methods.
Context (FS_O_READ FS_O_WRITE FS_O_RDWR FS_O_CREATE FS_O_APPEND FS_O_TRUNC : Z).
Context (FS_DIR_ENTRY_FILE FS_DIR_ENTRY_DIR MP_S_IFDIR MP_S_IFREG MAX_FILE_NAME : Z).
Context (MP_STREAM_SEEK MP_STREAM_FLUSH MP_STREAM_CLOSE : Z).
Context (automount : list Z -> bool).
Context (cut : list Z -> Z -> Z -> list Z) (extend : Z * Z -> Z -> Z * Z).
Local Abbreviation fm := (py fscall answer zephyr_fs_obj).

(** A call of a method; what it answers is dropped. *)
Definition drop_value {A} (m : fm A) : fm unit := m;; mret tt.
Definition method (op : vfs_op) : fm unit :=
  match op with
  | Open path mode => drop_value (zephyr_fs_open FS_O_READ FS_O_WRITE FS_O_RDWR FS_O_CREATE FS_O_APPEND FS_O_TRUNC extend path mode)
  | Ilistdir arg => drop_value (zephyr_fs_ilistdir_func extend arg)
  | Iternext dir is_str => drop_value (mp_zephyr_fs_ilistdir_it_iternext FS_DIR_ENTRY_DIR MP_S_IFDIR MP_S_IFREG dir is_str)
  | IterDel dir => drop_value (mp_zephyr_fs_ilistdir_it_del dir)
  | Mkdir path => drop_value (zephyr_fs_mkdir extend path)
  | Chdir path => drop_value (zephyr_fs_chdir FS_DIR_ENTRY_DIR cut path)
  | Getcwd => drop_value (zephyr_fs_getcwd extend)
  | Rmdir path => drop_value (zephyr_fs_rmdir FS_DIR_ENTRY_FILE extend path)
  | Remove path => drop_value (zephyr_fs_remove FS_DIR_ENTRY_DIR extend path)
  | Rename path_in path_out => drop_value (zephyr_fs_rename extend path_in path_out)
  | ImportStat path => drop_value (zephyr_fs_import_stat FS_DIR_ENTRY_DIR extend path)
  | Stat path => drop_value (zephyr_fs_stat FS_DIR_ENTRY_DIR MP_S_IFDIR MP_S_IFREG extend path)
  | Statvfs => drop_value (zephyr_fs_statvfs MAX_FILE_NAME)
  | Umount => drop_value zephyr_fs_umount
  | Mount => drop_value (zephyr_fs_mount automount)
  | Mkfs => drop_value zephyr_fs_mkfs
  | Read fp size => drop_value (file_obj_read fp size)
  | Write fp data => drop_value (file_obj_write fp data)
  | Ioctl fp request offset whence => drop_value (file_obj_ioctl MP_STREAM_SEEK MP_STREAM_FLUSH MP_STREAM_CLOSE fp request offset whence)
  end.

(** A Python program that uses the object: it catches what the methods raise
    and goes on. *)
Fixpoint session (ops : list vfs_op) : fm unit := fun o =>
  match ops with
  | [] => Ret (Val tt, o)
  | op :: ops => '(_, o) ← method op o; session ops o
  end.
End Methods.

(** ** Well-formed objects *)

Definition ends_in_slash (s : list Z) : Prop := s = [] \/ exists s', s = s' ++ [slash].

(** The root directory is the mount point, the current directory a sequence of
    names that each end in a slash, and the buffer holds its string. *)
Record vfs_wf (o : zephyr_fs_obj) : Prop := {
  wf_root : root_dir o = mount o;
  wf_mount : mount o <> [];
  wf_cur : ends_in_slash (cur_dir o);
  wf_buf : len (buf_str o) <= buf_alloc o
}.

(** As text: a [..] after the mount point is left to the file system. *)
Definition below (mnt p : list Z) : Prop := exists rest, p = mnt ++ slash :: rest.
(** An absolute path without empty, [.] and [..] components. *)
Definition canonical (p : list Z) : Prop := exists c0 d, Forall name d /\ p = prefix c0 d.

(** The arguments the calls of an operation may have. *)
Definition call_ok (mnt : list Z) (op : vfs_op) (c : fscall) : Prop :=
  match c with
  | fs_stat p => match op with Chdir _ => canonical p | _ => below mnt p end
  | fs_opendir _ p => match op with Ilistdir None => p = [] | _ => below mnt p end
  | fs_open _ p _ | fs_mkdir p | fs_unlink p => below mnt p
  | fs_rename p q => below mnt p /\ below mnt q
  | fs_statvfs m | fs_mount m | fs_unmount m | fs_mkfs m | mount_is_linked m | mount_fs m => m = mnt
  | _ => True
  end.

(** Every call of a program satisfies [P], and it ends without a fault in [Q]. *)
Fixpoint within {A} (P : fscall -> Prop) (Q : A -> Prop) (p : prog fscall answer A) : Prop :=
  match p with
  | Ret a => Q a
  | Halt _ => False
  | Call c k => P c /\ forall r, within P Q (k r)
  end.

Lemma within_runs {A} P (Q : A -> Prop) p tr out :
  within P Q p -> runs p tr out -> Forall (fun e => P (fst e)) tr /\ exists a, out = Ok a /\ Q a.
Proof.
  intros H Hr. induction Hr as [a | s | c k r tr out Hr IH]; cbn in H; [by split; [constructor | eauto] | done|].
  destruct H as [Hc H]. destruct (IH (H r)) as [H1 H2]. by split; [constructor|].
Qed.

Lemma within_bind {A B} P (Q : B -> Prop) (p : prog fscall answer A) f :
  within P (fun a => within P Q (f a)) p -> within P Q (p ≫= f).
Proof. induction p as [a | s | c k IH]; cbn; [done | done|]. intros [Hc H]. split; [done|]. intros r. by apply IH. Qed.

Lemma within_py {A B} P Q (m : py fscall answer zephyr_fs_obj A) (f : A -> py fscall answer zephyr_fs_obj B) o :
  within P (fun '(r, o') => match r with Val a => within P Q (f a o') | Raise e => Q (Raise e, o') end) (m o) ->
  within P Q ((m ≫= f) o).
Proof.
  intros H. unfold mbind, py_bind. change (prog_bind' ?f ?p) with (p ≫= f). apply within_bind.
  revert H. generalize (m o). intros p. induction p as [[[a|e] o'] | s | c k IH]; cbn; [done | done | done|].
  intros [Hc H]. split; [done|]. intros r. by apply IH.
Qed.

Lemma within_mono {A} P (Q Q' : A -> Prop) p : (forall a, Q a -> Q' a) -> within P Q p -> within P Q' p.
Proof. intros HQ. induction p as [a | s | c k IH]; cbn; [auto | done|]. intros [Hc H]. split; [done|]. intros r. by apply IH. Qed.

Lemma within_drop_value {A} P (Q : py_res unit * zephyr_fs_obj -> Prop) (m : py fscall answer zephyr_fs_obj A) o :
  within P (fun '(r, o') => Q (match r with Val _ => Val tt | Raise e => Raise e end, o')) (m o) -> within P Q (drop_value m o).
Proof. intros H. apply within_py. eapply within_mono; [|exact H]. by intros [[a|e] o']. Qed.

(** Walk a program whose calls are known. *)
Ltac walk :=
  repeat match goal with
  | |- within _ _ ((if ?b then _ else _) _) => destruct b eqn:?
  | |- within _ _ (if ?b then _ else _) => destruct b eqn:?
  | |- within _ _ ((_ ≫= _) _) => apply within_py
  | |- within _ _ (raise _ _) => cbn
  | |- within _ _ (mret _ _) => cbn
  | |- within _ _ (py_call _ _) => cbn
  | |- within _ _ (py_get _ _) => cbn
  | |- within _ _ (py_set _ _) => cbn
  | |- _ /\ (forall _ : answer, _) => split; [|intros ?; cbv beta iota]
  end.

Section Safe.
Context (FS_O_READ FS_O_WRITE FS_O_RDWR FS_O_CREATE FS_O_APPEND FS_O_TRUNC : Z).
Context (FS_DIR_ENTRY_FILE FS_DIR_ENTRY_DIR MP_S_IFDIR MP_S_IFREG MAX_FILE_NAME : Z).
Context (MP_STREAM_SEEK MP_STREAM_FLUSH MP_STREAM_CLOSE : Z).
Context (automount : list Z -> bool).
Context (cut : list Z -> Z -> Z -> list Z) (extend : Z * Z -> Z -> Z * Z).
(** MicroPython's [vstr_cut_out_bytes], which cuts less at the end of the
    string, and the growth of a buffer: it has the room asked for, and a buffer
    that has it already stays where it is. *)
Hypothesis cut_spec : forall l pos n, 0 <= pos -> 0 <= n -> cut l pos n = take (Z.to_nat pos) l ++ drop (Z.to_nat (pos + n)) l.
Hypothesis extend_enough : forall b k, k <= snd (extend b k).
Hypothesis extend_room : forall a n k, k <= n -> extend (a, n) k = (a, n).

Lemma below_path o path : vfs_wf o -> below (mount o) (full_path o path).
Proof.
  intros [Hr _ _ _]. unfold full_path, below. rewrite <- Hr. destruct (relative path) eqn:E.
  - eexists. rewrite <- app_assoc. f_equal.
  - destruct (relative_false path E) as [p ->]. destruct p as [|c p]; [by exists []|].
    destruct (_ && _); [|by eexists]. exists (take (Z.to_nat (len p)) (c :: p)). rewrite !len_cons. pose proof (len_nonneg p).
    by replace (Z.to_nat (len p + 1 + 1 - 1)) with (S (Z.to_nat (len p))) by lia.
Qed.

Lemma make_path_wf o path : vfs_wf o -> exists a n,
  extend (buf_addr o, buf_alloc o) (len (full_path o path) + 1) = (a, n) /\
  zephyr_fs_make_path extend path o = Ret (Val a, set_buf a n (full_path o path) o) /\
  vfs_wf (set_buf a n (full_path o path) o).
Proof.
  intros [Hr Hm Hc Hb]. destruct (extend _ _) as [a n] eqn:E. exists a, n. rewrite make_path_store. unfold store.
  rewrite E. split_and!; [done..|]. pose proof (extend_enough (buf_addr o, buf_alloc o) (len (full_path o path) + 1)) as He.
  rewrite E in He. cbn in He. constructor; cbn; try done. lia.
Qed.

(** What every operation leaves behind. *)
Definition kept (mnt : list Z) {A} (x : py_res A * zephyr_fs_obj) : Prop := vfs_wf (snd x) /\ mount (snd x) = mnt.

Lemma ends_join d : ends_in_slash (join d).
Proof.
  destruct d as [|x d _] using rev_ind; [by left|]. right. exists (join d ++ x). rewrite join_app. cbn.
  by rewrite app_nil_r, <- app_assoc.
Qed.

Lemma ends_drop k s : ends_in_slash s -> ends_in_slash (drop k s).
Proof.
  intros [->|[s' ->]]; [rewrite drop_nil; by left|]. destruct (decide (k <= length s')%nat).
  - right. exists (drop k s'). by rewrite drop_app_le.
  - left. apply drop_ge. rewrite length_app. cbn. lia.
Qed.

(** [chdir] ends and stays well-formed also where it leaves the root
    directory. *)
Lemma chdir_within o path : vfs_wf o ->
  within (call_ok (mount o) (Chdir path)) (kept (mount o)) (zephyr_fs_chdir FS_DIR_ENTRY_DIR cut path o).
Proof.
  intros [Hr Hm Hc Hb]. unfold zephyr_fs_chdir. apply within_py. cbn [py_get within]. cbv zeta.
  destruct (root_dir o) as [|c0 r] eqn:Er; [by rewrite <- Hr in Hm|].
  set (s := r ++ (if relative path then [slash] ++ cur_dir o else []) ++ path).
  replace ((c0 :: r) ++ _ ++ path ++ [slash]) with (prefix c0 [] ++ join (components [] (s ++ [slash])))
    by (rewrite components_join; unfold s; cbn; by rewrite <- !app_assoc).
  assert (Hcut : forall l pos n, 0 <= pos -> 0 <= n -> pos + n <= len l -> cut l pos n = take (Z.to_nat pos) l ++ drop (Z.to_nat (pos + n)) l)
    by auto. pose proof (components_nil_component (s ++ [slash])) as Hcs.
  apply within_py. unfold py_lift. cbv zeta.
  rewrite (squeeze_resolve cut Hcut _ c0 [] _ ltac:(constructor) Hcs)
    by (rewrite length_app; pose proof (len_components _ Hcs); lia).
  set (d := resolve [] _). assert (Hd : Forall name d) by (by apply resolve_all_names).
  cbn [within mbind res_bind]. apply within_py. cbn. split; [by exists c0, d|]. intros a.
  walk; cbn; unfold kept; cbn; (split; [|done]); constructor; cbn; rewrite ?Er; try done.
  pose proof (len_nonneg r). rewrite cut_spec by (rewrite ?len_cons; lia). change (Z.to_nat 0) with 0%nat. cbn [take app].
  replace (Z.to_nat (0 + (len (c0 :: r) + 1))) with (S (S (length r))) by (rewrite len_cons; unfold len; lia).
  unfold prefix. cbn [drop]. apply ends_drop, ends_join.
Qed.

(** A path is built. *)
Lemma within_path P (Q : py_res Z * zephyr_fs_obj -> Prop) o path : vfs_wf o ->
  (forall a n, vfs_wf (set_buf a n (full_path o path) o) -> below (mount o) (full_path o path) ->
    extend (buf_addr o, buf_alloc o) (len (full_path o path) + 1) = (a, n) -> Q (Val a, set_buf a n (full_path o path) o)) ->
  within P Q (zephyr_fs_make_path extend path o).
Proof.
  intros Hwf H. destruct (make_path_wf o path Hwf) as (a & n & Ee & E & Hwf'). rewrite E.
  apply H; [done | by apply below_path | done].
Qed.

(** The path is read while the buffer is where it was. *)
Lemma within_deref P Q a n s o : Q (Val s, set_buf a n s o) -> within P Q (deref a (set_buf a n s o)).
Proof. intros H. unfold deref. cbn. by rewrite Z.eqb_refl. Qed.

Local Abbreviation method := (method FS_O_READ FS_O_WRITE FS_O_RDWR FS_O_CREATE FS_O_APPEND FS_O_TRUNC FS_DIR_ENTRY_FILE
  FS_DIR_ENTRY_DIR MP_S_IFDIR MP_S_IFREG MAX_FILE_NAME MP_STREAM_SEEK MP_STREAM_FLUSH MP_STREAM_CLOSE automount cut extend).

(** The second path of a [rename] fits the buffer the first has left. *)
Definition rename_fits (op : vfs_op) (o : zephyr_fs_obj) : Prop :=
  match op with
  | Rename a b => len (full_path o b) + 1 <= snd (extend (buf_addr o, buf_alloc o) (len (full_path o a) + 1))
  | _ => True
  end.

Lemma within_method {A} P mnt (m : py fscall answer zephyr_fs_obj A) o :
  within P (kept mnt) (m o) -> within P (kept mnt) (drop_value m o).
Proof. intros H. apply within_drop_value. eapply within_mono; [|exact H]. by intros [[a|e] o']. Qed.

(** The calls of a method, their arguments and what it leaves, when its paths
    are built first. *)
Ltac walk_method :=
  repeat first
    [ progress walk
    | match goal with
      | |- within _ _ (deref _ (set_buf _ _ _ _)) => apply within_deref; cbv beta iota
      | |- within _ _ (zephyr_fs_make_path _ _ _) => apply within_path; [assumption|]; intros ? ? ? ? ?; cbv beta iota
      | |- True => exact I
      | |- _ = _ => reflexivity
      | |- below _ _ /\ below _ _ => split
      | |- below _ _ => assumption
      | |- kept _ _ => split; [assumption | reflexivity]
      | |- call_ok _ _ _ => cbn; done
      end ].

Lemma rename_within a b o : vfs_wf o -> rename_fits (Rename a b) o ->
  within (call_ok (mount o) (Rename a b)) (kept (mount o)) (zephyr_fs_rename extend a b o).
Proof.
  intros Hwf Hfit. unfold zephyr_fs_rename. apply within_py, within_path; [done|]. intros a1 n1 ? ? E1.
  apply within_py, within_path; [done|]. intros a2 n2 ? ? E2. unfold rename_fits in Hfit. rewrite E1 in Hfit. cbn in Hfit, E2.
  rewrite extend_room in E2 by exact Hfit. injection E2 as <- <-. walk_method.
Qed.

Lemma method_within op o : vfs_wf o -> rename_fits op o ->
  within (call_ok (mount o) op) (kept (mount o)) (method op o).
Proof.
  intros Hwf Hfit. destruct op; apply within_method.
  all: try (by apply rename_within); try (by apply chdir_within).
  - unfold zephyr_fs_open. walk_method. destruct (parse_mode _ _ _ _ _ _ mode _) as [[[flags x] b]|]; walk_method.
  - destruct arg as [[p is_bytes]|]; unfold zephyr_fs_ilistdir_func; walk_method.
  - unfold mp_zephyr_fs_ilistdir_it_iternext. walk_method.
  - unfold mp_zephyr_fs_ilistdir_it_del. walk_method.
  - unfold zephyr_fs_mkdir. walk_method.
  - unfold zephyr_fs_getcwd. walk_method. unfold store.
    pose proof (extend_enough (buf_addr o, buf_alloc o) (len (root_dir o ++ [slash] ++ cur_dir o) + 1)) as He.
    destruct (extend _ _) as [a n]. cbn [snd] in He. destruct Hwf as [Hr Hm Hc Hb].
    assert (vfs_wf (set_buf a n (root_dir o ++ [slash] ++ cur_dir o) o)) by (constructor; cbn [mount cur_dir root_dir buf_alloc buf_str set_buf]; try done; lia).
    cbn [within]. walk_method.
  - unfold zephyr_fs_rmdir. walk_method.
  - unfold zephyr_fs_remove. walk_method.
  - unfold zephyr_fs_import_stat. walk_method.
  - unfold zephyr_fs_stat. walk_method.
  - unfold zephyr_fs_statvfs. walk_method.
  - unfold zephyr_fs_umount. walk_method.
  - unfold zephyr_fs_mount. walk_method.
  - unfold zephyr_fs_mkfs. walk_method.
  - unfold file_obj_read, stream_result. walk_method.
  - unfold file_obj_write, stream_result. walk_method.
  - unfold file_obj_ioctl. walk_method.
Qed.

(** A [rename] whose second path does not fit reads its first path in a buffer
    that is gone, before any call, if the buffer moves. *)
Lemma rename_moved a b o : vfs_wf o ->
  within (call_ok (mount o) (Rename a b)) (kept (mount o)) (zephyr_fs_rename extend a b o) \/ zephyr_fs_rename extend a b o = Halt UB.
Proof.
  intros Hwf. destruct (make_path_wf o a Hwf) as (a1 & n1 & _ & E1 & Hwf1).
  destruct (make_path_wf _ b Hwf1) as (a2 & n2 & _ & E2 & Hwf2).
  pose proof (below_path _ b Hwf1) as Hb. cbn [mount set_buf] in Hb.
  unfold zephyr_fs_rename. rewrite (py_bind_val _ _ _ _ _ E1), (py_bind_val _ _ _ _ _ E2).
  destruct (decide (a1 = a2)) as [<-|Hne]; [left; walk_method|]. right.
  apply Z.eqb_neq in Hne. unfold mbind, py_bind, deref. cbn [buf_addr set_buf]. by rewrite Hne.
Qed.

#[local] Instance rename_fits_dec op o : Decision (rename_fits op o).
Proof. unfold rename_fits. destruct op; apply _. Defined.

(** One call of a method. *)
Lemma method_runs op o tr out : vfs_wf o -> runs (method op o) tr out ->
  Forall (fun e => call_ok (mount o) op (fst e)) tr /\
  ((exists r o', out = Ok (r, o') /\ vfs_wf o' /\ mount o' = mount o) \/ (out = Stop UB /\ ~ rename_fits op o)).
Proof.
  intros Hwf Hr.
  assert (Hw : within (call_ok (mount o) op) (kept (mount o)) (method op o) \/ (method op o = Halt UB /\ ~ rename_fits op o)).
  { destruct (decide (rename_fits op o)) as [Hf|Hf]; [left; by apply method_within|].
    destruct op; try (exfalso; by apply Hf). destruct (rename_moved path_in path_out o Hwf) as [H|H].
    - left. by apply within_method.
    - right. split; [|done]. change (drop_value (zephyr_fs_rename extend path_in path_out) o = Halt UB). unfold drop_value, mbind, py_bind. by rewrite H. }
  destruct Hw as [Hw | [E Hf]].
  - destruct (within_runs _ _ _ _ _ Hw Hr) as (Hc & [r o'] & -> & Hk & Hm). split; [done|]. left. by exists r, o'.
  - rewrite E in Hr. inversion Hr; subst. split; [done | by right].
Qed.

(** A new object is well-formed. *)
Lemma make_new_wf mounts mnt : mnt <> [] ->
  outcomes (zephyr_fs_make_new mounts extend (Some mnt) tt) (fun _ out => forall o, out = Ok (Val o, tt) -> vfs_wf o /\ mount o = mnt).
Proof.
  intros Hm. unfold zephyr_fs_make_new. case_bool_decide; [|by py_step].
  repeat py_step; try done.
  all: match goal with |- context [extend (aret ?b, 128) ?k] =>
    pose proof (extend_enough (aret b, 128) k) as He; destruct (extend _ _) as [a n] end.
  all: cbn in He; py_step; intros o [= <-]; (split; [|done]).
  all: constructor; cbn; [done | done | by left | done].
Qed.

Local Abbreviation session := (session FS_O_READ FS_O_WRITE FS_O_RDWR FS_O_CREATE FS_O_APPEND FS_O_TRUNC FS_DIR_ENTRY_FILE
  FS_DIR_ENTRY_DIR MP_S_IFDIR MP_S_IFREG MAX_FILE_NAME MP_STREAM_SEEK MP_STREAM_FLUSH MP_STREAM_CLOSE automount cut extend).

Lemma session_runs ops : forall o tr out, vfs_wf o -> runs (session ops o) tr out ->
  Forall (fun e => exists op, op ∈ ops /\ call_ok (mount o) op (fst e)) tr /\
  ((exists o', out = Ok (Val tt, o') /\ vfs_wf o' /\ mount o' = mount o) \/
   (out = Stop UB /\ exists a b o', Rename a b ∈ ops /\ vfs_wf o' /\ ~ rename_fits (Rename a b) o')).
Proof.
  induction ops as [|op ops IH]; intros o tr out Hwf Hr; cbn [FsSafe.session] in Hr.
  { apply runs_ret_inv in Hr as [-> ->]. split; [done|]. left. by exists o. }
  assert (Hcalls : forall t : list (fscall * answer), Forall (fun e => call_ok (mount o) op (fst e)) t ->
    Forall (fun e => exists op', op' ∈ op :: ops /\ call_ok (mount o) op' (fst e)) t).
  { intros t Ht. eapply Forall_impl; [exact Ht|]. intros e He. exists op. split; [by left | done]. }
  apply runs_bind_inv in Hr as [([r o1] & t1 & t2 & -> & H1 & H2) | (s & H1 & ->)];
    destruct (method_runs _ _ _ _ Hwf H1) as [Hc Hend].
  - destruct Hend as [(r' & o1' & [= <- <-] & Hwf1 & Hm) | [[=] _]].
    destruct (IH o1 t2 out Hwf1 H2) as [Hc2 Hend]. rewrite Hm in Hc2, Hend. split.
    + apply Forall_app. split; [by apply Hcalls|]. eapply Forall_impl; [exact Hc2|].
      intros e (op' & Hin & He). exists op'. split; [by right | done].
    + destruct Hend as [(o' & -> & Hwf' & Hm') | (-> & a & b & o' & Hin & Hn)]; [left; by exists o'|].
      right. split; [done|]. exists a, b, o'. split; [by right | done].
  - split; [by apply Hcalls|]. destruct Hend as [(r' & o1' & [=] & _) | [[= ->] Hn]]. right. split; [done|].
    destruct op; try (exfalso; by apply Hn). eexists _, _, o. split_and!; [by left | done | done].
Qed.

(** C24: In whatever order a Python program calls the methods of a new
    FileSystem object, whatever their arguments and whatever the file system
    answers, exceptions caught or not: the object stays well-formed (its root
    directory the mount point, its current directory empty or ending in a
    slash, its buffer large enough for the string in it), every method ends,
    and every path given to the file system lies textually below the mount
    point, but for the normalised path of a [chdir] and the empty one of an
    [ilistdir] without an argument. The only fault is that of a [rename] whose
    second path does not fit the buffer that holds its first. *)
Theorem session_wf mounts mnt o tr0 ops tr out :
  mnt <> [] -> runs (zephyr_fs_make_new mounts extend (Some mnt) tt) tr0 (Ok (Val o, tt)) ->
  runs (session ops o) tr out ->
  Forall (fun e => exists op, op ∈ ops /\ call_ok mnt op (fst e)) tr /\
  ((exists o', out = Ok (Val tt, o') /\ vfs_wf o' /\ mount o' = mnt) \/
   (out = Stop UB /\ exists a b o', Rename a b ∈ ops /\ vfs_wf o' /\ ~ rename_fits (Rename a b) o')).
Proof.
  intros Hm Hnew Hr. destruct (make_new_wf mounts mnt Hm _ _ Hnew o eq_refl) as [Hwf <-]. by apply (session_runs ops).
Qed.
End Safe.

(** ** A concrete session *)

(** Leaving the root directory, working there, moving a file. *)
Definition fs_ops : list vfs_op :=
  [Mkdir (path_of "log"); Chdir (path_of "log"); Open (path_of "a.txt") (path_of "w"); Open (path_of "x") (path_of "rw");
   Chdir (path_of "../../.."); Stat (path_of "/boot/."); Ilistdir None; Getcwd; Rename (path_of "a") (path_of "b"); Umount].
(** The second file system call fails. *)
Definition fs_board (hist : list (fscall * answer)) (_ : fscall) : answer :=
  if (length hist =? 1)%nat then Answer (-5) [] else Answer 0 [1; 0; 97].
Definition new_run := run (fun _ _ => Answer 0 []) (zephyr_fs_make_new [path_of "/lfs"] extend_ref (Some (path_of "/lfs")) tt) [].
Definition new_vfs : zephyr_fs_obj := FsObj (path_of "/lfs") [] (path_of "/lfs") 0 128 (path_of "/lfs").
Definition fs_session := run fs_board (session 1 2 3 16 32 64 0 1 0x4000 0x8000 255 2 1 4 (fun _ => false) cut_ref extend_ref fs_ops new_vfs) [].

Lemma session_wf_witness :
  length (snd fs_session) = 10%nat /\ (exists o', fst fs_session = Ok (Val tt, o')) /\
  Forall (fun e => exists op, op ∈ fs_ops /\ call_ok (path_of "/lfs") op (fst e)) (snd fs_session) /\
  ((exists o', fst fs_session = Ok (Val tt, o') /\ vfs_wf o' /\ mount o' = path_of "/lfs") \/
   (fst fs_session = Stop UB /\ exists a b o', Rename a b ∈ fs_ops /\ vfs_wf o' /\ ~ rename_fits extend_ref (Rename a b) o')).
Proof.
  split; [vm_compute; reflexivity|]. split; [eexists; vm_compute; reflexivity|].
  apply (session_wf 1 2 3 16 32 64 0 1 0x4000 0x8000 255 2 1 4 (fun _ => false) cut_ref extend_ref) with
    (mounts := [path_of "/lfs"]) (o := new_vfs) (tr0 := snd new_run).
  - reflexivity.
  - intros [a n] k. unfold extend_ref. cbn. case_test; cbn; lia.
  - intros a n k Hk. unfold extend_ref. cbn. case_test; [done | lia].
  - discriminate.
  - apply (run_runs _ (fun _ _ => Answer 0 [])). vm_compute. reflexivity.
  - apply (run_runs _ fs_board). unfold fs_session. apply surjective_pairing.
Defined.
