(* ===== verification/Storage.v ===== *)
(** app/micropython/zephyr_storage.c: the block devices MicroPython's own file
    systems use, on Zephyr's disk access (DiskAccess) and on its flash map
    (FlashArea). Addresses are 32 bits wide. *)

From S2P Require Import Prelude Py.

Inductive stcall :=
  | disk_access_init (pdrv : list Z)
  | disk_access_ioctl (pdrv : list Z) (cmd : Z)
  | disk_access_read (pdrv : list Z) (sector count : Z)
  | disk_access_write (pdrv : list Z) (sector count : Z) (data : list Z)
  | flash_area_open (id : Z)
  | flash_area_read (fa off size : Z)
  | flash_area_write (fa off : Z) (data : list Z)
  | flash_area_erase (fa off size : Z).

Local Abbreviation sm S := (py stcall answer S).

Section Storage.
Context (DISK_IOCTL_GET_SECTOR_SIZE DISK_IOCTL_GET_SECTOR_COUNT DISK_IOCTL_CTRL_SYNC : Z).
Context (MP_BLOCKDEV_IOCTL_INIT MP_BLOCKDEV_IOCTL_DEINIT MP_BLOCKDEV_IOCTL_SYNC MP_BLOCKDEV_IOCTL_BLOCK_COUNT
  MP_BLOCKDEV_IOCTL_BLOCK_SIZE MP_BLOCKDEV_IOCTL_BLOCK_ERASE : Z).

(** ** DiskAccess *)

Record zephyr_disk_access_obj := DiskObj { pdrv : list Z; disk_block_size : Z; disk_block_count : Z }.

Definition zephyr_disk_access_make_new (name : list Z) : sm unit zephyr_disk_access_obj :=
  i ← py_call (disk_access_init name);
  if negb (aret i =? 0) then raise ValueError
  else
    s ← py_call (disk_access_ioctl name DISK_IOCTL_GET_SECTOR_SIZE);
    if negb (aret s =? 0) then raise ValueError
    else
      c ← py_call (disk_access_ioctl name DISK_IOCTL_GET_SECTOR_COUNT);
      if negb (aret c =? 0) then raise ValueError
      else mret (DiskObj name (s32 (out0 0 s)) (s32 (out0 0 c))).

(** [bufinfo.len / self->block_size], an unsigned division. *)
Definition sectors (size : Z) : sm zephyr_disk_access_obj Z := fun o =>
  if disk_block_size o =? 0 then Halt UB else Ret (Val (size / u32 (disk_block_size o)), o).

(** The bytes stored in the buffer come with the result. *)
Definition zephyr_disk_access_readblocks (block_num buf_len : Z) : sm zephyr_disk_access_obj (Z * list Z) :=
  n ← sectors buf_len;
  p ← py_get pdrv;
  r ← py_call (disk_access_read p (u32 block_num) n);
  mret (aret r, aout r).

Definition zephyr_disk_access_writeblocks (block_num : Z) (buf : list Z) : sm zephyr_disk_access_obj Z :=
  n ← sectors (len buf);
  p ← py_get pdrv;
  r ← py_call (disk_access_write p (u32 block_num) n buf);
  mret (aret r).

Definition zephyr_disk_access_ioctl (cmd : Z) : sm zephyr_disk_access_obj Z :=
  o ← py_get (fun o => o);
  if (cmd =? MP_BLOCKDEV_IOCTL_INIT) || (cmd =? MP_BLOCKDEV_IOCTL_DEINIT) then mret 0
  else if cmd =? MP_BLOCKDEV_IOCTL_SYNC then
    r ← py_call (disk_access_ioctl (pdrv o) DISK_IOCTL_CTRL_SYNC); mret (aret r)
  else if cmd =? MP_BLOCKDEV_IOCTL_BLOCK_COUNT then mret (disk_block_count o)
  else if cmd =? MP_BLOCKDEV_IOCTL_BLOCK_SIZE then mret (disk_block_size o)
  else mret (-1).

(** ** FlashArea *)

Record zephyr_flash_area_obj := AreaObj { area : Z; block_size : Z; block_count : Z; area_id : Z }.

(** [flash_area_open] stores the area's handle and its [fa_size]. *)
Definition zephyr_flash_area_make_new (id size : Z) : sm unit zephyr_flash_area_obj :=
  let id := u8 id in
  if size <=? 0 then raise ValueError
  else
    r ← py_call (flash_area_open id);
    if negb (aret r =? 0) then raise ValueError
    else mret (AreaObj (nth 0 (aout r) 0) size (nth 1 (aout r) 0 / size) id).

(** [off_t offset = block_num * self->block_size], with an unsigned product,
    and the optional offset added to it. *)
Definition block_offset (block_num : Z) (off : option Z) (o : zephyr_flash_area_obj) : Z :=
  let base := s32 (u32 (u32 block_num * block_size o)) in
  match off with Some k => s32 (base + k) | None => base end.

Definition zephyr_flash_area_readblocks (block_num buf_len : Z) (off : option Z) : sm zephyr_flash_area_obj (Z * list Z) :=
  o ← py_get (fun o => o);
  r ← py_call (flash_area_read (area o) (block_offset block_num off o) buf_len);
  mret (aret r, aout r).

Definition zephyr_flash_area_writeblocks (block_num : Z) (buf : list Z) (off : option Z) : sm zephyr_flash_area_obj Z :=
  o ← py_get (fun o => o);
  e ← match off with
      | None => r ← py_call (flash_area_erase (area o) (block_offset block_num None o) (block_size o)); mret (aret r)
      | Some _ => mret 0
      end;
  if negb (e =? 0) then mret e
  else
    r ← py_call (flash_area_write (area o) (block_offset block_num off o) buf);
    mret (aret r).

(** A signed product: overflow is undefined. *)
Definition zephyr_flash_area_ioctl (cmd block_num : Z) : sm zephyr_flash_area_obj Z :=
  o ← py_get (fun o => o);
  if (cmd =? MP_BLOCKDEV_IOCTL_INIT) || (cmd =? MP_BLOCKDEV_IOCTL_DEINIT) || (cmd =? MP_BLOCKDEV_IOCTL_SYNC) then mret 0
  else if cmd =? MP_BLOCKDEV_IOCTL_BLOCK_COUNT then mret (block_count o)
  else if cmd =? MP_BLOCKDEV_IOCTL_BLOCK_SIZE then mret (block_size o)
  else if cmd =? MP_BLOCKDEV_IOCTL_BLOCK_ERASE then
    let off := block_num * block_size o in
    if s32 off =? off then
      r ← py_call (flash_area_erase (area o) off (block_size o)); mret (aret r)
    else py_fault
  else mret (-1).
End Storage.
