(* ===== verification/StorageThm.v ===== *)
(** Theorems on app/micropython/zephyr_storage.c: on a NOR flash a block that
    is written is read back, and the other blocks keep their contents. *)

From S2P Require Import Prelude Py Storage.

(** ** A NOR flash, as the flash map documents it *)

(** Bytes [off .. off + len l) replaced. *)
Definition patch (m : list Z) (off : Z) (l : list Z) : list Z :=
  take (Z.to_nat off) m ++ l ++ drop (Z.to_nat (off + len l)) m.
Definition slice (m : list Z) (off n : Z) : list Z := take (Z.to_nat n) (drop (Z.to_nat off) m).

(** Erasing sets the bytes to 0xff; writing can only clear bits. *)
Definition flash_effect (m : list Z) (c : stcall) : list Z :=
  match c with
  | flash_area_erase _ off n => patch m off (replicate (Z.to_nat n) 255)
  | flash_area_write _ off data => patch m off (zip_with Z.land (slice m off (len data)) data)
  | _ => m
  end.
Definition in_area (size : Z) (c : stcall) : Prop :=
  match c with
  | flash_area_erase _ off n => 0 <= off /\ 0 <= n /\ off + n <= size
  | flash_area_write _ off data => 0 <= off /\ off + len data <= size
  | flash_area_read _ off n => 0 <= off /\ 0 <= n /\ off + n <= size
  | _ => False
  end.
(** The contents after the calls made so far. *)
Definition flash_after (m : list Z) (hist : list (stcall * answer)) : list Z :=
  fold_left (fun m e => flash_effect m (fst e)) hist m.

Lemma len_patch m off l : 0 <= off -> off + len l <= len m -> len (patch m off l) = len m.
Proof. intros. unfold patch. rewrite !len_app, len_take, len_drop by (pose proof (len_nonneg l); lia). pose proof (len_nonneg l). lia. Qed.

Lemma slice_patch_same m off l : 0 <= off -> off + len l <= len m -> slice (patch m off l) off (len l) = l.
Proof.
  intros. unfold slice, patch. rewrite drop_app_le by (unfold len in *; rewrite length_take; lia).
  rewrite drop_ge by (rewrite length_take; lia). cbn [app]. unfold len. rewrite Nat2Z.id. by rewrite take_app_length.
Qed.

Lemma slice_patch_other m off l off' n :
  0 <= off -> off + len l <= len m -> 0 <= off' -> 0 <= n -> off' + n <= len m ->
  off' + n <= off \/ off + len l <= off' -> slice (patch m off l) off' n = slice m off' n.
Proof.
  intros H0 Hl Ho Hn Hm Hd. apply list_eq. intros i. unfold slice.
  destruct (decide (i < Z.to_nat n)%nat); [|by rewrite !lookup_take_ge by lia].
  rewrite !lookup_take_lt, !lookup_drop by lia. unfold patch, len in *.
  destruct Hd as [Hd|Hd].
  - rewrite lookup_app_l by (rewrite length_take; lia). by rewrite lookup_take_lt by lia.
  - rewrite lookup_app_r by (rewrite length_take; lia). rewrite length_take.
    rewrite lookup_app_r by lia. rewrite lookup_drop. f_equal. lia.
Qed.

Lemma land_erased n data : Forall is_byte data -> (length data <= n)%nat ->
  zip_with Z.land (take (length data) (replicate n 255)) data = data.
Proof.
  intros Hd. revert n. induction Hd as [|b data Hb Hd IH]; intros n Hn; [by rewrite take_0|].
  destruct n as [|n]; [cbn in Hn; lia|]. cbn [length replicate take zip_with]. rewrite IH by (cbn in Hn; lia). f_equal.
  rewrite Z.land_comm. change 255 with (Z.ones 8). rewrite Z.land_ones by lia. apply Z.mod_small. exact Hb.
Qed.

Lemma slice_take m off n k : 0 <= k <= n -> slice m off k = take (Z.to_nat k) (slice m off n).
Proof. intros H. unfold slice. rewrite take_take. f_equal. lia. Qed.

Lemma block_offset_ok o n :
  0 < block_size o -> 0 <= n -> n * block_size o < 2 ^ 31 -> block_offset n None o = n * block_size o.
Proof.
  intros Hb Hn Hs. unfold block_offset. rewrite (u32_id n) by nia. rewrite u32_id by nia. apply s32_id. nia.
Qed.

(** Writing over the erased bytes leaves exactly the data. *)
Lemma written_over_erased m fa off n buf :
  0 <= off -> 0 <= n -> off + n <= len m -> len buf <= n -> Forall is_byte buf ->
  flash_effect (flash_effect m (flash_area_erase fa off n)) (flash_area_write fa off buf) =
    patch (patch m off (replicate (Z.to_nat n) 255)) off buf.
Proof.
  intros H0 Hn Hm Hl Hb. pose proof (len_nonneg buf). cbn [flash_effect]. f_equal.
  assert (Hr : len (replicate (Z.to_nat n) 255) = n) by (unfold len; rewrite length_replicate; lia).
  rewrite (slice_take _ off n (len buf)) by lia. rewrite <- Hr at 2. rewrite slice_patch_same by lia.
  unfold len. rewrite Nat2Z.id. apply land_erased; [done|]. unfold len in *. lia.
Qed.

Section Blocks.
Context (env : list (stcall * answer) -> stcall -> answer) (m : list Z).
Hypothesis small : len m < 2 ^ 31.
(** Within the area every call succeeds, and reading answers the contents. *)
Hypothesis device : forall hist c, in_area (len m) c ->
  aret (env hist c) = 0 /\
  match c with flash_area_read _ off n => aout (env hist c) = slice (flash_after m hist) off n | _ => True end.

(** Block [n] of the area of [o]. *)
Definition block_of (o : zephyr_flash_area_obj) (mem : list Z) (n : Z) : list Z :=
  slice mem (n * block_size o) (block_size o).

Lemma run_write o n buf off :
  block_offset n None o = off -> let er := flash_area_erase (area o) off (block_size o) in
  let wb := flash_area_write (area o) off buf in
  aret (env [] er) = 0 -> aret (env [(er, env [] er)] wb) = 0 ->
  run env (zephyr_flash_area_writeblocks n buf None o) [] = (Ok (Val 0, o), [(er, env [] er); (wb, env [(er, env [] er)] wb)]).
Proof.
  intros Hoff er wb R1 R2. unfold zephyr_flash_area_writeblocks.
  rewrite (py_bind_val (py_get _)) with (a := o) (s' := o) by done.
  unfold mbind, py_bind, py_call, mret, py_ret, prog_ret. cbn -[Z.eqb block_offset]. rewrite ?Hoff. fold er. rewrite R1. change (0 =? 0) with true. cbn -[block_offset]. fold wb. by rewrite R2.
Qed.

Lemma run_read o n k off hist :
  block_offset n None o = off -> let rb := flash_area_read (area o) off k in
  run env (zephyr_flash_area_readblocks n k None o) hist =
    (Ok (Val (aret (env hist rb), aout (env hist rb)), o), hist ++ [(rb, env hist rb)]).
Proof.
  intros Hoff rb. unfold zephyr_flash_area_readblocks, mbind, py_bind, py_get, py_call, mret, py_ret, prog_ret.
  cbn -[block_offset]. by rewrite Hoff.
Qed.

(** C25: Writing at most one block of data at a block of a FlashArea succeeds,
    the data are read back from that block, and every other block of the area
    keeps its contents. *)
Theorem block_written_is_read o n buf :
  0 < block_size o -> 0 <= n -> (n + 1) * block_size o <= len m -> Forall is_byte buf -> len buf <= block_size o ->
  let '(w, hist) := run env (zephyr_flash_area_writeblocks n buf None o) [] in
  let '(r, _) := run env (zephyr_flash_area_readblocks n (len buf) None o) hist in
  w = Ok (Val 0, o) /\ r = Ok (Val (0, buf), o) /\
  forall k, 0 <= k -> (k + 1) * block_size o <= len m -> k <> n ->
    block_of o (flash_after m hist) k = block_of o m k.
Proof.
  intros Hb Hn Hm Hbytes Hlen. pose proof (len_nonneg buf) as Hl0.
  set (off := n * block_size o). assert (Hoff : block_offset n None o = off) by (apply block_offset_ok; nia).
  assert (H0 : 0 <= off) by (unfold off; nia).
  set (er := flash_area_erase (area o) off (block_size o)). set (wb := flash_area_write (area o) off buf).
  set (h2 := [(er, env [] er); (wb, env [(er, env [] er)] wb)]). set (rb := flash_area_read (area o) off (len buf)).
  destruct (device [] er) as [R1 _]; [unfold er, in_area, off in *; nia|].
  destruct (device [(er, env [] er)] wb) as [R2 _]; [unfold wb, in_area, off in *; nia|].
  destruct (device h2 rb) as [R3 R4]; [unfold rb, in_area, off in *; nia|].
  assert (W : run env (zephyr_flash_area_writeblocks n buf None o) [] = (Ok (Val 0, o), h2)) by exact (run_write o n buf off Hoff R1 R2).
  assert (Rd : run env (zephyr_flash_area_readblocks n (len buf) None o) h2 =
    (Ok (Val (aret (env h2 rb), aout (env h2 rb)), o), h2 ++ [(rb, env h2 rb)])) by exact (run_read o n (len buf) off h2 Hoff).
  rewrite W, Rd, R3, R4.
  change (flash_after m h2) with (flash_effect (flash_effect m er) wb).
  assert (Hflash : flash_effect (flash_effect m er) wb = patch (patch m off (replicate (Z.to_nat (block_size o)) 255)) off buf).
  { apply written_over_erased; unfold off in *; nia || done. }
  rewrite Hflash. assert (Hr : len (replicate (Z.to_nat (block_size o)) 255) = block_size o) by (unfold len; rewrite length_replicate; lia).
  assert (Hp : len (patch m off (replicate (Z.to_nat (block_size o)) 255)) = len m) by (apply len_patch; rewrite ?Hr; unfold off in *; nia).
  split; [done|]. split; [by rewrite slice_patch_same by (rewrite ?Hp; unfold off in *; nia)|].
  intros k Hk Hkm Hne. unfold block_of. assert (k + 1 <= n \/ n + 1 <= k) by lia.
  rewrite !slice_patch_other; rewrite ?Hp, ?Hr; unfold off in *; nia || done.
Qed.
End Blocks.

(** A device that behaves so. *)
Definition nor (m : list Z) (hist : list (stcall * answer)) (c : stcall) : answer :=
  Answer 0 (match c with flash_area_read _ off n => slice (flash_after m hist) off n | _ => [] end).
Definition example_area : zephyr_flash_area_obj := AreaObj 7 4 3 1.

Lemma block_written_is_read_witness :
  let m := replicate 12 9 in
  let '(w, hist) := run (nor m) (zephyr_flash_area_writeblocks 1 [1; 2; 3] None example_area) [] in
  let '(r, _) := run (nor m) (zephyr_flash_area_readblocks 1 3 None example_area) hist in
  w = Ok (Val 0, example_area) /\ r = Ok (Val (0, [1; 2; 3]), example_area) /\
  forall k, 0 <= k -> (k + 1) * 4 <= 12 -> k <> 1 ->
    block_of example_area (flash_after m hist) k = block_of example_area m k.
Proof.
  intros m. apply (block_written_is_read (nor m) m);
    [by_decide | intros hist c Hc; split; [reflexivity | by destruct c] | by_decide | by_decide | by_decide | by_decide | by_decide].
Defined.

(** Data longer than a block: only the first block is erased, so that the
    second one ends up with the conjunction of old and new bits. *)
Example second_block_not_erased :
  let m := replicate 12 9 in
  let '(w, hist) := run (nor m) (zephyr_flash_area_writeblocks 0 [1; 2; 3; 4; 5; 6; 7; 8] None example_area) [] in
  w = Ok (Val 0, example_area) /\
  fst (run (nor m) (zephyr_flash_area_readblocks 0 8 None example_area) hist) =
    Ok (Val (0, [1; 2; 3; 4; 1; 0; 1; 8]), example_area).
Proof. vm_compute. split; reflexivity. Qed.
