(* ===== verification/Thread.v ===== *)
(** app/micropython/mpthreadport.c: Python threads on Zephyr threads, with a
    fixed pool of stacks, and the collection of app/micropython/main.c that
    gives the stacks of finished threads back. *)

From S2P Require Import Prelude Py.

(** The kernel objects are addresses; [k_thread_foreach] answers the threads
    the kernel knows, [k_thread_create] the new thread and its stack. *)
Inductive thcall :=
  | k_current_get
  | k_thread_name_set (id : Z) (name : list Z)
  | k_thread_foreach
  | k_thread_create (stack_index entry arg priority : Z)
  | k_thread_abort (id : Z)
  | k_thread_priority_get (id : Z)
  | k_thread_custom_data_get
  | k_thread_custom_data_set (state : Z)
  | k_sem_init (sem count limit : Z)
  | k_sem_take (sem : Z) (forever : bool)
  | k_sem_give (sem : Z)
  | k_yield
  | entry_call (entry arg : Z)
  | m_new_obj
  | gc_collect_start
  | gc_helper_collect_regs_and_stack
  | gc_collect_root (pointers : list Z)
  | gc_collect_region (start words : Z)
  | gc_collect_end.

Definition MP_THREAD_MAXIMUM_USER_THREADS : nat := 4.

Inductive mp_thread_status_t :=
  | MP_THREAD_STATUS_CREATED
  | MP_THREAD_STATUS_READY
  | MP_THREAD_STATUS_FINISHED.
#[export] Instance mp_thread_status_dec : EqDecision mp_thread_status_t.
Proof. solve_decision. Defined.

(** A node of the list, at [addr]. *)
Record mp_thread_t := Thread {
  addr : Z;
  id : Z;
  status : mp_thread_status_t;
  alive : Z;
  slot : Z;
  arg : Z;
  stack : Z;
  stack_len : Z
}.
Definition set_status st th := Thread (addr th) (id th) st (alive th) (slot th) (arg th) (stack th) (stack_len th).
Definition set_alive a th := Thread (addr th) (id th) (status th) a (slot th) (arg th) (stack th) (stack_len th).

(** The static variables; the list is in the order of its [next] pointers. *)
Record threads := Threads { thread : list mp_thread_t; mp_thread_counter : Z; stack_slot : list bool }.
Definition set_thread l s := Threads l (mp_thread_counter s) (stack_slot s).
Definition set_counter c s := Threads (thread s) c (stack_slot s).
Definition set_slots l s := Threads (thread s) (mp_thread_counter s) l.

Local Abbreviation tm A := (stp thcall answer threads A).
Definition kernel (c : thcall) : tm Z := r ← ask c; mret (aret r).

Section Threads.
(** The addresses of [thread_mutex], [thread_entry0] and [mp_state_ctx.thread]. *)
Context (thread_mutex thread_entry0 state0 : Z).

(** ** The binary semaphore used as a mutex *)

Definition mp_thread_mutex_init (mutex : Z) : tm unit :=
  kernel (k_sem_init mutex 0 1);; kernel (k_sem_give mutex);; mret tt.
Definition mp_thread_mutex_lock (mutex : Z) (wait : bool) : tm bool :=
  r ← kernel (k_sem_take mutex wait); mret (r =? 0).
Definition mp_thread_mutex_unlock (mutex : Z) : tm unit :=
  kernel (k_sem_give mutex);; kernel k_yield;; mret tt.

(** ** Initialisation and thread state *)

Definition mp_thread_set_state (state : Z) : tm unit := kernel (k_thread_custom_data_set state);; mret tt.
Definition mp_thread_get_state : tm Z := kernel k_thread_custom_data_get.
Definition mp_thread_get_id : tm Z := kernel k_current_get.

(** The static [thread_entry0] has slot 0, which nothing ever writes. *)
Definition mp_thread_init (stack stack_len : Z) : tm unit :=
  mp_thread_set_state state0;;
  me ← kernel k_current_get;
  kernel (k_thread_name_set me (bytes_of_string "mp_main"));;
  lift (modify (set_counter 0));;
  mp_thread_mutex_init thread_mutex;;
  lift (modify (set_thread [Thread thread_entry0 me MP_THREAD_STATUS_READY 1 0 0 stack stack_len])).

(** ** Collection *)

(** The callback of [k_thread_foreach]. *)
Definition mp_thread_iterate_threads_cb (z_thread : Z) (s : threads) : threads :=
  set_thread (map (fun th => if id th =? z_thread then set_alive 1 th else th) (thread s)) s.

(** The loop that unlinks the nodes of threads that are gone. *)
Fixpoint unlink_dead (l : list mp_thread_t) : stm threads (list mp_thread_t) :=
  match l with
  | [] => mret []
  | th :: next =>
      if bool_decide (status th = MP_THREAD_STATUS_FINISHED) && (alive th =? 0) then
        updates (fun s => slots ← wr (stack_slot s) (slot th) false; Ok (set_slots slots s));;
        modify (fun s => set_counter (u8 (mp_thread_counter s - 1)) s);;
        unlink_dead next
      else
        rest ← unlink_dead next;
        mret (set_alive 0 th :: rest)
  end.

(** The loop that marks what the other threads hold. *)
Fixpoint collect_roots (l : list mp_thread_t) : tm unit :=
  match l with
  | [] => mret tt
  | th :: next =>
      kernel (gc_collect_root [addr th]);;
      kernel (gc_collect_root [arg th]);;
      me ← kernel k_current_get;
      (if id th =? me then mret tt
       else if negb (bool_decide (status th = MP_THREAD_STATUS_READY)) then mret tt
       else kernel (gc_collect_region (stack th) (stack_len th));; mret tt);;
      collect_roots next
  end.

Definition mp_thread_gc_others : tm unit :=
  l ← lift (gets thread);
  match l with
  | [] => mret tt
  | _ :: _ =>
      mp_thread_mutex_lock thread_mutex true;;
      known ← ask k_thread_foreach;
      lift (modify (fun s => fold_left (fun s z => mp_thread_iterate_threads_cb z s) (aout known) s));;
      l ← lift (gets thread);
      rest ← lift (unlink_dead l);
      lift (modify (set_thread rest));;
      collect_roots rest;;
      mp_thread_mutex_unlock thread_mutex
  end.

Definition gc_collect : tm unit :=
  kernel gc_collect_start;;
  kernel gc_helper_collect_regs_and_stack;;
  mp_thread_gc_others;;
  kernel gc_collect_end;;
  mret tt.

(** ** The life of a thread *)

(** [th->status = st] for the first thread of the list that is the caller. *)
Fixpoint mark_current (st : mp_thread_status_t) (l : list mp_thread_t) : tm (list mp_thread_t) :=
  match l with
  | [] => mret []
  | th :: next =>
      me ← kernel k_current_get;
      if id th =? me then mret (set_status st th :: next)
      else rest ← mark_current st next; mret (th :: rest)
  end.

Definition mp_thread_start : tm unit :=
  mp_thread_mutex_lock thread_mutex true;;
  l ← lift (gets thread);
  l' ← mark_current MP_THREAD_STATUS_READY l;
  lift (modify (set_thread l'));;
  mp_thread_mutex_unlock thread_mutex.

Definition mp_thread_finish : tm unit :=
  mp_thread_mutex_lock thread_mutex true;;
  l ← lift (gets thread);
  l' ← mark_current MP_THREAD_STATUS_FINISHED l;
  lift (modify (set_thread l'));;
  mp_thread_mutex_unlock thread_mutex.

(** [for (;;)] *)
Definition spin : tm unit := fun _ => Halt Deadlock.

(** The thread aborts itself; should that return, it spins for ever. *)
Definition zephyr_entry (arg1 arg2 : Z) : tm unit :=
  (if negb (arg1 =? 0) then kernel (entry_call arg1 arg2);; mret tt else mret tt);;
  me ← kernel k_current_get;
  kernel (k_thread_abort me);;
  spin.

Fixpoint find_slot (i : Z) (slots : list bool) : Z :=
  match slots with
  | [] => -1
  | used :: rest => if negb used then i else find_slot (i + 1) rest
  end.
Definition mp_thread_find_stack_slot (s : threads) : Z := find_slot 0 (stack_slot s).

(** Answers the thread and the new [*stack_size]. *)
Definition mp_thread_create_ex (entry arg priority : Z) (name : list Z) : py thcall answer threads (Z * Z) :=
  py_stp gc_collect;;
  a ← py_call m_new_obj;
  py_stp (mp_thread_mutex_lock thread_mutex true);;
  _slot ← py_get mp_thread_find_stack_slot;
  if _slot >=? 0 then
    r ← py_call (k_thread_create _slot entry arg priority);
    if aret r =? 0 then py_stp (mp_thread_mutex_unlock thread_mutex);; raise (OSErrorMsg 0)
    else
      py_call (k_thread_name_set (aret r) name);;
      let start := nth 0 (aout r) 0 in
      let size := nth 1 (aout r) 0 in
      py_set (fun s => set_thread (Thread (aret a) (aret r) MP_THREAD_STATUS_CREATED 0 _slot arg start (size / 4) :: thread s) s);;
      py_lift (updates (fun s => slots ← wr (stack_slot s) _slot true; Ok (set_slots slots s)));;
      py_set (fun s => set_counter (u8 (mp_thread_counter s + 1)) s);;
      py_stp (mp_thread_mutex_unlock thread_mutex);;
      mret (aret r, u32 (size - 1024))
  else
    py_stp (mp_thread_mutex_unlock thread_mutex);;
    raise (OSErrorMsg 0).

(** [%d] of the 8-bit counter. *)
Definition decimal8 (n : Z) : list Z :=
  (if 100 <=? n then [48 + n / 100] else []) ++ (if 10 <=? n then [48 + n / 10 mod 10] else []) ++ [48 + n mod 10].

Definition mp_thread_create (entry arg : Z) : py thcall answer threads (Z * Z) :=
  n ← py_get mp_thread_counter;
  me ← py_call k_current_get;
  prio ← py_call (k_thread_priority_get (aret me));
  mp_thread_create_ex entry arg (aret prio) (bytes_of_string "mp_thread_" ++ decimal8 n).

(** The loop of [mp_thread_deinit]. *)
Fixpoint abort_others (l : list mp_thread_t) : tm (list mp_thread_t) :=
  match l with
  | [] => mret []
  | th :: next =>
      me ← kernel k_current_get;
      if negb (id th =? me) && negb (bool_decide (status th = MP_THREAD_STATUS_FINISHED)) then
        kernel (k_thread_abort (id th));;
        rest ← abort_others next;
        mret (set_status MP_THREAD_STATUS_FINISHED th :: rest)
      else
        rest ← abort_others next;
        mret (th :: rest)
  end.

Definition mp_thread_deinit : tm unit :=
  mp_thread_mutex_lock thread_mutex true;;
  l ← lift (gets thread);
  l' ← abort_others l;
  lift (modify (set_thread l'));;
  mp_thread_mutex_unlock thread_mutex.

(** The thread part of a soft reset in [real_main]. *)
Definition soft_reset_threads : tm unit := mp_thread_deinit;; gc_collect.
End Threads.
