(* ===== verification/ThreadThm.v ===== *)
(** Theorems on app/micropython/mpthreadport.c: whatever the threads do, no
    two living threads run on the same stack, and the stacks come back. *)

From S2P Require Import Prelude Py Thread.

(** ** The kernel *)

Section Kernel.
(** The main thread, the thread that runs the operation, and the threads
    already listed: the kernel does not hand out one of their addresses. *)
Context (main cur : Z) (listed : list Z).

(** [live] maps the living threads of the pool to the stack they run on. *)
Implicit Types live : gmap Z Z.

Definition kok live (c : thcall) (r : answer) : Prop :=
  match c with
  | k_current_get => aret r = cur
  | k_thread_foreach =>
      (forall t, is_Some (live !! t) -> t ∈ aout r) /\
      (forall t, t ∈ aout r -> t ∈ listed -> t = main \/ is_Some (live !! t))
  | k_thread_create _ _ _ _ => aret r ∉ listed
  | _ => True
  end.
Definition keffect live (c : thcall) (r : answer) : gmap Z Z :=
  match c with
  | k_thread_create k _ _ _ => if aret r =? 0 then live else <[aret r := k]> live
  | k_thread_abort t => delete t live
  | _ => live
  end.

(** A run against the kernel; any thread may end at any moment. *)
Inductive kruns {A} : gmap Z Z -> prog thcall answer A -> gmap Z Z -> res A -> Prop :=
  | kruns_ret live a : kruns live (Ret a) live (Ok a)
  | kruns_halt live s : kruns live (Halt s) live (Stop s)
  | kruns_exit live t p live' out : kruns (delete t live) p live' out -> kruns live p live' out
  | kruns_call live c k r live' out :
      kok live c r -> kruns (keffect live c r) (k r) live' out -> kruns live (Call c k) live' out.

(** ** Weakest preconditions against the kernel *)

Fixpoint kwp {A} (p : prog thcall answer A) (Q : A -> gmap Z Z -> Prop) live : Prop :=
  match p with
  | Ret a => forall live', live' ⊆ live -> Q a live'
  | Halt _ => False
  | Call c k => forall live' r, live' ⊆ live -> kok live' c r -> kwp (k r) Q (keffect live' c r)
  end.

Lemma kwp_shrink {A} (p : prog thcall answer A) Q live live' : live' ⊆ live -> kwp p Q live -> kwp p Q live'.
Proof.
  destruct p; cbn; [|done|]; intros Hs H; [intros l Hl | intros l r Hl]; apply H; by etrans.
Qed.

Lemma kwp_sound {A} (p : prog thcall answer A) Q live live' out :
  kwp p Q live -> kruns live p live' out -> exists a, out = Ok a /\ Q a live'.
Proof.
  intros Hw Hr. induction Hr as [live a | live s | live t p live' out Hr IH | live c k r live' out Hk Hr IH].
  - exists a. split; [done|]. by apply Hw.
  - done.
  - apply IH. eapply kwp_shrink; [|exact Hw]. apply delete_subseteq.
  - apply IH. by apply Hw.
Qed.

Lemma kwp_mono {A} (p : prog thcall answer A) (Q Q' : A -> gmap Z Z -> Prop) live :
  (forall a l, Q a l -> Q' a l) -> kwp p Q live -> kwp p Q' live.
Proof.
  intros HQ. revert live. induction p as [a | s | c k IH]; intros live; cbn; [auto | done|].
  intros H l r Hl Hr. apply IH. by apply H.
Qed.

Lemma kwp_bind {A B} (m : stp thcall answer threads A) (f : A -> stp thcall answer threads B) s Q live :
  kwp (m s) (fun x l => kwp (f (fst x) (snd x)) Q l) live -> kwp ((m ≫= f) s) Q live.
Proof.
  unfold mbind, stp_bind. generalize (m s) as p. intros p. revert live.
  induction p as [[a s'] | e | c k IH]; intros live; cbn; [|done|].
  - intros H. by apply H.
  - intros H l r Hl Hr. apply IH. by apply H.
Qed.

Lemma kwp_assoc {A B D} (m : stp thcall answer threads A) (f : A -> stp thcall answer threads B)
    (g : B -> stp thcall answer threads D) s Q live :
  kwp ((m ≫= (fun a => f a ≫= g)) s) Q live -> kwp (((m ≫= f) ≫= g) s) Q live.
Proof.
  unfold mbind, stp_bind. generalize (m s) as p. intros p. revert live.
  induction p as [[a s'] | e | c k IH]; intros live; cbn; [done | done|].
  intros H l r Hl Hr. apply IH. by apply H.
Qed.

Lemma kwp_lift {A B} (m : stm threads A) (f : A -> stp thcall answer threads B) s a s' Q live :
  m s = Ok (a, s') -> kwp (f a s') Q live -> kwp ((lift m ≫= f) s) Q live.
Proof. intros E H. unfold mbind, stp_bind, lift. by rewrite E. Qed.

(** Code that leaves the lists alone and starts no thread. *)
Definition quiet {A} (m : stp thcall answer threads A) : Prop :=
  forall s (Q : A * threads -> gmap Z Z -> Prop) live,
    (forall a live', live' ⊆ live -> Q (a, s) live') -> kwp (m s) Q live.

Lemma quiet_ret {A} (a : A) : quiet (mret a).
Proof. intros s Q live H l Hl. by apply H. Qed.

Lemma quiet_bind {A B} (m : stp thcall answer threads A) (f : A -> stp thcall answer threads B) :
  quiet m -> (forall a, quiet (f a)) -> quiet (m ≫= f).
Proof.
  intros Hm Hf s Q live H. apply kwp_bind, Hm. intros a l Hl. cbn. apply Hf. intros b l' Hl'. apply H. by etrans.
Qed.

Lemma kwp_quiet {A B} (m : stp thcall answer threads A) (f : A -> stp thcall answer threads B) s Q live :
  quiet m -> (forall a live', live' ⊆ live -> kwp (f a s) Q live') -> kwp ((m ≫= f) s) Q live.
Proof. intros Hm H. apply kwp_bind, Hm. exact H. Qed.

Definition inert (c : thcall) : Prop :=
  match c with k_thread_create _ _ _ _ => False | _ => True end.

Lemma inert_shrinks c live r : inert c -> keffect live c r ⊆ live.
Proof. destruct c; try done. intros _. apply delete_subseteq. Qed.

Lemma quiet_kernel c : inert c -> quiet (kernel c).
Proof.
  intros Hc s Q live H l r Hl Hr l' Hl'. apply H. etrans; [exact Hl'|]. etrans; [by apply inert_shrinks | done].
Qed.
End Kernel.

Create HintDb quiet discriminated.
#[export] Hint Resolve quiet_ret quiet_kernel : quiet.
#[export] Hint Extern 1 (inert _) => exact I : quiet.
#[export] Hint Extern 1 (quiet _ _ _ (_ ≫= _)) => apply quiet_bind; [|intros ?] : quiet.
#[export] Hint Extern 1 (quiet _ _ _ (if _ then _ else _)) => case_match : quiet.
Ltac quiet_tac := eauto 20 with quiet nocore.

Section Quiet.
Context (main cur : Z) (listed : list Z) (thread_mutex : Z).

Lemma quiet_lock m w : quiet main cur listed (mp_thread_mutex_lock m w).
Proof. unfold mp_thread_mutex_lock. quiet_tac. Qed.
Lemma quiet_unlock m : quiet main cur listed (mp_thread_mutex_unlock m).
Proof. unfold mp_thread_mutex_unlock. quiet_tac. Qed.
#[local] Hint Resolve quiet_lock quiet_unlock : quiet.

Lemma quiet_roots l : quiet main cur listed (collect_roots l).
Proof. induction l as [|th l IH]; cbn [collect_roots]; quiet_tac. Qed.
End Quiet.
#[export] Hint Resolve quiet_lock quiet_unlock quiet_roots : quiet.

(** ** The pool of stacks *)

(** The marked slots are those of the listed threads, each used once. *)
Definition pool (ks : list Z) (slots : list bool) : Prop :=
  NoDup ks /\ Forall (fun k => 0 <= k) ks /\ length slots = MP_THREAD_MAXIMUM_USER_THREADS /\
  forall i, slots !! i = Some true <-> Z.of_nat i ∈ ks.

Lemma pool_slot ks slots k : pool ks slots -> k ∈ ks -> 0 <= k < 4 /\ slots !! Z.to_nat k = Some true.
Proof.
  intros (_ & Hp & Hl & H) Hk. rewrite Forall_forall in Hp. specialize (Hp k Hk).
  assert (E : slots !! Z.to_nat k = Some true) by (apply H; by rewrite Z2Nat.id).
  split; [|done]. apply lookup_lt_Some in E. rewrite Hl in E. unfold MP_THREAD_MAXIMUM_USER_THREADS in E. lia.
Qed.

Lemma pool_size ks slots : pool ks slots -> len ks <= 4.
Proof.
  intros Hp. pose proof Hp as (Hn & _). unfold len.
  cut (length ks <= length (seqZ 0 4))%nat; [rewrite length_seqZ; lia|].
  apply submseteq_length, NoDup_submseteq; [done|]. intros k Hk. destruct (pool_slot ks slots k Hp Hk) as [Hk4 _].
  apply elem_of_seqZ. lia.
Qed.

Lemma wr_pool ks slots k v : pool ks slots -> 0 <= k < 4 -> wr slots k v = Ok (<[Z.to_nat k := v]> slots).
Proof. intros (_ & _ & Hl & _) Hk. apply wr_ok. unfold len. rewrite Hl. unfold MP_THREAD_MAXIMUM_USER_THREADS. lia. Qed.

Lemma pool_free ks1 k ks2 slots : pool (ks1 ++ k :: ks2) slots -> pool (ks1 ++ ks2) (<[Z.to_nat k := false]> slots).
Proof.
  intros Hp. destruct (pool_slot _ _ k Hp) as [Hk _]; [by set_solver|].
  destruct Hp as (Hn & Hp & Hl & H). split_and!.
  - eapply sublist_NoDup; [exact Hn|]. apply sublist_app; [done | by apply sublist_cons].
  - rewrite Forall_app in *. destruct Hp as [? Hp]. by apply Forall_cons in Hp as [_ ?].
  - by rewrite length_insert.
  - intros i. rewrite NoDup_app, NoDup_cons in Hn. destruct Hn as (_ & Hn & Hk2 & _).
    destruct (decide (i = Z.to_nat k)) as [->|Hne].
    + rewrite list_lookup_insert_eq by (rewrite Hl; unfold MP_THREAD_MAXIMUM_USER_THREADS; lia). rewrite Z2Nat.id by lia. split; [done|].
      rewrite elem_of_app. intros [Hi|Hi]; [|done]. destruct (Hn k Hi). by left.
    + rewrite list_lookup_insert_ne by done. rewrite H, !elem_of_app, elem_of_cons. split; [|tauto].
      intros [?|[?|?]]; [tauto | lia | tauto].
Qed.

Lemma find_slot_spec i slots :
  find_slot i slots = -1 \/ exists n, find_slot i slots = i + Z.of_nat n /\ slots !! n = Some false.
Proof.
  revert i. induction slots as [|[] slots IH]; intros i; cbn [find_slot negb]; [by left| |].
  - destruct (IH (i + 1)) as [->|(n & -> & E)]; [by left|]. right. exists (S n). split; [lia | done].
  - right. exists 0%nat. split; [lia | done].
Qed.

Lemma pool_take ks slots k :
  pool ks slots -> find_slot 0 slots = k -> 0 <= k -> (k ∉ ks) /\ 0 <= k < 4 /\ pool (k :: ks) (<[Z.to_nat k := true]> slots).
Proof.
  intros Hp Hf Hk. destruct (find_slot_spec 0 slots) as [E|(n & E & En)]; [lia|].
  assert (k = Z.of_nat n) as -> by lia. destruct Hp as (Hn & Hpos & Hl & H).
  assert (Hnot : Z.of_nat n ∉ ks) by (rewrite <- H, En; discriminate).
  assert (Hn4 : (n < 4)%nat) by (apply lookup_lt_Some in En; rewrite Hl in En; exact En).
  split; [done|]. split; [lia|]. rewrite Nat2Z.id. split_and!.
  - by constructor.
  - constructor; [lia | done].
  - by rewrite length_insert.
  - intros i. destruct (decide (i = n)) as [->|Hne].
    + rewrite list_lookup_insert_eq by (rewrite Hl; exact Hn4). rewrite elem_of_cons. tauto.
    + rewrite list_lookup_insert_ne by done. rewrite H, elem_of_cons. split; [tauto|]. intros [?|?]; [lia | done].
Qed.

(** ** The list of threads *)

Definition finished (th : mp_thread_t) : bool := bool_decide (status th = MP_THREAD_STATUS_FINISHED).
Definition gone (th : mp_thread_t) : bool := finished th && (alive th =? 0).

(** What each loop leaves, for a caller [cur]. *)
Fixpoint marked (cur : Z) (st : mp_thread_status_t) (l : list mp_thread_t) : list mp_thread_t :=
  match l with
  | [] => []
  | th :: next => if id th =? cur then set_status st th :: next else th :: marked cur st next
  end.
Definition aborted (cur : Z) (th : mp_thread_t) : mp_thread_t :=
  if negb (id th =? cur) && negb (finished th) then set_status MP_THREAD_STATUS_FINISHED th else th.
Definition seen (known : list Z) (th : mp_thread_t) : mp_thread_t :=
  if bool_decide (id th ∈ known) then set_alive 1 th else th.
Definition kept (l : list mp_thread_t) : list mp_thread_t := filter (fun th => gone th = false) l.

Lemma id_aborted cur th : id (aborted cur th) = id th.
Proof. unfold aborted. by case_test. Qed.

Lemma iterate_all known s :
  fold_left (fun s z => mp_thread_iterate_threads_cb z s) known s = set_thread (map (seen known) (thread s)) s.
Proof.
  revert s. induction known as [|z known IH]; intros s; cbn [fold_left].
  - destruct s as [l c k]. unfold set_thread. cbn. f_equal. symmetry. rewrite <- (map_id l) at 2. by apply map_ext.
  - rewrite IH. unfold mp_thread_iterate_threads_cb, set_thread. cbn. f_equal. rewrite map_map. apply map_ext.
    intros th. unfold seen. destruct (id th =? z) eqn:E; zify_bool.
    + rewrite (bool_decide_eq_true_2 (id th ∈ z :: known)) by (rewrite E; left). cbn [id set_alive]. by case_bool_decide.
    + destruct (decide (id th ∈ known)).
      * rewrite !bool_decide_eq_true_2; [done | by right | done].
      * rewrite !bool_decide_eq_false_2; [done | | done]. rewrite elem_of_cons. tauto.
Qed.

(** The loop frees the slots of exactly the threads that are gone. *)
Lemma unlink_dead_spec ks us e s :
  pool (ks ++ map slot us) (stack_slot s) -> mp_thread_counter s = len (ks ++ map slot us) -> finished e = false ->
  exists slots, unlink_dead (us ++ [e]) s =
      Ok (map (set_alive 0) (kept us ++ [e]), Threads (thread s) (len (ks ++ map slot (kept us))) slots) /\
    pool (ks ++ map slot (kept us)) slots.
Proof.
  revert ks s. induction us as [|u us IH]; intros ks s Hp Hc He.
  { exists (stack_slot s). split; [|done]. cbn. rewrite app_nil_r. fold (finished e). rewrite He. cbn.
    cbn in Hc. rewrite app_nil_r in Hc. rewrite <- Hc. by destruct s. }
  cbn [app unlink_dead]. fold (finished u). fold (gone u). destruct (gone u) eqn:Eg.
  - assert (Hs : 0 <= slot u < 4) by (eapply pool_slot; [exact Hp | by set_solver]).
    pose proof (pool_size _ _ Hp) as Hsz. cbn [map] in *. rewrite len_app, len_cons in Hc, Hsz.
    pose proof (len_nonneg ks). pose proof (len_nonneg (map slot us)).
    rewrite (stm_bind_ok _ _ s tt (set_slots (<[Z.to_nat (slot u) := false]> (stack_slot s)) s)); cycle 1.
    { apply updates_ok. by erewrite wr_pool. }
    erewrite (stm_bind_ok (modify _)) by reflexivity.
    destruct (IH ks (set_counter (u8 (mp_thread_counter s - 1)) (set_slots (<[Z.to_nat (slot u) := false]> (stack_slot s)) s)))
      as (slots & E & Hp'); [by apply pool_free | | done |].
    + cbn. rewrite u8_id by lia. rewrite len_app. lia.
    + exists slots. cbn [mp_thread_counter set_slots] in *. rewrite E. unfold kept. cbn [filter list_filter].
      rewrite decide_False by (by rewrite Eg). split; done.
  - cbn [map] in *. destruct (IH (ks ++ [slot u]) s) as (slots & E & Hp'); [by rewrite <- app_assoc | by rewrite <- app_assoc | done |].
    exists slots. rewrite (stm_bind_ok _ _ _ _ _ E). unfold kept. cbn [filter list_filter].
    rewrite decide_True by done. rewrite <- !app_assoc in *. split; done.
Qed.

(** ** The invariant *)

(** The list ends with the main thread; the others hold the marked slots, and
    every living thread of the pool is listed with the stack it runs on. *)
Definition inv (main : Z) (s : threads) (live : gmap Z Z) : Prop :=
  exists us e, thread s = us ++ [e] /\ id e = main /\ finished e = false /\ NoDup (map id (us ++ [e])) /\
    Forall (fun u => alive u = 0) us /\ pool (map slot us) (stack_slot s) /\ mp_thread_counter s = len (map slot us) /\
    forall t k, live !! t = Some k -> exists u, u ∈ us /\ id u = t /\ slot u = k.

Lemma inv_shrink main s live live' : live' ⊆ live -> inv main s live -> inv main s live'.
Proof.
  intros Hs (us & e & H). exists us, e. destruct H as (? & ? & ? & ? & ? & ? & ? & Hl). split_and!; try done.
  intros t k E. apply Hl. by eapply lookup_weaken.
Qed.

(** Changing the status of listed threads, the main thread apart. *)
Definition keeps (f : mp_thread_t -> mp_thread_t) : Prop :=
  forall th, id (f th) = id th /\ slot (f th) = slot th /\ alive (f th) = alive th.

Lemma inv_map main s live f :
  keeps f -> (forall th, id th = main -> finished th = false -> finished (f th) = false) -> inv main s live ->
  inv main (set_thread (map f (thread s)) s) live.
Proof.
  intros Hf Hm (us & e & Hl & Hid & Hfin & Hn & Ha & Hp & Hc & Hlive). exists (map f us), (f e).
  assert (Hids : map id (map f us) = map id us) by (rewrite map_map; apply map_ext; apply Hf).
  assert (Hslots : map slot (map f us) = map slot us) by (rewrite map_map; apply map_ext; apply Hf).
  cbn. rewrite Hl, map_app. split_and!; [done | | by apply Hm | | | by rewrite Hslots | by rewrite Hslots |].
  - rewrite <- Hid. apply Hf.
  - rewrite map_app in *. rewrite Hids. cbn in *. by rewrite (proj1 (Hf e)).
  - apply Forall_map. eapply Forall_impl; [exact Ha|]. cbn. intros u Hu. rewrite <- Hu. apply Hf.
  - intros t k E. destruct (Hlive t k E) as (u & Hu & <- & <-). exists (f u). split_and!; [|apply Hf..].
    by apply list_elem_of_fmap_2.
Qed.

Lemma marked_map cur st l : NoDup (map id l) ->
  marked cur st l = map (fun th => if id th =? cur then set_status st th else th) l.
Proof.
  induction l as [|th l IH]; [done|]. cbn. intros [Hn Hd]%NoDup_cons. destruct (id th =? cur) eqn:E; zify_bool.
  - f_equal. rewrite <- (map_id l) at 1. apply map_ext_in. intros u Hu. case_test; [|done].
    destruct Hn. rewrite E, <- Heqb. by apply list_elem_of_fmap_2, list_elem_of_In.
  - f_equal. by apply IH.
Qed.

Lemma inv_nodup main s live : inv main s live -> NoDup (map id (thread s)).
Proof. intros (us & e & -> & H). apply H. Qed.

Lemma inv_marked main s live cur st :
  (st = MP_THREAD_STATUS_FINISHED -> cur <> main) -> inv main s live -> inv main (set_thread (marked cur st (thread s)) s) live.
Proof.
  intros Hst Hi. rewrite marked_map by (by eapply inv_nodup). destruct Hi as (us & e & Hi). pose proof Hi as (Hl & He & Hf & _).
  destruct (decide (st = MP_THREAD_STATUS_FINISHED)) as [->|Hne].
  - apply inv_map; [| |by exists us, e]; intros th; [case_test; done|]. intros Hm Hu. case_test; [|done].
    exfalso. apply Hst; [done | congruence].
  - apply inv_map; [intros th; case_test; done| |by exists us, e].
    intros th. case_test; [|auto]. intros _ _. unfold finished. by apply bool_decide_eq_false_2.
Qed.

(** ** The operations *)

Section Ops.
Context (main cur : Z) (listed : list Z) (thread_mutex : Z).
Local Abbreviation wp := (kwp main cur listed).

Lemma kwp_mark st l s (Q : list mp_thread_t * threads -> gmap Z Z -> Prop) live :
  (forall live', live' ⊆ live -> Q (marked cur st l, s) live') -> wp (mark_current st l s) Q live.
Proof.
  revert Q live. induction l as [|th l IH]; intros Q live H; cbn [mark_current marked].
  - intros l' Hl. by apply H.
  - intros l1 r Hl1 Hr. cbn in Hr. cbn -[Z.eqb]. rewrite Hr. cbn [marked] in H. destruct (id th =? cur).
    + intros l2 Hl2. apply H. by etrans.
    + apply kwp_bind, IH. intros l2 Hl2 l3 Hl3. cbn. apply H. etrans; [exact Hl3|]. by etrans.
Qed.

(** The aborted threads are dead. *)
Lemma kwp_abort l s (Q : list mp_thread_t * threads -> gmap Z Z -> Prop) live :
  (forall live', live' ⊆ live ->
    (forall th, th ∈ l -> id th <> cur -> finished th = false -> live' !! id th = None) ->
    Q (map (aborted cur) l, s) live') -> wp (abort_others l s) Q live.
Proof.
  revert Q live. induction l as [|th l IH]; intros Q live H; cbn [abort_others map].
  - intros l' Hl. apply H; [done|]. intros th Hth. by apply not_elem_of_nil in Hth.
  - intros l1 r Hl1 Hr. cbn in Hr. cbn -[Z.eqb]. rewrite Hr. fold (finished th).
    destruct (negb (id th =? cur) && negb (finished th)) eqn:E.
    + intros l2 r2 Hl2 _. apply kwp_bind, IH. intros l3 Hl3 Hdead l4 Hl4. cbn.
      replace (set_status MP_THREAD_STATUS_FINISHED th) with (aborted cur th) by (unfold aborted; by rewrite E).
      apply (H l4); [etrans; [exact Hl4|]; etrans; [exact Hl3|]; etrans; [apply delete_subseteq|]; by etrans|].
      intros u [->|Hu]%elem_of_cons Hc Hf.
      * eapply lookup_weaken_None; [apply (lookup_delete_eq l2 (id th))|]. by etrans.
      * eapply lookup_weaken_None; [by apply Hdead | done].
    + apply kwp_bind, IH. intros l3 Hl3 Hdead l4 Hl4. cbn.
      replace th with (aborted cur th) at 1 by (unfold aborted; by rewrite E).
      apply (H l4); [etrans; [exact Hl4|]; by etrans|].
      intros u [->|Hu]%elem_of_cons Hc Hf.
      * rewrite Hf, andb_true_r in E. zify_bool. done.
      * eapply lookup_weaken_None; [by apply Hdead | done].
Qed.

(** What a collection leaves of the list. *)
Definition collected (live : gmap Z Z) (s s' : threads) : Prop :=
  forall u, u ∈ thread s' -> exists u0, u0 ∈ thread s /\ id u = id u0 /\ status u = status u0 /\
    (id u0 <> main -> finished u0 = true -> is_Some (live !! id u0)).

Lemma inv_collected s live known slots us e :
  thread s = us ++ [e] -> inv main s live ->
  (forall t, is_Some (live !! t) -> t ∈ known) ->
  pool (map slot (kept (map (seen known) us))) slots ->
  inv main (Threads (map (set_alive 0) (kept (map (seen known) us) ++ [seen known e]))
    (len (map slot (kept (map (seen known) us)))) slots) live.
Proof.
  intros Hl (us' & e' & Hl' & Hid & Hfin & Hn & Ha & Hp & Hc & Hlive) Hknown Hp'.
  rewrite Hl in Hl'. apply app_inj_tail in Hl' as [<- <-].
  assert (Hseen : forall u, id (seen known u) = id u /\ slot (seen known u) = slot u /\ finished (seen known u) = finished u).
  { intros u. unfold seen. by case_bool_decide. }
  exists (map (set_alive 0) (kept (map (seen known) us))), (set_alive 0 (seen known e)).
  cbn. rewrite map_app. assert (Hs : map slot (map (set_alive 0) (kept (map (seen known) us))) = map slot (kept (map (seen known) us)))
    by (rewrite map_map; by apply map_ext).
  split_and!; [done | | | | | by rewrite Hs | by rewrite Hs |].
  - rewrite <- Hid. apply Hseen.
  - rewrite <- Hfin. apply Hseen.
  - eapply sublist_NoDup; [exact Hn|]. rewrite !map_app. apply sublist_app; cycle 1.
    { cbn. by rewrite (proj1 (Hseen e)). }
    rewrite map_map. change (fun x => id (set_alive 0 x)) with id.
    etrans; [apply fmap_sublist, sublist_filter|].
    rewrite map_map. erewrite map_ext; [done | apply Hseen].
  - apply Forall_map, Forall_true. done.
  - intros t k E. destruct (Hlive t k E) as (u & Hu & Ht & Hk). exists (set_alive 0 (seen known u)).
    split_and!; [|rewrite <- Ht; apply Hseen | rewrite <- Hk; apply Hseen].
    apply list_elem_of_fmap_2. apply list_elem_of_filter. split; [|by apply list_elem_of_fmap_2].
    unfold gone, seen. rewrite bool_decide_eq_true_2 by (apply Hknown; rewrite Ht; eauto). cbn. by rewrite andb_false_r.
Qed.

Lemma collected_kept s s' live known us e :
  thread s = us ++ [e] -> Forall (fun u => alive u = 0) us -> id e = main ->
  (forall th, th ∈ thread s -> id th ∈ listed) ->
  (forall t, t ∈ known -> t ∈ listed -> t = main \/ is_Some (live !! t)) ->
  thread s' = map (set_alive 0) (kept (map (seen known) us) ++ [seen known e]) -> collected live s s'.
Proof.
  intros Hl Ha He Hin Hknown Hs' u. rewrite Hs', map_app. cbn [map]. rewrite elem_of_app, list_elem_of_singleton.
  intros [Hu| ->].
  - apply list_elem_of_fmap in Hu as (u1 & -> & Hu). apply list_elem_of_filter in Hu as [Hg Hu].
    apply list_elem_of_fmap in Hu as (u0 & -> & Hu). exists u0.
    split_and!; [rewrite Hl, elem_of_app; by left | unfold seen; by case_bool_decide | unfold seen; by case_bool_decide |].
    intros Hm Hf. rewrite Forall_forall in Ha. unfold gone, seen in Hg. case_bool_decide as Hk.
    + destruct (Hknown (id u0)) as [?|?]; [done | | done | done]. apply Hin. rewrite Hl, elem_of_app. by left.
    + rewrite (Ha u0 Hu), Hf in Hg. done.
  - exists e. split_and!; [rewrite Hl, elem_of_app; right; by left | unfold seen; by case_bool_decide | unfold seen; by case_bool_decide | done].
Qed.
End Ops.

(** Run the next quiet operation of a goal, keeping the invariant. *)
Ltac kstep :=
  rewrite ?(stm_bind_bind);
  lazymatch goal with
  | |- kwp _ _ _ (((_ ≫= _) ≫= _) _) _ _ => apply kwp_assoc
  | |- kwp _ _ _ ((lift (gets _) ≫= _) _) _ _ => eapply kwp_lift; [reflexivity|]; cbv beta
  | |- kwp _ _ _ ((lift (modify _) ≫= _) _) _ _ => eapply kwp_lift; [reflexivity|]; cbv beta
  | |- kwp _ _ _ ((_ ≫= _) _) _ _ => apply kwp_quiet; [solve [quiet_tac]|]; intros ? ? ?
  end.

Section Steps.
Context (main cur thread_mutex : Z) (listed : list Z).
Local Abbreviation wp := (kwp main cur listed).

Lemma gc_others_spec s live :
  inv main s live -> (forall th, th ∈ thread s -> id th ∈ listed) ->
  wp (mp_thread_gc_others thread_mutex s) (fun x l => inv main (snd x) l /\ collected main live s (snd x)) live.
Proof.
  intros Hi Hin. pose proof Hi as (us & e & Hl & Hid & Hfin & _ & Ha & Hp & Hc & _).
  unfold mp_thread_gc_others. kstep. destruct (thread s) as [|th0 l0] eqn:El; [by destruct us|].
  kstep. apply kwp_bind. intros l2 r Hl2 [Hk1 Hk2] l3 Hl3. cbn [fst snd keffect] in *.
  rewrite <- El in *. clear El th0 l0. rename l2 into lk. set (known := aout r) in *.
  eapply kwp_lift; [reflexivity|]. kstep. rewrite iterate_all. cbn [thread set_thread]. rewrite Hl, map_app. cbn [map].
  assert (Hs1 : map slot (map (seen known) us) = map slot us).
  { rewrite map_map. apply map_ext. intros u. unfold seen. by case_bool_decide. }
  destruct (unlink_dead_spec [] (map (seen known) us) (seen known e) (set_thread (map (seen known) us ++ [seen known e]) s))
    as (slots & E & Hp'); [cbn; by rewrite Hs1 | cbn; by rewrite Hs1 | unfold seen; by case_bool_decide|].
  eapply kwp_lift; [exact E|]. kstep. cbn [set_thread thread].
  assert (Hl3' : l3 ⊆ live) by (etrans; [exact Hl3|]; by etrans).
  assert (Hi3 : inv main s l3) by (by eapply inv_shrink).
  assert (Hk3 : forall t, is_Some (l3 !! t) -> t ∈ known).
  { intros t [k Ek]. apply Hk1. exists k. by eapply lookup_weaken. }
  pose proof (inv_collected main s l3 known slots us e Hl Hi3 Hk3 Hp') as Hinv.
  kstep. apply quiet_unlock. intros ? l5 Hl5. cbn [snd]. split.
  - eapply inv_shrink; [|exact Hinv]. by etrans.
  - eapply (collected_kept main listed) with (known := known) (us := us) (e := e); try done.
    intros t Ht Ht'. destruct (Hk2 t Ht Ht') as [->|[k Ek]]; [by left|]. right. exists k.
    eapply lookup_weaken; [exact Ek|]. by etrans.
Qed.

Lemma collected_sub s s' live live' : live ⊆ live' -> collected main live s s' -> collected main live' s s'.
Proof.
  intros Hs H u Hu. destruct (H u Hu) as (u0 & ? & ? & ? & Hf). exists u0. split_and!; try done.
  intros Hm Hfin. destruct (Hf Hm Hfin) as [k E]. exists k. by eapply lookup_weaken.
Qed.

Lemma gc_collect_spec s live :
  inv main s live -> (forall th, th ∈ thread s -> id th ∈ listed) ->
  wp (gc_collect thread_mutex s) (fun x l => inv main (snd x) l /\ collected main live s (snd x)) live.
Proof.
  intros Hi Hin. unfold gc_collect. kstep. kstep. apply kwp_bind.
  eapply kwp_mono; [|apply gc_others_spec; [eapply inv_shrink; [|exact Hi]; by etrans | done]].
  intros [[] s'] l [Hi' Hcol]. cbn [fst snd] in *. kstep. intros ? Hl. cbn [snd]. split.
  - eapply inv_shrink; [|exact Hi']. by etrans.
  - eapply collected_sub; [|exact Hcol]. by etrans.
Qed.

Lemma mark_spec st s live :
  (st = MP_THREAD_STATUS_FINISHED -> cur <> main) -> inv main s live ->
  wp ((mp_thread_mutex_lock thread_mutex true;; l ← lift (gets thread); l' ← mark_current st l;
       lift (modify (set_thread l'));; mp_thread_mutex_unlock thread_mutex) s) (fun x l => inv main (snd x) l) live.
Proof.
  intros Hst Hi. kstep. kstep. apply kwp_bind, kwp_mark. intros l1 Hl1. cbn [fst snd]. kstep.
  apply quiet_unlock. intros ? l2 Hl2. cbn [snd]. apply (inv_shrink main _ live); [etrans; [exact Hl2|]; by etrans|].
  by apply inv_marked.
Qed.

Lemma deinit_spec s live :
  cur = main -> inv main s live ->
  wp (mp_thread_deinit thread_mutex s) (fun x l => inv main (snd x) l /\ thread (snd x) = map (aborted cur) (thread s) /\
    l ⊆ live /\ forall th, th ∈ thread s -> id th <> main -> finished th = false -> l !! id th = None) live.
Proof.
  intros Hc Hi. unfold mp_thread_deinit. kstep. kstep. apply kwp_bind, kwp_abort. intros l1 Hl1 Hdead. cbn [fst snd]. kstep.
  apply quiet_unlock. intros ? l2 Hl2. cbn [snd set_thread thread].
  assert (Hsub : l2 ⊆ live) by (etrans; [exact Hl2|]; by etrans). split_and!; [|done | done|].
  - apply inv_shrink with (live := live); [done|]. apply inv_map; [| |done]; intros th; unfold aborted; [by case_test|].
    intros Hm Hf. rewrite Hm, <- Hc, Z.eqb_refl. done.
  - intros th Hth Hm Hf. eapply lookup_weaken_None; [apply Hdead; [done | congruence | done] | done].
Qed.

Lemma kwp_py_stp {A B} (m : stp thcall answer threads A) (f : A -> py thcall answer threads B) s Q live :
  wp (m s) (fun x l => wp (f (fst x) (snd x)) Q l) live -> wp ((py_stp m ≫= f) s) Q live.
Proof.
  unfold mbind, py_bind, py_stp. change (@mbind (prog thcall answer) prog_bind) with (@prog_bind thcall answer). unfold prog_bind.
  generalize (m s) as p. intros p. revert live.
  induction p as [[a s'] | e | c k IH]; intros live; cbn; [|done|].
  - intros H. by apply H.
  - intros H l r Hl Hr. apply IH. by apply H.
Qed.

(** Listing a new thread on a free stack. *)
Lemma inv_add s live a tid k ar st sl :
  inv main s live -> (tid ∉ map id (thread s)) -> mp_thread_find_stack_slot s = k -> 0 <= k ->
  exists slots, wr (stack_slot s) k true = Ok slots /\
    inv main (Threads (Thread a tid MP_THREAD_STATUS_CREATED 0 k ar st sl :: thread s) (u8 (mp_thread_counter s + 1)) slots)
      (<[tid := k]> live).
Proof.
  intros (us & e & Hl & Hid & Hfin & Hn & Ha & Hp & Hc & Hlive) Hnew Hk Hk0.
  destruct (pool_take _ _ k Hp Hk Hk0) as (Hnot & Hk4 & Hp'). exists (<[Z.to_nat k := true]> (stack_slot s)).
  split; [by eapply wr_pool|]. set (th := Thread _ _ _ _ _ _ _ _). exists (th :: us), e. cbn [thread stack_slot mp_thread_counter].
  pose proof (pool_size _ _ Hp). pose proof (len_nonneg (map slot us)). rewrite Hl in *.
  split_and!; [done | done | done | by constructor | by constructor | done | |].
  - cbn [map]. rewrite len_cons, Hc, u8_id by lia. done.
  - intros t j E. destruct (decide (t = tid)) as [->|Hne].
    + rewrite lookup_insert_eq in E. injection E as <-. exists th. split_and!; [by left | done | done].
    + rewrite lookup_insert_ne in E by done. destruct (Hlive t j E) as (u & Hu & ? & ?). exists u. split_and!; [by right | done | done].
Qed.

Lemma create_spec entry arg prio name s live :
  inv main s live -> listed = map id (thread s) ->
  wp (mp_thread_create_ex thread_mutex entry arg prio name s) (fun x l => inv main (snd x) l) live.
Proof.
  intros Hi Hlisted. unfold mp_thread_create_ex. apply kwp_py_stp.
  eapply kwp_mono; [|apply gc_collect_spec; [exact Hi|]].
  2:{ intros th Hth. rewrite Hlisted. by apply list_elem_of_fmap_2. }
  intros [[] s1] l [Hi1 Hcol]. cbn [fst snd] in *.
  assert (Hids : forall tid, tid ∉ listed -> tid ∉ map id (thread s1)).
  { intros tid Hnew (u & -> & Hu)%list_elem_of_fmap. destruct (Hcol u Hu) as (u0 & Hu0 & Eid & _).
    apply Hnew. rewrite Hlisted, Eid. by apply list_elem_of_fmap_2. }
  clear Hcol Hi s live Hlisted. intros l1 a Hl1 _. cbn [keffect]. apply kwp_py_stp, quiet_lock. intros locked l2 Hl2. cbn [fst snd].
  rewrite (py_bind_val (py_get _)) with (a := mp_thread_find_stack_slot s1) (s' := s1) by done.
  assert (Hi2 : inv main s1 l2) by (eapply inv_shrink; [|exact Hi1]; by etrans).
  clear Hi1 Hl1 Hl2 l l1. destruct (_ >=? 0) eqn:Ek; zify_bool; cycle 1.
  { apply kwp_py_stp, quiet_unlock. intros ? l3 Hl3 l4 Hl4. cbn [snd]. eapply inv_shrink; [|exact Hi2]. by etrans. }
  intros l3 r Hl3 Hr. cbn [kok keffect] in *. cbn [prog_bind']. destruct (aret r =? 0) eqn:E0.
  { apply kwp_py_stp, quiet_unlock. intros ? l4 Hl4 l5 Hl5. cbn [snd]. eapply inv_shrink; [|exact Hi2]. etrans; [exact Hl5|]. by etrans. }
  intros l4 rn Hl4 _. cbn [keffect prog_bind']. cbv zeta.
  destruct (inv_add s1 l3 (aret a) (aret r) _ arg (nth 0 (aout r) 0) (nth 1 (aout r) 0 / 4)
    (inv_shrink _ _ _ _ Hl3 Hi2) (Hids _ Hr) eq_refl Ek) as (slots & Ew & Hinv).
  erewrite (py_bind_val (py_set _)) by reflexivity.
  erewrite (py_bind_val (py_lift _)); [|unfold py_lift, updates; cbn [stack_slot set_thread]; rewrite Ew; reflexivity].
  erewrite (py_bind_val (py_set _)) by reflexivity.
  apply kwp_py_stp, quiet_unlock. intros ? l5 Hl5 l6 Hl6. cbn [snd].
  eapply inv_shrink; [|exact Hinv]. etrans; [exact Hl6|]. by etrans.
Qed.

Lemma mp_thread_create_spec en ar s live :
  inv main s live -> listed = map id (thread s) ->
  wp (mp_thread_create thread_mutex en ar s) (fun x l => inv main (snd x) l) live.
Proof.
  intros Hi Hlisted. unfold mp_thread_create.
  rewrite (py_bind_val (py_get _)) with (a := mp_thread_counter s) (s' := s) by done.
  intros l1 me Hl1 _ l2 prio Hl2 _. cbn [keffect prog_bind'] in *.
  apply create_spec; [|done]. eapply inv_shrink; [|exact Hi]. by etrans.
Qed.

Lemma kwp_drop {A} (p : prog thcall answer (A * threads)) (P : threads -> gmap Z Z -> Prop) live :
  wp p (fun x l => P (snd x) l) live -> wp ('(_, s') ← p; Ret (tt, s')) (fun x l => P (snd x) l) live.
Proof.
  revert live. induction p as [[r s'] | e | c k IH]; intros live; [done | done|].
  cbn. intros H l r Hl Hr. apply IH. by apply H.
Qed.
End Steps.

(** ** The life of the interpreter *)

Section Life.
Context (main thread_mutex thread_entry0 state0 : Z).

(** What the interpreter's threads do with the module; a finished thread is not
    the main one, and only the main thread takes the interpreter down. *)
Inductive op :=
  | Create (entry arg : Z)
  | Start
  | Finish
  | Deinit
  | Collect.
Definition allowed (cur : Z) (o : op) : Prop :=
  match o with Finish => cur <> main | Deinit => cur = main | _ => True end.
Definition perform (o : op) : stp thcall answer threads unit :=
  match o with
  | Create entry arg => fun s => '(_, s') ← mp_thread_create thread_mutex entry arg s; Ret (tt, s')
  | Start => mp_thread_start thread_mutex
  | Finish => mp_thread_finish thread_mutex
  | Deinit => mp_thread_deinit thread_mutex
  | Collect => gc_collect thread_mutex
  end.

(** The states the module can be in, with the living threads of the pool. *)
Inductive reachable : threads -> gmap Z Z -> Prop :=
  | reach_init stack stack_len live s :
      kruns main main [] ∅ (mp_thread_init thread_mutex thread_entry0 state0 stack stack_len
        (Threads [] 0 (replicate MP_THREAD_MAXIMUM_USER_THREADS false))) live (Ok (tt, s)) -> reachable s live
  | reach_exit t s live : reachable s live -> reachable s (delete t live)
  | reach_op cur o s live s' live' :
      allowed cur o -> reachable s live ->
      kruns main cur (map id (thread s)) live (perform o s) live' (Ok (tt, s')) -> reachable s' live'.

Lemma perform_spec cur o s live :
  allowed cur o -> inv main s live ->
  kwp main cur (map id (thread s)) (perform o s) (fun x l => inv main (snd x) l) live.
Proof.
  intros Ha Hi. destruct o as [en ar| | | |]; cbn [perform allowed] in *.
  - apply kwp_drop. by apply mp_thread_create_spec.
  - by apply (mark_spec main cur thread_mutex _ MP_THREAD_STATUS_READY).
  - by apply (mark_spec main cur thread_mutex _ MP_THREAD_STATUS_FINISHED).
  - eapply kwp_mono; [|by apply deinit_spec]. by intros [[] s'] l [? _].
  - eapply kwp_mono; [|apply gc_collect_spec; [done|]]; [by intros [[] s'] l [? _]|].
    intros th Hth. by apply list_elem_of_fmap_2.
Qed.

Lemma reachable_inv s live : reachable s live -> inv main s live.
Proof.
  induction 1 as [st sl live s Hr | t s live _ IH | cur o s live s' live' Ha _ IH Hr].
  - refine (_ (kwp_sound main main [] _ (fun x l => inv main (snd x) l) _ _ _ _ Hr)); [by intros (x & [= <-] & H)|].
    unfold mp_thread_init, mp_thread_set_state. apply kwp_assoc. kstep. kstep. intros l r Hl Hr'. cbn in Hr'.
    cbn. rewrite Hr'. intros l1 ? Hl1 _. cbn. intros l2 ? Hl2 _ l3 ? Hl3 _ l4 Hl4. cbn [snd set_thread set_counter].
    exists [], (Thread thread_entry0 main MP_THREAD_STATUS_READY 1 0 0 st sl). cbn.
    assert (l4 = ∅) as ->.
    { apply map_subseteq_po; [|apply map_empty_subseteq]. repeat (etrans; [eassumption|]). done. }
    split_and!; try done; [by apply NoDup_singleton|]. unfold pool. split_and!; [constructor | done | done|].
    intros i. split; [|intros Hi; by apply not_elem_of_nil in Hi].
    intros Hi. change (replicate 4 false !! i = Some true) in Hi. by apply lookup_replicate in Hi as [[=] _].
  - eapply inv_shrink; [apply delete_subseteq | done].
  - destruct (kwp_sound _ _ _ _ _ _ _ _ (perform_spec cur o s live Ha IH) Hr) as (x & [= <-] & Hi). exact Hi.
Qed.

(** C26: Whatever Python threads are created, started, finished, collected or
    taken down, in any order and with threads dying at any moment, two living
    threads never run on the same stack; the marked stacks are exactly those of
    the listed threads, of which there are at most four; and no operation
    faults. *)
Theorem stacks_not_shared s live :
  reachable s live ->
  (forall t1 t2 k, live !! t1 = Some k -> live !! t2 = Some k -> t1 = t2) /\
  (exists us e, thread s = us ++ [e] /\ id e = main /\ mp_thread_counter s = len us /\ len us <= 4 /\
    forall i, stack_slot s !! i = Some true <-> exists u, u ∈ us /\ slot u = Z.of_nat i) /\
  forall cur o live' out, allowed cur o -> kruns main cur (map id (thread s)) live (perform o s) live' out ->
    exists s', out = Ok (tt, s').
Proof.
  intros Hr. pose proof (reachable_inv s live Hr) as Hi. pose proof Hi as (us & e & Hl & Hid & Hfin & Hn & Ha & Hp & Hc & Hlive).
  pose proof (pool_size _ _ Hp) as Hsz. destruct Hp as (Hns & _ & _ & Hslots). split_and!.
  - intros t1 t2 k E1 E2. destruct (Hlive t1 k E1) as (u1 & Hu1 & <- & Hk1). destruct (Hlive t2 k E2) as (u2 & Hu2 & <- & Hk2).
    apply list_elem_of_lookup in Hu1 as [i1 Hu1], Hu2 as [i2 Hu2].
    assert (i1 = i2) as ->; [|congruence]. apply (NoDup_lookup _ i1 i2 k Hns);
      change (map slot us) with (slot <$> us); rewrite list_lookup_fmap, ?Hu1, ?Hu2; cbn; congruence.
  - exists us, e. unfold len in *. rewrite length_map in *. split_and!; try done.
    intros i. rewrite Hslots. split; [intros (u & E & Hu)%list_elem_of_fmap; by exists u|].
    intros (u & Hu & <-). by apply list_elem_of_fmap_2.
  - intros cur o live' out Hall Hrun. destruct (kwp_sound _ _ _ _ _ _ _ _ (perform_spec cur o s live Hall Hi) Hrun) as ([[] s'] & -> & _).
    by exists s'.
Qed.

(** C27: A soft reset gives the stacks back: what it leaves in the list besides
    the main thread are threads that had finished but not yet left the kernel
    when it began. Without such threads the pool is empty again. *)
Theorem soft_reset_frees s live live' out :
  reachable s live -> kruns main main (map id (thread s)) live (soft_reset_threads thread_mutex s) live' out ->
  exists s', out = Ok (tt, s') /\
    (forall u, u ∈ thread s' -> id u <> main ->
      exists u0, u0 ∈ thread s /\ id u0 = id u /\ status u0 = MP_THREAD_STATUS_FINISHED /\ is_Some (live !! id u0)) /\
    ((forall u0, u0 ∈ thread s -> id u0 <> main -> status u0 = MP_THREAD_STATUS_FINISHED -> live !! id u0 = None) ->
      map id (thread s') = [main] /\ mp_thread_counter s' = 0 /\
      stack_slot s' = replicate MP_THREAD_MAXIMUM_USER_THREADS false).
Proof.
  intros Hr Hrun. pose proof (reachable_inv s live Hr) as Hi.
  assert (W : kwp main main (map id (thread s)) (soft_reset_threads thread_mutex s) (fun x l => inv main (snd x) l /\
    forall u, u ∈ thread (snd x) -> id u <> main -> exists u0, u0 ∈ thread s /\ id u0 = id u /\
      status u0 = MP_THREAD_STATUS_FINISHED /\ is_Some (live !! id u0)) live).
  { apply kwp_bind. eapply kwp_mono; [|by apply deinit_spec]. intros [[] s1] l (Hi1 & Hl1 & Hsub & Hdead). cbn [fst snd] in *.
    eapply kwp_mono; [|apply gc_collect_spec; [done|]].
    2:{ intros th. rewrite Hl1. intros (th0 & -> & Hth)%list_elem_of_fmap. rewrite id_aborted. by apply list_elem_of_fmap_2. }
    intros [[] s2] l2 [Hi2 Hcol]. cbn [snd] in *. split; [done|]. intros u Hu Hm.
    destruct (Hcol u Hu) as (u1 & Hu1 & Eid & Est & Hlive). rewrite Hl1 in Hu1.
    apply list_elem_of_fmap in Hu1 as (u0 & -> & Hu0).
    rewrite id_aborted in *. rewrite Eid in *.
    assert (Hfin : finished (aborted main u0) = true).
    { unfold aborted. destruct (id u0 =? main) eqn:E; zify_bool; [done|]. cbn. case_test; [done|]. by zify_bool. }
    destruct (Hlive Hm Hfin) as [k Ek]. exists u0. split_and!; [done | done | | eexists; by eapply lookup_weaken].
    destruct (finished u0) eqn:Ef; [by apply bool_decide_eq_true_1 in Ef|]. by rewrite (Hdead u0) in Ek. }
  destruct (kwp_sound _ _ _ _ _ _ _ _ W Hrun) as ([[] s'] & -> & Hi' & Hleft). exists s'. cbn [snd] in *. split_and!; [done | done|].
  intros Hnone. destruct Hi' as (us & e & Hl & Hid & Hfin & Hn & Ha & Hp & Hc & _). destruct us as [|u us]; cycle 1.
  { exfalso. destruct (Hleft u) as (u0 & Hu0 & E0 & Hst & Hlive); [rewrite Hl; by left | |].
    - intros Hm. cbn in Hn. apply NoDup_cons in Hn as [Hn _]. apply Hn. rewrite Hm, <- Hid. apply list_elem_of_fmap_2.
      rewrite elem_of_app. right. by left.
    - rewrite (Hnone u0 Hu0) in Hlive; [by destruct Hlive | | done]. rewrite E0. intros Hm.
      cbn in Hn. apply NoDup_cons in Hn as [Hn _]. apply Hn. rewrite Hm, <- Hid. apply list_elem_of_fmap_2.
      rewrite elem_of_app. right. by left. }
  rewrite Hl. cbn in *. split_and!; [by rewrite Hid | done|]. destruct Hp as (_ & _ & Hlen & Hsl).
  apply list_eq_same_length with (n := 4%nat); [done | exact Hlen|]. intros i x y Hi4 Hx Hy.
  change (replicate 4 false !! i = Some y) in Hy. apply lookup_replicate in Hy as [-> _]. destruct x; [|done]. apply Hsl in Hx. by apply not_elem_of_nil in Hx.
Qed.
End Life.

(** ** A concrete kernel *)

Section Runs.
Context (main cur : Z) (listed : list Z).

(** New threads get the address after the largest one listed. *)
Definition kernel_env (live : gmap Z Z) (c : thcall) : answer :=
  match c with
  | k_current_get => Answer cur []
  | k_thread_foreach => Answer 0 (main :: map fst (map_to_list live))
  | k_thread_create k _ _ _ => Answer (1 + foldr Z.max 0 listed) [4096 * k; 5120]
  | _ => Answer 0 []
  end.
Fixpoint krun {A} (live : gmap Z Z) (p : prog thcall answer A) : gmap Z Z * res A :=
  match p with
  | Ret a => (live, Ok a)
  | Halt s => (live, Stop s)
  | Call c k => let r := kernel_env live c in krun (keffect live c r) (k r)
  end.

Lemma kernel_env_ok live c : kok main cur listed live c (kernel_env live c).
Proof.
  destruct c; cbn; try done.
  - split; [intros t [k E]; right; apply list_elem_of_fmap; exists (t, k); by rewrite elem_of_map_to_list|].
    intros t [->|Ht]%elem_of_cons _; [by left|]. right. apply list_elem_of_fmap in Ht as ([t' k] & -> & Ht).
    exists k. by apply elem_of_map_to_list in Ht.
  - intros Hin. assert (H : forall t, t ∈ listed -> t <= foldr Z.max 0 listed).
    { clear. induction listed as [|a l IH]; intros t Ht; [by apply not_elem_of_nil in Ht|].
      apply elem_of_cons in Ht as [->|Ht]; cbn; [lia|]. specialize (IH t Ht). lia. }
    apply H in Hin. lia.
Qed.

Lemma krun_kruns {A} live (p : prog thcall answer A) live' out :
  krun live p = (live', out) -> kruns main cur listed live p live' out.
Proof.
  revert live. induction p as [a | s | c k IH]; intros live; cbn; [intros [= <- <-]; constructor | intros [= <- <-]; constructor|].
  intros E. apply (kruns_call _ _ _ _ c k (kernel_env live c)); [apply kernel_env_ok | by apply IH].
Qed.
End Runs.

(** Main thread 1; it creates the threads 2 and 3, and 2 finishes. *)
Definition after (cur : Z) (o : op) (x : gmap Z Z * threads) : gmap Z Z * threads :=
  match krun 1 cur (map id (thread (snd x))) (fst x) (perform 50 o (snd x)) with
  | (live, Ok (_, s)) => (live, s)
  | (live, _) => (live, snd x)
  end.
Definition boot : gmap Z Z * threads :=
  match krun 1 1 [] ∅ (mp_thread_init 50 60 70 1000 512 (Threads [] 0 (replicate MP_THREAD_MAXIMUM_USER_THREADS false))) with
  | (live, Ok (_, s)) => (live, s)
  | (live, _) => (live, Threads [] 0 [])
  end.
Definition example : gmap Z Z * threads := after 2 Finish (after 3 Start (after 1 (Create 7 8) (after 1 (Create 7 8) boot))).

Lemma reachable_boot : reachable 1 50 60 70 (snd boot) (fst boot).
Proof. apply (reach_init 1 50 60 70 1000 512). apply krun_kruns. vm_compute. reflexivity. Qed.

Lemma reachable_after cur o x live s :
  reachable 1 50 60 70 (snd x) (fst x) -> allowed 1 cur o ->
  krun 1 cur (map id (thread (snd x))) (fst x) (perform 50 o (snd x)) = (live, Ok (tt, s)) ->
  reachable 1 50 60 70 (snd (after cur o x)) (fst (after cur o x)).
Proof.
  intros Hr Ha E. unfold after. rewrite E. eapply reach_op; [exact Ha | exact Hr|]. by apply krun_kruns.
Qed.

Lemma reachable_example : reachable 1 50 60 70 (snd example) (fst example).
Proof.
  unfold example. repeat (eapply reachable_after; [| done | vm_compute; reflexivity]). exact reachable_boot.
Qed.

Lemma stacks_not_shared_witness :
  fst example = {[2 := 0; 3 := 1]} /\ map id (thread (snd example)) = [3; 2; 1] /\
  (forall t1 t2 k, fst example !! t1 = Some k -> fst example !! t2 = Some k -> t1 = t2) /\
  (exists us e, thread (snd example) = us ++ [e] /\ id e = 1 /\ mp_thread_counter (snd example) = len us /\ len us <= 4 /\
    forall i, stack_slot (snd example) !! i = Some true <-> exists u, u ∈ us /\ slot u = Z.of_nat i) /\
  forall cur o live' out, allowed 1 cur o ->
    kruns 1 cur (map id (thread (snd example))) (fst example) (perform 50 o (snd example)) live' out -> exists s', out = Ok (tt, s').
Proof.
  split; [by_decide|]. split; [vm_compute; reflexivity|]. apply (stacks_not_shared 1 50 60 70), reachable_example.
Defined.

(** Thread 2 leaves the kernel, and the interpreter is reset. *)
Lemma soft_reset_frees_witness :
  let live := delete 2 (fst example) in
  exists s', snd (krun 1 1 (map id (thread (snd example))) live (soft_reset_threads 50 (snd example))) = Ok (tt, s') /\
    (forall u, u ∈ thread s' -> id u <> 1 ->
      exists u0, u0 ∈ thread (snd example) /\ id u0 = id u /\ status u0 = MP_THREAD_STATUS_FINISHED /\ is_Some (live !! id u0)) /\
    ((forall u0, u0 ∈ thread (snd example) -> id u0 <> 1 -> status u0 = MP_THREAD_STATUS_FINISHED -> live !! id u0 = None) ->
      map id (thread s') = [1] /\ mp_thread_counter s' = 0 /\ stack_slot s' = replicate MP_THREAD_MAXIMUM_USER_THREADS false).
Proof.
  intros live. eapply (soft_reset_frees 1 50 60 70 (snd example) live).
  - apply reach_exit, reachable_example.
  - apply (krun_kruns 1 1 _ live). apply surjective_pairing.
Defined.

(** A thread that has marked itself finished but still is in the kernel
    survives the reset, in a list whose memory is then given away. *)
Example finished_thread_survives :
  match snd (krun 1 1 (map id (thread (snd example))) (fst example) (soft_reset_threads 50 (snd example))) with
  | Ok (_, s) => map id (thread s) = [2; 1] /\ stack_slot s = [true; false; false; false]
  | Stop _ => False
  end.
Proof. vm_compute. split; reflexivity. Qed.
