(* ===== verification/Bluetooth.v ===== *)
(** app/micropython/modbluetooth_zephyr.c, the GAP side: the state of the
    stack, advertising, scanning and the list of connections. *)

From S2P Require Import Prelude Py.

Inductive btcall :=
  | bt_enable
  | bt_conn_cb_register
  | bt_conn_get_info (conn : Z)                    (* stores id, address type and the 6 address bytes *)
  | bt_conn_ref (conn : Z)
  | bt_conn_unref (conn : Z)
  | bt_conn_disconnect (conn reason : Z)
  | bt_id_get (count : Z)                          (* answers the count; stores type and address *)
  | bt_get_name
  | bt_set_name (name : list Z)
  | bt_le_adv_start (options interval_min interval_max : Z) (ad sd : list (Z * Z * list Z))
  | bt_le_adv_stop
  | bt_le_scan_cb_register
  | bt_le_scan_cb_unregister
  | bt_le_scan_start (active : bool) (interval window : Z)
  | bt_le_scan_stop
  | k_timer_init
  | k_timer_start (ms : Z)
  | k_timer_stop
  | mp_sched_schedule_scan_stop
  | k_yield
  | m_new
  | mp_bluetooth_gap_on_connected_disconnected (event id addr_type : Z) (addr : list Z)
  | mp_bluetooth_gap_on_scan_result (addr_type : Z) (addr : list Z) (adv_type rssi : Z) (data : list Z)
  | mp_bluetooth_gap_on_scan_complete
  | mp_bluetooth_gatts_on_write (id handle : Z)
  | mp_bluetooth_gatts_on_indicate_complete (id handle err : Z)
  | bt_gatt_service_register (svc : Z) (attrs : Z)  (* stores the handles the attributes get *)
  | bt_gatt_service_unregister (svc : Z)
  | bt_gatt_notify (conn : option Z) (attr : Z) (value : list Z)
  | bt_gatt_indicate (conn : option Z) (attr : Z) (value : list Z)
  | bt_gatt_attr_read (len offset : Z) (value : list Z).

Inductive ble_state := BLE_STATE_OFF | BLE_STATE_ACTIVE | BLE_STATE_SUSPENDED.
Inductive scan_state := SCAN_STATE_INACTIVE | SCAN_STATE_DEACTIVATING | SCAN_STATE_ACTIVE.
#[export] Instance ble_state_dec : EqDecision ble_state.
Proof. solve_decision. Defined.
#[export] Instance scan_state_dec : EqDecision scan_state.
Proof. solve_decision. Defined.

Definition MP_EOPNOTSUPP : Z := 95.
Definition MP_E2BIG : Z := 7.
Definition ERRNO_BLUETOOTH_NOT_ACTIVE : Z := ENODEV.
Definition MP_BLUETOOTH_ZEPHYR_MAX_SERVICES : Z := 8.
Definition BLE_HCI_SCAN_ITVL_MIN : Z := 16.
Definition BLE_HCI_SCAN_ITVL_MAX : Z := 65535.
Definition BLE_HCI_SCAN_WINDOW_MIN : Z := 16.
Definition BLE_HCI_SCAN_WINDOW_MAX : Z := 65535.

(** An advertising element: its type, the length the stack will read, and the
    bytes from its data pointer to the end of the buffer. The code keeps the
    pointer, into a buffer of Python's, and hands it to the stack again when
    advertising restarts without data; the bytes are then those of the call that
    stored it, as long as Python has not changed or freed its buffer. *)
Record bt_data := BtData { data_type : Z; elem_len : Z; data_at : list Z }.
(** What the stack reads through the pointer. *)
Definition element (d : bt_data) : Z * Z * list Z := (data_type d, elem_len d, take (Z.to_nat (elem_len d)) (data_at d)).

(** A node of the list of connections; 0 is NULL. *)
Record mp_bt_zephyr_conn_t := Conn { conn : Z; next : Z }.

Section Gap.
Context {G : Type}.

(** The module's static variables. [gatt] is what the GATT side keeps in the
    root pointers; the heap holds the connection nodes. *)
Record bt := Bt {
  state : ble_state;
  gap_scan_state : scan_state;
  ad_data : list bt_data;
  ad_len : Z;
  sd_data : list bt_data;
  sd_len : Z;
  next_conn : Z;
  nodes : gmap Z mp_bt_zephyr_conn_t;
  root_pointers : option G;
  connections : Z;
  objs_list : list Z
}.
Definition set_state x b := Bt x (gap_scan_state b) (ad_data b) (ad_len b) (sd_data b) (sd_len b) (next_conn b) (nodes b) (root_pointers b) (connections b) (objs_list b).
Definition set_scan x b := Bt (state b) x (ad_data b) (ad_len b) (sd_data b) (sd_len b) (next_conn b) (nodes b) (root_pointers b) (connections b) (objs_list b).
Definition set_ad d n b := Bt (state b) (gap_scan_state b) d n (sd_data b) (sd_len b) (next_conn b) (nodes b) (root_pointers b) (connections b) (objs_list b).
Definition set_sd d n b := Bt (state b) (gap_scan_state b) (ad_data b) (ad_len b) d n (next_conn b) (nodes b) (root_pointers b) (connections b) (objs_list b).
Definition set_next_conn x b := Bt (state b) (gap_scan_state b) (ad_data b) (ad_len b) (sd_data b) (sd_len b) x (nodes b) (root_pointers b) (connections b) (objs_list b).
Definition set_nodes x b := Bt (state b) (gap_scan_state b) (ad_data b) (ad_len b) (sd_data b) (sd_len b) (next_conn b) x (root_pointers b) (connections b) (objs_list b).
Definition set_root x b := Bt (state b) (gap_scan_state b) (ad_data b) (ad_len b) (sd_data b) (sd_len b) (next_conn b) (nodes b) x (connections b) (objs_list b).
Definition set_connections x b := Bt (state b) (gap_scan_state b) (ad_data b) (ad_len b) (sd_data b) (sd_len b) (next_conn b) (nodes b) (root_pointers b) x (objs_list b).
Definition set_objs_list x b := Bt (state b) (gap_scan_state b) (ad_data b) (ad_len b) (sd_data b) (sd_len b) (next_conn b) (nodes b) (root_pointers b) (connections b) x.

Local Abbreviation bm A := (py btcall answer bt A).

(** The names of the callbacks' events and of the advertising options. *)
Context (MP_BLUETOOTH_IRQ_CENTRAL_CONNECT MP_BLUETOOTH_IRQ_CENTRAL_DISCONNECT BT_HCI_ERR_REMOTE_USER_TERM_CONN : Z).
Context (BT_LE_ADV_OPT_CONN BT_LE_ADV_OPT_USE_IDENTITY BT_LE_ADV_OPT_SCANNABLE CONFIG_BT_DEVICE_NAME_MAX : Z).
(** The GATT side's share of starting and stopping. *)
Context (gatt_new : G) (gatt_unregister : bm unit).

Definition tell (c : btcall) : bm Z := r ← py_call c; mret (aret r).
Definition node (p : Z) : bm mp_bt_zephyr_conn_t := fun b =>
  match nodes b !! p with Some n => Ret (Val n, b) | None => Halt UB end.
Definition set_node (p : Z) (n : mp_bt_zephyr_conn_t) : bm unit := py_set (fun b => set_nodes (<[p := n]> (nodes b)) b).
(** [MP_STATE_PORT(bluetooth_zephyr_root_pointers)->...]: NULL before the first
    start and after a stop. *)
Definition root : bm G := fun b =>
  match root_pointers b with Some g => Ret (Val g, b) | None => Halt UB end.
Definition info_id (r : answer) : Z := nth 0 (aout r) 0.
Definition info_type (r : answer) : Z := nth 1 (aout r) 0.
Definition info_addr (r : answer) : list Z := drop 2 (aout r).

(** ** The list of connections *)

(** The list from [connection] on, [fuel] nodes at most; 0 is NULL. *)
Fixpoint find_connection (fuel : nat) (conn_handle connection : Z) : bm Z :=
  if connection =? 0 then mret 0
  else match fuel with
  | O => fun _ => Halt OutOfFuel
  | S fuel =>
      n ← node connection;
      if negb (conn n =? 0) then
        info ← py_call (bt_conn_get_info (conn n));
        if info_id info =? conn_handle then mret connection else find_connection fuel conn_handle (next n)
      else find_connection fuel conn_handle (next n)
  end.
Definition mp_bt_zephyr_find_connection (conn_handle : Z) : bm Z :=
  root;; fuel ← py_get (fun b => S (size (nodes b))); head ← py_get connections;
  find_connection fuel (u8 conn_handle) head.

Definition mp_bt_zephyr_insert_connection (connection : Z) : bm unit :=
  root;; head ← py_get connections;
  n ← node connection;
  set_node connection (Conn (conn n) head);;
  py_set (set_connections connection).

(** [prev] is 0 for NULL. *)
Fixpoint remove_connection (fuel : nat) (conn_handle prev connection : Z) : bm unit :=
  if connection =? 0 then mret tt
  else match fuel with
  | O => fun _ => Halt OutOfFuel
  | S fuel =>
      n ← node connection;
      if negb (conn n =? 0) then
        info ← py_call (bt_conn_get_info (conn n));
        if info_id info =? conn_handle then
          if negb (prev =? 0) then p ← node prev; set_node prev (Conn (conn p) (next n))
          else py_set (set_connections (next n))
        else remove_connection fuel conn_handle connection (next n)
      else remove_connection fuel conn_handle prev (next n)
  end.
Definition mp_bt_zephyr_remove_connection (conn_handle : Z) : bm unit :=
  root;; fuel ← py_get (fun b => S (size (nodes b))); head ← py_get connections;
  remove_connection fuel (u8 conn_handle) 0 head.

Definition mp_bt_zephyr_connected (c err : Z) : bm unit :=
  info ← py_call (bt_conn_get_info c);
  if negb (u8 err =? 0) then
    tell (mp_bluetooth_gap_on_connected_disconnected MP_BLUETOOTH_IRQ_CENTRAL_DISCONNECT (info_id info) 255 [0; 0; 0; 0; 0; 0]);; mret tt
  else
    ref ← tell (bt_conn_ref c);
    p ← py_get next_conn;
    n ← node p;
    set_node p (Conn ref (next n));;
    tell (mp_bluetooth_gap_on_connected_disconnected MP_BLUETOOTH_IRQ_CENTRAL_CONNECT (info_id info) (info_type info) (info_addr info));;
    mp_bt_zephyr_insert_connection p.

Definition mp_bt_zephyr_disconnected (c : Z) : bm unit :=
  info ← py_call (bt_conn_get_info c);
  tell (bt_conn_unref c);;
  mp_bt_zephyr_remove_connection (info_id info);;
  tell (mp_bluetooth_gap_on_connected_disconnected MP_BLUETOOTH_IRQ_CENTRAL_DISCONNECT (info_id info) (info_type info) (info_addr info));;
  mret tt.

Definition bt_err_to_errno (err : Z) : Z := - err.

Definition reverse_addr_byte_order (addr_in : list Z) : list Z :=
  map (fun i => nth (5 - i) addr_in 0) (seq 0 6).

Definition mp_bluetooth_is_active : bm bool := py_get (fun b => bool_decide (state b = BLE_STATE_ACTIVE)).

(** ** Scanning *)

Definition gap_scan_cb_recv (addr_type : Z) (addr : list Z) (adv_type rssi : Z) (data : list Z) : bm unit :=
  active ← mp_bluetooth_is_active;
  if negb active then mret tt
  else
    st ← py_get gap_scan_state;
    if negb (bool_decide (st = SCAN_STATE_ACTIVE)) then mret tt
    else
      tell (mp_bluetooth_gap_on_scan_result addr_type (reverse_addr_byte_order addr) adv_type rssi data);;
      mret tt.

Definition mp_bluetooth_gap_scan_stop : bm Z :=
  active ← mp_bluetooth_is_active;
  if negb active then mret ERRNO_BLUETOOTH_NOT_ACTIVE
  else
    st ← py_get gap_scan_state;
    if bool_decide (st = SCAN_STATE_INACTIVE) then mret 0
    else
      py_set (set_scan SCAN_STATE_INACTIVE);;
      tell k_timer_stop;;
      err ← tell bt_le_scan_stop;
      if err =? 0 then tell mp_bluetooth_gap_on_scan_complete;; mret 0
      else mret (bt_err_to_errno err).

Definition gap_scan_stop : bm value := mp_bluetooth_gap_scan_stop;; mret None_.

(** The scheduler is asked again while its queue is full. *)
Fixpoint schedule_scan_stop (fuel : nat) : bm unit :=
  match fuel with
  | O => fun _ => Halt OutOfFuel
  | S fuel =>
      ok ← tell mp_sched_schedule_scan_stop;
      if negb (ok =? 0) then mret tt else tell k_yield;; schedule_scan_stop fuel
  end.
Definition gap_scan_cb_timeout (fuel : nat) : bm unit :=
  schedule_scan_stop fuel;; py_set (set_scan SCAN_STATE_DEACTIVATING).

Definition mp_bluetooth_gap_scan_start (duration_ms interval_us window_us : Z) (active_scan : bool) : bm Z :=
  ret ← mp_bluetooth_gap_scan_stop;
  if negb (ret =? 0) then mret ret
  else
    let interval := Z.max BLE_HCI_SCAN_ITVL_MIN (Z.min BLE_HCI_SCAN_ITVL_MAX (Z.quot interval_us 625)) in
    let window := Z.max BLE_HCI_SCAN_WINDOW_MIN (Z.min BLE_HCI_SCAN_WINDOW_MAX (Z.quot window_us 625)) in
    tell (k_timer_start duration_ms);;
    py_set (set_scan SCAN_STATE_ACTIVE);;
    err ← tell (bt_le_scan_start active_scan interval window);
    mret (bt_err_to_errno err).

(** ** Advertising *)

(** The elements of raw data, one per slot of the array. *)
Fixpoint prepare (slots : nat) (data : list Z) (d : Z) : res (list bt_data) :=
  match slots with
  | O => Ok []
  | S slots =>
      if d <? len data then
        t ← rd data (d + 1);
        l ← rd data d;
        rest ← prepare slots data (d + 1 + l);
        Ok (BtData t (u8 (l - 1)) (drop (Z.to_nat (d + 2)) data) :: rest)
      else Ok []
  end.
(** The array and its length afterwards. *)
Definition mp_bluetooth_prepare_bt_data (data : list Z) (array : list bt_data) (bt_len : Z) : res (list bt_data * Z) :=
  l ← prepare (Z.to_nat bt_len) data 0;
  Ok (l ++ drop (length l) array, len l).

Definition mp_bluetooth_gap_advertise_stop : bm unit :=
  ret ← tell bt_le_adv_stop;
  if negb (ret =? 0) then raise (OSError (bt_err_to_errno ret)) else mret tt.

Definition load_ad (data : list Z) : bm unit := fun b =>
  match mp_bluetooth_prepare_bt_data data (ad_data b) 8 with
  | Ok (l, n) => Ret (Val tt, set_ad l n b)
  | Stop e => Halt e
  end.
Definition load_sd (data : list Z) : bm unit := fun b =>
  match mp_bluetooth_prepare_bt_data data (sd_data b) 8 with
  | Ok (l, n) => Ret (Val tt, set_sd l n b)
  | Stop e => Halt e
  end.

Definition mp_bluetooth_gap_advertise_start (connectable : bool) (interval_us : Z) (adv_data sr_data : option (list Z)) : bm Z :=
  active ← mp_bluetooth_is_active;
  if negb active then mret ERRNO_BLUETOOTH_NOT_ACTIVE
  else
    mp_bluetooth_gap_advertise_stop;;
    match adv_data with Some d => load_ad d | None => mret tt end;;
    match sr_data with Some d => load_sd d | None => mret tt end;;
    let options := Z.lor (Z.lor (if connectable then BT_LE_ADV_OPT_CONN else 0) BT_LE_ADV_OPT_USE_IDENTITY) BT_LE_ADV_OPT_SCANNABLE in
    p ← tell m_new;
    set_node p (Conn 0 0);;
    py_set (set_next_conn p);;
    root;; py_set (fun b => set_objs_list (objs_list b ++ [p]) b);;
    ad ← py_get (fun b => map element (take (Z.to_nat (ad_len b)) (ad_data b)));
    sd ← py_get (fun b => map element (take (Z.to_nat (sd_len b)) (sd_data b)));
    err ← tell (bt_le_adv_start options (u32 (Z.quot interval_us 625)) (u32 (Z.quot interval_us 625 + 1)) ad sd);
    mret (bt_err_to_errno err).

(** ** Starting and stopping *)

Definition mp_bluetooth_deinit : bm Z :=
  st ← py_get state;
  if bool_decide (st = BLE_STATE_OFF) || bool_decide (st = BLE_STATE_SUSPENDED) then mret 0
  else
    mp_bluetooth_gap_advertise_stop;;
    gatt_unregister;;
    mp_bluetooth_gap_scan_stop;;
    tell bt_le_scan_cb_unregister;;
    py_set (set_state BLE_STATE_SUSPENDED);;
    py_set (fun b => set_connections 0 (set_objs_list [] (set_root None b)));;
    py_set (set_next_conn 0);;
    mret 0.

Definition mp_bluetooth_init : bm Z :=
  mp_bluetooth_deinit;;
  py_set (set_root (Some gatt_new));;
  py_set (set_connections 0);;
  py_set (set_next_conn 0);;
  py_set (set_objs_list []);;
  py_set (set_scan SCAN_STATE_INACTIVE);;
  tell k_timer_init;;
  tell bt_le_scan_cb_register;;
  st ← py_get state;
  ret ← (if bool_decide (st = BLE_STATE_OFF) then tell bt_conn_cb_register;; tell bt_enable else mret 0);
  if negb (ret =? 0) then mret (bt_err_to_errno ret)
  else py_set (set_state BLE_STATE_ACTIVE);; mret 0.

(** ** Addresses, names and the remaining calls *)

(** Answers the address type and the address. *)
Definition mp_bluetooth_get_current_address : bm (Z * list Z) :=
  active ← mp_bluetooth_is_active;
  if negb active then raise (OSError ERRNO_BLUETOOTH_NOT_ACTIVE)
  else
    r ← py_call (bt_id_get 1);
    if aret r =? 0 then raise (OSError EIO)
    else mret (nth 0 (aout r) 0, reverse_addr_byte_order (drop 1 (aout r))).

Definition mp_bluetooth_set_address_mode (addr_mode : Z) : bm unit := raise (OSError MP_EOPNOTSUPP).

Definition mp_bluetooth_gap_get_device_name : bm (list Z) := r ← py_call bt_get_name; mret (aout r).

Definition mp_bluetooth_gap_set_device_name (buf : list Z) : bm Z :=
  if len buf + 1 >? CONFIG_BT_DEVICE_NAME_MAX + 1 then mret EINVAL
  else ret ← tell (bt_set_name buf); mret (bt_err_to_errno ret).

Definition mp_bluetooth_gap_disconnect (conn_handle : Z) : bm Z :=
  active ← mp_bluetooth_is_active;
  if negb active then mret ERRNO_BLUETOOTH_NOT_ACTIVE
  else
    p ← mp_bt_zephyr_find_connection conn_handle;
    if negb (p =? 0) then n ← node p; tell (bt_conn_disconnect (conn n) BT_HCI_ERR_REMOTE_USER_TERM_CONN)
    else mret ENOENT.

Definition mp_bluetooth_get_preferred_mtu : bm Z :=
  active ← mp_bluetooth_is_active;
  if negb active then raise (OSError ERRNO_BLUETOOTH_NOT_ACTIVE) else raise (OSError MP_EOPNOTSUPP).
Definition mp_bluetooth_set_preferred_mtu (mtu : Z) : bm Z :=
  active ← mp_bluetooth_is_active;
  if negb active then mret ERRNO_BLUETOOTH_NOT_ACTIVE else mret MP_EOPNOTSUPP.
Definition mp_bluetooth_gap_peripheral_connect (addr_type : Z) (addr : list Z) (duration_ms min_us max_us : Z) : bm Z :=
  active ← mp_bluetooth_is_active;
  if negb active then mret ERRNO_BLUETOOTH_NOT_ACTIVE else mret MP_EOPNOTSUPP.
Definition mp_bluetooth_gap_peripheral_connect_cancel : bm Z :=
  active ← mp_bluetooth_is_active;
  if negb active then mret ERRNO_BLUETOOTH_NOT_ACTIVE else mret MP_EOPNOTSUPP.
End Gap.
Arguments bt : clear implicits.
