(* ===== verification/Gatts.v ===== *)
(** app/micropython/modbluetooth_zephyr.c, the GATT server: services built from
    Python's definitions, and reading and writing attribute values. *)

From S2P Require Import Prelude Py Bluetooth.

(** ** MicroPython's database of attribute values *)

(** An entry as modbluetooth.h declares it: [data] is the allocated buffer. *)
Record entry := Entry { data : list Z; data_alloc : Z; data_len : Z; append : bool }.

(** The operations of extmod/modbluetooth.c on the database. [db_store] is a
    write through a pointer to an entry. *)
Class GattsDb (D : Type) := {
  db_create : D;
  db_reset : D -> D;
  db_lookup : D -> Z -> option entry;
  db_store : D -> Z -> entry -> D;
  db_create_entry : D -> Z -> Z -> D;
  db_read : D -> Z -> Z * list Z;
  db_write : D -> Z -> list Z -> Z * D;
  db_resize : D -> Z -> Z -> bool -> Z * D
}.

(** ** Attributes *)

(** A UUID by its little-endian bytes. *)
Definition uuid : Type := list Z.
Definition BT_UUID_GATT_PRIMARY : uuid := [0; 40].
Definition BT_UUID_GATT_CHRC : uuid := [3; 40].
Definition BT_UUID_GATT_CEP : uuid := [0; 41].
Definition BT_UUID_GATT_CCC : uuid := [2; 41].
Definition BT_UUID_GATT_CCC_VAL : Z := 10498.

Definition BT_GATT_PERM_READ : Z := 1.
Definition BT_GATT_PERM_WRITE : Z := 2.
Definition BT_GATT_PERM_PREPARE_WRITE : Z := 64.
Definition GATT_PERM_MASK : Z := 127.
Definition BT_GATT_CHRC_READ : Z := 2.
Definition BT_GATT_CHRC_WRITE_WITHOUT_RESP : Z := 4.
Definition BT_GATT_CHRC_WRITE : Z := 8.
Definition BT_GATT_CHRC_NOTIFY : Z := 16.
Definition BT_GATT_CHRC_INDICATE : Z := 32.
Definition BT_GATT_CHRC_EXT_PROP : Z := 128.
Definition BT_GATT_CCC_NOTIFY : Z := 1.
Definition BT_GATT_CCC_INDICATE : Z := 2.
Definition BT_ATT_ERR_INVALID_HANDLE : Z := 1.
Definition BT_ATT_ERR_INVALID_OFFSET : Z := 7.
Definition BT_ATT_ERR_INVALID_ATTRIBUTE_LEN : Z := 13.
Definition BT_GATT_ERR (e : Z) : Z := - e.
Definition BT_GATT_WRITE_FLAG_PREPARE : Z := 1.
Definition FLAG_READ : Z := 2.
Definition FLAG_WRITE_NO_RESPONSE : Z := 4.
Definition FLAG_WRITE : Z := 8.
Definition FLAG_NOTIFY : Z := 16.
Definition FLAG_INDICATE : Z := 32.
Definition MP_BLUETOOTH_DEFAULT_ATTR_LEN : Z := 20.

(** What an attribute's [user_data] points to. *)
Inductive user_data_t :=
  | NULL
  | Uuid_data (u : uuid)
  | Chrc (properties : Z) (u : option uuid)
  | Ccc_definition
  | Cep (properties : Z)
  | Entry_data (handle : Z).
(** [gatts] tells whether the callbacks are the port's own. *)
Record bt_gatt_attr := Attr { attr_uuid : option uuid; perm : Z; attr_handle : Z; gatts : bool; user_data : user_data_t }.
Definition set_handle h a := Attr (attr_uuid a) (perm a) h (gatts a) (user_data a).
Definition set_user_data u a := Attr (attr_uuid a) (perm a) (attr_handle a) (gatts a) u.

Definition has (flags mask : Z) : bool := negb (Z.land flags mask =? 0).

Section Gatts.
Context {D : Type} {db_ops : GattsDb D}.
Context (bt_uuid_cmp : uuid -> uuid -> Z).
Context (MP_BLUETOOTH_GATTS_OP_NOTIFY MP_BLUETOOTH_GATTS_OP_INDICATE : Z).

(** The GATT part of the root pointers: the registered services are an array
    of at most eight, by the address of the service and its attributes. *)
Record gatt := Gatt { gatts_db : D; services : list (Z * list bt_gatt_attr) }.
Definition set_db d g := Gatt d (services g).
Definition set_services l g := Gatt (gatts_db g) l.

Local Abbreviation bm A := (py btcall answer (bt gatt) A).

Definition set_gatt (f : gatt -> gatt) : bm unit := py_set (fun b => set_root (f <$> root_pointers b) b).

(** [m_new] of an object the garbage collector must keep. *)
Definition new_obj : bm Z :=
  p ← tell m_new; root;; py_set (fun b => set_objs_list (objs_list b ++ [p]) b);; mret p.

(** ** Building attributes *)

(** A UUID object of modbluetooth: the number of bytes its type stands for,
    and its data. *)
Definition create_zephyr_uuid (u : Z * list Z) : bm uuid :=
  new_obj;; mret (take (Z.to_nat (fst u)) (snd u)).

Definition gatt_db_add (pattern : bt_gatt_attr) (user_data_len : Z) : bm bt_gatt_attr :=
  new_obj;;
  (if negb (user_data_len =? 0) then new_obj;; mret tt else mret tt);;
  mret pattern.

Definition add_service (u : uuid) : bm bt_gatt_attr :=
  gatt_db_add (Attr (Some BT_UUID_GATT_PRIMARY) BT_GATT_PERM_READ 0 false (Uuid_data u)) (len u).

(** The characteristic declaration and its value. *)
Definition add_characteristic (u : uuid) (properties permissions : Z) : bm (bt_gatt_attr * bt_gatt_attr) :=
  chrc ← gatt_db_add (Attr (Some BT_UUID_GATT_CHRC) BT_GATT_PERM_READ 0 false (Chrc 0 None)) 1;
  let permissions := Z.lor permissions BT_GATT_PERM_PREPARE_WRITE in
  val ← gatt_db_add (Attr (Some u) (Z.land permissions GATT_PERM_MASK) 0 true NULL) 0;
  mret (set_user_data (Chrc properties (attr_uuid val)) chrc, val).

(** [chrc->properties], read through the declaration's user data. *)
Definition properties_of (chrc : bt_gatt_attr) : bm Z :=
  match user_data chrc with Chrc p _ => mret p | _ => py_fault end.

Definition add_ccc (chrc : bt_gatt_attr) : bm bt_gatt_attr :=
  p ← properties_of chrc;
  if negb (has p (Z.lor BT_GATT_CHRC_NOTIFY BT_GATT_CHRC_INDICATE)) then raise (OSError EINVAL)
  else gatt_db_add (Attr (Some BT_UUID_GATT_CCC) (Z.lor BT_GATT_PERM_READ BT_GATT_PERM_WRITE) 0 false Ccc_definition) 0.

Definition add_cep (chrc : bt_gatt_attr) : bm bt_gatt_attr :=
  p ← properties_of chrc;
  if negb (has p BT_GATT_CHRC_EXT_PROP) then raise (OSError EINVAL)
  else gatt_db_add (Attr (Some BT_UUID_GATT_CEP) BT_GATT_PERM_READ 0 false (Cep 0)) 2.

Definition add_descriptor (chrc : bt_gatt_attr) (u : uuid) (permissions : Z) : bm bt_gatt_attr :=
  if bt_uuid_cmp u BT_UUID_GATT_CEP =? 0 then add_cep chrc
  else if bt_uuid_cmp u BT_UUID_GATT_CCC =? 0 then add_ccc chrc
  else
    let permissions := Z.lor permissions BT_GATT_PERM_PREPARE_WRITE in
    gatt_db_add (Attr (Some u) (Z.land permissions GATT_PERM_MASK) 0 true NULL) 0.

(** [1 << n] on an [int]. *)
Definition shift1 (n : Z) : bm Z := if n <? 31 then mret (2 ^ n) else py_fault.

(** ** Registering a service *)

(** The attributes so far (the attribute index is their number), the three
    bit fields and the descriptor index. *)
Record build := Build { attrs : list bt_gatt_attr; ignore : Z; are_chrs : Z; has_ccc : Z; descriptor_index : Z }.

Definition chr_permissions (flags : Z) : Z :=
  let p := if has flags FLAG_READ then BT_GATT_PERM_READ else 0 in
  if has flags (Z.lor FLAG_WRITE FLAG_WRITE_NO_RESPONSE) then Z.lor p BT_GATT_PERM_WRITE else p.
Definition chr_properties (flags : Z) : Z :=
  let p := if has flags FLAG_READ then BT_GATT_CHRC_READ else 0 in
  let p := if has flags FLAG_NOTIFY then Z.lor p BT_GATT_CHRC_NOTIFY else p in
  let p := if has flags FLAG_INDICATE then Z.lor p BT_GATT_CHRC_INDICATE else p in
  if has flags (Z.lor FLAG_WRITE FLAG_WRITE_NO_RESPONSE) then Z.lor p (Z.lor BT_GATT_CHRC_WRITE BT_GATT_CHRC_WRITE_WITHOUT_RESP) else p.
Definition wants_ccc (flags : Z) : bool := has flags (Z.lor FLAG_NOTIFY FLAG_INDICATE).

(** [n] descriptors of the flat arrays, from the descriptor index on. *)
Fixpoint add_descriptors (n : nat) (descriptors : list (Z * list Z * Z)) (chrc : bt_gatt_attr) (b : build) : bm build :=
  match n with
  | O => mret b
  | S n =>
      d ← py_lift (reads (fun _ => rd descriptors (descriptor_index b)));
      let '(u, flags) := d in
      u ← create_zephyr_uuid u;
      a ← add_descriptor chrc u (chr_permissions flags);
      add_descriptors n descriptors chrc (Build (attrs b ++ [a]) (ignore b) (are_chrs b) (has_ccc b) (descriptor_index b + 1))
  end.

(** One turn of the loop over the characteristics. *)
Definition add_one (c : Z * list Z * Z * Z) (descriptors : list (Z * list Z * Z)) (b : build) : bm build :=
  let '(cu, flags, num_descriptors) := c in
  u ← create_zephyr_uuid cu;
  '(chrc, val) ← add_characteristic u (chr_properties flags) (chr_permissions flags);
  let index := len (attrs b) in
  chr_bit ← shift1 index;
  ccc_bit ← (if wants_ccc flags then shift1 index else mret 0);
  val_bit ← shift1 (index + 1);
  b ← add_descriptors (Z.to_nat num_descriptors) descriptors chrc
        (Build (attrs b ++ [chrc; val]) (Z.lor (ignore b) val_bit) (Z.lor (are_chrs b) chr_bit) (Z.lor (has_ccc b) ccc_bit) (descriptor_index b));
  if wants_ccc flags then
    u ← create_zephyr_uuid (2, [Z.land BT_UUID_GATT_CCC_VAL 255; Z.land (Z.shiftr BT_UUID_GATT_CCC_VAL 8) 255]);
    bit ← shift1 (len (attrs b));
    a ← add_descriptor chrc u (Z.lor BT_GATT_PERM_READ BT_GATT_PERM_WRITE);
    mret (Build (attrs b ++ [a]) (Z.lor (ignore b) bit) (are_chrs b) (has_ccc b) (descriptor_index b))
  else mret b.

Fixpoint add_all (chars : list (Z * list Z * Z * Z)) (descriptors : list (Z * list Z * Z)) (b : build) : bm build :=
  match chars with
  | [] => mret b
  | c :: chars => b ← add_one c descriptors b; add_all chars descriptors b
  end.

(** A database entry for [handle], and the user data that points to it. *)
Definition create_entry (handle : Z) : bm user_data_t :=
  set_gatt (fun g => set_db (db_create_entry (gatts_db g) handle MP_BLUETOOTH_DEFAULT_ATTR_LEN) g);;
  g ← root;
  match db_lookup (gatts_db g) handle with
  | Some _ => mret (Entry_data handle)
  | None => py_fault
  end.

(** One turn of the loop that assigns the handles; answers the attributes and
    the handles collected so far. The bit fields are 64 bits wide: a shift by
    more is undefined. *)
Definition assign_one (b : build) (i : Z) (st : list bt_gatt_attr * list Z) : bm (list bt_gatt_attr * list Z) :=
  let '(l, handles) := st in
  if 64 <=? i then py_fault
  else if Z.testbit (ignore b) i then mret (l, handles)
  else
    a ← py_lift (reads (fun _ => rd l i));
    let h := attr_handle a in
    l ← match user_data a with
        | NULL =>
            u ← create_entry h;
            py_lift (reads (fun _ => wr l i (set_user_data u a)))
        | _ =>
            if Z.testbit (are_chrs b) i then
              v ← py_lift (reads (fun _ => rd l (i + 1)));
              match user_data v with
              | NULL =>
                  u ← create_entry h;
                  l ← py_lift (reads (fun _ => wr l (i + 1) (set_user_data u v)));
                  (if Z.testbit (has_ccc b) i then
                     set_gatt (fun g => set_db (db_create_entry (gatts_db g) (u16 (h + 2)) 1) g)
                   else mret tt);;
                  mret l
              | _ => mret l
              end
            else mret l
        end;
    mret (l, handles ++ [h]).

Fixpoint assign (b : build) (n : nat) (i : Z) (st : list bt_gatt_attr * list Z) : bm (list bt_gatt_attr * list Z) :=
  match n with
  | O => mret st
  | S n => st ← assign_one b i st; assign b n (i + 1) st
  end.

(** The handles the stack gives to the attributes. *)
Definition with_handles (l : list bt_gatt_attr) (handles : list Z) : list bt_gatt_attr :=
  imap (fun i a => set_handle (nth i handles 0) a) l.

(** Answers the error code and the handles stored for the caller. The
    characteristics are their UUID, flags and number of descriptors; the
    descriptors of all of them follow one another. *)
Definition mp_bluetooth_gatts_register_service (service_uuid : Z * list Z)
    (chars : list (Z * list Z * Z * Z)) (descriptors : list (Z * list Z * Z)) : bm (Z * list Z) :=
  g ← root;
  if len (services g) >=? MP_BLUETOOTH_ZEPHYR_MAX_SERVICES then mret (MP_E2BIG, [])
  else
    new_obj;;
    u ← create_zephyr_uuid service_uuid;
    svc ← add_service u;
    b ← add_all chars descriptors (Build [svc] 0 0 0 0);
    service ← new_obj;
    r ← py_call (bt_gatt_service_register service (len (attrs b)));
    if negb (aret r =? 0) then mret (bt_err_to_errno (aret r), [])
    else
      '(l, handles) ← assign b (length (attrs b) - 1) 1 (with_handles (attrs b) (aout r), []);
      set_gatt (fun g => set_services (services g ++ [(service, l)]) g);;
      mret (0, handles).

(** Unregistering all services. *)
Fixpoint unregister_all (l : list (Z * list bt_gatt_attr)) : bm unit :=
  match l with
  | [] => mret tt
  | (service, _) :: l => tell (bt_gatt_service_unregister service);; unregister_all l
  end.
Definition gatt_unregister : bm unit := g ← root; unregister_all (services g).

Definition mp_bluetooth_gatts_register_service_begin (append : bool) : bm Z :=
  active ← mp_bluetooth_is_active;
  if negb active then mret ERRNO_BLUETOOTH_NOT_ACTIVE
  else if append then mret MP_EOPNOTSUPP
  else
    gatt_unregister;;
    set_gatt (set_services []);;
    set_gatt (fun g => set_db (db_reset (gatts_db g)) g);;
    py_set (set_connections 0);;
    py_set (set_objs_list []);;
    py_set (set_next_conn 0);;
    mret 0.
Definition mp_bluetooth_gatts_register_service_end : bm Z := mret 0.

(** ** Attribute values *)

(** The attribute with the handle, in the services and up to the one without
    UUID; 0 stands for NULL. *)
Definition mp_bt_zephyr_find_attr_by_handle (value_handle : Z) (g : gatt) : Z :=
  if existsb (fun s => existsb (fun a => attr_handle a =? value_handle) (snd s)) (services g) then value_handle else 0.

(** The entry of an attribute: of the characteristic whose value it is, or its
    own. *)
Definition find_entry (handle : Z) (g : gatt) : option (Z * entry) :=
  match db_lookup (gatts_db g) (u16 (handle - 1)) with
  | Some e => Some (u16 (handle - 1), e)
  | None => match db_lookup (gatts_db g) handle with Some e => Some (handle, e) | None => None end
  end.

Definition mp_bt_zephyr_gatts_attr_read (handle len offset : Z) : bm (Z * list Z) :=
  g ← root;
  match find_entry handle g with
  | None => mret (BT_GATT_ERR BT_ATT_ERR_INVALID_HANDLE, [])
  | Some (_, e) =>
      r ← py_call (bt_gatt_attr_read len offset (take (Z.to_nat (data_len e)) (data e)));
      mret (aret r, aout r)
  end.

(** [memcpy(&entry->data[offset], buf, len)] *)
Definition copy_in (d : list Z) (offset : Z) (buf : list Z) : res (list Z) :=
  if offset + len buf <=? len d then Ok (take (Z.to_nat offset) d ++ buf ++ drop (Z.to_nat (offset + len buf)) d)
  else Stop UB.

Definition mp_bt_zephyr_gatts_attr_write (conn handle : Z) (buf : list Z) (offset flags : Z) : bm Z :=
  info ← py_call (bt_conn_get_info conn);
  g ← root;
  match find_entry handle g with
  | None => mret (BT_GATT_ERR BT_ATT_ERR_INVALID_HANDLE)
  | Some (_handle, e) =>
      if has flags BT_GATT_WRITE_FLAG_PREPARE then mret 0
      else if offset >? data_alloc e then mret (BT_GATT_ERR BT_ATT_ERR_INVALID_OFFSET)
      else if offset + len buf >? data_alloc e then mret (BT_GATT_ERR BT_ATT_ERR_INVALID_ATTRIBUTE_LEN)
      else
        let offset := if append e then u16 (data_len e) else offset in
        d ← py_lift (reads (fun _ => copy_in (data e) offset buf));
        set_gatt (fun g => set_db (db_store (gatts_db g) _handle (Entry d (data_alloc e) (offset + len buf) (append e))) g);;
        tell (mp_bluetooth_gatts_on_write (info_id info) _handle);;
        mret (len buf)
  end.

Definition ccc_cfg_changed (handle value : Z) : bm unit :=
  g ← root;
  match db_lookup (gatts_db g) handle with
  | None => py_fault
  | Some e =>
      d ← py_lift (reads (fun _ => wr (data e) 0 (u8 value)));
      set_gatt (fun g => set_db (db_store (gatts_db g) handle (Entry d (data_alloc e) (data_len e) (append e))) g)
  end.

Definition mp_bluetooth_gatts_read (value_handle : Z) : bm (Z * list Z) :=
  active ← mp_bluetooth_is_active;
  if negb active then mret (ERRNO_BLUETOOTH_NOT_ACTIVE, [])
  else g ← root; mret (db_read (gatts_db g) value_handle).

(** [value_handle] is 16 bits wide. *)
Definition mp_bluetooth_gatts_write (value_handle : Z) (value : list Z) (send_update : bool) : bm Z :=
  active ← mp_bluetooth_is_active;
  if negb active then mret ERRNO_BLUETOOTH_NOT_ACTIVE
  else
    g ← root;
    let '(err, d) := db_write (gatts_db g) value_handle value in
    set_gatt (set_db d);;
    if (err =? 0) && send_update then
      g ← root;
      let attr_val := mp_bt_zephyr_find_attr_by_handle (u16 (value_handle + 1)) g in
      match db_lookup (gatts_db g) (u16 (value_handle + 2)) with
      | None => mret err
      | Some ccc =>
          c ← py_lift (reads (fun _ => rd (data ccc) 0));
          if c =? BT_GATT_CCC_NOTIFY then tell (bt_gatt_notify None attr_val value)
          else if c =? BT_GATT_CCC_INDICATE then tell (bt_gatt_indicate None attr_val value)
          else mret err
      end
    else mret err.

Definition mp_bt_zephyr_gatt_indicate_done (conn attr_handle err : Z) : bm unit :=
  info ← py_call (bt_conn_get_info conn);
  tell (mp_bluetooth_gatts_on_indicate_complete (info_id info) (u16 (attr_handle - 1)) err);;
  mret tt.

Definition mp_bluetooth_gatts_notify_indicate (conn_handle value_handle gatts_op : Z) (value : list Z) : bm Z :=
  active ← mp_bluetooth_is_active;
  if negb active then mret ERRNO_BLUETOOTH_NOT_ACTIVE
  else
    p ← mp_bt_zephyr_find_connection conn_handle;
    if negb (p =? 0) then
      g ← root;
      let attr_val := mp_bt_zephyr_find_attr_by_handle (u16 (value_handle + 1)) g in
      if negb (attr_val =? 0) then
        n ← node p;
        if gatts_op =? MP_BLUETOOTH_GATTS_OP_NOTIFY then tell (bt_gatt_notify (Some (conn n)) attr_val value)
        else if gatts_op =? MP_BLUETOOTH_GATTS_OP_INDICATE then tell (bt_gatt_indicate (Some (conn n)) attr_val value)
        else mret ENOENT
      else mret ENOENT
    else mret ENOENT.

Definition mp_bluetooth_gatts_set_buffer (value_handle len : Z) (append : bool) : bm Z :=
  active ← mp_bluetooth_is_active;
  if negb active then mret ERRNO_BLUETOOTH_NOT_ACTIVE
  else
    g ← root;
    let '(err, d) := db_resize (gatts_db g) value_handle len append in
    set_gatt (set_db d);;
    mret err.
End Gatts.
Arguments gatt : clear implicits.
