(* ===== verification/BluetoothThm.v ===== *)
(** Theorems on app/micropython/modbluetooth_zephyr.c: advertising data, the
    list of connections, and writes of attribute values. *)

From S2P Require Import Prelude Py Bluetooth Gatts.

(** ** Advertising data *)

(** An advertising element as the specification lays it out: the length of the
    rest, the type, the payload. *)
Definition encode (e : Z * list Z) : list Z := len (snd e) + 1 :: fst e :: snd e.
Definition encode_all (es : list (Z * list Z)) : list Z := concat (map encode es).
Definition fits (e : Z * list Z) : Prop := len (snd e) <= 254.
(** What the stack is to be given for it. *)
Definition given (e : Z * list Z) : Z * Z * list Z := (fst e, len (snd e), snd e).

Lemma len_encode e : len (encode e) = len (snd e) + 2.
Proof. unfold encode. rewrite !len_cons. lia. Qed.

Lemma prepare_encoded slots es before :
  Forall fits es ->
  exists l, prepare slots (before ++ encode_all es) (len before) = Ok l /\ map element l = map given (take slots es).
Proof.
  intros Hes. revert es before Hes. induction slots as [|slots IH]; intros es before Hes; [by exists []|].
  cbn [prepare]. destruct es as [|[t p] es].
  { exists []. unfold encode_all. cbn. rewrite app_nil_r, Z.ltb_irrefl. done. }
  apply Forall_cons in Hes as [Hp Hes]. unfold fits in Hp. cbn in Hp. pose proof (len_nonneg p).
  assert (E : before ++ encode_all ((t, p) :: es) = (before ++ encode (t, p)) ++ encode_all es) by (unfold encode_all; cbn; by rewrite <- app_assoc).
  destruct (IH es (before ++ encode (t, p)) Hes) as (l & El & Hl).
  assert (Hlt : (len before <? len (before ++ encode_all ((t, p) :: es))) = true).
  { rewrite E, !len_app, len_encode. pose proof (len_nonneg (encode_all es)). apply Z.ltb_lt. cbn [snd]. lia. }
  rewrite Hlt. rewrite (rd_app before _ (len before + 1) 1 t) by (done || lia).
  rewrite (rd_app before _ (len before) 0 (len p + 1)) by (done || lia). cbn [mbind res_bind].
  replace (len before + 1 + (len p + 1)) with (len (before ++ encode (t, p))) by (rewrite len_app, len_encode; cbn; lia).
  rewrite E, El. cbn [mbind res_bind]. eexists. split; [done|]. cbn [map take]. f_equal; [|done].
  unfold element, given. cbn [data_type elem_len data_at fst snd]. replace (len p + 1 - 1) with (len p) by lia.
  rewrite u8_id by lia. f_equal.
  replace (Z.to_nat (len before + 2)) with (length before + 2)%nat by (unfold len; lia).
  rewrite <- app_assoc, <- drop_drop, drop_app_length. cbn [drop encode app fst snd elem_len].
  unfold len. rewrite Nat2Z.id, drop_0. by rewrite take_app_length.
Qed.

(** C31: The array built from raw advertising data holds exactly the elements
    the data encode, in order, with their types and payloads; elements after
    the first eight are dropped. *)
Theorem advertising_data_elements array es :
  Forall fits es ->
  exists l n, mp_bluetooth_prepare_bt_data (encode_all es) array 8 = Ok (l, n) /\
    map element (take (Z.to_nat n) l) = map given (take 8 es).
Proof.
  intros Hes. destruct (prepare_encoded 8 es [] Hes) as (l & El & Hl). cbn [app] in El. change (len []) with 0 in El.
  exists (l ++ drop (length l) array), (len l). unfold mp_bluetooth_prepare_bt_data.
  change (Z.to_nat 8) with 8%nat. rewrite El. cbn [mbind res_bind]. split; [done|].
  unfold len. rewrite Nat2Z.id, take_app_length. exact Hl.
Qed.

(** ** Stopping *)

Lemma unregister_returns {D} (l : list (Z * list bt_gatt_attr)) (b : bt (gatt D)) :
  outcomes (unregister_all l b) (fun _ out => out = Ok (Val tt, b)).
Proof.
  induction l as [|[s attrs] l IH]; cbn [unregister_all]; [by py_step|]. unfold Bluetooth.tell. py_step. py_step. py_step. exact IH.
Qed.

(** Stopping the module fails in one way: an error of stopping to advertise is
    raised, before anything is changed. *)
Lemma deinit_outcomes {D} (b : bt (gatt D)) :
  (state b = BLE_STATE_ACTIVE -> is_Some (root_pointers b)) ->
  outcomes (mp_bluetooth_deinit gatt_unregister b) (fun tr out =>
    (exists b', out = Ok (Val 0, b')) \/
    state b = BLE_STATE_ACTIVE /\ exists r, tr = [(bt_le_adv_stop, r)] /\ aret r <> 0 /\ out = Ok (Raise (OSError (- aret r)), b)).
Proof.
  intros Hroot. unfold mp_bluetooth_deinit, mp_bluetooth_gap_advertise_stop, Bluetooth.tell. py_step.
  destruct (decide (state b = BLE_STATE_ACTIVE)) as [Hs|Hs].
  2: { assert (E : bool_decide (state b = BLE_STATE_OFF) || bool_decide (state b = BLE_STATE_SUSPENDED) = true) by by destruct (state b).
       rewrite E. py_step. left. by eexists. }
  assert (E : bool_decide (state b = BLE_STATE_OFF) || bool_decide (state b = BLE_STATE_SUSPENDED) = false) by by rewrite Hs.
  rewrite E. destruct (Hroot Hs) as [g Eg]. do 4 py_step.
  py_step; [py_step; right; split; [done|]; eexists; split; [done|]; split; [lia | done]|].
  py_step. unfold gatt_unregister. py_step. erewrite py_bind_val by (unfold root; by rewrite Eg).
  apply outcomes_py. eapply outcomes_mono; [|apply unregister_returns]. intros t1 o1 ->.
  unfold mp_bluetooth_gap_scan_stop, mp_bluetooth_is_active, Bluetooth.tell. repeat py_step; left; by eexists.
Qed.

(** ** Writing attribute values *)

Lemma copy_in_ok d at_ (buf : list Z) : at_ + len buf <= len d ->
  copy_in d at_ buf = Ok (take (Z.to_nat at_) d ++ buf ++ drop (Z.to_nat (at_ + len buf)) d).
Proof. intros H. unfold copy_in. case_test; [done | lia]. Qed.
Lemma copy_in_ub d at_ (buf : list Z) : len d < at_ + len buf -> copy_in d at_ buf = Stop UB.
Proof. intros H. unfold copy_in. case_test; [lia | done]. Qed.

Lemma len_patched (d : list Z) at_ buf : 0 <= at_ -> at_ + len buf <= len d ->
  len (take (Z.to_nat at_) d ++ buf ++ drop (Z.to_nat (at_ + len buf)) d) = len d.
Proof. intros. pose proof (len_nonneg buf). rewrite !len_app, len_take, len_drop by lia. lia. Qed.

Lemma lookup_patched (d : list Z) at_ (buf : list Z) i : 0 <= at_ -> at_ + len buf <= len d -> 0 <= i ->
  (take (Z.to_nat at_) d ++ buf ++ drop (Z.to_nat (at_ + len buf)) d) !! Z.to_nat i =
    if (at_ <=? i) && (i <? at_ + len buf) then buf !! Z.to_nat (i - at_) else d !! Z.to_nat i.
Proof.
  intros H0 H1 Hi. unfold len in *. destruct (decide (i < at_)).
  - rewrite (proj2 (Z.leb_gt at_ i)) by done. cbn [andb].
    rewrite lookup_app_l by (rewrite length_take; lia). by rewrite lookup_take_lt by lia.
  - rewrite (proj2 (Z.leb_le at_ i)) by lia. cbn [andb]. rewrite lookup_app_r by (rewrite length_take; lia).
    rewrite length_take. case_test.
    + rewrite lookup_app_l by lia. f_equal. lia.
    + rewrite lookup_app_r by lia. rewrite lookup_drop. f_equal. lia.
Qed.

Section Write.
Context {D : Type} {db_ops : GattsDb D}.

(** C30: A client's write goes into the entry's buffer at the given offset, and
    nowhere else, when the entry does not append: offsets and lengths that do
    not fit are refused. An appending entry is checked against the offset the
    client sent, but written at its end: when the end plus the data passes the
    buffer, memory behind it is overwritten. *)
Theorem attr_write_bounds (b : bt (gatt D)) g conn handle buf offset flags h e tr out :
  root_pointers b = Some g -> find_entry handle g = Some (h, e) ->
  len (data e) = data_alloc e -> 0 <= data_len e <= data_alloc e -> data_alloc e < 2 ^ 16 ->
  0 <= offset -> has flags BT_GATT_WRITE_FLAG_PREPARE = false ->
  runs (mp_bt_zephyr_gatts_attr_write conn handle buf offset flags b) tr out ->
  let at_ := if append e then data_len e else offset in
  if offset >? data_alloc e then out = Ok (Val (BT_GATT_ERR BT_ATT_ERR_INVALID_OFFSET), b)
  else if offset + len buf >? data_alloc e then out = Ok (Val (BT_GATT_ERR BT_ATT_ERR_INVALID_ATTRIBUTE_LEN), b)
  else if at_ + len buf <=? data_alloc e then
    exists d, out = Ok (Val (len buf), set_root (Some (set_db (db_store (gatts_db g) h (Entry d (data_alloc e) (at_ + len buf) (append e))) g)) b) /\
      len d = data_alloc e /\
      forall i, 0 <= i < data_alloc e ->
        d !! Z.to_nat i = if (at_ <=? i) && (i <? at_ + len buf) then buf !! Z.to_nat (i - at_) else data e !! Z.to_nat i
  else out = Stop UB.
Proof.
  intros Hroot Hfind Hlen Hdl Hal Hoff Hflags Hr at_. unfold mp_bt_zephyr_gatts_attr_write in Hr.
  apply runs_call_inv in Hr as (info & tr' & -> & Hr). cbn [prog_bind'] in Hr.
  erewrite (py_bind_val root) in Hr by (unfold root; by rewrite Hroot). rewrite Hfind, Hflags in Hr.
  destruct (offset >? data_alloc e) eqn:E1; [by apply runs_ret_inv in Hr as [_ ->]|].
  destruct (offset + len buf >? data_alloc e) eqn:E2; [by apply runs_ret_inv in Hr as [_ ->]|]. zify_bool.
  replace (if append e then u16 (data_len e) else offset) with at_ in Hr by (unfold at_; case_test; [by rewrite u16_id by lia | done]).
  destruct (at_ + len buf <=? data_alloc e) eqn:E3; zify_bool.
  - erewrite (py_bind_val (py_lift _)) in Hr by (unfold py_lift, reads; rewrite copy_in_ok by lia; reflexivity).
    unfold set_gatt in Hr. erewrite (py_bind_val (py_set _)) in Hr by reflexivity. rewrite Hroot in Hr. cbn [fmap option_fmap option_map] in Hr.
    apply runs_call_inv in Hr as (r & tr2 & -> & Hr). cbn [prog_bind'] in Hr. apply runs_ret_inv in Hr as [_ ->].
    eexists. split; [done|]. assert (Hat : 0 <= at_) by (unfold at_; case_test; lia). split; [rewrite <- Hlen; apply len_patched; lia|].
    intros i Hi. apply lookup_patched; lia.
  - unfold py_lift, reads in Hr. rewrite copy_in_ub in Hr by lia. by inversion Hr.
Qed.
End Write.

(** ** Concrete runs *)

(** A database as modbluetooth.h describes it, keyed by handle. *)
#[export] Instance map_db : GattsDb (gmap Z entry) := {
  db_create := ∅;
  db_reset := fun _ => ∅;
  db_lookup := fun d h => d !! h;
  db_store := fun d h e => <[h := e]> d;
  db_create_entry := fun d h n => <[h := Entry (replicate (Z.to_nat n) 0) n 0 false]> d;
  db_read := fun d h => match d !! h with Some e => (0, take (Z.to_nat (data_len e)) (data e)) | None => (EINVAL, []) end;
  db_write := fun d h v => match d !! h with
    | Some e => (0, <[h := Entry (take (Z.to_nat (data_alloc e)) (v ++ data e)) (data_alloc e) (len v) (append e)]> d)
    | None => (EINVAL, d) end;
  db_resize := fun d h n a => match d !! h with
    | Some e => (0, <[h := Entry (replicate (Z.to_nat n) 0) n 0 a]> d) | None => (EINVAL, d) end
}.

Lemma advertising_data_elements_witness :
  let es := [(1, [6]); (9, [112; 121])] in
  encode_all es = [2; 1; 6; 3; 9; 112; 121] /\
  exists l n, mp_bluetooth_prepare_bt_data (encode_all es) [] 8 = Ok (l, n) /\
    map element (take (Z.to_nat n) l) = map given (take 8 es).
Proof.
  intros es. split; [reflexivity|]. apply (advertising_data_elements [] es). unfold es, fits. by_decide.
Defined.

(** A length byte of zero makes an element of 255 bytes, and data that end with
    a length byte are read past their end. *)
Example advertising_data_malformed :
  mp_bluetooth_prepare_bt_data [0; 5] [] 1 = Ok ([BtData 5 255 []], 1) /\
  mp_bluetooth_prepare_bt_data [2; 1; 6; 3] [] 8 = Stop UB.
Proof. split; reflexivity. Qed.

(** A running stack with one value of 8 bytes at handle 12. *)
Definition value_at (app : bool) : gatt (gmap Z entry) := Gatt {[12 := Entry (replicate 8 0) 8 5 app]} [].
Definition running (g : gatt (gmap Z entry)) : bt (gatt (gmap Z entry)) :=
  Bt BLE_STATE_ACTIVE SCAN_STATE_INACTIVE [] 0 [] 0 0 ∅ (Some g) 0 [].
Definition quiet_stack (_ : list (btcall * answer)) (_ : btcall) : answer := Answer 0 [7].
(** The attribute of the value has handle 13. *)
Definition write_run (app : bool) (buf : list Z) :=
  run quiet_stack (mp_bt_zephyr_gatts_attr_write 1 13 buf 2 0 (running (value_at app))) [].

Lemma attr_write_bounds_witness :
  (exists d, fst (write_run false [1; 2; 3; 4]) =
      Ok (Val 4, set_root (Some (set_db (db_store (gatts_db (value_at false)) 12 (Entry d 8 6 false)) (value_at false))) (running (value_at false))) /\
    len d = 8 /\
    forall i, 0 <= i < 8 -> d !! Z.to_nat i =
      if (2 <=? i) && (i <? 6) then [1; 2; 3; 4] !! Z.to_nat (i - 2) else replicate 8 0 !! Z.to_nat i) /\
  fst (write_run true [1; 2; 3; 4]) = Stop UB.
Proof.
  split.
  - refine (attr_write_bounds (running (value_at false)) (value_at false) 1 13 [1; 2; 3; 4] 2 0 12 (Entry (replicate 8 0) 8 5 false)
      (snd (write_run false [1; 2; 3; 4])) (fst (write_run false [1; 2; 3; 4])) eq_refl eq_refl eq_refl _ _ _ eq_refl _).
    + by_decide.
    + by_decide.
    + by_decide.
    + apply (run_runs _ quiet_stack). unfold write_run. apply surjective_pairing.
  - refine (attr_write_bounds (running (value_at true)) (value_at true) 1 13 [1; 2; 3; 4] 2 0 12 (Entry (replicate 8 0) 8 5 true)
      (snd (write_run true [1; 2; 3; 4])) (fst (write_run true [1; 2; 3; 4])) eq_refl eq_refl eq_refl _ _ _ eq_refl _).
    + by_decide.
    + by_decide.
    + by_decide.
    + apply (run_runs _ quiet_stack). unfold write_run. apply surjective_pairing.
Defined.

(** Registering a service with one notifying characteristic; the stack hands
    out handles from 20 on. *)
Definition stack_20 (_ : list (btcall * answer)) (c : btcall) : answer :=
  match c with
  | bt_gatt_service_register _ n => Answer 0 (seqZ 20 n)
  | _ => Answer 0 []
  end.
Definition same_uuid (a b : uuid) : Z := if bool_decide (a = b) then 0 else 1.
Definition registered (num_descriptors : Z) (descriptors : list (Z * list Z * Z)) :=
  fst (run stack_20 (mp_bluetooth_gatts_register_service same_uuid (2, [13; 24]) [(2, [55; 42], FLAG_NOTIFY, num_descriptors)] descriptors
    (running (Gatt (D := gmap Z entry) ∅ []))) []).
(** The handles of the CCC descriptors and of the database's entries. *)
Definition ccc_handles (g : gatt (gmap Z entry)) : list Z :=
  map attr_handle (filter (fun a => attr_uuid a = Some BT_UUID_GATT_CCC) (concat (map snd (services g)))).

(** Without descriptors of its own a characteristic's CCC has an entry. With
    one, the CCC moves to the next handle, its entry does not, and a client
    that subscribes makes the callback read through NULL. *)
Example ccc_entry_without_descriptors :
  match registered 0 [] with
  | Ok (Val (0, handles), b) => match root_pointers b with
      | Some g => handles = [21] /\ ccc_handles g = [23] /\ is_Some (gatts_db g !! 23)
      | None => False end
  | _ => False
  end.
Proof. vm_compute. repeat split. eexists. reflexivity. Qed.
Example ccc_entry_missing :
  match registered 1 [(2, [1; 41], FLAG_READ)] with
  | Ok (Val (0, handles), b) => match root_pointers b with
      | Some g => handles = [21; 23] /\ ccc_handles g = [24] /\ gatts_db g !! 24 = None /\
          fst (run stack_20 (ccc_cfg_changed 24 1 b) []) = Stop UB
      | None => False end
  | _ => False
  end.
Proof. vm_compute. repeat split. Qed.

(** Two connections without a new start of advertising: the one preallocated
    node is inserted twice, and looking for another connection never ends. *)
Definition stack_ids (_ : list (btcall * answer)) (c : btcall) : answer :=
  match c with
  | bt_conn_ref p => Answer p []
  | m_new => Answer 100 []
  | _ => Answer 0 [0; 0; 1; 2; 3; 4; 5; 6]
  end.
Example second_connection_loops :
  let b := running (Gatt (D := gmap Z entry) ∅ []) in
  match fst (run stack_ids ((mp_bluetooth_gap_advertise_start 1 2 3 true 0 None None;;
      mp_bt_zephyr_connected 4 5 201 0;; mp_bt_zephyr_connected 4 5 202 0) b) []) with
  | Ok (Val tt, b) => fst (run stack_ids (mp_bluetooth_gap_disconnect 19 1 b) []) = Stop OutOfFuel /\ nodes b !! 100 = Some (Conn 202 100)
  | _ => False
  end.
Proof. vm_compute. repeat split. Qed.
