(* ===== verification/GattsThm.v ===== *)
(** app/micropython/modbluetooth_zephyr.c: registering a GATT service. The
    attributes are laid out as the definitions say, the handles answered are
    those of the declarations and descriptors, and the database gets their
    entries. *)

From S2P Require Import Prelude Py Bluetooth Gatts BluetoothThm.

(** ** The layout of a service *)

Local Abbreviation characteristic := (Z * list Z * Z * Z)%type.
Local Abbreviation descriptor := (Z * list Z * Z)%type.
Definition uuid_of (u : Z * list Z) : uuid := take (Z.to_nat (fst u)) (snd u).

(** What an attribute is, by its UUID and flags: the service's declaration, a
    characteristic's declaration, its value, a descriptor of Python's, the CCC
    the port adds. *)
Inductive slot :=
  | Service (u : uuid)
  | Decl (u : uuid) (flags : Z)
  | Value (u : uuid) (flags : Z)
  | Desc (u : uuid) (flags : Z)
  | Ccc.

Definition desc_slot (d : descriptor) : slot := Desc (uuid_of (fst d)) (snd d).
Definition char_slots (c : characteristic) (descs : list descriptor) : list slot :=
  let '(cu, flags, n) := c in
  Decl (uuid_of cu) flags :: Value (uuid_of cu) flags ::
    map desc_slot (take (Z.to_nat n) descs) ++ (if wants_ccc flags then [Ccc] else []).
(** Each characteristic takes its descriptors from the front of the list. *)
Fixpoint layout (chars : list characteristic) (descs : list descriptor) : list slot :=
  match chars with
  | [] => []
  | c :: chars => char_slots c descs ++ layout chars (drop (Z.to_nat (snd c)) descs)
  end.

Definition ignored (s : slot) : bool := match s with Value _ _ | Ccc => true | _ => false end.
Definition is_decl (s : slot) : bool := match s with Decl _ _ => true | _ => false end.
Definition notifying (s : slot) : bool := match s with Decl _ flags => wants_ccc flags | _ => false end.

(** The attribute's UUID, permissions and callbacks, and fixed user data. *)
Definition declared (s : slot) (a : bt_gatt_attr) : Prop :=
  match s with
  | Service u => attr_uuid a = Some BT_UUID_GATT_PRIMARY /\ user_data a = Uuid_data u
  | Decl u flags => attr_uuid a = Some BT_UUID_GATT_CHRC /\ user_data a = Chrc (chr_properties flags) (Some u)
  | Value u flags | Desc u flags =>
      attr_uuid a = Some u /\ perm a = Z.land (Z.lor (chr_permissions flags) BT_GATT_PERM_PREPARE_WRITE) GATT_PERM_MASK /\ gatts a = true
  | Ccc => attr_uuid a = Some BT_UUID_GATT_CCC /\ user_data a = Ccc_definition
  end.
(** As it is built: values and descriptors have no data yet. *)
Definition raw (s : slot) (a : bt_gatt_attr) : Prop :=
  declared s a /\ match s with Value _ _ | Desc _ _ => user_data a = NULL | _ => True end.

(** ** Bit fields *)

(** [x] has the bits of the slots that satisfy [f]. *)
Definition bits (f : slot -> bool) (x : Z) (slots : list slot) : Prop :=
  forall i, 0 <= i -> Z.testbit x i = match slots !! Z.to_nat i with Some s => f s | None => false end.

Lemma bits_snoc f x slots s : bits f x slots ->
  bits f (if f s then Z.lor x (2 ^ len slots) else x) (slots ++ [s]).
Proof.
  intros H i Hi. assert (E : Z.testbit (if f s then Z.lor x (2 ^ len slots) else x) i = Z.testbit x i || (f s && (i =? len slots))).
  { destruct (f s); cbn [andb]; [|by rewrite orb_false_r].
    rewrite Z.lor_spec, Z.pow2_bits_eqb by apply len_nonneg. by rewrite (Z.eqb_sym _ i). }
  rewrite E, (H i Hi). clear E H. unfold len. destruct (decide (Z.to_nat i < length slots)%nat) as [Hl|Hl].
  - rewrite lookup_app_l by done. rewrite (proj2 (Z.eqb_neq i _)) by lia. by rewrite andb_false_r, orb_false_r.
  - rewrite (lookup_ge_None_2 slots) by lia. rewrite lookup_app_r by lia. cbn [orb].
    destruct (Z.to_nat i - length slots)%nat as [|k] eqn:Ek; cbn.
    + rewrite (proj2 (Z.eqb_eq i _)) by lia. by rewrite andb_true_r.
    + rewrite (proj2 (Z.eqb_neq i _)) by lia. by rewrite andb_false_r.
Qed.

(** What has been built fits the slots. *)
Definition built (b : build) (slots : list slot) : Prop :=
  Forall2 raw slots (attrs b) /\ bits ignored (ignore b) slots /\ bits is_decl (are_chrs b) slots /\ bits notifying (has_ccc b) slots.

(** One more attribute. *)
Definition push (s : slot) (a : bt_gatt_attr) (b : build) : build :=
  let bit (f : slot -> bool) x := if f s then Z.lor x (2 ^ len (attrs b)) else x in
  Build (attrs b ++ [a]) (bit ignored (ignore b)) (bit is_decl (are_chrs b)) (bit notifying (has_ccc b)) (descriptor_index b).

Lemma built_len b slots : built b slots -> len (attrs b) = len slots.
Proof. intros [H%Forall2_length _]. unfold len. by rewrite H. Qed.

Lemma built_push b slots s a : built b slots -> raw s a -> built (push s a b) (slots ++ [s]).
Proof.
  intros Hb Ha. pose proof (built_len _ _ Hb) as El. destruct Hb as (H1 & H2 & H3 & H4).
  unfold built, push. cbn [attrs ignore are_chrs has_ccc]. rewrite El.
  split; [by apply Forall2_app; [|constructor]|]. by repeat split; apply bits_snoc.
Qed.

(** ** Flags *)

Lemma has_lor f a b : has f (Z.lor a b) = has f a || has f b.
Proof.
  unfold has. rewrite Z.land_lor_distr_r. rewrite <- negb_andb. f_equal.
  apply eq_true_iff_eq. rewrite andb_true_iff, !Z.eqb_eq. apply Z.lor_eq_0_iff.
Qed.

(** A characteristic that gets a CCC has the properties one needs. *)
Lemma ccc_properties flags : has (chr_properties flags) (Z.lor BT_GATT_CHRC_NOTIFY BT_GATT_CHRC_INDICATE) = wants_ccc flags.
Proof.
  unfold wants_ccc, chr_properties. rewrite !(has_lor flags).
  by destruct (has flags FLAG_READ), (has flags FLAG_NOTIFY), (has flags FLAG_INDICATE), (has flags FLAG_WRITE), (has flags FLAG_WRITE_NO_RESPONSE).
Qed.

(** ** Building *)

Section Register.
Context {D : Type} {db_ops : GattsDb D}.
Context (cmp : uuid -> uuid -> Z) (cmp_spec : forall a b, cmp a b = 0 <-> a = b).
Local Abbreviation state_t := (bt (gatt D)).
Local Abbreviation bm A := (py btcall answer state_t A).

(** [m] only allocates: it adds to the collector's list and answers a value that
    satisfies [Q]. *)
Definition allocates {A} (m : bm A) (Q : A -> Prop) : Prop :=
  forall s, is_Some (root_pointers s) -> outcomes (m s) (fun _ out => exists x l, out = Ok (Val x, set_objs_list l s) /\ Q x).

Lemma allocates_bind {A B} (m : bm A) (f : A -> bm B) Q Q' :
  allocates m Q -> (forall x, Q x -> allocates (f x) Q') -> allocates (m ≫= f) Q'.
Proof.
  intros Hm Hf s Hs. apply outcomes_py. eapply outcomes_mono; [|by apply Hm]. intros tr out (x & l & -> & Hx).
  eapply outcomes_mono; [|by apply (Hf x Hx (set_objs_list l s))]. intros tr' out' (y & l' & -> & Hy). by exists y, l'.
Qed.

Lemma allocates_pure {A} (m : bm A) x (Q : A -> Prop) : (forall s, m s = Ret (Val x, s)) -> Q x -> allocates m Q.
Proof. intros E HQ s _. rewrite E. apply outcomes_ret. exists x, (objs_list s). split; [by destruct s | done]. Qed.

Lemma allocates_mono {A} (m : bm A) (Q Q' : A -> Prop) : (forall x, Q x -> Q' x) -> allocates m Q -> allocates m Q'.
Proof. intros H Hm s Hs. eapply outcomes_mono; [|by apply Hm]. intros tr out (x & l & -> & Hx). exists x, l. eauto. Qed.

Lemma new_obj_allocates : allocates new_obj (fun _ => True).
Proof.
  intros s [g Hg]. unfold new_obj, tell. py_step. py_step. py_step.
  erewrite py_bind_val by (unfold root; by rewrite Hg). py_step. py_step. by eexists _, _.
Qed.

Lemma new_obj_then {A} (m : bm A) Q : allocates m Q -> allocates (new_obj;; m) Q.
Proof. intros H. by eapply allocates_bind; [apply new_obj_allocates|]. Qed.

Lemma gatt_db_add_allocates a n (Q : bt_gatt_attr -> Prop) : Q a -> allocates (gatt_db_add a n) Q.
Proof.
  intros H. apply new_obj_then. eapply (allocates_bind _ _ (fun _ => True)).
  - case (negb (n =? 0)); [apply new_obj_then|]; by eapply allocates_pure.
  - intros _ _. by eapply allocates_pure.
Qed.

Lemma create_uuid_allocates u : allocates (create_zephyr_uuid u) (fun x => x = take (Z.to_nat (fst u)) (snd u)).
Proof. apply new_obj_then. by eapply allocates_pure. Qed.

Lemma add_characteristic_allocates u p perms :
  allocates (add_characteristic u p perms) (fun '(c, v) =>
    (attr_uuid c = Some BT_UUID_GATT_CHRC /\ user_data c = Chrc p (Some u)) /\
    v = Attr (Some u) (Z.land (Z.lor perms BT_GATT_PERM_PREPARE_WRITE) GATT_PERM_MASK) 0 true NULL).
Proof.
  eapply allocates_bind; [by apply (gatt_db_add_allocates _ _ (fun a => attr_uuid a = Some BT_UUID_GATT_CHRC))|]. intros c Hc.
  eapply allocates_bind; [by apply (gatt_db_add_allocates _ _
    (fun a => a = Attr (Some u) (Z.land (Z.lor perms BT_GATT_PERM_PREPARE_WRITE) GATT_PERM_MASK) 0 true NULL))|].
  intros v ->. by eapply allocates_pure.
Qed.

Definition plain_uuid (u : uuid) : Prop := u <> BT_UUID_GATT_CEP /\ u <> BT_UUID_GATT_CCC.

Lemma add_descriptor_allocates c u flags : plain_uuid u ->
  allocates (add_descriptor cmp c u (chr_permissions flags)) (raw (Desc u flags)).
Proof.
  intros [H1 H2]. unfold add_descriptor. rewrite (proj2 (Z.eqb_neq _ 0)) by (by rewrite cmp_spec).
  rewrite (proj2 (Z.eqb_neq _ 0)) by (by rewrite cmp_spec). by apply gatt_db_add_allocates.
Qed.

Lemma add_ccc_allocates c flags p perms u : user_data c = Chrc p u -> p = chr_properties flags -> wants_ccc flags = true ->
  allocates (add_descriptor cmp c BT_UUID_GATT_CCC perms) (raw Ccc).
Proof.
  intros Hc -> Hw. unfold add_descriptor. rewrite (proj2 (Z.eqb_neq _ 0)) by (by rewrite cmp_spec).
  rewrite (proj2 (Z.eqb_eq _ 0)) by (by rewrite cmp_spec). unfold add_ccc, properties_of. rewrite Hc.
  eapply (allocates_bind _ _ (fun x => x = chr_properties flags)); [by eapply allocates_pure|]. intros _ ->.
  rewrite ccc_properties, Hw. by apply gatt_db_add_allocates.
Qed.

Definition plain (d : descriptor) : Prop := plain_uuid (uuid_of (fst d)).

(** The descriptors from the index on. *)
Definition left_from (i : Z) (descs : list descriptor) : list descriptor := drop (Z.to_nat i) descs.

Lemma add_descriptors_allocates n (descs : list descriptor) c b slots :
  built b slots -> 0 <= descriptor_index b -> descriptor_index b + Z.of_nat n <= len descs -> Forall plain descs ->
  allocates (add_descriptors cmp n descs c b) (fun b' =>
    built b' (slots ++ map desc_slot (take n (left_from (descriptor_index b) descs))) /\
    descriptor_index b' = descriptor_index b + Z.of_nat n).
Proof.
  revert b slots. induction n as [|n IH]; intros b slots Hb H0 Hn Hd; cbn [add_descriptors].
  { eapply allocates_pure; [done|]. rewrite app_nil_r. split; [done | lia]. }
  destruct (rd_in descs (descriptor_index b)) as ([u flags] & Er & El); [lia|].
  eapply (allocates_bind _ _ (fun d => d = (u, flags))).
  { eapply allocates_pure; [|done]. intros s. unfold py_lift, reads. by rewrite Er. }
  intros _ ->. cbn beta iota. eapply allocates_bind; [apply create_uuid_allocates|]. intros v ->.
  assert (Hp : plain (u, flags)) by (by eapply Forall_lookup_1).
  eapply allocates_bind; [by apply add_descriptor_allocates|]. intros a Ha.
  eapply allocates_mono; [|apply (IH (Build (attrs b ++ [a]) (ignore b) (are_chrs b) (has_ccc b) (descriptor_index b + 1)) (slots ++ [desc_slot (u, flags)]));
    cbn [descriptor_index]; [exact (built_push b slots (desc_slot (u, flags)) a Hb Ha) | lia | lia | done]].
  intros b' [H1 H2]. cbn [descriptor_index] in H1, H2. rewrite <- app_assoc in H1. split; [|lia].
  unfold left_from in *. rewrite (drop_cons_lookup _ _ _ El). cbn [take map].
  replace (Z.to_nat (descriptor_index b + 1)) with (S (Z.to_nat (descriptor_index b))) in H1 by lia. exact H1.
Qed.

Lemma shift1_allocates n : n < 31 -> allocates (shift1 n) (fun x => x = 2 ^ n).
Proof. intros H. unfold shift1. rewrite (proj2 (Z.ltb_lt n 31)) by done. by eapply allocates_pure. Qed.

(** The number of descriptors of Python's that the characteristics take. *)
Definition wanted (chars : list characteristic) : Z :=
  foldr Z.add 0 (map (fun c => Z.of_nat (Z.to_nat (snd c))) chars).

Lemma wanted_nonneg chars : 0 <= wanted chars.
Proof. unfold wanted. induction chars; cbn; lia. Qed.

Lemma add_one_allocates c descs b slots :
  built b slots -> 0 <= descriptor_index b -> descriptor_index b + wanted [c] <= len descs -> Forall plain descs ->
  len slots + len (char_slots c (left_from (descriptor_index b) descs)) <= 31 ->
  allocates (add_one cmp c descs b) (fun b' =>
    built b' (slots ++ char_slots c (left_from (descriptor_index b) descs)) /\ descriptor_index b' = descriptor_index b + wanted [c]).
Proof.
  destruct c as [[cu flags] n]. unfold wanted. cbn [map foldr snd]. rewrite Z.add_0_r. intros Hb H0 Hn Hd Hl.
  pose proof (built_len _ _ Hb) as Elen. unfold char_slots in *. set (ds := map desc_slot _) in *. rewrite !len_cons, len_app in Hl.
  pose proof (len_nonneg ds) as Hr.
  assert (Hw : 0 <= len (if wants_ccc flags then [Ccc] else [])) by apply len_nonneg.
  unfold add_one. eapply allocates_bind; [apply create_uuid_allocates|]. intros u ->. fold (uuid_of cu).
  eapply allocates_bind; [apply add_characteristic_allocates|]. intros [chrc val] [[Hu Hc] ->]. cbv zeta.
  eapply allocates_bind; [apply shift1_allocates; lia|]. intros chr_bit ->.
  eapply (allocates_bind _ _ (fun x => x = if wants_ccc flags then 2 ^ len (attrs b) else 0)).
  { case (wants_ccc flags); [apply shift1_allocates; lia | by eapply allocates_pure]. }
  intros ccc_bit ->. eapply allocates_bind; [apply shift1_allocates; lia|]. intros val_bit ->.
  set (val := Attr _ _ _ _ _). set (b2 := Build _ _ _ _ _).
  assert (Hb2 : built b2 (slots ++ [Decl (uuid_of cu) flags; Value (uuid_of cu) flags])).
  { assert (Hp : built (push (Value (uuid_of cu) flags) val (push (Decl (uuid_of cu) flags) chrc b))
      ((slots ++ [Decl (uuid_of cu) flags]) ++ [Value (uuid_of cu) flags])).
    { apply built_push; [|done]. by apply built_push. }
    rewrite <- app_assoc in Hp. unfold push in Hp. cbn [attrs ignore are_chrs has_ccc ignored is_decl notifying] in Hp.
    rewrite len_app, <- app_assoc in Hp. unfold b2. destruct (wants_ccc flags); [exact Hp|]. rewrite Z.lor_0_r. exact Hp. }
  eapply allocates_bind; [by apply (add_descriptors_allocates _ _ _ _ _ Hb2)|]. intros b3 [Hb3 Hi]. cbn [descriptor_index b2] in Hb3, Hi.
  fold ds in Hb3. rewrite <- app_assoc in Hb3. pose proof (built_len _ _ Hb3) as El3. rewrite len_app, !len_app, !len_cons, len_nil in El3.
  destruct (wants_ccc flags) eqn:Ew.
  - eapply allocates_bind; [apply create_uuid_allocates|]. intros u ->. rewrite len_single in Hl.
    eapply allocates_bind; [apply shift1_allocates; lia|]. intros bit ->.
    eapply allocates_bind; [by eapply (add_ccc_allocates chrc flags)|]. intros a Ha.
    eapply allocates_pure; [done|]. cbn [descriptor_index]. split; [|exact Hi].
    pose proof (built_push _ _ Ccc a Hb3 Ha) as Hp. rewrite <- app_assoc in Hp. exact Hp.
  - eapply allocates_pure; [done|]. rewrite app_nil_r. by split.
Qed.

Lemma add_all_allocates chars descs b slots :
  built b slots -> 0 <= descriptor_index b -> descriptor_index b + wanted chars <= len descs -> Forall plain descs ->
  len slots + len (layout chars (left_from (descriptor_index b) descs)) <= 31 ->
  allocates (add_all cmp chars descs b) (fun b' => built b' (slots ++ layout chars (left_from (descriptor_index b) descs))).
Proof.
  revert b slots. induction chars as [|c chars IH]; intros b slots Hb H0 Hn Hd Hl; cbn [add_all].
  { eapply allocates_pure; [done|]. by rewrite app_nil_r. }
  cbn [layout] in *. rewrite len_app in Hl.
  assert (Ew : wanted (c :: chars) = wanted [c] + wanted chars) by (unfold wanted; cbn; lia).
  pose proof (wanted_nonneg [c]). pose proof (wanted_nonneg chars). pose proof (len_nonneg (layout chars (drop (Z.to_nat (snd c)) (left_from (descriptor_index b) descs)))).
  eapply allocates_bind; [apply add_one_allocates; done || lia|]. intros b' [Hb' Hi].
  assert (E : drop (Z.to_nat (snd c)) (left_from (descriptor_index b) descs) = left_from (descriptor_index b') descs).
  { unfold left_from. rewrite drop_drop, Hi. f_equal. unfold wanted. cbn. lia. }
  rewrite E in *. rewrite app_assoc. apply IH; rewrite ?len_app; done || lia.
Qed.

(** The whole service, from its own attribute on. *)
Lemma layout_built chars descs svc u :
  raw (Service u) svc -> wanted chars <= len descs -> Forall plain descs -> 1 + len (layout chars descs) <= 31 ->
  allocates (add_all cmp chars descs (Build [svc] 0 0 0 0)) (fun b => built b ([Service u] ++ layout chars descs)).
Proof.
  intros Hsvc Hw Hd Hl. apply (add_all_allocates chars descs (Build [svc] 0 0 0 0) [Service u]); cbn [descriptor_index]; try done.
  repeat split; [by apply Forall2_cons_2; [|constructor]|..]; intros i Hi; rewrite Z.bits_0; by destruct (Z.to_nat i) as [|[|]].
Qed.

(** ** Handles and entries *)

(** The handles answered for slots that begin at handle [h]. *)
Fixpoint answered (h : Z) (slots : list slot) : list Z :=
  match slots with
  | [] => []
  | (Decl _ _ | Desc _ _) :: slots => h :: answered (h + 1) slots
  | _ :: slots => answered (h + 1) slots
  end.
(** The database with their entries. *)
Fixpoint entries (d : D) (h : Z) (slots : list slot) : D :=
  match slots with
  | [] => d
  | Decl _ flags :: slots =>
      let d := db_create_entry d h MP_BLUETOOTH_DEFAULT_ATTR_LEN in
      entries (if wants_ccc flags then db_create_entry d (h + 2) 1 else d) (h + 1) slots
  | Desc _ _ :: slots => entries (db_create_entry d h MP_BLUETOOTH_DEFAULT_ATTR_LEN) (h + 1) slots
  | _ :: slots => entries d (h + 1) slots
  end.
(** The attribute as it is served: a value belongs to the declaration before it. *)
Definition served (s : slot) (a : bt_gatt_attr) : Prop :=
  declared s a /\ match s with
  | Value _ _ => user_data a = Entry_data (attr_handle a - 1)
  | Desc _ _ => user_data a = Entry_data (attr_handle a)
  | _ => True
  end.

(** Declarations and values alternate; [v] tells that a declaration precedes. *)
Fixpoint formed (v : bool) (slots : list slot) : Prop :=
  match slots with
  | [] => v = false
  | Decl _ flags :: slots => v = false /\ (wants_ccc flags = true -> (2 <= length slots)%nat) /\ formed true slots
  | Value _ _ :: slots => v = true /\ formed false slots
  | Service _ :: _ => False
  | (Desc _ _ | Ccc) :: slots => v = false /\ formed false slots
  end.

Lemma formed_layout chars descs : formed false (layout chars descs).
Proof.
  revert descs. induction chars as [|[[cu flags] n] chars IH]; intros descs; [done|].
  cbn [layout snd]. specialize (IH (drop (Z.to_nat n) descs)). unfold char_slots. cbn [app formed].
  split; [done|]. split.
  { intros ->. cbn [length]. rewrite !length_app. cbn [length]. lia. }
  split; [done|]. rewrite <- app_assoc.
  induction (take (Z.to_nat n) descs) as [|d ds IHd]; cbn [map app formed desc_slot]; [by case (wants_ccc flags) | by split].
Qed.

(** Attributes with handles from [h] on, as they are built; the first one
    already belongs to its declaration when [v]. *)
Fixpoint rows (v : bool) (h : Z) (slots : list slot) (l : list bt_gatt_attr) : Prop :=
  match slots, l with
  | [], [] => True
  | s :: slots, a :: l =>
      attr_handle a = h /\ (if v then served s a else raw s a) /\ rows false (h + 1) slots l
  | _, _ => False
  end.
Fixpoint served_rows (h : Z) (slots : list slot) (l : list bt_gatt_attr) : Prop :=
  match slots, l with
  | [], [] => True
  | s :: slots, a :: l => attr_handle a = h /\ served s a /\ served_rows (h + 1) slots l
  | _, _ => False
  end.

Class GattsDbLaws := {
  create_lookup d h n : exists e, db_lookup (db_create_entry d h n) h = Some e /\ data_alloc e = n;
  create_other d h n h' : h' <> h -> db_lookup (db_create_entry d h n) h' = db_lookup d h'
}.
Context {laws : GattsDbLaws}.

(** The state with a database. *)
Definition with_gatt (g : gatt D) (s : state_t) : state_t := set_root (Some g) s.

Lemma create_entry_ok h d sv s :
  create_entry h (with_gatt (Gatt d sv) s) =
  Ret (Val (Entry_data h), with_gatt (Gatt (db_create_entry d h MP_BLUETOOTH_DEFAULT_ATTR_LEN) sv) s).
Proof.
  unfold create_entry, set_gatt. erewrite py_bind_val by reflexivity. erewrite py_bind_val by reflexivity.
  cbn [gatts_db fmap option_fmap option_map root_pointers set_root with_gatt set_db].
  destruct (create_lookup d h MP_BLUETOOTH_DEFAULT_ATTR_LEN) as (e & -> & _). done.
Qed.

Lemma lift_val {A} (r : res A) x (s : state_t) : r = Ok x -> py_lift (reads (fun _ => r)) s = (Ret (Val x, s) : prog btcall answer _).
Proof. intros ->. done. Qed.

(** The three bit fields fit the slots. *)
Definition bits_fit (b : build) (slots : list slot) : Prop :=
  bits ignored (ignore b) slots /\ bits is_decl (are_chrs b) slots /\ bits notifying (has_ccc b) slots.

Lemma bits_at f x before s slots : bits f x (before ++ s :: slots) -> Z.testbit x (len before) = f s.
Proof.
  intros H. rewrite (H (len before)) by apply len_nonneg. unfold len. by rewrite Nat2Z.id, lookup_app_r, Nat.sub_diag by lia.
Qed.

(** Attributes the loop passes over. *)
Lemma assign_skip b before s slots st db : bits_fit b (before ++ s :: slots) -> ignored s = true -> len before < 64 ->
  assign_one b (len before) st db = Ret (Val st, db).
Proof.
  intros (H & _) Hs Hl. unfold assign_one. destruct st as [l hs]. rewrite (proj2 (Z.leb_gt 64 _)) by done.
  by rewrite (bits_at _ _ _ _ _ H), Hs.
Qed.

Lemma assign_desc b before u f slots pre a cur handles d sv s :
  bits_fit b (before ++ Desc u f :: slots) -> len pre = len before -> len before < 64 -> user_data a = NULL ->
  assign_one b (len before) (pre ++ a :: cur, handles) (with_gatt (Gatt d sv) s) =
    Ret (Val (pre ++ set_user_data (Entry_data (attr_handle a)) a :: cur, handles ++ [attr_handle a]),
      with_gatt (Gatt (db_create_entry d (attr_handle a) MP_BLUETOOTH_DEFAULT_ATTR_LEN) sv) s).
Proof.
  intros (H & _) Hp Hl Ha. unfold assign_one. rewrite (proj2 (Z.leb_gt 64 _)) by done. rewrite (bits_at _ _ _ _ _ H). cbn [ignored].
  erewrite py_bind_val by (apply lift_val; apply (rd_app pre _ _ 0 a); [lia | lia | done]). cbv zeta. rewrite Ha.
  erewrite py_bind_val; [reflexivity|]. erewrite py_bind_val by apply create_entry_ok. apply lift_val.
  apply (wr_app pre (a :: cur) _ 0); [lia|]. rewrite len_cons. pose proof (len_nonneg cur). lia.
Qed.

Lemma assign_decl b before u f slots pre a v cur handles d sv s p u' :
  bits_fit b (before ++ Decl u f :: slots) -> len pre = len before -> len before < 64 ->
  0 <= attr_handle a -> (wants_ccc f = true -> attr_handle a + 2 < 65536) -> user_data a = Chrc p u' -> user_data v = NULL ->
  assign_one b (len before) (pre ++ a :: v :: cur, handles) (with_gatt (Gatt d sv) s) =
    (let h := attr_handle a in let d := db_create_entry d h MP_BLUETOOTH_DEFAULT_ATTR_LEN in
     Ret (Val (pre ++ a :: set_user_data (Entry_data h) v :: cur, handles ++ [h]),
       with_gatt (Gatt (if wants_ccc f then db_create_entry d (h + 2) 1 else d) sv) s)).
Proof.
  intros (H1 & H2 & H3) Hp Hl Hh0 Hh Ha Hv. unfold assign_one. rewrite (proj2 (Z.leb_gt 64 _)) by done.
  rewrite (bits_at _ _ _ _ _ H1), (bits_at _ _ _ _ _ H2), (bits_at _ _ _ _ _ H3). cbn [ignored is_decl notifying].
  erewrite py_bind_val by (apply lift_val; apply (rd_app pre _ _ 0 a); [lia | lia | done]). cbv zeta. rewrite Ha.
  erewrite py_bind_val; [reflexivity|].
  erewrite py_bind_val by (apply lift_val; apply (rd_app pre _ _ 1 v); [lia | lia | done]). rewrite Hv.
  erewrite py_bind_val by apply create_entry_ok.
  erewrite py_bind_val by (apply lift_val; apply (wr_app pre (a :: v :: cur) _ 1); [lia|]; rewrite !len_cons; pose proof (len_nonneg cur); lia).
  destruct (wants_ccc f); [|reflexivity]. specialize (Hh eq_refl). erewrite py_bind_val by reflexivity. rewrite u16_id by lia. reflexivity.
Qed.

Lemma assign_ok b sv s rest : forall before v pre cur h handles d,
  bits_fit b (before ++ rest) -> len pre = len before -> formed v rest -> rows v h rest cur ->
  len before + len rest <= 64 -> 0 <= h -> h + len rest <= 65536 ->
  exists cur', served_rows h rest cur' /\
    assign b (length rest) (len before) (pre ++ cur, handles) (with_gatt (Gatt d sv) s) =
      Ret (Val (pre ++ cur', handles ++ answered h rest), with_gatt (Gatt (entries d h rest) sv) s).
Proof.
  induction rest as [|sl rest IH]; intros before v pre cur h handles d Hb Hp Hf Hr Hl H0 Hh.
  { destruct cur; [|done]. exists []. split; [done|]. cbn [length assign answered entries]. rewrite (app_nil_r handles). done. }
  destruct cur as [|a cur]; [done|]. destruct Hr as (Eh & Ha & Hr). rewrite len_cons in Hl, Hh. pose proof (len_nonneg rest).
  assert (Hnext : forall v a' cur0 handles d, formed v rest -> rows v (h + 1) rest cur0 -> attr_handle a' = h -> served sl a' ->
    exists cur', served_rows h (sl :: rest) cur' /\
      assign b (length rest) (len before + 1) (pre ++ a' :: cur0, handles) (with_gatt (Gatt d sv) s) =
        Ret (Val (pre ++ cur', handles ++ answered (h + 1) rest), with_gatt (Gatt (entries d (h + 1) rest) sv) s)).
  { intros v' a' cur0 hs' d' Hf' Hr' Eh' Hs'.
    destruct (IH (before ++ [sl]) v' (pre ++ [a']) cur0 (h + 1) hs' d') as (cur' & Hc & E); rewrite ?len_app, ?len_single, <- ?app_assoc; try done; try lia.
    exists (a' :: cur'). split; [by split_and!|]. rewrite len_app, len_single, <- !app_assoc in E. exact E. }
  cbn [length assign].
  destruct sl as [u|u f|u f|u f|]; cbn [formed] in Hf; [done | | | |].
  - destruct Hf as (-> & Hw & Hf). destruct Ha as [Ha _]. destruct rest as [|s2 rest]; [done|].
    destruct s2 as [|? ?|u2 f2|? ?|]; cbn [formed] in Hf; try done; try (by destruct Hf as [? _]).
    destruct cur as [|val cur]; [done|]. destruct Hr as (Ev & [Hv Hv0] & Hr). rewrite len_cons in *. pose proof (len_nonneg rest). subst h.
    assert (Hfit : wants_ccc f = true -> attr_handle a + 2 < 65536) by (intros E; specialize (Hw E); cbn [length] in Hw; unfold len in *; lia).
    erewrite py_bind_val by (eapply assign_decl; apply Ha || done || lia). cbv zeta. cbn [answered entries].
    destruct (Hnext true a (set_user_data (Entry_data (attr_handle a)) val :: cur) (handles ++ [attr_handle a])
      (let d := db_create_entry d (attr_handle a) MP_BLUETOOTH_DEFAULT_ATTR_LEN in if wants_ccc f then db_create_entry d (attr_handle a + 2) 1 else d))
      as (cur' & Hc & E); [done | | done | by split |].
    { split; [done|]. split; [|done]. split; [exact Hv|]. cbn. by rewrite Ev, Z.add_simpl_r. }
    exists cur'. split; [exact Hc|]. rewrite <- app_assoc in E. exact E.
  - destruct Hf as [-> Hf]. erewrite py_bind_val by (eapply assign_skip; [done | done | lia]). by apply (Hnext false).
  - destruct Hf as [-> Hf]. destruct Ha as [Ha Ha0]. subst h.
    erewrite py_bind_val by (apply (assign_desc _ _ u f rest); [done | done | lia | done]). cbn [answered entries].
    destruct (Hnext false (set_user_data (Entry_data (attr_handle a)) a) cur (handles ++ [attr_handle a])
      (db_create_entry d (attr_handle a) MP_BLUETOOTH_DEFAULT_ATTR_LEN)) as (cur' & Hc & E); [done.. | by split|].
    exists cur'. split; [exact Hc|]. rewrite <- app_assoc in E. exact E.
  - destruct Hf as [-> Hf]. erewrite py_bind_val by (eapply assign_skip; [done | done | lia]). by apply (Hnext false).
Qed.

(** The handles that get an entry: those answered, and the second one after
    the declaration of a characteristic that notifies. *)
Fixpoint made (h : Z) (slots : list slot) : list Z :=
  match slots with
  | [] => []
  | Decl _ flags :: slots => h :: (if wants_ccc flags then [h + 2] else []) ++ made (h + 1) slots
  | Desc _ _ :: slots => h :: made (h + 1) slots
  | _ :: slots => made (h + 1) slots
  end.

Lemma made_ge h slots x : x ∈ made h slots -> h <= x.
Proof.
  revert h. induction slots as [|[u|u f|u f|u f|] slots IH]; intros h; cbn [made]; [by intros []%elem_of_nil | ..];
    try destruct (wants_ccc f); cbn [app]; rewrite ?elem_of_cons; intros Hx; repeat destruct Hx as [->|Hx]; try lia;
    specialize (IH _ Hx); lia.
Qed.

Lemma answered_made h slots x : x ∈ answered h slots -> x ∈ made h slots.
Proof.
  revert h. induction slots as [|[u|u f|u f|u f|] slots IH]; intros h; cbn [answered made]; try done; try (by apply IH);
    rewrite !elem_of_cons, ?elem_of_app; intros [->|Hx]; auto.
Qed.

Lemma entries_other d h slots x : x ∉ made h slots -> db_lookup (entries d h slots) x = db_lookup d x.
Proof.
  revert d h. induction slots as [|[u|u f|u f|u f|] slots IH]; intros d h; cbn [entries made]; try done; try (by apply IH);
    rewrite not_elem_of_cons, ?not_elem_of_app; intros Hx; rewrite IH by tauto; [|by rewrite create_other by tauto].
  destruct (wants_ccc f); [|by rewrite create_other by tauto].
  destruct Hx as (? & ?%not_elem_of_cons & ?). by rewrite !create_other by tauto.
Qed.

(** An entry made for a handle answered has the default size, one made for a
    CCC one byte. *)
Lemma made_entry d h slots x : x ∈ made h slots ->
  exists e, db_lookup (entries d h slots) x = Some e /\
    data_alloc e = if bool_decide (x ∈ answered h slots) then MP_BLUETOOTH_DEFAULT_ATTR_LEN else 1.
Proof.
  revert d h. induction slots as [|sl slots IH]; intros d h Hx; [by apply elem_of_nil in Hx|].
  assert (Hlater : forall d', x ∈ made (h + 1) slots -> exists e, db_lookup (entries d' (h + 1) slots) x = Some e /\
    data_alloc e = if bool_decide (x ∈ h :: answered (h + 1) slots) then MP_BLUETOOTH_DEFAULT_ATTR_LEN else 1).
  { intros d' Hm. destruct (IH d' (h + 1) Hm) as (e & He & Ha). exists e. split; [done|]. rewrite Ha. pose proof (made_ge _ _ _ Hm).
    rewrite (bool_decide_ext (x ∈ h :: _) (x ∈ answered (h + 1) slots)); [done|]. rewrite elem_of_cons. intuition lia. }
  destruct sl as [u|u f|u f|u f|]; cbn [entries answered made] in *; try (by apply IH).
  all: destruct (decide (x ∈ made (h + 1) slots)) as [Hm|Hm]; [by apply Hlater|]; rewrite entries_other by done.
  - rewrite elem_of_cons, elem_of_app in Hx. destruct (decide (x = h)) as [->|Hne].
    + rewrite bool_decide_eq_true_2 by (by left). destruct (wants_ccc f); [rewrite create_other by lia|]; apply create_lookup.
    + destruct Hx as [?|[Hx|?]]; [done | | done]. destruct (wants_ccc f); [|by apply elem_of_nil in Hx].
      apply list_elem_of_singleton in Hx as ->. rewrite bool_decide_eq_false_2; [apply create_lookup|].
      rewrite elem_of_cons. intros [?|Ha%answered_made]; [lia | done].
  - apply elem_of_cons in Hx as [->|Hx]; [|done]. rewrite bool_decide_eq_true_2 by (by left). apply create_lookup.
Qed.

Lemma rows_imap slots l f h : Forall2 raw slots l -> (forall i, (i < length l)%nat -> f i = h + Z.of_nat i) ->
  rows false h slots (imap (fun i a => set_handle (f i) a) l).
Proof.
  intros Hl. revert f h. induction Hl as [|sl a slots l Ha Hl IH]; intros f h Hf; [done|]. rewrite imap_cons. cbn [rows].
  split; [rewrite (Hf 0%nat); cbn [length set_handle attr_handle]; lia|]. split; [exact Ha|].
  apply (IH (fun i => f (S i))). intros i Hi. rewrite Hf by (cbn [length]; lia). lia.
Qed.

(** ** The operation *)

(** What the stack was asked and what came of it: an error, or the service with
    its handles, attributes and entries. *)
Definition registers (s : state_t) (g : gatt D) (service : uuid) (slots : list slot) (tr : list (btcall * answer))
    (out : res (py_res (Z * list Z) * state_t)) : Prop :=
  let n := 1 + len slots in
  exists p r pre post l, tr = pre ++ (bt_gatt_service_register p n, r) :: post /\
    if negb (aret r =? 0) then out = Ok (Val (- aret r, []), set_objs_list l s)
    else forall base, 0 <= base -> base + n <= 65536 -> aout r = seqZ base n ->
      exists d al,
        out = Ok (Val (0, answered (base + 1) slots), with_gatt (Gatt d (services g ++ [(p, al)])) (set_objs_list l s)) /\
        served_rows base (Service service :: slots) al /\
        (forall h, if bool_decide (h ∈ made (base + 1) slots)
           then exists e, db_lookup d h = Some e /\
             data_alloc e = if bool_decide (h ∈ answered (base + 1) slots) then MP_BLUETOOTH_DEFAULT_ATTR_LEN else 1
           else db_lookup d h = db_lookup (gatts_db g) h).

Lemma allocates_then {A B} (m : bm A) (f : A -> bm B) Q s (R : list (btcall * answer) -> res (py_res B * state_t) -> Prop) :
  allocates m Q -> is_Some (root_pointers s) -> (forall pre tr out, R tr out -> R (pre ++ tr) out) ->
  (forall x l, Q x -> outcomes (f x (set_objs_list l s)) R) -> outcomes ((m ≫= f) s) R.
Proof.
  intros Hm Hs HR Hf. apply outcomes_py. eapply outcomes_mono; [|by apply Hm]. intros tr out (x & l & -> & Hx).
  eapply outcomes_mono; [|by apply (Hf x l)]. intros tr' out' H. by apply HR.
Qed.

Lemma registers_pre s g service slots pre tr out : registers s g service slots tr out -> registers s g service slots (pre ++ tr) out.
Proof. intros (p & r & pre' & post & l & -> & H). exists p, r, (pre ++ pre'), post, l. by rewrite <- app_assoc. Qed.

(** Handing out the handles, after the stack took the service. *)
Lemma assign_registered b service slots p hs base s g :
  root_pointers s = Some g -> built b ([Service service] ++ slots) -> formed false slots -> 1 + len slots <= 64 ->
  0 <= base -> base + (1 + len slots) <= 65536 -> hs = seqZ base (1 + len slots) ->
  exists al, served_rows base (Service service :: slots) al /\
    ('(l, handles) ← assign b (length (attrs b) - 1) 1 (with_handles (attrs b) hs, []);
     set_gatt (fun g => set_services (services g ++ [(p, l)]) g);; mret (0, handles)) s =
    (Ret (Val (0, answered (base + 1) slots),
      with_gatt (Gatt (entries (gatts_db g) (base + 1) slots) (services g ++ [(p, al)])) s) : prog btcall answer _).
Proof.
  intros Hg Hb Hf Hl H0 Hh ->. destruct Hb as [Hraw Hbits]. pose proof (Forall2_length _ _ _ Hraw) as Elen. cbn [app length] in Elen.
  destruct (attrs b) as [|svc tl_] eqn:Ea; [done|]. apply Forall2_cons in Hraw as [[Hsvc _] Hraw]. cbn [length] in *.
  unfold with_handles. rewrite imap_cons. cbn [nth].
  set (cur := imap _ tl_). assert (Hrows : rows false (base + 1) slots cur).
  { apply rows_imap; [done|]. intros i Hi. cbn. rewrite nth_lookup, lookup_seqZ_lt by (unfold len in *; lia). cbn. lia. }
  destruct (assign_ok b (services g) s slots [Service service] false [set_handle (nth 0 (seqZ base (1 + len slots)) 0) svc]
    cur (base + 1) [] (gatts_db g)) as (cur' & Hc & E); [done | done | done | done | change (len [Service service]) with 1; lia | lia | lia |].
  exists (set_handle (nth 0 (seqZ base (1 + len slots)) 0) svc :: cur'). split; [|erewrite py_bind_val; [|replace (S (length tl_) - 1)%nat with (length slots) by lia;
    change (?x :: cur) with ([x] ++ cur); change 1 with (len [Service service]) at 1;
    replace s with (with_gatt (Gatt (gatts_db g) (services g)) s) at 1 by (destruct s; cbn in *; subst; by destruct g); exact E]].
  - cbn [app served_rows]. split; [|split; [by split | exact Hc]].
    cbn [set_handle attr_handle]. rewrite nth_lookup, lookup_seqZ_lt by (pose proof (len_nonneg slots); lia). cbn. lia.
  - cbn beta iota. unfold set_gatt. erewrite py_bind_val by reflexivity. reflexivity.
Qed.

End Register.

(** ** A service of two characteristics *)

#[local] Instance map_db_laws : GattsDbLaws (D := gmap Z entry).
Proof.
  split; cbn.
  - intros d h n. rewrite lookup_insert_eq. by eexists.
  - intros d h n h' Hne. by rewrite lookup_insert_ne.
Qed.

Lemma same_uuid_spec a b : same_uuid a b = 0 <-> a = b.
Proof. unfold same_uuid. by case_bool_decide. Qed.

(** One that notifies, and one that is read and written and has a descriptor. *)
Definition two_chars : list (Z * list Z * Z * Z) := [(2, [55; 42], FLAG_NOTIFY, 0); (2, [56; 42], Z.lor FLAG_READ FLAG_WRITE, 1)].
Definition one_desc : list (Z * list Z * Z) := [(2, [1; 41], FLAG_READ)].
Definition empty_gatt : gatt (gmap Z entry) := Gatt ∅ [].
Definition register_run :=
  run stack_20 (mp_bluetooth_gatts_register_service same_uuid (2, [13; 24]) two_chars one_desc (running empty_gatt)) [].

Lemma register_runs :
  runs (mp_bluetooth_gatts_register_service same_uuid (2, [13; 24]) two_chars one_desc (running empty_gatt))
    (snd register_run) (fst register_run).
Proof. apply (run_runs _ stack_20). unfold register_run. apply surjective_pairing. Qed.

Definition slots_20 : list slot :=
  [Decl [55; 42] FLAG_NOTIFY; Value [55; 42] FLAG_NOTIFY; Ccc;
   Decl [56; 42] 10; Value [56; 42] 10; Desc [1; 41] FLAG_READ].

