(* ===== verification/BtConnThm.v ===== *)
(** app/micropython/modbluetooth_zephyr.c as a table of connections: the linked
    list behind the root pointers, the preallocated node, the scan and the state
    of the stack implement an abstract table under every order of the module's
    operations and the stack's callbacks. *)

From S2P Require Import Prelude Py Bluetooth Gatts BluetoothThm.

(** ** The heap of nodes *)

(** [seg m p e l]: from [p] the nodes of [m] lead to [e] through the nodes [l],
    each with its address and its connection. *)
Fixpoint seg (m : gmap Z mp_bt_zephyr_conn_t) (p e : Z) (l : list (Z * Z)) : Prop :=
  match l with
  | [] => p = e
  | (q, c) :: l => p = q /\ q <> 0 /\ c <> 0 /\ exists nx, m !! q = Some (Conn c nx) /\ seg m nx e l
  end.

Lemma seg_app m p e l1 l2 : seg m p e (l1 ++ l2) <-> exists j, seg m p j l1 /\ seg m j e l2.
Proof.
  revert p. induction l1 as [|[q c] l1 IH]; intros p; cbn.
  - split; [by exists p | by intros (j & -> & H)].
  - setoid_rewrite IH. split.
    + intros (-> & H0 & Hc & nx & E & j & H1 & H2). exists j. split; [|done]. repeat (split; [done|]). by exists nx.
    + intros (j & (-> & H0 & Hc & nx & E & H1) & H2). repeat (split; [done|]). exists nx. split; [done|]. by exists j.
Qed.

Lemma seg_frame m p e l q n : q ∉ l.*1 -> seg m p e l -> seg (<[q := n]> m) p e l.
Proof.
  revert p. induction l as [|[q' c] l IH]; intros p; cbn; [done|].
  intros Hq (-> & H0 & Hc & nx & E & Hl). apply not_elem_of_cons in Hq as [Hq Hn].
  repeat (split; [done|]). exists nx. rewrite lookup_insert_ne by done. auto.
Qed.

Lemma seg_dom m p e l : seg m p e l -> forall q, q ∈ l.*1 -> q ∈ dom m.
Proof.
  revert p. induction l as [|[q' c] l IH]; intros p; cbn; [by intros _ q Hq%elem_of_nil|].
  intros (-> & _ & _ & nx & E & Hl) q [->|Hq]%elem_of_cons; [by apply elem_of_dom_2 in E | by eapply IH].
Qed.

(** A list without repetition is no longer than the heap: the walk's fuel. *)
Lemma seg_length m p e l : NoDup l.*1 -> seg m p e l -> (length l <= size m)%nat.
Proof.
  intros Hnd Hs. rewrite <- (length_fmap fst l), <- size_dom. rewrite <- (size_list_to_set (C := gset Z)) by done.
  apply subseteq_size. intros q Hq%elem_of_list_to_set. by eapply seg_dom.
Qed.

(** Unlinking the node after [q0]. *)
Lemma seg_unlink m p e pre q0 c0 q c nx l :
  NoDup (pre ++ (q0, c0) :: (q, c) :: l).*1 -> seg m p e (pre ++ (q0, c0) :: (q, c) :: l) -> m !! q = Some (Conn c nx) ->
  m !! q0 = Some (Conn c0 q) /\ seg (<[q0 := Conn c0 nx]> m) p e (pre ++ (q0, c0) :: l).
Proof.
  rewrite fmap_app. cbn [fmap list_fmap fst]. intros (_ & Hpre & Hl)%NoDup_app Hs E.
  apply NoDup_cons in Hl as [Hq0 _]. apply not_elem_of_cons in Hq0 as [_ Hq0].
  apply seg_app in Hs as (j & H1 & -> & Hn0 & Hc0 & nx0 & E0 & -> & _ & _ & nx' & E' & Hs).
  rewrite E in E'. injection E' as <-. split; [done|]. apply seg_app. exists q0. split.
  - apply seg_frame; [|done]. intros Hin. apply (Hpre q0 Hin). by left.
  - split; [done|]. split; [done|]. split; [done|]. exists nx. rewrite lookup_insert_eq. split; [done|]. by apply seg_frame.
Qed.

(** The list without its first element that satisfies [f]. *)
Fixpoint drop_first {A} (f : A -> bool) (l : list A) : list A :=
  match l with [] => [] | x :: l => if f x then l else x :: drop_first f l end.

Lemma drop_first_snd {A B} (f : B -> bool) (l : list (A * B)) :
  (drop_first (fun x => f (snd x)) l).*2 = drop_first f l.*2.
Proof. induction l as [|[a b] l IH]; cbn; [done|]. case (f b); cbn; by rewrite ?IH. Qed.

Lemma drop_first_sublist {A} (f : A -> bool) l : sublist (drop_first f l) l.
Proof.
  induction l as [|x l IH]; cbn; [constructor|]. case (f x); [by apply sublist_cons | by apply sublist_skip].
Qed.

Lemma find_snd {A B} (f : B -> bool) (l : list (A * B)) :
  snd <$> find (fun x => f (snd x)) l = find f l.*2.
Proof. induction l as [|[a b] l IH]; cbn; [done|]. by case (f b). Qed.

(** ** The abstract table *)

(** What the module keeps of its links: the stack's state, whether the root
    pointers exist, the connections, the last one first, whether a node waits
    for the next one, and the state of scanning. *)
Record links := Links { power : ble_state; rooted : bool; peers : list Z; spare : bool; scanning : scan_state }.

Inductive gap_op :=
  | Init
  | Deinit
  | Advertise (connectable : bool) (interval_us : Z) (adv sr : option (list (Z * list Z)))
  | Stop_advertising
  | Connected (c err : Z)
  | Disconnected (c : Z)
  | Disconnect (h : Z)
  | Register_begin (append : bool)
  | Scan_start (duration_ms interval_us window_us : Z) (active_scan : bool)
  | Scan_stop
  | Scan_timeout (fuel : nat)
  | Scan_result (addr_type : Z) (addr : list Z) (adv_type rssi : Z) (data : list Z).

(** What an operation says to the stack about its references and links, and to
    Python's event handler. *)
Inductive notice :=
  | Held (c : Z)
  | Released (c : Z)
  | Ended (c : Z)
  | Told (event id : Z)
  | Seen (addr_type : Z) (addr : list Z) (adv_type rssi : Z) (data : list Z)
  | Scan_done.
Definition heard1 (x : btcall * answer) : option notice :=
  match fst x with
  | bt_conn_ref c => Some (Held c)
  | bt_conn_unref c => Some (Released c)
  | bt_conn_disconnect c _ => Some (Ended c)
  | mp_bluetooth_gap_on_connected_disconnected event id _ _ => Some (Told event id)
  | mp_bluetooth_gap_on_scan_result addr_type addr adv_type rssi data => Some (Seen addr_type addr adv_type rssi data)
  | mp_bluetooth_gap_on_scan_complete => Some Scan_done
  | _ => None
  end.
Definition heard : list (btcall * answer) -> list notice := omap heard1.

Lemma heard_app t1 t2 : heard (t1 ++ t2) = heard t1 ++ heard t2.
Proof. apply omap_app. Qed.
Lemma heard_cons x t : heard (x :: t) = match heard1 x with Some n => n :: heard t | None => heard t end.
Proof. done. Qed.

(** The answers that decide an operation: to the first attempt to stop
    advertising, to stopping the scan, and to the last call. *)
Fixpoint stop_answer (tr : list (btcall * answer)) : Z :=
  match tr with
  | [] => 0
  | (bt_le_adv_stop, r) :: _ => aret r
  | _ :: tr => stop_answer tr
  end.
Definition scan_answer1 (x : btcall * answer) : option Z :=
  match fst x with bt_le_scan_stop => Some (aret (snd x)) | _ => None end.
Definition scan_answers : list (btcall * answer) -> list Z := omap scan_answer1.
Definition scan_answer (tr : list (btcall * answer)) : Z := hd 0 (scan_answers tr).
Lemma scan_answers_app t1 t2 : scan_answers (t1 ++ t2) = scan_answers t1 ++ scan_answers t2.
Proof. apply omap_app. Qed.
(** How often a full scheduler made a caller yield. *)
Fixpoint yields (tr : list (btcall * answer)) : nat :=
  match tr with [] => 0%nat | (k_yield, _) :: tr => S (yields tr) | _ :: tr => yields tr end.
Definition last_answer (tr : list (btcall * answer)) : Z :=
  match last tr with Some (_, r) => aret r | None => 0 end.

Definition payload_fits (es : option (list (Z * list Z))) : bool :=
  match es with Some es => forallb (fun e => len (snd e) <=? 254) es | None => true end.

Section Table.
Context (IRQ_CONNECT IRQ_DISCONNECT : Z) (ident : Z -> Z).

Definition active (a : links) : bool := bool_decide (power a = BLE_STATE_ACTIVE).
Definition has_id (h c : Z) : bool := ident c =? h.

(** Stopping the scan: the result, and what Python is told. *)
Definition scan_stops (a : links) (tr : list (btcall * answer)) : Z * list notice :=
  if bool_decide (scanning a = SCAN_STATE_INACTIVE) then (0, [])
  else if scan_answer tr =? 0 then (0, [Scan_done]) else (- scan_answer tr, []).
(** The trace holds the answer that decides it. *)
Definition scan_decided (a : links) (tr : list (btcall * answer)) : Prop :=
  scanning a <> SCAN_STATE_INACTIVE -> scan_answers tr <> [].

Lemma scan_stops_app a t1 t2 t3 : scan_answers t1 = [] -> scan_decided a t2 -> scan_stops a (t1 ++ t2 ++ t3) = scan_stops a t2.
Proof.
  intros E1 E2. unfold scan_stops. case_bool_decide; [done|]. specialize (E2 H).
  assert (E : scan_answer (t1 ++ t2 ++ t3) = scan_answer t2); [|by rewrite E].
  unfold scan_answer. rewrite !scan_answers_app, E1. by destruct (scan_answers t2).
Qed.

Definition scan_becomes (x : scan_state) (a : links) : links := Links (power a) (rooted a) (peers a) (spare a) x.

(** One operation on the table: the table afterwards, the result and what was
    said. [None] is a callback the module has nothing ready for: a connection
    without a spare node, a link's end without root pointers (the Examples below
    show histories that lead there); and advertising data with a payload over
    254 bytes; and a scheduler that stays full [fuel] times. *)
Definition link_step (a : links) (op : gap_op) (tr : list (btcall * answer)) : option (links * py_res Z * list notice) :=
  let stop_fails := negb (stop_answer tr =? 0) in
  let stop_error := Raise (OSError (- stop_answer tr)) in
  let scan_result := fst (scan_stops a tr) in
  let scan_notices := snd (scan_stops a tr) in
  match op with
  | Init =>
      if active a && stop_fails then Some (a, stop_error, [])
      else
        let said := if active a then scan_notices else [] in
        if bool_decide (power a = BLE_STATE_OFF) && negb (last_answer tr =? 0)
        then Some (Links BLE_STATE_OFF true [] false SCAN_STATE_INACTIVE, Val (- last_answer tr), said)
        else Some (Links BLE_STATE_ACTIVE true [] false SCAN_STATE_INACTIVE, Val 0, said)
  | Deinit =>
      if negb (active a) then Some (a, Val 0, [])
      else if stop_fails then Some (a, stop_error, [])
      else Some (Links BLE_STATE_SUSPENDED false [] false SCAN_STATE_INACTIVE, Val 0, scan_notices)
  | Advertise _ _ adv sr =>
      if negb (active a) then Some (a, Val ERRNO_BLUETOOTH_NOT_ACTIVE, [])
      else if stop_fails then Some (a, stop_error, [])
      else if negb (payload_fits adv && payload_fits sr) then None
      else Some (Links (power a) (rooted a) (peers a) true (scanning a), Val (- last_answer tr), [])
  | Stop_advertising => Some (a, if stop_fails then stop_error else Val 0, [])
  | Connected c err =>
      if negb (u8 err =? 0) then Some (a, Val 0, [Told IRQ_DISCONNECT (ident c)])
      else if (c =? 0) || negb (spare a) then None
      else Some (Links (power a) (rooted a) (c :: peers a) false (scanning a), Val 0, [Held c; Told IRQ_CONNECT (ident c)])
  | Disconnected c =>
      if negb (rooted a) then None
      else Some (Links (power a) (rooted a) (drop_first (has_id (ident c)) (peers a)) (spare a) (scanning a), Val 0,
                 [Released c; Told IRQ_DISCONNECT (ident c)])
  | Disconnect h =>
      if negb (active a) then Some (a, Val ERRNO_BLUETOOTH_NOT_ACTIVE, [])
      else match find (has_id (u8 h)) (peers a) with
      | Some c => Some (a, Val (last_answer tr), [Ended c])
      | None => Some (a, Val ENOENT, [])
      end
  | Register_begin append =>
      if negb (active a) then Some (a, Val ERRNO_BLUETOOTH_NOT_ACTIVE, [])
      else if append then Some (a, Val MP_EOPNOTSUPP, [])
      else Some (Links (power a) (rooted a) [] false (scanning a), Val 0, [])
  | Scan_start _ _ _ _ =>
      if negb (active a) then Some (a, Val ERRNO_BLUETOOTH_NOT_ACTIVE, [])
      else if negb (scan_result =? 0) then Some (scan_becomes SCAN_STATE_INACTIVE a, Val scan_result, scan_notices)
      else Some (scan_becomes SCAN_STATE_ACTIVE a, Val (- last_answer tr), scan_notices)
  | Scan_stop =>
      if negb (active a) then Some (a, Val ERRNO_BLUETOOTH_NOT_ACTIVE, [])
      else Some (scan_becomes SCAN_STATE_INACTIVE a, Val scan_result, scan_notices)
  | Scan_timeout fuel =>
      if (yields tr <? fuel)%nat then Some (scan_becomes SCAN_STATE_DEACTIVATING a, Val 0, []) else None
  | Scan_result addr_type addr adv_type rssi data =>
      Some (a, Val 0, if active a && bool_decide (scanning a = SCAN_STATE_ACTIVE)
                      then [Seen addr_type (reverse_addr_byte_order addr) adv_type rssi data] else [])
  end.

(** What the table expects of the environment: a connection finds a spare node,
    a link ends while there are root pointers, the payloads of advertising data
    fit, and the scheduler has room in time. *)
Definition expected (a : links) (op : gap_op) (tr : list (btcall * answer)) : Prop :=
  match op with
  | Connected c err => u8 err = 0 -> c <> 0 /\ spare a = true
  | Disconnected _ => rooted a = true
  | Advertise _ _ adv sr => active a = true -> stop_answer tr = 0 -> payload_fits adv = true /\ payload_fits sr = true
  | Scan_timeout fuel => (yields tr < fuel)%nat
  | _ => True
  end.

(** The table has a step exactly for that. *)
Lemma step_expected a op tr : is_Some (link_step a op tr) <-> expected a op tr.
Proof.
  assert (Hsome : forall x : links * py_res Z * list notice, is_Some (Some x) <-> True) by (intros x; split; [done | by eexists]).
  assert (Hnone : is_Some (@None (links * py_res Z * list notice)) <-> False) by (split; [by intros [? ?] | done]).
  unfold link_step, expected. destruct op; try (repeat case_match; apply Hsome).
  - destruct (active a) eqn:Ea; cbn [negb]; [|rewrite Hsome; split; [by intros _ | done]].
    destruct (stop_answer tr =? 0) eqn:Es; cbn [negb]; zify_bool; [|rewrite Hsome; split; [by intros _ | done]].
    destruct (payload_fits adv), (payload_fits sr); cbn [andb negb]; rewrite ?Hsome, ?Hnone; intuition congruence.
  - destruct (u8 err =? 0) eqn:Ee; cbn [negb]; zify_bool; [|rewrite Hsome; split; [by intros _ | done]].
    destruct (c =? 0) eqn:Ec, (spare a); cbn [orb negb]; zify_bool; rewrite ?Hsome, ?Hnone; intuition congruence.
  - destruct (rooted a); cbn [negb]; rewrite ?Hsome, ?Hnone; intuition congruence.
  - destruct (yields tr <? fuel)%nat eqn:Ey; rewrite ?Hsome, ?Hnone; [apply Nat.ltb_lt in Ey | apply Nat.ltb_ge in Ey]; intuition lia.
Qed.

(** A history: every operation with the calls it made. *)
Fixpoint link_run (a : links) (evs : list (gap_op * list (btcall * answer))) : option (links * list (py_res Z * list notice)) :=
  match evs with
  | [] => Some (a, [])
  | (op, tr) :: evs =>
      '(a', r, ns) ← link_step a op tr;
      '(a'', rs) ← link_run a' evs;
      Some (a'', (r, ns) :: rs)
  end.
End Table.

(** ** The module against the table *)

Section Refinement.
Context {D : Type} {db_ops : GattsDb D}.
Context (IRQ_CONNECT IRQ_DISCONNECT REMOTE_USER_TERM OPT_CONN OPT_IDENTITY OPT_SCANNABLE : Z).
(** The identity a connection object reports, which the stack keeps in a
    byte. *)
Context (ident : Z -> Z) (ident_byte : forall c, 0 <= ident c < 256).

Local Abbreviation state_t := (bt (gatt D)).
Local Abbreviation bm A := (py btcall answer state_t A).

Definition run_op (op : gap_op) : bm Z :=
  match op with
  | Init => mp_bluetooth_init (Gatt db_create []) gatt_unregister
  | Deinit => mp_bluetooth_deinit gatt_unregister
  | Advertise connectable interval adv sr =>
      mp_bluetooth_gap_advertise_start OPT_CONN OPT_IDENTITY OPT_SCANNABLE connectable interval
        (encode_all <$> adv) (encode_all <$> sr)
  | Stop_advertising => mp_bluetooth_gap_advertise_stop;; mret 0
  | Connected c err => mp_bt_zephyr_connected IRQ_CONNECT IRQ_DISCONNECT c err;; mret 0
  | Disconnected c => mp_bt_zephyr_disconnected IRQ_DISCONNECT c;; mret 0
  | Disconnect h => mp_bluetooth_gap_disconnect REMOTE_USER_TERM h
  | Register_begin append => mp_bluetooth_gatts_register_service_begin append
  | Scan_start duration interval window active => mp_bluetooth_gap_scan_start duration interval window active
  | Scan_stop => mp_bluetooth_gap_scan_stop
  | Scan_timeout fuel => gap_scan_cb_timeout fuel;; mret 0
  | Scan_result addr_type addr adv_type rssi data => gap_scan_cb_recv addr_type addr adv_type rssi data;; mret 0
  end.

(** What the stack and the allocator answer: an object's identity, the object
    itself for a reference, and memory that is none of the tracked [objs]. *)
Definition honest (objs : list Z) (x : btcall * answer) : Prop :=
  match fst x with
  | bt_conn_get_info c => info_id (snd x) = ident c
  | bt_conn_ref c => aret (snd x) = c
  | m_new => aret (snd x) <> 0 /\ aret (snd x) ∉ objs
  | _ => True
  end.

(** The state holds the table: the list of nodes carries the connections, every
    node is tracked for the collector, and the spare node is not in the list. *)
Definition holds (b : state_t) (a : links) : Prop :=
  state b = power a /\
  gap_scan_state b = scanning a /\
  (rooted a = true <-> is_Some (root_pointers b)) /\
  (power a = BLE_STATE_ACTIVE -> rooted a = true) /\
  exists l, l.*2 = peers a /\ NoDup l.*1 /\ seg (nodes b) (connections b) 0 l /\
    (forall q, q ∈ l.*1 -> q ∈ objs_list b) /\
    (spare a = true -> rooted a = true /\ ~ (next_conn b = 0) /\ (next_conn b ∈ objs_list b) /\
      ~ (next_conn b ∈ l.*1) /\ is_Some (nodes b !! next_conn b)).

(** Every run of [m] from [b] whose answers are honest ends as [Q] says. *)
Definition hruns {A} (objs : list Z) (m : bm A) (b : state_t) (Q : list (btcall * answer) -> res (py_res A * state_t) -> Prop) : Prop :=
  outcomes (m b) (fun tr out => Forall (honest objs) tr -> Q tr out).

Lemma hruns_bind {A B} objs (m : bm A) (f : A -> bm B) b Q :
  hruns objs m b (fun tr out => match out with
    | Ok (Val x, b') => hruns objs (f x) b' (fun tr' out' => Q (tr ++ tr') out')
    | Ok (Raise e, b') => Q tr (Ok (Raise e, b'))
    | Stop e => Q tr (Stop e)
    end) -> hruns objs (m ≫= f) b Q.
Proof.
  intros H. apply outcomes_py. eapply outcomes_mono; [|exact H]. intros tr [[[x|e] b']|e] Hq; [|exact Hq..].
  intros tr' out' Hr [H1 H2]%Forall_app. exact (Hq H1 tr' out' Hr H2).
Qed.

Lemma hruns_assoc {A B E} objs (m : bm A) (f : A -> bm B) (g : B -> bm E) b Q :
  hruns objs (m ≫= (fun x => f x ≫= g)) b Q -> hruns objs ((m ≫= f) ≫= g) b Q.
Proof. apply outcomes_py_assoc. Qed.

Lemma hruns_tell {B} objs c (f : Z -> bm B) b Q :
  (forall r, honest objs (c, r) -> hruns objs (f (aret r)) b (fun tr out => Q ((c, r) :: tr) out)) ->
  hruns objs (tell c ≫= f) b Q.
Proof.
  intros H. unfold tell. apply hruns_assoc, outcomes_py_call. intros r. erewrite py_bind_val by reflexivity.
  intros tr out Hr [Hh Ht]%Forall_cons. exact (H r Hh tr out Hr Ht).
Qed.

Lemma hruns_last objs c b (Q : list (btcall * answer) -> res (py_res Z * state_t) -> Prop) :
  (forall r, Q [(c, r)] (Ok (Val (aret r), b))) -> hruns objs (tell c) b Q.
Proof. intros H. apply outcomes_call. intros r. apply outcomes_ret. intros _. apply H. Qed.

Lemma hruns_info {B} objs c (f : answer -> bm B) b Q :
  (forall r, info_id r = ident c -> hruns objs (f r) b (fun tr out => Q ((bt_conn_get_info c, r) :: tr) out)) ->
  hruns objs (py_call (bt_conn_get_info c) ≫= f) b Q.
Proof.
  intros H. apply outcomes_py_call. intros r tr out Hr [Hh Ht]%Forall_cons. exact (H r Hh tr out Hr Ht).
Qed.

Lemma hruns_val {A B} objs (m : bm A) (f : A -> bm B) b x b' Q :
  m b = Ret (Val x, b') -> hruns objs (f x) b' Q -> hruns objs (m ≫= f) b Q.
Proof. intros E H. unfold hruns. by erewrite py_bind_val. Qed.

Lemma hruns_ret {A} objs (m : bm A) b r b' (Q : list (btcall * answer) -> res (py_res A * state_t) -> Prop) :
  m b = Ret (r, b') -> Q [] (Ok (r, b')) -> hruns objs m b Q.
Proof. intros E H. unfold hruns. rewrite E. by apply outcomes_ret. Qed.

Lemma hruns_mono {A} objs (m : bm A) b (Q Q' : list (btcall * answer) -> res (py_res A * state_t) -> Prop) :
  (forall tr out, Q tr out -> Q' tr out) -> hruns objs m b Q -> hruns objs m b Q'.
Proof. intros H. apply outcomes_mono. auto. Qed.

Ltac bt_step :=
  lazymatch goal with
  | |- hruns _ ((_ ≫= _) ≫= _) _ _ => apply hruns_assoc
  | |- hruns _ (tell _ ≫= _) _ _ => apply hruns_tell; intros ? ?
  | |- hruns _ (py_call (bt_conn_get_info _) ≫= _) _ _ => apply hruns_info; intros ? ?
  | |- hruns _ ((if ?c then _ else _) ≫= _) _ _ => destruct c eqn:?; zify_bool
  | |- hruns _ (if ?c then _ else _) _ _ => destruct c eqn:?; zify_bool
  | |- hruns _ (tell _) _ _ => apply hruns_last; intros ?
  | |- hruns _ (_ ≫= _) _ _ => eapply hruns_val; [reflexivity|]; cbv beta
  | |- hruns _ _ _ _ => eapply hruns_ret; [reflexivity|]
  end.

Lemma find_ok objs fuel h l p b :
  seg (nodes b) p 0 l -> (length l < fuel)%nat ->
  hruns objs (find_connection fuel h p) b (fun tr out => heard tr = [] /\
    out = Ok (Val (default 0 (fst <$> find (fun x => has_id ident h (snd x)) l)), b)).
Proof.
  revert l p. induction fuel as [|fuel IH]; intros l p Hs Hl; [lia|].
  cbn [find_connection]. destruct l as [|[q c] l]; cbn [seg] in Hs.
  { subst p. by eapply hruns_ret. }
  destruct Hs as (-> & Hq & Hc & nx & E & Hs). cbn [length] in Hl.
  rewrite (proj2 (Z.eqb_neq q 0)) by done.
  eapply hruns_val; [unfold node; by rewrite E|]. cbn [conn next]. rewrite (proj2 (Z.eqb_neq c 0)) by done. cbn [negb].
  bt_step. rewrite H. cbn [find snd]. change (has_id ident h c) with (ident c =? h). case_test.
  - bt_step. done.
  - eapply hruns_mono; [|apply (IH l nx Hs); lia]. intros tr out [E1 E2]. done.
Qed.

(** What the removal of a node leaves alone. *)
Definition frame (b b' : state_t) : Prop :=
  state b' = state b /\ gap_scan_state b' = gap_scan_state b /\ root_pointers b' = root_pointers b /\ objs_list b' = objs_list b /\
  next_conn b' = next_conn b /\ forall q, is_Some (nodes b !! q) -> is_Some (nodes b' !! q).

Lemma frame_refl b : frame b b.
Proof. repeat split; auto. Qed.

Definition last_node (pre : list (Z * Z)) : Z := match last pre with Some (q, _) => q | None => 0 end.

Lemma last_node_snoc pre q c : last_node (pre ++ [(q, c)]) = q.
Proof. unfold last_node. by rewrite last_snoc. Qed.

Lemma remove_ok objs fuel h pre l p b :
  NoDup (pre ++ l).*1 -> seg (nodes b) (connections b) 0 (pre ++ l) -> seg (nodes b) p 0 l -> (length l < fuel)%nat ->
  hruns objs (remove_connection fuel h (last_node pre) p) b (fun tr out => heard tr = [] /\ exists b',
    out = Ok (Val tt, b') /\ frame b b' /\
    seg (nodes b') (connections b') 0 (pre ++ drop_first (fun x => has_id ident h (snd x)) l)).
Proof.
  revert pre l p. induction fuel as [|fuel IH]; intros pre l p Hnd Hall Hs Hl; [lia|].
  cbn [remove_connection]. destruct l as [|[q c] l]; cbn [seg] in Hs.
  { subst p. eapply hruns_ret; [done|]. split; [done|]. exists b. by repeat split. }
  destruct Hs as (-> & Hq & Hc & nx & E & Hs). cbn [length] in Hl.
  rewrite (proj2 (Z.eqb_neq q 0)) by done.
  eapply hruns_val; [unfold node; by rewrite E|]. cbn [conn next]. rewrite (proj2 (Z.eqb_neq c 0)) by done. cbn [negb].
  bt_step. rewrite H. cbn [drop_first snd]. change (has_id ident h c) with (ident c =? h). case_test.
  - destruct pre as [|[q0 c0] pre _] using rev_ind.
    + eapply hruns_ret; [done|]. split; [done|]. eexists. split; [done|]. split; [done|]. exact Hs.
    + rewrite last_node_snoc. rewrite <- app_assoc in Hnd, Hall. cbn [app] in Hnd, Hall.
      destruct (seg_unlink _ _ _ _ _ _ _ _ _ _ Hnd Hall E) as [E0 Hs'].
      apply seg_app in Hall as (j & _ & _ & Hq0 & _). rewrite (proj2 (Z.eqb_neq q0 0)) by done. cbn [negb].
      eapply hruns_val; [unfold node; by rewrite E0|]. cbn [conn].
      eapply hruns_ret; [done|]. split; [done|]. eexists. split; [done|]. split.
      * repeat split. intros q' Hq'. cbn. destruct (decide (q' = q0)) as [->|Hne]; [by rewrite lookup_insert_eq | by rewrite lookup_insert_ne].
      * rewrite <- app_assoc. exact Hs'.
  - specialize (IH (pre ++ [(q, c)]) l nx). rewrite last_node_snoc, <- !app_assoc in IH.
    eapply hruns_mono; [|apply IH; done || lia]. intros tr out (E1 & b' & E2 & Hf & Hb').
    split; [done|]. by exists b'.
Qed.

(** *** The operations *)

(** An operation's run, when the table has a step for it, is that step. *)
Definition conforms (a : links) (op : gap_op) (tr : list (btcall * answer)) (out : res (py_res Z * state_t)) : Prop :=
  forall a' r ns, link_step IRQ_CONNECT IRQ_DISCONNECT ident a op tr = Some (a', r, ns) ->
  heard tr = ns /\ exists b', out = Ok (r, b') /\ holds b' a'.
Definition refines (op : gap_op) : Prop :=
  forall b a, holds b a -> hruns (objs_list b) (run_op op) b (conforms a op).

Lemma holds_active b a : holds b a -> bool_decide (state b = BLE_STATE_ACTIVE) = active a.
Proof. intros (E & _). unfold active. by rewrite E. Qed.

Lemma root_ok {A} objs b (m : bm A) Q :
  is_Some (root_pointers b) -> hruns objs m b Q -> hruns objs (root;; m) b Q.
Proof. intros [g E] H. eapply hruns_val; [unfold root; by rewrite E|]. done. Qed.

Lemma holds_rooted b a : holds b a -> active a = true -> is_Some (root_pointers b).
Proof. intros (_ & _ & Hr & Ha & _) Hact. apply Hr, Ha. by apply bool_decide_eq_true in Hact. Qed.

(** What keeps the table: the fields a link operation may not touch. *)
Lemma holds_keep b b' a : holds b a ->
  state b' = state b -> gap_scan_state b' = gap_scan_state b -> root_pointers b' = root_pointers b -> objs_list b' = objs_list b ->
  next_conn b' = next_conn b -> nodes b' = nodes b -> connections b' = connections b -> holds b' a.
Proof. intros H E1 E2 E3 E4 E5 E6 E7. unfold holds in *. by rewrite E1, E2, E3, E4, E5, E6, E7. Qed.

Lemma disconnect_refines h : refines (Disconnect h).
Proof.
  intros b a Hb. pose proof (holds_active b a Hb) as Ea. unfold run_op, mp_bluetooth_gap_disconnect, mp_bluetooth_is_active.
  bt_step. rewrite Ea. unfold conforms, link_step. destruct (active a) eqn:Hact; cbn [negb].
  2: { bt_step. intros a' r ns [= <- <- <-]. split; [done|]. by exists b. }
  unfold mp_bt_zephyr_find_connection. bt_step. apply root_ok; [by eapply holds_rooted|]. do 2 bt_step.
  pose proof Hb as (_ & _ & _ & _ & l & El & Hnd & Hs & _).
  apply hruns_bind. eapply hruns_mono; [|apply (find_ok _ _ _ l); [done|]].
  2: { pose proof (seg_length _ _ _ _ Hnd Hs). lia. }
  intros tr out [Eh ->]. rewrite <- El, <- find_snd.
  destruct (find _ l) as [[q c]|] eqn:Ef; cbn [fst snd fmap option_fmap option_map default id].
  - apply find_some in Ef as [Hin _]. apply list_elem_of_In, list_elem_of_split in Hin as (l1 & l2 & ->).
    apply seg_app in Hs as (j & _ & _ & Hq & _ & nx & E & _). rewrite (proj2 (Z.eqb_neq q 0)) by done. cbn [negb].
    eapply hruns_val; [unfold node; by rewrite E|]. cbn [conn].
    bt_step. intros a' r' ns [= <- <- <-].
    split; [rewrite heard_app, Eh; reflexivity|]. exists b. unfold last_answer. by rewrite last_snoc.
  - cbn [Z.eqb negb]. bt_step. intros a' r ns [= <- <- <-]. rewrite app_nil_r, Eh. split; [done|]. by exists b.
Qed.

Lemma disconnected_refines c : refines (Disconnected c).
Proof.
  intros b a Hb. unfold run_op, mp_bt_zephyr_disconnected, conforms, link_step. do 2 bt_step.
  destruct (rooted a) eqn:Hroot; cbn [negb].
  2: { intros tr out _ _ a' r' ns [=]. }
  do 2 bt_step. unfold mp_bt_zephyr_remove_connection. bt_step. pose proof Hb as (Es & Esc & Hr & Ha & l & El & Hnd & Hs & Ht & Hsp).
  bt_step. apply root_ok; [by apply Hr|]. repeat bt_step. rewrite H, u8_id by apply ident_byte.
  apply hruns_bind. eapply hruns_mono; [|apply (remove_ok _ _ _ [] l); try done].
  2: { pose proof (seg_length _ _ _ _ Hnd Hs). lia. }
  intros tr out (Eh & b' & -> & (F1 & F0 & F2 & F3 & F4 & F5) & Hs'). repeat bt_step.
  intros a' r' ns [= <- <- <-]. split.
  - by rewrite !heard_cons, heard_app, Eh.
  - exists b'. split; [done|]. unfold holds. rewrite F1, F0, F2, F3, F4. rewrite Hroot in Hr, Ha. repeat (split; [done|]).
    set (f := fun x : Z * Z => has_id ident (ident c) (snd x)) in *.
    exists (drop_first f l). cbn [peers spare rooted]. rewrite <- El, <- drop_first_snd.
    pose proof (fmap_sublist fst _ _ (drop_first_sublist f l)) as Hsub.
    split; [done|]. split; [by eapply sublist_NoDup|]. split; [exact Hs'|]. split.
    + intros q Hq. apply Ht. by eapply elem_of_sublist.
    + intros Hspare. destruct (Hsp Hspare) as (R1 & R2 & R3 & R4 & R5). split; [done|]. split; [done|]. split; [done|]. split; [|by apply F5].
      intros Hin. apply R4. by eapply elem_of_sublist.
Qed.

Lemma connected_refines c err : refines (Connected c err).
Proof.
  intros b a Hb. unfold run_op, mp_bt_zephyr_connected, conforms, link_step. do 2 bt_step. destruct (u8 err =? 0); cbn [negb].
  2: { repeat bt_step. rewrite H. intros a' r' ns [= <- <- <-]. split; [done|]. by exists b. }
  destruct (c =? 0) eqn:Hc; zify_bool; [by intros tr out _ _ a' r' ns [=]|].
  destruct (spare a) eqn:Hspare; cbn [orb negb]; [|by intros tr out _ _ a' r' ns [=]].
  pose proof Hb as (Es & Esc & Hr & Ha & l & El & Hnd & Hs & Ht & Hsp). destruct (Hsp Hspare) as (R1 & R2 & R3 & R4 & [n En]).
  do 5 bt_step. eapply hruns_val; [unfold node; by rewrite En|]. cbn [honest fst snd] in *. rewrite H0, H. do 4 bt_step.
  unfold mp_bt_zephyr_insert_connection. bt_step. apply root_ok; [by apply Hr|]. do 3 bt_step.
  eapply hruns_val; [unfold node, set_node, py_set; cbn; by rewrite lookup_insert_eq|]. cbn [conn]. repeat bt_step.
  intros a' r' ns [= <- <- <-]. split; [by rewrite !heard_cons|]. eexists. split; [done|].
  unfold holds. cbn. repeat (split; [done|]). exists ((next_conn b, c) :: l). cbn. split; [by rewrite El|]. split; [by constructor|].
  split. { repeat (split; [done|]). exists (connections b). rewrite lookup_insert_eq. split; [done|]. by do 2 (apply seg_frame; [done|]). }
  split; [|done]. intros q [->|Hq]%elem_of_cons; [done | by apply Ht].
Qed.

(** A table without connections. *)
Lemma holds_none b p rt sc :
  state b = p -> gap_scan_state b = sc -> (rt = true <-> is_Some (root_pointers b)) -> (p = BLE_STATE_ACTIVE -> rt = true) -> connections b = 0 ->
  holds b (Links p rt [] false sc).
Proof.
  intros E1 Esc E2 E3 E4. repeat (split; [done|]). exists []. repeat (split; [done || constructor|]).
  split; [by intros q Hq%elem_of_nil | done].
Qed.

Lemma adv_stop_run {B} objs (f : unit -> bm B) b Q :
  (forall r, if aret r =? 0 then hruns objs (f tt) b (fun tr out => Q ((bt_le_adv_stop, r) :: tr) out)
             else Q [(bt_le_adv_stop, r)] (Ok (Raise (OSError (- aret r)), b))) ->
  hruns objs (mp_bluetooth_gap_advertise_stop ≫= f) b Q.
Proof.
  intros H. unfold mp_bluetooth_gap_advertise_stop. bt_step. bt_step. specialize (H r). destruct (aret r =? 0); cbn [negb].
  - bt_step. done.
  - unfold hruns. erewrite py_bind_raise by reflexivity. by apply outcomes_ret.
Qed.

Lemma stop_advertising_refines : refines Stop_advertising.
Proof.
  intros b a Hb. unfold run_op, conforms, link_step. apply adv_stop_run. intros r. cbn [stop_answer]. destruct (aret r =? 0); cbn [negb].
  - bt_step. intros a' r' ns [= <- <- <-]. split; [done|]. by exists b.
  - intros a' r' ns [= <- <- <-]. split; [done|]. by exists b.
Qed.

Lemma unregister_ok objs (l : list (Z * list bt_gatt_attr)) b :
  hruns objs (unregister_all l) b (fun tr out => heard tr = [] /\ scan_answers tr = [] /\ out = Ok (Val tt, b)).
Proof.
  induction l as [|[s at_] l IH]; cbn [unregister_all]; [by bt_step|]. bt_step.
  eapply hruns_mono; [|exact IH]. by intros tr out (E1 & E2 & ->).
Qed.

Lemma scan_stop_ok objs b a : holds b a ->
  hruns objs mp_bluetooth_gap_scan_stop b (fun tr out =>
    if active a then heard tr = snd (scan_stops a tr) /\ scan_decided a tr /\
      out = Ok (Val (fst (scan_stops a tr)), set_scan SCAN_STATE_INACTIVE b)
    else tr = [] /\ out = Ok (Val ERRNO_BLUETOOTH_NOT_ACTIVE, b)).
Proof.
  intros Hb. pose proof (holds_active b a Hb) as Ea. destruct Hb as (_ & Esc & _).
  unfold mp_bluetooth_gap_scan_stop, mp_bluetooth_is_active. bt_step. rewrite Ea. clear Ea. destruct (active a); cbn [negb]; [|by bt_step].
  bt_step. rewrite Esc. unfold scan_stops, scan_decided. case_bool_decide as Hsc.
  { bt_step. split; [done|]. split; [by intros []|]. rewrite <- Hsc, <- Esc. by destruct b. }
  do 3 bt_step. cbn [scan_answer scan_answers omap list_omap scan_answer1 fst snd hd].
  destruct (aret r0 =? 0) eqn:E; repeat bt_step; cbn; rewrite ?E; by split_and!.
Qed.

Lemma deinit_ok objs b a : holds b a ->
  hruns objs (mp_bluetooth_deinit gatt_unregister) b (fun tr out =>
    if active a then exists r tr', tr = (bt_le_adv_stop, r) :: tr' /\
      if aret r =? 0 then heard tr = snd (scan_stops a tr) /\ scan_decided a tr /\
        exists b', out = Ok (Val 0, b') /\ holds b' (Links BLE_STATE_SUSPENDED false [] false SCAN_STATE_INACTIVE)
      else heard tr = [] /\ out = Ok (Raise (OSError (- aret r)), b)
    else tr = [] /\ out = Ok (Val 0, b)).
Proof.
  intros Hb. pose proof (holds_active b a Hb) as Ea. unfold mp_bluetooth_deinit. bt_step.
  assert (E : bool_decide (state b = BLE_STATE_OFF) || bool_decide (state b = BLE_STATE_SUSPENDED) = negb (active a)).
  { rewrite <- Ea. by destruct (state b). }
  rewrite E. destruct (active a) eqn:Hact; cbn [negb]; [|by bt_step].
  apply adv_stop_run. intros r. destruct (aret r =? 0) eqn:Er.
  2: { exists r, []. by rewrite Er. }
  destruct (holds_rooted b a Hb Hact) as [g Eg]. unfold gatt_unregister. bt_step.
  eapply hruns_val; [unfold root; by rewrite Eg|]. apply hruns_bind. eapply hruns_mono; [|apply unregister_ok]. intros t1 o1 (E1 & F1 & ->).
  apply hruns_bind. eapply hruns_mono; [|by apply (scan_stop_ok _ b a)]. rewrite Hact. intros t2 o2 (E2 & F2 & ->). repeat bt_step.
  eexists r, _. split; [done|]. rewrite Er.
  change ((bt_le_adv_stop, r) :: t1 ++ t2 ++ ?t) with (((bt_le_adv_stop, r) :: t1) ++ t2 ++ t).
  rewrite scan_stops_app by done. split.
  { by rewrite !heard_app, heard_cons, E1, E2, app_nil_r. }
  split. { intros Hsc. specialize (F2 Hsc). rewrite !scan_answers_app. change (scan_answers (_ :: t1)) with (scan_answers t1).
    rewrite F1. by destruct (scan_answers t2). }
  eexists. split; [done|]. apply holds_none; [done | done | | done | done]. cbn. split; [done | by intros [? ?]].
Qed.

Lemma deinit_refines : refines Deinit.
Proof.
  intros b a Hb. unfold run_op, conforms, link_step. eapply hruns_mono; [|by apply (deinit_ok _ b a)]. cbv beta.
  intros tr out H a' r' ns. destruct (active a); cbn [negb].
  - destruct H as (r & tr' & -> & H). cbn [stop_answer]. destruct (aret r =? 0); cbn [negb]; intros [= <- <- <-].
    + destruct H as (Eh & _ & H). by split.
    + destruct H as [Eh ->]. split; [done|]. by exists b.
  - destruct H as [-> ->]. intros [= <- <- <-]. split; [done|]. by exists b.
Qed.

Lemma register_begin_refines append : refines (Register_begin append).
Proof.
  intros b a Hb. pose proof (holds_active b a Hb) as Ea. pose proof (holds_rooted b a Hb) as Hrt.
  unfold run_op, mp_bluetooth_gatts_register_service_begin, mp_bluetooth_is_active, conforms, link_step.
  bt_step. rewrite Ea. destruct (active a) eqn:Hact; cbn [negb].
  2: { bt_step. intros a' r ns [= <- <- <-]. split; [done|]. by exists b. }
  destruct append; [bt_step; intros a' r ns [= <- <- <-]; split; [done|]; by exists b|].
  destruct (Hrt eq_refl) as [g Eg]. unfold gatt_unregister. bt_step.
  eapply hruns_val; [unfold root; by rewrite Eg|]. apply hruns_bind. eapply hruns_mono; [|apply unregister_ok]. intros tr out (E & _ & ->).
  unfold set_gatt. repeat bt_step. intros a' r ns [= <- <- <-]. rewrite app_nil_r. split; [done|]. eexists. split; [done|].
  destruct Hb as (Es & Esc & Hr & Ha & _). apply holds_none; [done | done | | done | done]. cbn. rewrite Eg in Hr |- *. cbn. rewrite Hr. split; intros _; by eexists.
Qed.

Lemma init_tail objs (b : state_t) p :
  state b = p -> p <> BLE_STATE_ACTIVE ->
  hruns objs (py_set (set_root (Some (Gatt db_create [])));; py_set (set_connections 0);; py_set (set_next_conn 0);;
    py_set (set_objs_list []);; py_set (set_scan SCAN_STATE_INACTIVE);; tell k_timer_init;; tell bt_le_scan_cb_register;;
    st ← py_get state;
    ret ← (if bool_decide (st = BLE_STATE_OFF) then tell bt_conn_cb_register;; tell bt_enable else mret 0);
    if negb (ret =? 0) then mret (bt_err_to_errno ret) else py_set (set_state BLE_STATE_ACTIVE);; mret 0) b
  (fun tr out => heard tr = [] /\ tr <> [] /\ exists b',
    if bool_decide (p = BLE_STATE_OFF) && negb (last_answer tr =? 0)
    then out = Ok (Val (- last_answer tr), b') /\ holds b' (Links BLE_STATE_OFF true [] false SCAN_STATE_INACTIVE)
    else out = Ok (Val 0, b') /\ holds b' (Links BLE_STATE_ACTIVE true [] false SCAN_STATE_INACTIVE)).
Proof.
  intros Es Hp. do 8 bt_step. cbn [state set_scan set_objs_list set_next_conn set_connections set_root]. rewrite Es.
  assert (Hroot : true = true <-> is_Some (Some (Gatt db_create [] : gatt D))) by (split; [by eexists | done]).
  destruct p; [|done|].
  - change (bool_decide (BLE_STATE_OFF = BLE_STATE_OFF)) with true. cbn [andb]. bt_step. bt_step.
    apply hruns_bind. bt_step. unfold last_answer. cbn [last app].
    destruct (aret r2 =? 0) eqn:Er; cbn [negb]; repeat bt_step; (split; [done|]); (split; [done|]); eexists; cbn [last]; rewrite Er; cbn [negb];
      (split; [done|]); by apply holds_none.
  - change (bool_decide (BLE_STATE_SUSPENDED = BLE_STATE_OFF)) with false. cbn [andb]. repeat bt_step; [lia|].
    split; [done|]. split; [done|]. eexists. split; [done|]. by apply holds_none.
Qed.

Lemma last_answer_app t1 t2 : t2 <> [] -> last_answer (t1 ++ t2) = last_answer t2.
Proof. intros H. unfold last_answer. rewrite last_app. destruct (last t2) eqn:E; [done | by apply last_None in E]. Qed.

Lemma init_refines : refines Init.
Proof.
  intros b a Hb. unfold run_op, mp_bluetooth_init. apply hruns_bind. eapply hruns_mono; [|by apply (deinit_ok _ b a)]. cbv beta.
  intros tr out H. pose proof Hb as (Es & _). unfold conforms, link_step. destruct (active a) eqn:Hact; cbn [andb].
  - destruct H as (r & tr' & -> & H). destruct (aret r =? 0) eqn:Er.
    + destruct H as (Eh & Fd & b' & -> & Hb'). pose proof Hb' as (Es' & _). eapply hruns_mono; [|by apply (init_tail _ b' _ Es')].
      intros t2 o2 (E2 & Hn & b2 & H2) a' r' ns. rewrite heard_app, Eh, E2, app_nil_r.
      pose proof (scan_stops_app a [] _ t2 eq_refl Fd) as Esc. cbn [app] in Esc |- *. rewrite Esc. cbn [stop_answer]. rewrite Er. cbn [negb].
      apply bool_decide_eq_true in Hact. rewrite Hact. destruct H2 as [-> H2]. intros [= <- <- <-]. split; [done|]. by exists b2.
    + destruct H as [Eh ->]. cbn [stop_answer]. rewrite Er. intros a' r' ns [= <- <- <-]. split; [done|]. by exists b.
  - destruct H as [-> ->]. apply bool_decide_eq_false in Hact. eapply hruns_mono; [|by apply (init_tail _ b _ Es)].
    intros t2 o2 (E2 & Hn & b2 & H2) a' r' ns. cbn [app]. rewrite E2.
    destruct (bool_decide (power a = BLE_STATE_OFF) && negb (last_answer t2 =? 0)); destruct H2 as [-> H2]; intros [= <- <- <-]; (split; [done|]); by exists b2.
Qed.

Lemma payload_prepared es array : payload_fits (Some es) = true ->
  exists x, mp_bluetooth_prepare_bt_data (encode_all es) array 8 = Ok x.
Proof.
  cbn. intros H. assert (Hes : Forall fits es).
  { apply Forall_forall. intros e He%list_elem_of_In. rewrite forallb_forall in H. apply H in He. unfold fits. lia. }
  destruct (prepare_encoded 8 es [] Hes) as (l & El & _). unfold mp_bluetooth_prepare_bt_data.
  change (Z.to_nat 8) with 8%nat. cbn [app] in El. change (len []) with 0 in El. rewrite El. by eexists.
Qed.

(** Loading the payloads leaves the table alone. *)
Lemma load_run {B} objs load es (f : unit -> bm B) b a Q :
  (load = load_ad \/ load = load_sd) -> payload_fits es = true -> holds b a ->
  (forall b', holds b' a -> objs_list b' = objs_list b -> hruns objs (f tt) b' Q) ->
  hruns objs (match encode_all <$> es with Some d => load d | None => mret tt end ≫= f) b Q.
Proof.
  intros Hload Hf Hb H. destruct es as [es|]; cbn [fmap option_fmap option_map]; [|bt_step; by apply H].
  destruct Hload as [-> | ->].
  - destruct (payload_prepared es (ad_data b) Hf) as [[l n] E]. eapply hruns_val; [unfold load_ad; by rewrite E|].
    apply H; [by eapply holds_keep | done].
  - destruct (payload_prepared es (sd_data b) Hf) as [[l n] E]. eapply hruns_val; [unfold load_sd; by rewrite E|].
    apply H; [by eapply holds_keep | done].
Qed.

Lemma advertise_refines connectable interval adv sr : refines (Advertise connectable interval adv sr).
Proof.
  intros b a Hb. pose proof (holds_active b a Hb) as Ea. unfold run_op, mp_bluetooth_gap_advertise_start, mp_bluetooth_is_active.
  unfold conforms, link_step. bt_step. rewrite Ea. destruct (active a) eqn:Hact; cbn [negb].
  2: { bt_step. intros a' r ns [= <- <- <-]. split; [done|]. by exists b. }
  apply adv_stop_run. intros r. cbn [stop_answer]. destruct (aret r =? 0); cbn [negb].
  2: { intros a' r' ns [= <- <- <-]. split; [done|]. by exists b. }
  destruct (payload_fits adv) eqn:H1; cbn [andb negb]; [|by intros tr out _ _ a' r' ns [=]].
  destruct (payload_fits sr) eqn:H2; cbn [andb negb]; [|by intros tr out _ _ a' r' ns [=]].
  apply (load_run _ _ _ _ _ a); [by left | done | done |]. intros b1 Hb1 E1. apply (load_run _ _ _ _ _ a); [by right | done | done |]. intros b2 Hb2 E2.
  rewrite <- E1, <- E2. clear b Hb Ea b1 Hb1 E1 E2. pose proof (holds_rooted b2 a Hb2 Hact) as Hrt.
  cbv zeta. bt_step. destruct H as [Hn Hf]. do 2 bt_step. apply root_ok; [done|]. do 5 bt_step.
  intros a' r' ns [= <- <- <-]. split; [done|]. eexists. split; [done|].
  destruct Hb2 as (Es & Esc & Hr & Ha & l & El & Hnd & Hs & Ht & Hsp). unfold holds. cbn. repeat (split; [done|]).
  assert (Hnew : aret r0 ∉ l.*1) by (intros Hin; by apply Hf, Ht).
  exists l. split; [done|]. split; [done|]. split; [by apply seg_frame|]. split; [intros q Hq; apply elem_of_app; auto|].
  intros _. split; [apply Hr; done|]. split; [done|]. split; [apply elem_of_app; right; by left|]. split; [done|].
  rewrite lookup_insert_eq. by eexists.
Qed.

Lemma holds_scan b a x : holds b a -> holds (set_scan x b) (scan_becomes x a).
Proof. intros (Es & Esc & H). by split. Qed.

Lemma scan_stop_refines : refines Scan_stop.
Proof.
  intros b a Hb. unfold run_op, conforms, link_step. eapply hruns_mono; [|by apply (scan_stop_ok _ b a)]. cbv beta.
  intros tr out H a' r ns. destruct (active a); cbn [negb].
  - destruct H as (Eh & _ & ->). intros [= <- <- <-]. split; [done|]. eexists. split; [done|]. by apply holds_scan.
  - destruct H as [-> ->]. intros [= <- <- <-]. split; [done|]. by exists b.
Qed.

Lemma scan_start_refines duration interval window act : refines (Scan_start duration interval window act).
Proof.
  intros b a Hb. unfold run_op, mp_bluetooth_gap_scan_start, conforms, link_step. apply hruns_bind.
  eapply hruns_mono; [|by apply (scan_stop_ok _ b a)]. cbv beta. intros t1 o1 H. destruct (active a); cbn [negb].
  2: { destruct H as [-> ->]. change (negb (ERRNO_BLUETOOTH_NOT_ACTIVE =? 0)) with true. cbn iota. bt_step.
       intros a' r ns [= <- <- <-]. split; [done|]. by exists b. }
  destruct H as (Eh & Hd & ->). pose proof (fun t => scan_stops_app a [] t1 t eq_refl Hd) as Esc. cbn [app] in Esc.
  destruct (fst (scan_stops a t1) =? 0) eqn:E0; cbn [negb].
  - cbv zeta. repeat bt_step. intros a' r' ns. rewrite Esc, E0. cbn [negb]. intros [= <- <- <-].
    rewrite heard_app, Eh, app_nil_r. split; [done|]. exists (set_scan SCAN_STATE_ACTIVE b). split; [|by apply holds_scan].
    by rewrite last_answer_app.
  - bt_step. intros a' r' ns. rewrite Esc, E0. cbn [negb]. intros [= <- <- <-]. rewrite app_nil_r, Eh. split; [done|].
    eexists. split; [done|]. by apply holds_scan.
Qed.

Lemma schedule_ok objs fuel b : hruns objs (schedule_scan_stop fuel) b (fun tr out =>
  heard tr = [] /\ ((yields tr < fuel)%nat -> out = Ok (Val tt, b))).
Proof.
  induction fuel as [|fuel IH]; cbn [schedule_scan_stop].
  { apply outcomes_halt. intros _. split; [done|]. cbn. lia. }
  bt_step. bt_step; [by bt_step|]. bt_step. eapply hruns_mono; [|exact IH]. intros tr out [Eh Ho]. split; [done|].
  cbn [yields]. intros Hy. apply Ho. lia.
Qed.

Lemma scan_timeout_refines fuel : refines (Scan_timeout fuel).
Proof.
  intros b a Hb. unfold run_op, gap_scan_cb_timeout, conforms, link_step. bt_step. apply hruns_bind.
  eapply hruns_mono; [|apply schedule_ok]. intros tr out [Eh Ho]. destruct (decide (yields tr < fuel)%nat) as [Hy|Hy].
  - rewrite (Ho Hy). repeat bt_step. intros a' r ns. rewrite app_nil_r. rewrite (proj2 (Nat.ltb_lt _ _) Hy). intros [= <- <- <-].
    split; [done|]. eexists. split; [done|]. by apply holds_scan.
  - assert (Hno : forall t, (yields (tr ++ t) <? fuel)%nat = false).
    { intros t. apply Nat.ltb_ge. assert (yields tr <= yields (tr ++ t))%nat; [|lia]. clear.
      induction tr as [|[[] r] tr IH]; cbn [yields app]; lia. }
    destruct out as [[[x|e] b']|e]; [repeat bt_step; intros a' r ns; by rewrite Hno | |]; intros a' r ns; specialize (Hno []); rewrite app_nil_r in Hno; by rewrite Hno.
Qed.

Lemma scan_result_refines at_ addr adv rssi data : refines (Scan_result at_ addr adv rssi data).
Proof.
  intros b a Hb. pose proof (holds_active b a Hb) as Ea. pose proof Hb as (_ & Esc & _).
  unfold run_op, gap_scan_cb_recv, mp_bluetooth_is_active, conforms, link_step. bt_step. bt_step. rewrite Ea. destruct (active a); cbn [negb andb].
  2: { repeat bt_step. intros a' r ns [= <- <- <-]. split; [done|]. by exists b. }
  bt_step. bt_step. rewrite Esc. destruct (bool_decide (scanning a = SCAN_STATE_ACTIVE)); cbn [negb].
  - repeat bt_step. intros a' r' ns [= <- <- <-]. split; [done|]. by exists b.
  - repeat bt_step. intros a' r' ns [= <- <- <-]. split; [done|]. by exists b.
Qed.

Lemma op_refines op : refines op.
Proof.
  destruct op; auto using init_refines, deinit_refines, advertise_refines, stop_advertising_refines, connected_refines,
    disconnected_refines, disconnect_refines, register_begin_refines, scan_start_refines, scan_stop_refines, scan_timeout_refines, scan_result_refines.
Qed.

(** *** Histories *)

(** A history of operations and callbacks, one after the other, each with its
    calls and its result; a fault ends it. *)
Inductive session : state_t -> list (gap_op * list (btcall * answer)) -> list (py_res Z) -> res state_t -> Prop :=
  | session_end b : session b [] [] (Ok b)
  | session_step b op tr r b' evs rs out :
      runs (run_op op b) tr (Ok (r, b')) -> Forall (honest (objs_list b)) tr -> session b' evs rs out ->
      session b ((op, tr) :: evs) (r :: rs) out
  | session_fault b op tr e evs :
      runs (run_op op b) tr (Stop e) -> Forall (honest (objs_list b)) tr -> session b ((op, tr) :: evs) [] (Stop e).

(** C28: The module implements the table of connections. In any history of its
    operations and of the stack's callbacks, with any answers of the stack that
    are honest about connection objects and of an allocator that does not hand
    out tracked memory, as long as every event is one the table expects (see
    [expected]: no connection without a spare node, no link's end without root
    pointers, no payload of more than 254 bytes, room in the scheduler): no
    operation faults or walks forever, each gives the table's result, takes and
    releases references and tells Python (of links, of scan results only while
    a scan is active, of its end) exactly as the table says, and the
    linked list afterwards carries the table's connections in order. *)
Theorem connection_table b a evs rs out a' steps :
  holds b a -> session b evs rs out ->
  link_run IRQ_CONNECT IRQ_DISCONNECT ident a evs = Some (a', steps) ->
  rs = steps.*1 /\ map (fun ev => heard (snd ev)) evs = steps.*2 /\ exists b', out = Ok b' /\ holds b' a'.
Proof.
  intros Hb Hs. revert a a' steps Hb. induction Hs as [b | b op tr r b' evs rs out Hr Hh Hs IH | b op tr e evs Hr Hh]; intros a a' steps Hb; cbn [link_run].
  - intros [= <- <-]. repeat split. by exists b.
  - destruct (link_step _ _ _ a op tr) as [[[a1 r1] ns]|] eqn:E1; [|done]. cbn.
    destruct (link_run _ _ _ a1 evs) as [[a2 l]|] eqn:E2; [|done]. intros [= <- <-].
    destruct (op_refines op b a Hb _ _ Hr Hh _ _ _ E1) as (En & b1 & [= <- <-] & Hb1).
    destruct (IH a1 a2 l Hb1 E2) as (-> & Et & Hend). repeat (split; [done|]). cbn. rewrite En, Et. by split.
  - destruct (link_step _ _ _ a op tr) as [[[a1 r1] ns]|] eqn:E1; [|done].
    destruct (op_refines op b a Hb _ _ Hr Hh _ _ _ E1) as (_ & b1 & [=] & _).
Qed.
End Refinement.

(** ** Histories run against a stack *)

(** The module's heap, stack and database for the runs below. *)
Local Abbreviation table_state := (bt (gatt (gmap Z entry))).
Definition boot : table_state := Bt BLE_STATE_OFF SCAN_STATE_INACTIVE [] 0 [] 0 0 ∅ None 0 [].
Definition run_table : gap_op -> py btcall answer table_state Z := run_op 1 2 19 1 2 4.

(** Memory above all that is tracked. *)
Definition fresh_in (objs : list Z) : Z := foldr Z.max 99 objs + 1.
Lemma fresh_in_fresh objs : fresh_in objs <> 0 /\ fresh_in objs ∉ objs.
Proof.
  assert (H : 99 <= foldr Z.max 99 objs /\ forall x, x ∈ objs -> x <= foldr Z.max 99 objs).
  { induction objs as [|y objs [IH1 IH2]]; cbn; [by split; [|intros x Hx%elem_of_nil]|]. split; [lia|].
    intros x [->|Hx]%elem_of_cons; [lia|]. specialize (IH2 x Hx). lia. }
  unfold fresh_in. split; [lia|]. intros Hin%H. lia.
Qed.

Definition table_stack (ident : Z -> Z) (b : table_state) (_ : list (btcall * answer)) (c : btcall) : answer :=
  match c with
  | bt_conn_get_info c => Answer 0 [ident c; 0; 1; 2; 3; 4; 5; 6]
  | bt_conn_ref c => Answer c []
  | m_new => Answer (fresh_in (objs_list b)) []
  | mp_sched_schedule_scan_stop => Answer 1 []
  | _ => Answer 0 []
  end.

Fixpoint play (ident : Z -> Z) (ops : list gap_op) (b : table_state) :
    list (gap_op * list (btcall * answer)) * list (py_res Z) * res table_state :=
  match ops with
  | [] => ([], [], Ok b)
  | op :: ops =>
      match run (table_stack ident b) (run_table op b) [] with
      | (Ok (r, b'), tr) => let '(evs, rs, out) := play ident ops b' in ((op, tr) :: evs, r :: rs, out)
      | (Stop e, tr) => ([(op, tr)], [], Stop e)
      end
  end.

Lemma play_session ident ops b :
  let '(evs, rs, out) := play ident ops b in session 1 2 19 1 2 4 ident b evs rs out.
Proof.
  revert b. induction ops as [|op ops IH]; intros b; cbn [play]; [constructor|].
  destruct (run (table_stack ident b) (run_table op b) []) as [out tr] eqn:E.
  assert (Hh : Forall (honest ident (objs_list b)) tr).
  { replace tr with (snd (run (table_stack ident b) (run_table op b) [])) by (by rewrite E). apply run_answers; [|constructor].
    intros H c. destruct c; try done. apply fresh_in_fresh. }
  apply run_runs in E. destruct out as [[r b']|e]; [|by constructor].
  specialize (IH b'). destruct (play ident ops b') as [[evs rs] out]. by econstructor.
Qed.

(** Two centrals connect; the first leaves. A scan sees a device, and nothing
    once its timer has expired. *)
Definition two_centrals : list gap_op :=
  [Init; Advertise true 100000 (Some [(1, [6])]) None; Connected 201 0; Disconnect 7; Stop_advertising;
   Advertise true 100000 None None; Connected 300 5; Connected 202 0;
   Disconnect 201; Disconnected 201; Disconnect 201; Disconnect 202;
   Scan_start 100 30000 30000 true; Scan_result 0 [1; 2; 3; 4; 5; 6] 0 (-40) [9]; Scan_timeout 1;
   Scan_result 0 [1; 2; 3; 4; 5; 6] 0 (-41) [9]; Scan_stop].
Definition byte_of (c : Z) : Z := c mod 256.

Lemma connection_table_witness :
  let '(evs, rs, out) := play byte_of two_centrals boot in
  rs = [Val 0; Val 0; Val 0; Val ENOENT; Val 0; Val 0; Val 0; Val 0; Val 0; Val 0; Val ENOENT; Val 0;
    Val 0; Val 0; Val 0; Val 0; Val 0] /\
  concat (map (fun ev => heard (snd ev)) evs) =
    [Held 201; Told 1 201; Told 2 44; Held 202; Told 1 202; Ended 201; Released 201; Told 2 201; Ended 202;
     Seen 0 [6; 5; 4; 3; 2; 1] 0 (-40) [9]; Scan_done] /\
  exists b, out = Ok b /\ holds b (Links BLE_STATE_ACTIVE true [202] false SCAN_STATE_INACTIVE).
Proof.
  pose proof (play_session byte_of two_centrals boot) as Hs.
  assert (Hid : forall c, 0 <= byte_of c < 256) by (intros c; apply Z.mod_pos_bound; lia).
  assert (Hb : holds boot (Links BLE_STATE_OFF false [] false SCAN_STATE_INACTIVE)) by (apply holds_none; by try split; try intros [? ?]).
  destruct (play byte_of two_centrals boot) as [[evs rs] out] eqn:E.
  vm_compute in E. injection E as <- <- <-.
  destruct (connection_table 1 2 19 1 2 4 byte_of Hid _ _ _ _ _ _ _ Hb Hs ltac:(vm_compute; reflexivity)) as (_ & _ & Hend).
  split; [reflexivity|]. split; [reflexivity|]. exact Hend.
Defined.

(** *** Histories the table has no step for *)

(** A link that outlives [mp_bluetooth_deinit] ends on NULL root pointers: the
    callbacks stay registered. *)
Example late_disconnection :
  snd (play byte_of [Init; Advertise true 100000 None None; Connected 201 0; Deinit; Disconnected 201] boot) = Stop UB.
Proof. vm_compute. reflexivity. Qed.

(** Registering services while advertising takes the spare node away, and the
    next central is stored through NULL. *)
Example services_while_advertising :
  snd (play byte_of [Init; Advertise true 100000 None None; Register_begin false; Connected 201 0] boot) = Stop UB.
Proof. vm_compute. reflexivity. Qed.

(** Links of one identity are taken for one another: the link that ended stays,
    the living one is forgotten. *)
Example one_identity :
  let '(evs, _, out) := play (fun _ => 0) [Init; Advertise true 100000 None None; Connected 201 0; Advertise true 100000 None None;
      Connected 202 0; Disconnected 201; Disconnect 0] boot in
  is_Some (match out with Ok b => Some b | Stop _ => None end) /\
  concat (map (fun ev => heard (snd ev)) evs) =
    [Held 201; Told 1 0; Held 202; Told 1 0; Released 201; Told 2 0; Ended 201].
Proof. vm_compute. split; [by eexists | reflexivity]. Qed.
