(* ===== verification/Socket.v ===== *)
(** app/micropython/modsocket.c: Python's socket module over Zephyr's sockets
    and resolver. *)

From S2P Require Import Prelude Py.

(** A failing socket call answers -1 and stores errno; [zsock_recv] and
    [zsock_recvfrom] store the bytes received, the latter after the family of
    the sender's address and its scope, the text of an address is stored by
    [net_addr_ntop]. *)
Inductive sockcall :=
  | mp_obj_malloc_socket
  | zsock_socket (family type proto : Z)
  | zsock_bind (ctx : Z) (addr : Z * list Z * Z)
  | zsock_connect (ctx : Z) (addr : Z * list Z * Z)
  | zsock_listen (ctx backlog : Z)
  | zsock_accept (ctx : Z)
  | zsock_send (ctx : Z) (data : list Z)
  | zsock_recv (ctx max_len : Z)
  | zsock_recvfrom (ctx max_len : Z)
  | zsock_close (ctx : Z)
  | zsock_get_context_object (ctx : Z)
  | net_context_get_family (context : Z)
  | net_addr_pton (family : Z) (text : list Z)     (* stores the address *)
  | net_addr_ntop (family : Z) (addr : list Z)
  | dns_get_addr_info (host : list Z) (type timeout : Z)
  | dns_wait                                       (* the callbacks until the semaphore is given *)
  | mp_warning
  | net_pkt_get_info.

Definition EBADF : Z := 9.
Definition STATE_NEW : Z := 0.
Definition errno (r : answer) : Z := hd 0 (aout r).

(** The socket objects by address: descriptor (-1 when closed) and state. *)
Record socket_obj_t := Socket { ctx : Z; state : Z }.
Definition heap : Type := gmap Z socket_obj_t.

Local Abbreviation sm A := (py sockcall answer heap A).

Section Socket.
Context (AF_INET AF_INET6 SOCK_STREAM IPPROTO_TCP IPPROTO_UDP LISTEN_BACKLOG_DEFAULT : Z).
Context (DNS_QUERY_TYPE_A DNS_QUERY_TYPE_AAAA DNS_EAI_ALLDONE : Z).
Context (MP_STREAM_CLOSE : Z).
Context (htons : Z -> Z).
(** Whether the build resolves names (CONFIG_NET_DHCPV4), and what the
    uninitialised field of the resolver's state on the stack holds. *)
Context (CONFIG_NET_DHCPV4 : bool) (stack_garbage : Z).

Definition RAISE_ERRNO (x : Z) : sm unit := if x <? 0 then raise (OSError (- x)) else mret tt.
Definition RAISE_SOCK_ERRNO (r : answer) : sm unit :=
  if aret r =? -1 then raise (OSError (errno r)) else mret tt.

Definition obj (p : Z) : sm socket_obj_t := fun h =>
  match h !! p with Some s => Ret (Val s, h) | None => Halt UB end.
Definition set_ctx (p c : Z) : sm unit := s ← obj p; py_set (fun h => <[p := Socket c (state s)]> h).

Definition socket_check_closed (p : Z) : sm unit :=
  s ← obj p; if ctx s =? -1 then raise (OSError EBADF) else mret tt.

(** ** Addresses *)

(** The address of a Python tuple (text, port): family, bytes, port. *)
Definition parse_inet_addr (p : Z) (addr_in : list Z * Z) : sm (Z * list Z * Z) :=
  s ← obj p;
  context ← py_call (zsock_get_context_object (ctx s));
  family ← py_call (net_context_get_family (aret context));
  r ← py_call (net_addr_pton (aret family) (fst addr_in));
  RAISE_ERRNO (aret r);;
  mret (aret family, aout r, htons (snd addr_in)).

(** The last two items stay unset for another family than IPv4 and IPv6. *)
Definition format_inet_addr (family : Z) (addr : list Z) (scope_id : Z) (port : value) : sm value :=
  t ← py_call (net_addr_ntop family addr);
  mret (Tuple ([Str (aout t); port] ++ (if family =? AF_INET then []
    else if family =? AF_INET6 then [Int 0; Int scope_id] else [Obj 0; Obj 0]))).

(** ** Methods *)

(** The descriptor of a new object is what its memory holds. *)
Definition socket_new : sm Z :=
  a ← py_call mp_obj_malloc_socket;
  py_set (fun h => <[aret a := Socket (hd 0 (aout a)) STATE_NEW]> h);;
  mret (aret a).

Definition socket_make_new (family socktype proto : option Z) : sm value :=
  p ← socket_new;
  let family' := default AF_INET family in
  let socktype' := match family with Some _ => default SOCK_STREAM socktype | None => SOCK_STREAM end in
  let proto' := match family, socktype with Some _, Some _ => default (-1) proto | _, _ => -1 end in
  let proto' := if proto' =? -1 then (if negb (socktype' =? SOCK_STREAM) then IPPROTO_UDP else IPPROTO_TCP) else proto' in
  r ← py_call (zsock_socket family' socktype' proto');
  set_ctx p (aret r);;
  RAISE_SOCK_ERRNO r;;
  mret (Obj p).

Definition socket_bind (p : Z) (addr_in : list Z * Z) : sm value :=
  socket_check_closed p;;
  addr ← parse_inet_addr p addr_in;
  s ← obj p;
  r ← py_call (zsock_bind (ctx s) addr);
  RAISE_SOCK_ERRNO r;;
  mret None_.

Definition socket_connect (p : Z) (addr_in : list Z * Z) : sm value :=
  socket_check_closed p;;
  addr ← parse_inet_addr p addr_in;
  s ← obj p;
  r ← py_call (zsock_connect (ctx s) addr);
  RAISE_SOCK_ERRNO r;;
  mret None_.

Definition socket_listen (p : Z) (backlog : option Z) : sm value :=
  socket_check_closed p;;
  let backlog := match backlog with Some b => if b <? 0 then 0 else b | None => LISTEN_BACKLOG_DEFAULT end in
  s ← obj p;
  r ← py_call (zsock_listen (ctx s) backlog);
  RAISE_SOCK_ERRNO r;;
  mret None_.

(** The result of [zsock_accept] is not looked at. *)
Definition socket_accept (p : Z) : sm value :=
  socket_check_closed p;;
  s ← obj p;
  r ← py_call (zsock_accept (ctx s));
  p2 ← socket_new;
  set_ctx p2 (aret r);;
  mret (Tuple [Obj p2; None_]).

(** The return value and [*errcode]. *)
Definition sock_write (p : Z) (data : list Z) : sm (Z * Z) :=
  s ← obj p;
  if ctx s =? -1 then mret (MP_STREAM_ERROR, EBADF)
  else
    r ← py_call (zsock_send (ctx s) data);
    if aret r =? -1 then mret (MP_STREAM_ERROR, errno r) else mret (u32 (aret r), 0).

Definition socket_send (p : Z) (data : list Z) : sm value :=
  '(n, err) ← sock_write p data;
  if n =? MP_STREAM_ERROR then raise (OSError err) else mret (Int n).

Definition sock_read (p max_len : Z) : sm (Z * Z * list Z) :=
  s ← obj p;
  if ctx s =? -1 then mret (MP_STREAM_ERROR, EBADF, [])
  else
    r ← py_call (zsock_recv (ctx s) max_len);
    if aret r =? -1 then mret (MP_STREAM_ERROR, errno r, []) else mret (u32 (aret r), 0, aout r).

Definition socket_recv (p max_len : Z) : sm value :=
  '(n, err, data) ← sock_read p max_len;
  if n =? MP_STREAM_ERROR then raise (OSError err)
  else if n =? 0 then mret (Bytes [])
  else mret (Bytes (take (Z.to_nat n) data)).

(** The port of the sender is the object 0, which is no object. *)
Definition socket_recvfrom (p max_len : Z) : sm value :=
  socket_check_closed p;;
  s ← obj p;
  r ← py_call (zsock_recvfrom (ctx s) max_len);
  if aret r =? -1 then raise (OSError (errno r))
  else
    let data := if aret r =? 0 then [] else take (Z.to_nat (aret r)) (drop 2 (aout r)) in
    addr ← format_inet_addr (nth 0 (aout r) 0) [] (nth 1 (aout r) 0) (Obj 0);
    mret (Tuple [Bytes data; addr]).

Definition socket_setsockopt : sm value := py_call mp_warning;; mret None_.
Definition socket_makefile (p : Z) : sm value := mret (Obj p).

Definition sock_ioctl (p request : Z) : sm (Z * Z) :=
  if request =? MP_STREAM_CLOSE then
    s ← obj p;
    (if negb (ctx s =? -1) then
       r ← py_call (zsock_close (ctx s));
       RAISE_SOCK_ERRNO r;;
       if aret r =? -1 then mret (MP_STREAM_ERROR, errno r)
       else set_ctx p (-1);; mret (0, 0)
     else mret (0, 0))
  else mret (MP_STREAM_ERROR, EINVAL).

(** ** Resolving names *)

(** A call of the resolver's callback: its status and, when there is one, the
    family, address and scope found. *)
Record dns_event := Dns { dns_status : Z; dns_info : option (Z * list Z * Z) }.
Record getaddrinfo_state_t := Lookup { result : list value; port : Z; status : Z }.

(** Answers the state, and whether the semaphore was given. *)
Definition dns_resolve_cb (e : dns_event) (st : getaddrinfo_state_t) : sm (getaddrinfo_state_t * bool) :=
  match dns_info e with
  | None =>
      let s := if dns_status e =? DNS_EAI_ALLDONE then 0 else dns_status e in
      mret (Lookup (result st) (port st) s, true)
  | Some (family, addr, scope) =>
      a ← format_inet_addr family addr scope (Int (port st));
      mret (Lookup (result st ++ [Tuple [Int family; Int SOCK_STREAM; Int IPPROTO_TCP; Str []; a]]) (port st) (status st), false)
  end.

(** [k_sem_take] on a semaphore nobody gives. *)
Definition block_forever {A} : sm A := fun _ => Halt Deadlock.

(** The callbacks that run while the caller waits, up to the one that gives the
    semaphore; without such a one it waits for ever. *)
Fixpoint wait_dns (events : list dns_event) (st : getaddrinfo_state_t) : sm getaddrinfo_state_t :=
  match events with
  | [] => block_forever
  | e :: events =>
      r ← dns_resolve_cb e st;
      if snd (r : getaddrinfo_state_t * bool) then mret (fst r) else wait_dns events (fst r)
  end.

(** The events of the two queries, the second of which may not be made. *)
Fixpoint queries (n : nat) (host : list Z) (family : Z) (events : list (list dns_event)) (st : getaddrinfo_state_t) : sm getaddrinfo_state_t :=
  match n with
  | O => mret st
  | S n =>
      let type := if negb (family =? AF_INET6) then DNS_QUERY_TYPE_A else DNS_QUERY_TYPE_AAAA in
      r ← py_call (dns_get_addr_info host type 3000);
      RAISE_ERRNO (aret r);;
      py_call dns_wait;;
      st ← wait_dns (hd [] events) st;
      if negb (family =? 0) then mret st
      else queries n host AF_INET6 (tl events) st
  end.

Definition mod_getaddrinfo (host : list Z) (port : Z) (family : option Z) (events : list (list dns_event)) : sm value :=
  st ← (if CONFIG_NET_DHCPV4 then queries 2 host (default 0 family) events (Lookup [] port stack_garbage)
        else mret (Lookup [] port stack_garbage));
  if negb (status st =? 0) && (len (result st) =? 0) then raise (OSError (status st))
  else mret (List (result st)).

Definition pkt_get_info : sm value :=
  r ← py_call net_pkt_get_info;
  mret (Tuple (map (fun i => Int (nth i (aout r) 0)) (seq 0 4))).
End Socket.
