(* ===== verification/SocketThm.v ===== *)
(** Theorems on modsocket.c: a descriptor is closed once and not used
    afterwards. *)

From S2P Require Import Prelude Py Socket.

Section SocketThm.
Context (AF_INET AF_INET6 SOCK_STREAM IPPROTO_TCP IPPROTO_UDP LISTEN_BACKLOG_DEFAULT MP_STREAM_CLOSE : Z) (htons : Z -> Z).

(** The methods of a socket object that use its descriptor. *)
Inductive method :=
  | Bind (addr : list Z * Z)
  | Connect (addr : list Z * Z)
  | Listen (backlog : option Z)
  | Accept
  | Send (data : list Z)
  | Recv (max_len : Z)
  | Recvfrom (max_len : Z).
Definition exec (p : Z) (m : method) : py sockcall answer heap value :=
  match m with
  | Bind a => socket_bind htons p a
  | Connect a => socket_connect htons p a
  | Listen b => socket_listen LISTEN_BACKLOG_DEFAULT p b
  | Accept => socket_accept p
  | Send d => socket_send p d
  | Recv n => socket_recv p n
  | Recvfrom n => socket_recvfrom AF_INET AF_INET6 p n
  end.

(** Methods called one after the other, whether or not they raise; closing is
    one of them. *)
Inductive use := Method (m : method) | Close.
Definition exec_use (p : Z) (u : use) : py sockcall answer heap unit := fun h =>
  match u with
  | Method m => prog_bind' (fun '(_, h') => Ret (Val tt, h')) (exec p m h)
  | Close => prog_bind' (fun '(_, h') => Ret (Val tt, h')) (sock_ioctl MP_STREAM_CLOSE p MP_STREAM_CLOSE h)
  end.
Fixpoint exec_uses (p : Z) (l : list use) : py sockcall answer heap unit :=
  match l with [] => mret tt | u :: l => exec_use p u;; exec_uses p l end.

(** On a closed socket a method raises EBADF and calls nothing. *)
Lemma closed_method p m (h : heap) st :
  h !! p = Some (Socket (-1) st) -> exec p m h = Ret (Raise (OSError EBADF), h).
Proof.
  intros Hp. assert (Hobj : obj p h = Ret (Val (Socket (-1) st), h)) by (unfold obj; by rewrite Hp).
  assert (Hc : socket_check_closed p h = Ret (Raise (OSError EBADF), h)).
  { unfold socket_check_closed. by rewrite (py_bind_val (obj p)) with (a := Socket (-1) st) (s' := h). }
  destruct m; cbn [exec]; unfold socket_bind, socket_connect, socket_listen, socket_accept, socket_recvfrom;
    try (by erewrite py_bind_raise by exact Hc).
  - unfold socket_send. rewrite (py_bind_val (sock_write p data)) with (a := (MP_STREAM_ERROR, EBADF)) (s' := h); [done|].
    unfold sock_write. by rewrite (py_bind_val (obj p)) with (a := Socket (-1) st) (s' := h).
  - unfold socket_recv. rewrite (py_bind_val (sock_read p max_len)) with (a := (MP_STREAM_ERROR, EBADF, [])) (s' := h); [done|].
    unfold sock_read. by rewrite (py_bind_val (obj p)) with (a := Socket (-1) st) (s' := h).
Qed.

Lemma closed_use p u (h : heap) st : h !! p = Some (Socket (-1) st) -> exec_use p u h = Ret (Val tt, h).
Proof.
  intros Hp. destruct u as [m|]; cbn [exec_use]; [by rewrite (closed_method p m h st Hp)|].
  unfold sock_ioctl. rewrite Z.eqb_refl. rewrite (py_bind_val (obj p)) with (a := Socket (-1) st) (s' := h) by (unfold obj; by rewrite Hp). done.
Qed.

Lemma closed_uses p l (h : heap) st : h !! p = Some (Socket (-1) st) -> exec_uses p l h = Ret (Val tt, h).
Proof.
  intros Hp. induction l as [|u l IH]; cbn [exec_uses]; [done|].
  by rewrite (py_bind_val (exec_use p u)) with (a := tt) (s' := h) by by apply (closed_use p u h st).
Qed.

(** Closing an open socket. *)
Lemma close_runs p (h : heap) s :
  h !! p = Some s -> ctx s <> -1 ->
  outcomes (exec_use p Close h) (fun tr out => exists r, tr = [(zsock_close (ctx s), r)] /\
    out = Ok (Val tt, if aret r =? -1 then h else <[p := Socket (-1) (state s)]> h)).
Proof.
  intros Hp Hc. cbn [exec_use]. unfold sock_ioctl. rewrite Z.eqb_refl.
  assert (Hobj : obj p h = Ret (Val s, h)) by (unfold obj; by rewrite Hp).
  rewrite (py_bind_val (obj p)) with (a := s) (s' := h) by done. rewrite (proj2 (Z.eqb_neq _ _)) by done. cbn [negb].
  apply outcomes_call. intros r. unfold RAISE_SOCK_ERRNO. destruct (aret r =? -1) eqn:E.
  - erewrite py_bind_raise by reflexivity. apply outcomes_ret. exists r. by rewrite E.
  - rewrite (py_bind_val (mret tt)) with (a := tt) (s' := h) by done. unfold set_ctx, mbind, py_bind. rewrite Hobj.
    apply outcomes_ret. exists r. by rewrite E.
Qed.

(** C39: The descriptor of an open socket is closed by the first close that
    succeeds and never used again: closing makes one call, with that
    descriptor; once it succeeded, whatever methods and further closes follow
    make no call at all and change nothing, each method raising OSError(EBADF);
    and when it fails the object is as it was. *)
Theorem closed_once p l (h : heap) s tr out :
  h !! p = Some s -> ctx s <> -1 ->
  runs (exec_uses p (Close :: l) h) tr out ->
  exists r tr', tr = (zsock_close (ctx s), r) :: tr' /\
    (aret r = -1 -> runs (exec_uses p l h) tr' out) /\
    (aret r <> -1 -> tr' = [] /\ exists h', out = Ok (Val tt, h') /\ h' = <[p := Socket (-1) (state s)]> h /\
      forall m, exec p m h' = Ret (Raise (OSError EBADF), h')).
Proof.
  intros Hp Hc Hr. cbn [exec_uses] in Hr. unfold mbind, py_bind in Hr.
  change (prog_bind' ?f ?q) with (q ≫= f) in Hr.
  apply runs_bind_inv in Hr as [([x h1] & tr1 & tr2 & -> & H1 & H2) | (e & H1 & ->)];
    apply (close_runs p h s Hp Hc) in H1 as (r & -> & Ho); [|done].
  injection Ho as -> ->. exists r, tr2. split; [done|]. split; intros E.
  - by rewrite E, Z.eqb_refl in H2.
  - rewrite (proj2 (Z.eqb_neq _ _)) in H2 by done. rewrite (closed_uses p l _ (state s)) in H2 by apply lookup_insert_eq.
    apply runs_ret_inv in H2 as [-> ->]. split; [done|]. eexists. split_and!; [done | done |].
    intros m. apply (closed_method p m _ (state s)), lookup_insert_eq.
Qed.
End SocketThm.

(** A socket on descriptor 5 is closed, written to and closed again. *)
Definition one_socket : heap := {[ 100 := Socket 5 0 ]}.
Definition no_error (_ : list (sockcall * answer)) (_ : sockcall) : answer := Answer 0 [].
Definition close_run := run no_error (exec_uses 1 2 5 6 (fun z => z) 100 [Close; Method (Send [1; 2]); Close; Method Accept] one_socket) [].

Lemma closed_once_witness :
  exists r tr', snd close_run = (zsock_close 5, r) :: tr' /\
    (aret r = -1 -> runs (exec_uses 1 2 5 6 (fun z => z) 100 [Method (Send [1; 2]); Close; Method Accept] one_socket) tr' (fst close_run)) /\
    (aret r <> -1 -> tr' = [] /\ exists h', fst close_run = Ok (Val tt, h') /\ h' = <[100 := Socket (-1) 0]> one_socket /\
      forall m, exec 1 2 5 (fun z => z) 100 m h' = Ret (Raise (OSError EBADF), h')).
Proof.
  refine (closed_once 1 2 5 6 (fun z => z) 100 [Method (Send [1; 2]); Close; Method Accept] one_socket (Socket 5 0) (snd close_run) (fst close_run) _ _ _).
  - reflexivity.
  - by_decide.
  - apply (run_runs _ no_error). unfold close_run. apply surjective_pairing.
Defined.

(** An accept that fails answers a closed socket object instead of raising. *)
Definition accept_fails (_ : list (sockcall * answer)) (c : sockcall) : answer :=
  match c with zsock_accept _ => Answer (-1) [11] | mp_obj_malloc_socket => Answer 200 [] | _ => Answer 0 [] end.
Example accept_error_lost :
  exists h, fst (run accept_fails (socket_accept 100 one_socket) []) = Ok (Val (Tuple [Obj 200; None_]), h) /\
    h !! 200 = Some (Socket (-1) 0).
Proof. eexists. split; vm_compute; reflexivity. Qed.
