(* ===== verification/Machine.v ===== *)
(** The peripherals of app/micropython that keep no list of their own: finding
    devices (zephyr_device.c), PWM (machine_pwm.c), analog input
    (machine_adc.c), SPI (machine_spi.c), I2C (machine_i2c.c), the watchdog
    (machine_wdt.c) and sensors (modzsensor.c). *)

From S2P Require Import Prelude Py.

Inductive mcall :=
  | device_get_binding (name : list Z)
  | device_get_by_dt_nodelabel (name : list Z)
  | device_get_dt_nodelabels (dev : Z)              (* answers whether there are labels; stores the first *)
  | device_name (dev : Z)
  | device_is_ready (dev : Z)
  | mp_obj_malloc
  | pwm_set (dev channel period pulse flags : Z)
  | adc_is_ready_dt (spec : Z)
  | adc_channel_setup_dt (spec : Z)
  | adc_sequence_init_dt (spec : Z)
  | adc_read_dt (spec : Z)                          (* stores the sample *)
  | adc_raw_to_millivolts_dt (spec raw : Z)         (* stores the voltage *)
  | spi_transceive (dev frequency operation : Z) (src : list Z) (rx_len : Z)
  | i2c_transfer (dev addr : Z) (msgs : list (Z * Z * list Z))
  | wdt_install_timeout (dev max : Z)
  | wdt_setup (dev options : Z)
  | wdt_feed (dev channel : Z)
  | sensor_sample_fetch (dev : Z)
  | sensor_channel_get (dev channel : Z)            (* stores the two parts of the value *)
  | sensor_attr_get (dev channel attr : Z)
  | sensor_attr_set (dev channel attr val1 val2 : Z).

Local Abbreviation mm S A := (py mcall answer S A).

(** ** zephyr_device.c *)

Section Device.
Context {S : Type} (CONFIG_DEVICE_DT_METADATA : bool).

Definition zephyr_device_find (dev_name : list Z) : mm S Z :=
  r ← py_call (device_get_binding dev_name);
  dev ← (if CONFIG_DEVICE_DT_METADATA && (aret r =? 0) then
           l ← py_call (device_get_by_dt_nodelabel dev_name); mret (aret l)
         else mret (aret r));
  if dev =? 0 then raise ValueError else mret dev.

Definition zephyr_device_get_name (dev : Z) : mm S (list Z) :=
  if CONFIG_DEVICE_DT_METADATA then
    nl ← py_call (device_get_dt_nodelabels dev);
    if negb (aret nl =? 0) then mret (aout nl)
    else n ← py_call (device_name dev); mret (aout n)
  else n ← py_call (device_name dev); mret (aout n).
End Device.

(** ** machine_pwm.c *)

Module Pwm.
Definition VALUE_NOT_SET : Z := -1.
Definition NSEC_PER_SEC : Z := 1000000000.

Record machine_pwm_obj_t := Pwm { pwm : Z; channel : Z; freq : Z; duty_u16 : Z; duty_ns : Z; flags : Z }.
Definition set_freq x o := Pwm (pwm o) (channel o) x (duty_u16 o) (duty_ns o) (flags o).
Definition set_duty_u16 x o := Pwm (pwm o) (channel o) (freq o) x (duty_ns o) (flags o).
Definition set_duty_ns x o := Pwm (pwm o) (channel o) (freq o) (duty_u16 o) x (flags o).
Definition set_flags x o := Pwm (pwm o) (channel o) (freq o) (duty_u16 o) (duty_ns o) x.

Local Abbreviation pm A := (mm machine_pwm_obj_t A).

Section Pwm.
Context (PWM_POLARITY_INVERTED : Z) (CONFIG_DEVICE_DT_METADATA : bool).

(** [NSEC_PER_SEC / self->freq], an unsigned division. *)
Definition period_of (o : machine_pwm_obj_t) : pm Z :=
  if freq o =? 0 then py_fault else mret (NSEC_PER_SEC / u32 (freq o)).

(** The pulse width: from the 16-bit duty when no width is set, within the
    period. *)
Definition pulse_of (o : machine_pwm_obj_t) (period : Z) : Z :=
  let ns := if duty_ns o =? VALUE_NOT_SET then s32 (u32 (u32 (duty_u16 o) * period) / UINT16_MAX) else duty_ns o in
  if ns <? 0 then 0 else if ns >? period then period else ns.

Definition configure_pwm : pm unit :=
  o ← py_get (fun o => o);
  period ← period_of o;
  if ((duty_u16 o =? VALUE_NOT_SET) && (duty_ns o =? VALUE_NOT_SET)) || (freq o =? VALUE_NOT_SET) then raise ValueError
  else
    let pulse := pulse_of o period in
    py_set (set_duty_ns pulse);;
    py_call (pwm_set (pwm o) (channel o) period pulse (flags o));;
    mret tt.

(** The arguments default to -1. *)
Definition mp_machine_pwm_init_helper (freq duty_u16 duty_ns invert : Z) : pm unit :=
  (if freq >? 0 then py_set (set_freq freq) else mret tt);;
  (if duty_u16 >=? 0 then py_set (fun o => set_duty_ns VALUE_NOT_SET (set_duty_u16 duty_u16 o)) else mret tt);;
  (if duty_ns >=? 0 then py_set (fun o => set_duty_u16 VALUE_NOT_SET (set_duty_ns duty_ns o)) else mret tt);;
  py_set (set_flags (if invert >=? 0 then PWM_POLARITY_INVERTED else 0));;
  configure_pwm.

Definition mp_machine_pwm_make_new (id : option (list Z * Z)) (args : option (Z * Z * Z * Z)) : pm unit :=
  match id with
  | None => raise ValueError
  | Some (name, wanted_chan) =>
      wanted_pwm ← zephyr_device_find CONFIG_DEVICE_DT_METADATA name;
      py_set (fun _ => Pwm wanted_pwm (u32 wanted_chan) VALUE_NOT_SET VALUE_NOT_SET VALUE_NOT_SET 0);;
      match args with
      | Some (f, d, n, i) => mp_machine_pwm_init_helper f d n i
      | None => mret tt
      end
  end.

Definition mp_machine_pwm_deinit : pm unit :=
  py_set (fun o => set_duty_u16 VALUE_NOT_SET (set_duty_ns 0 o));; configure_pwm.
Definition mp_machine_pwm_freq_get : pm value := f ← py_get freq; mret (Int f).
Definition mp_machine_pwm_freq_set (f : Z) : pm unit := py_set (set_freq (s32 f));; configure_pwm.
Definition mp_machine_pwm_duty_set_ns (n : Z) : pm unit :=
  py_set (fun o => set_duty_u16 VALUE_NOT_SET (set_duty_ns (s32 n) o));; configure_pwm.
Definition mp_machine_pwm_duty_get_ns : pm value := n ← py_get duty_ns; mret (Int n).
Definition mp_machine_pwm_duty_get_u16 : pm value := d ← py_get duty_u16; mret (Int d).
Definition mp_machine_pwm_duty_set_u16 (d : Z) : pm unit :=
  py_set (fun o => set_duty_u16 (s32 d) (set_duty_ns VALUE_NOT_SET o));; configure_pwm.
End Pwm.
End Pwm.

(** ** machine_adc.c *)

Module Adc.
(** A channel of the devicetree's user node, by its index. *)
Record adc_dt_spec := Spec { dev : Z; channel_id : Z; resolution : Z }.
(** The object: the channel it reads and the name it was given. *)
Record machine_adc_obj_t := AdcObj { spec : Z; name : list Z }.

Section Adc.
Context (adc_channels : list adc_dt_spec) (CONFIG_DEVICE_DT_METADATA : bool).

(** The first channel of the device with the id. *)
Fixpoint find_channel (i : Z) (l : list adc_dt_spec) (wanted_port channel : Z) : option Z :=
  match l with
  | [] => None
  | c :: l => if (dev c =? wanted_port) && (channel_id c =? channel) then Some i else find_channel (i + 1) l wanted_port channel
  end.

Inductive adc_arg := An_adc (o : machine_adc_obj_t) | A_pair (dev_name : list Z) (channel : Z) | Something_else.

Definition mp_machine_adc_make_new (arg : adc_arg) : mm unit machine_adc_obj_t :=
  match arg with
  | An_adc o => mret o
  | Something_else => raise ValueError
  | A_pair dev_name channel =>
      wanted_port ← zephyr_device_find CONFIG_DEVICE_DT_METADATA dev_name;
      match find_channel 0 adc_channels wanted_port channel with
      | None => raise ValueError
      | Some i =>
          ready ← py_call (adc_is_ready_dt i);
          if aret ready =? 0 then raise (OSError EIO)
          else
            err ← py_call (adc_channel_setup_dt i);
            if aret err <? 0 then raise (OSError EINVAL) else mret (AdcObj i dev_name)
      end
  end.

(** The sample is 16 bits wide. *)
Definition zephyr_adc_read (i : Z) : mm unit Z :=
  err ← py_call (adc_sequence_init_dt i);
  if aret err <? 0 then raise (OSError 95)
  else
    r ← py_call (adc_read_dt i);
    if aret r <? 0 then raise (OSError EIO) else mret (u16 (out0 0 r)).

(** [raw << (16 - bits) | raw >> (2 * bits - 16)]; a negative shift is
    undefined. *)
Definition scale_u16 (raw bits : Z) : res Z :=
  if (16 - bits <? 0) || (2 * bits - 16 <? 0) then Stop UB
  else Ok (Z.lor (u32 (Z.shiftl raw (16 - bits))) (Z.shiftr raw (2 * bits - 16))).

Definition mp_machine_adc_read_u16 (o : machine_adc_obj_t) : mm unit Z :=
  raw ← zephyr_adc_read (spec o);
  let bits := resolution (nth (Z.to_nat (spec o)) adc_channels (Spec 0 0 0)) in
  py_lift (reads (fun _ => scale_u16 raw bits)).

Definition mp_machine_adc_read_uv (o : machine_adc_obj_t) : mm unit Z :=
  raw ← zephyr_adc_read (spec o);
  r ← py_call (adc_raw_to_millivolts_dt (spec o) raw);
  if aret r <? 0 then raise (OSError 95) else mret (s32 (u32 (out0 raw r * 1000))).

Definition mp_machine_adc_read (o : machine_adc_obj_t) : mm unit Z := zephyr_adc_read (spec o).
End Adc.
End Adc.

(** ** machine_spi.c *)

Module Spi.
Record machine_hard_spi_obj_t := SpiObj { dev : Z; frequency : Z; operation : Z }.

Section Spi.
Context (SPI_TRANSFER_MSB : Z) (CONFIG_DEVICE_DT_METADATA : bool).
Definition DEFAULT_SPI_BAUDRATE : Z := 50000.
Definition DEFAULT_SPI_POLARITY : Z := 0.
Definition DEFAULT_SPI_PHASE : Z := 0.
Definition DEFAULT_SPI_BITS : Z := 8.
Definition SPI_LOOP : Z := 0.

(** The operation word: polarity in bit 1, phase in bit 2, loop in bit 3, first
    bit in bit 4, the word size above; the master mode and a single line are 0. *)
Definition operation_of (polarity phase bits firstbit : Z) : Z :=
  u16 (Z.lor (Z.lor (Z.lor (Z.lor (Z.shiftl polarity 1) (Z.shiftl phase 2)) (Z.shiftl SPI_LOOP 3)) (Z.shiftl firstbit 4)) (Z.shiftl bits 5)).

Definition machine_hard_spi_make_new (id : list Z) (baudrate polarity phase bits firstbit : Z) (pins_given : bool) : mm unit machine_hard_spi_obj_t :=
  d ← zephyr_device_find CONFIG_DEVICE_DT_METADATA id;
  if pins_given then raise NotImplementedError
  else mret (SpiObj d (u32 baudrate) (operation_of polarity phase bits firstbit)).

(** [(operation & ~mask) | (x << shift)] unless the argument is -1. *)
Definition set_field (mask shift x operation : Z) : Z :=
  if negb (x =? -1) then u16 (Z.lor (Z.ldiff operation mask) (Z.shiftl x shift)) else operation.

Definition machine_hard_spi_init (baudrate polarity phase bits firstbit : Z) : mm machine_hard_spi_obj_t unit :=
  py_set (fun o =>
    let baudrate := if negb (baudrate =? -1) then u32 baudrate else frequency o in
    let op := set_field 2 1 polarity (operation o) in
    let op := set_field 4 2 phase op in
    let op := if negb (bits =? -1) then u16 (Z.lor (Z.land op 31) (Z.shiftl bits 5)) else op in
    let op := set_field 16 4 firstbit op in
    SpiObj (dev o) baudrate op).

(** What the object prints: polarity, phase, bits, and whether the first bit
    is the most significant one. *)
Definition machine_hard_spi_print (o : machine_hard_spi_obj_t) : Z * Z * Z * bool :=
  (Z.shiftr (Z.land (operation o) 2) 1, Z.shiftr (Z.land (operation o) 4) 2, Z.shiftr (Z.ldiff (operation o) 31) 5,
    Z.shiftr (Z.land (operation o) 16) 4 =? SPI_TRANSFER_MSB).

(** Answers the bytes received. *)
Definition machine_hard_spi_transfer (src : list Z) : mm machine_hard_spi_obj_t (list Z) :=
  o ← py_get (fun o => o);
  r ← py_call (spi_transceive (dev o) (frequency o) (operation o) src (len src));
  if aret r <? 0 then raise (OSError (- aret r)) else mret (aout r).
End Spi.
End Spi.

(** ** machine_i2c.c *)

Module I2c.
Definition MP_MACHINE_I2C_FLAG_READ : Z := 1.
Definition MP_MACHINE_I2C_FLAG_STOP : Z := 2.
Definition MP_MACHINE_I2C_FLAG_WRITE1 : Z := 4.
Definition I2C_MSG_WRITE : Z := 0.
Definition I2C_MSG_READ : Z := 1.
Definition I2C_MSG_STOP : Z := 2.
Definition I2C_MSG_RESTART : Z := 4.

Section I2c.
Context (CONFIG_DEVICE_DT_METADATA : bool).

Definition machine_hard_i2c_make_new (id : list Z) (pins_given freq_given timeout_given : bool) : mm unit Z :=
  d ← zephyr_device_find CONFIG_DEVICE_DT_METADATA id;
  if pins_given then raise NotImplementedError
  else if freq_given then raise NotImplementedError
  else if timeout_given then raise NotImplementedError
  else mret d.

Definition flag (flags f : Z) : bool := negb (Z.land flags f =? 0).

(** Bytes dealt out to buffers of the given sizes. *)
Fixpoint split_into (bufs : list (list Z)) (data : list Z) : list (list Z) :=
  match bufs with
  | [] => []
  | b :: bufs => take (length b) data :: split_into bufs (drop (length b) data)
  end.

(** The transfer of the buffers: its result, and the buffers afterwards. A
    message is its flags, its length and the bytes to write. *)
Definition machine_hard_i2c_transfer (dev addr : Z) (bufs : list (list Z)) (flags : Z) : mm unit (Z * list (list Z)) :=
  let write1 := flag flags MP_MACHINE_I2C_FLAG_WRITE1 in
  let first := match bufs with b :: _ => b | [] => [] end in
  let rest := if write1 then tl bufs else bufs in
  if write1 && bool_decide (bufs = []) then py_fault
  else if len rest =? 0 then mret (- EINVAL, bufs)
  else if negb (flag flags MP_MACHINE_I2C_FLAG_STOP) then mret (- EINVAL, bufs)
  else
    let read := flag flags MP_MACHINE_I2C_FLAG_READ in
    let start := if write1 then I2C_MSG_RESTART else 0 in
    let msg_flags := Z.lor start (Z.lor (if read then I2C_MSG_READ else I2C_MSG_WRITE) I2C_MSG_STOP) in
    let total := len (concat rest) in
    let msg := (msg_flags, total, if read then [] else concat rest) in
    let msgs := if write1 then [(I2C_MSG_WRITE, len first, first); msg] else [msg] in
    r ← py_call (i2c_transfer dev addr msgs);
    if aret r <? 0 then mret (- EIO, bufs)
    else
      let rest := if read then split_into rest (aout r) else rest in
      mret ((if write1 then len first else 0) + total, if write1 then first :: rest else rest).
End I2c.
End I2c.

(** ** machine_wdt.c *)

Module Wdt.
(** The static object; the device is 0 for NULL. *)
Record machine_wdt_obj_t := WdtObj { wdt : Z; channel_id : Z }.
Definition wdt_default : machine_wdt_obj_t := WdtObj 0 (-1).

Section Wdt.
Context (watchdog0 WDT_OPTIONS : Z).

Definition mp_machine_wdt_make_new_instance (id timeout_ms : Z) : mm machine_wdt_obj_t unit :=
  if negb (id =? 0) then raise ValueError
  else if timeout_ms <=? 0 then raise ValueError
  else
    py_set (fun o => WdtObj watchdog0 (channel_id o));;
    ready ← py_call (device_is_ready watchdog0);
    if aret ready =? 0 then raise (OSError ENODEV)
    else
      c ← py_call (wdt_install_timeout watchdog0 (u32 timeout_ms));
      py_set (fun o => WdtObj (wdt o) (aret c));;
      if aret c <? 0 then raise (OSError (- aret c))
      else
        r ← py_call (wdt_setup watchdog0 WDT_OPTIONS);
        if aret r <? 0 then raise (OSError (- aret r)) else mret tt.

Definition mp_machine_wdt_feed : mm machine_wdt_obj_t unit :=
  o ← py_get (fun o => o);
  r ← py_call (wdt_feed (wdt o) (channel_id o));
  if aret r <? 0 then raise (OSError (- aret r)) else mret tt.
End Wdt.
End Wdt.

(** ** modzsensor.c *)

Module Sensor.
Section Sensor.
Context (CONFIG_DEVICE_DT_METADATA : bool).
(** Floating point numbers: the sum of the two parts of a value, and the parts
    of a number; and MicroPython's small integers. *)
Context {F : Type} (float_of_parts : Z -> Z -> value) (whole : F -> Z) (micros : F -> Z -> Z).
Context (MP_OBJ_NEW_SMALL_INT : Z -> value).

Definition sensor_make_new (name : list Z) : mm unit Z := zephyr_device_find CONFIG_DEVICE_DT_METADATA name.

Definition sensor_measure (dev : Z) : mm unit value :=
  st ← py_call (sensor_sample_fetch dev);
  if negb (aret st =? 0) then raise (OSError (- aret st)) else mret None_.

(** A sensor value: whole units and millionths. *)
Definition value_parts (r : answer) : Z * Z := (nth 0 (aout r) 0, nth 1 (aout r) 0).

Definition sensor_get_internal (dev channel : Z) : mm unit (Z * Z) :=
  r ← py_call (sensor_channel_get dev channel);
  if negb (aret r =? 0) then raise (OSError (- aret r)) else mret (value_parts r).
Definition sensor_attr_get_internal (dev channel attr : Z) : mm unit (Z * Z) :=
  r ← py_call (sensor_attr_get dev channel attr);
  if negb (aret r =? 0) then raise (OSError (- aret r)) else mret (value_parts r).

(** Arithmetic on [int32_t]: overflow is undefined. *)
Definition int32 (z : Z) : mm unit Z := if s32 z =? z then mret z else py_fault.
Definition micros_of (v : Z * Z) : mm unit value :=
  m ← int32 (fst v * 1000000); s ← int32 (m + snd v); mret (MP_OBJ_NEW_SMALL_INT s).
Definition millis_of (v : Z * Z) : mm unit value :=
  m ← int32 (fst v * 1000); s ← int32 (m + Z.quot (snd v) 1000); mret (MP_OBJ_NEW_SMALL_INT s).

Definition sensor_get_float (dev channel : Z) : mm unit value :=
  v ← sensor_get_internal dev channel; mret (float_of_parts (fst v) (snd v)).
Definition sensor_get_micros (dev channel : Z) : mm unit value := v ← sensor_get_internal dev channel; micros_of v.
Definition sensor_get_millis (dev channel : Z) : mm unit value := v ← sensor_get_internal dev channel; millis_of v.
Definition sensor_get_int (dev channel : Z) : mm unit value :=
  v ← sensor_get_internal dev channel; mret (MP_OBJ_NEW_SMALL_INT (fst v)).

Definition sensor_attr_get_float (dev channel attr : Z) : mm unit value :=
  v ← sensor_attr_get_internal dev channel attr; mret (float_of_parts (fst v) (snd v)).
Definition sensor_attr_get_micros (dev channel attr : Z) : mm unit value := v ← sensor_attr_get_internal dev channel attr; micros_of v.
Definition sensor_attr_get_millis (dev channel attr : Z) : mm unit value := v ← sensor_attr_get_internal dev channel attr; millis_of v.
Definition sensor_attr_get_int (dev channel attr : Z) : mm unit value :=
  v ← sensor_attr_get_internal dev channel attr; mret (MP_OBJ_NEW_SMALL_INT (fst v)).

(** One float argument or two integers. *)
Definition mp_sensor_attr_set (dev channel attr : Z) (arg : F + Z * Z) : mm unit value :=
  let '(val1, val2) := match arg with inl v => (whole v, micros v (whole v)) | inr v => v end in
  st ← py_call (sensor_attr_set dev channel attr val1 val2);
  if negb (aret st =? 0) then raise (OSError (- aret st)) else mret None_.
End Sensor.
End Sensor.
