(* ===== verification/MachineThm.v ===== *)
(** Theorems on the peripherals of Machine: the duty cycle PWM really gets, the
    scaling of analog samples, the fields of the SPI operation word, I2C reads
    into several buffers, and when a sensor value fits. *)

From S2P Require Import Prelude Py Machine.

(** ** PWM *)

Section PwmThm.
Import Pwm.

Lemma configure_runs o tr out :
  freq o <> 0 -> freq o <> VALUE_NOT_SET -> (duty_u16 o <> VALUE_NOT_SET \/ duty_ns o <> VALUE_NOT_SET) ->
  runs (configure_pwm o) tr out ->
  let period := NSEC_PER_SEC / u32 (freq o) in
  let pulse := pulse_of o period in
  (exists r, tr = [(pwm_set (pwm o) (channel o) period pulse (flags o), r)]) /\ out = Ok (Val tt, set_duty_ns pulse o).
Proof.
  intros Hf Hf1 Hd Hr period pulse. unfold configure_pwm in Hr.
  rewrite (py_bind_val (py_get _)) with (a := o) (s' := o) in Hr by done.
  erewrite (py_bind_val (period_of _)) in Hr by (unfold period_of; by rewrite (proj2 (Z.eqb_neq (freq o) 0) Hf)).
  fold period in Hr. rewrite (proj2 (Z.eqb_neq (freq o) _) Hf1), orb_false_r in Hr.
  replace ((duty_u16 o =? VALUE_NOT_SET) && (duty_ns o =? VALUE_NOT_SET)) with false in Hr.
  2:{ symmetry. apply andb_false_iff. rewrite !Z.eqb_neq. tauto. }
  erewrite (py_bind_val (py_set _)) in Hr by reflexivity. fold pulse in Hr.
  apply runs_call_inv in Hr as (r & tr' & -> & Hr). apply runs_ret_inv in Hr as [-> ->]. by split; [exists r|].
Qed.

(** The wrapped product never exceeds the period. *)
Lemma pulse_bounds d period :
  0 <= d <= UINT16_MAX -> 0 <= period ->
  let pulse := (d * period) mod 2 ^ 32 / UINT16_MAX in
  0 <= pulse <= period /\ pulse < 2 ^ 31 /\ (d * period < 2 ^ 32 -> pulse = d * period / UINT16_MAX).
Proof.
  intros Hd Hp pulse. unfold UINT16_MAX in *. pose proof (Z.mod_pos_bound (d * period) (2 ^ 32) ltac:(lia)) as Hm.
  assert (H0 : 0 <= pulse) by (apply Z.div_pos; lia).
  assert (Hmax : pulse <= 65537) by (apply Z.div_le_upper_bound; lia).
  assert (He : d * period < 2 ^ 32 -> pulse = d * period / 65535) by (intros H; unfold pulse; rewrite Z.mod_small; [done | nia]).
  split_and!; try done; [|lia]. destruct (decide (d * period < 2 ^ 32)) as [Hlt|Hge].
  - rewrite He by done. apply Z.div_le_upper_bound; nia.
  - nia.
Qed.

(** C32: With a positive frequency and a 16-bit duty, [configure_pwm] sets a
    period of 10^9 / freq and a pulse of at most the period; the pulse is the
    asked share of the period exactly as long as the product duty * period
    fits in 32 bits, and is computed from the wrapped product otherwise. The
    width is stored in place of the duty: a later change of the frequency alone,
    to a positive one, sets the same width, or the whole period when that is
    shorter. *)
Theorem pwm_duty o d tr out :
  0 < freq o < 2 ^ 31 -> 0 <= d <= UINT16_MAX -> duty_u16 o = d -> duty_ns o = VALUE_NOT_SET ->
  runs (configure_pwm o) tr out ->
  let period := NSEC_PER_SEC / freq o in
  let pulse := (d * period) mod 2 ^ 32 / UINT16_MAX in
  (exists r, tr = [(pwm_set (pwm o) (channel o) period pulse (flags o), r)]) /\
  out = Ok (Val tt, set_duty_ns pulse o) /\
  0 <= pulse <= period /\
  (d * period < 2 ^ 32 -> pulse = d * period / UINT16_MAX) /\
  forall f tr' out', 0 < f < 2 ^ 31 ->
    runs (mp_machine_pwm_freq_set f (set_duty_ns pulse o)) tr' out' ->
    exists r, tr' = [(pwm_set (pwm o) (channel o) (NSEC_PER_SEC / f) (Z.min pulse (NSEC_PER_SEC / f)) (flags o), r)].
Proof.
  intros Hf Hd Hdu Hns Hr period pulse.
  assert (Hu : forall f, 0 < f < 2 ^ 31 -> u32 f = f) by (intros; apply u32_id; lia).
  assert (Hp : 0 <= period) by (apply Z.div_pos; unfold NSEC_PER_SEC; lia).
  destruct (pulse_bounds d period Hd Hp) as (Hb & H31 & He).
  assert (Epulse : pulse_of o period = pulse).
  { unfold pulse_of. rewrite Hns, Hdu. change (VALUE_NOT_SET =? VALUE_NOT_SET) with true. cbv iota.
    rewrite (u32_id d) by (unfold UINT16_MAX in *; lia). change (u32 (d * period)) with ((d * period) mod 2 ^ 32). fold pulse.
    rewrite s32_id by lia. repeat case_test; lia. }
  apply configure_runs in Hr; [|lia | unfold VALUE_NOT_SET; lia | left; unfold VALUE_NOT_SET; lia].
  rewrite Hu in Hr by done. fold period in Hr. rewrite Epulse in Hr. destruct Hr as [Htr Hout].
  split_and!; try done; try lia. intros f tr' out' Hf' Hr. unfold mp_machine_pwm_freq_set in Hr.
  rewrite (py_bind_val (py_set _)) with (a := tt) (s' := set_freq f (set_duty_ns pulse o)) in Hr by (unfold py_set; by rewrite s32_id by lia).
  apply configure_runs in Hr; cbn [freq set_freq set_duty_ns duty_u16 duty_ns] in *;
    [|lia | unfold VALUE_NOT_SET; lia | right; unfold VALUE_NOT_SET; lia].
  rewrite Hu in Hr by done. destruct Hr as [Htr' _]. replace (pulse_of _ _) with (Z.min pulse (NSEC_PER_SEC / f)) in Htr'; [exact Htr'|].
  assert (Hpf : 0 <= NSEC_PER_SEC / f) by (apply Z.div_pos; unfold NSEC_PER_SEC; lia).
  unfold pulse_of. cbn [duty_ns set_freq set_duty_ns]. unfold VALUE_NOT_SET.
  rewrite (proj2 (Z.eqb_neq pulse (-1))) by lia. repeat case_test; lia.
Qed.
End PwmThm.

(** A 75 % duty at 20 kHz fits; at 1 kHz the same duty becomes about 3 %. *)
Definition pwm_env (_ : list (mcall * answer)) (_ : mcall) : answer := Answer 0 [].
Definition pwm_at (f d : Z) : Pwm.machine_pwm_obj_t := Pwm.Pwm 7 1 f d (-1) 0.
Definition pwm_run (f d : Z) := run pwm_env (Pwm.configure_pwm (pwm_at f d)) [].

Lemma pwm_duty_witness :
  let o := pwm_at 20000 49152 in
  (exists r, snd (pwm_run 20000 49152) = [(pwm_set 7 1 50000 37500 0, r)]) /\
  fst (pwm_run 20000 49152) = Ok (Val tt, Pwm.set_duty_ns 37500 o) /\
  0 <= 37500 <= 50000 /\ (49152 * 50000 < 2 ^ 32 -> 37500 = 49152 * 50000 / UINT16_MAX) /\
  forall f tr' out', 0 < f < 2 ^ 31 ->
    runs (Pwm.mp_machine_pwm_freq_set f (Pwm.set_duty_ns 37500 o)) tr' out' ->
    exists r, tr' = [(pwm_set 7 1 (Pwm.NSEC_PER_SEC / f) (Z.min 37500 (Pwm.NSEC_PER_SEC / f)) 0, r)].
Proof.
  refine (pwm_duty (pwm_at 20000 49152) 49152 (snd (pwm_run 20000 49152)) (fst (pwm_run 20000 49152)) _ _ eq_refl eq_refl _).
  - by_decide.
  - by_decide.
  - apply (run_runs _ pwm_env). unfold pwm_run. apply surjective_pairing.
Defined.

Example pwm_duty_wraps : map fst (snd (pwm_run 1000 49152)) = [pwm_set 7 1 1000000 29104 0].
Proof. reflexivity. Qed.
(** A frequency of 0 divides by zero. *)
Example pwm_zero_frequency : fst (run pwm_env (Pwm.mp_machine_pwm_freq_set 0 (pwm_at 1000 5)) []) = Stop UB.
Proof. reflexivity. Qed.

(** ** Analog input *)

(** The scaled sample keeps the raw bits on top, stays within 16 bits, takes
    full scale to full scale and preserves the order. *)
Lemma adc_scaling raw bits :
  8 <= bits <= 16 -> 0 <= raw < 2 ^ bits ->
  exists v, Adc.scale_u16 raw bits = Ok v /\ 0 <= v <= UINT16_MAX /\ v / 2 ^ (16 - bits) = raw /\
    v = raw * 2 ^ (16 - bits) + raw / 2 ^ (2 * bits - 16) /\ (raw = 2 ^ bits - 1 -> v = UINT16_MAX).
Proof.
  intros Hb Hr. unfold Adc.scale_u16. rewrite (proj2 (Z.ltb_ge (16 - bits) 0)), (proj2 (Z.ltb_ge (2 * bits - 16) 0)) by lia. cbn [orb].
  set (hi := 2 ^ (16 - bits)). set (lo := raw / 2 ^ (2 * bits - 16)).
  assert (E16 : 2 ^ bits * hi = 2 ^ 16) by (unfold hi; rewrite <- Z.pow_add_r by lia; f_equal; lia).
  assert (Hsplit : 2 ^ bits = hi * 2 ^ (2 * bits - 16)) by (unfold hi; rewrite <- Z.pow_add_r by lia; f_equal; lia).
  assert (Hhi : 0 < hi) by (apply Z.pow_pos_nonneg; lia).
  assert (Hlo : 0 <= lo < hi).
  { split; [apply Z.div_pos; [lia | apply Z.pow_pos_nonneg; lia]|]. apply Z.div_lt_upper_bound; [apply Z.pow_pos_nonneg; lia|]. rewrite Z.mul_comm, <- Hsplit. lia. }
  rewrite Z.shiftl_mul_pow2, Z.shiftr_div_pow2 by lia. fold hi lo. rewrite u32_id by nia.
  unfold hi at 1. rewrite lor_shift_add by (fold hi; lia). fold hi.
  eexists. split; [done|]. unfold UINT16_MAX. split_and!; [nia | nia | | done |].
  - rewrite Z.div_add_l by lia. rewrite (Z.div_small lo hi) by lia. lia.
  - intros ->. replace lo with (hi - 1); [nia|]. unfold lo. apply Z.div_unique with (r := 2 ^ (2 * bits - 16) - 1);
      [pose proof (Z.pow_pos_nonneg 2 (2 * bits - 16)); lia | nia].
Qed.

(** ** I2C *)

(** Reading into several buffers deals the bytes of one transfer out in order. *)
Lemma split_into_concat bufs data :
  length data = length (concat bufs) ->
  concat (I2c.split_into bufs data) = data /\ map length (I2c.split_into bufs data) = map length bufs.
Proof.
  revert data. induction bufs as [|b bufs IH]; intros data Hl; cbn in *; [by destruct data|].
  rewrite length_app in Hl. destruct (IH (drop (length b) data)) as [E1 E2]; [rewrite length_drop; lia|].
  rewrite E1, E2, take_drop. split; [done|]. f_equal. rewrite length_take. lia.
Qed.

(** ** Sensors *)

Section SensorThm.
Context (MP_OBJ_NEW_SMALL_INT : Z -> value).
(** A small integer has 31 bits; this is all that is asked of the encoding. *)
Hypothesis small_int : forall z, - 2 ^ 30 <= z < 2 ^ 30 -> MP_OBJ_NEW_SMALL_INT z = Int z.

(** Millionths are exact up to 1072 units, and undefined from 2148 on. *)
Lemma micros_range val1 val2 :
  -1000000 < val2 < 1000000 ->
  (-1072 <= val1 <= 1072 -> Sensor.micros_of MP_OBJ_NEW_SMALL_INT (val1, val2) tt = Ret (Val (Int (val1 * 1000000 + val2)), tt)) /\
  (2148 <= Z.abs val1 -> Sensor.micros_of MP_OBJ_NEW_SMALL_INT (val1, val2) tt = Halt UB).
Proof.
  intros H2. unfold Sensor.micros_of, Sensor.int32. cbn [fst snd]. split; intros H1.
  - rewrite !s32_id by lia. rewrite Z.eqb_refl. erewrite py_bind_val by reflexivity.
    rewrite s32_id by lia. rewrite Z.eqb_refl. erewrite py_bind_val by reflexivity. by rewrite small_int by lia.
  - case_test; [|done]. pose proof (s32_range (val1 * 1000000)). lia.
Qed.
End SensorThm.

(** ** SPI *)

Lemma print_word MSB d f bits c :
  0 <= bits -> 0 <= c < 32 ->
  Spi.machine_hard_spi_print MSB (Spi.SpiObj d f (bits * 2 ^ 5 + c)) =
    (Z.shiftr (Z.land c 2) 1, Z.shiftr (Z.land c 4) 2, bits, Z.shiftr (Z.land c 16) 4 =? MSB).
Proof.
  intros Hb Hc. unfold Spi.machine_hard_spi_print. cbn [Spi.operation].
  assert (Hm : forall m, Z.land m 31 = m -> Z.land (bits * 2 ^ 5 + c) m = Z.land c m).
  { intros m Hm. rewrite <- Hm, !(Z.land_comm m), !Z.land_assoc. f_equal. change 31 with (Z.ones 5).
    rewrite !Z.land_ones by lia. rewrite Z.add_comm, Z.mod_add by lia. done. }
  rewrite !Hm by done. rewrite Z.shiftr_ldiff. change (Z.shiftr 31 5) with 0. rewrite Z.ldiff_0_r, (Z.shiftr_div_pow2 _ 5) by lia.
  rewrite Z.div_add_l by lia. rewrite (Z.div_small c) by lia. by rewrite Z.add_0_r.
Qed.

(** An SPI object prints the polarity, phase and word size it was made with;
    its first bit is printed as MSB exactly when the argument was 0. *)
Lemma spi_print_roundtrip d f polarity phase bits firstbit :
  0 <= polarity <= 1 -> 0 <= phase <= 1 -> 0 <= firstbit <= 1 -> 0 <= bits < 2 ^ 11 ->
  Spi.machine_hard_spi_print 0 (Spi.SpiObj d f (Spi.operation_of polarity phase bits firstbit)) =
    (polarity, phase, bits, firstbit =? 0).
Proof.
  intros Hp Hh Hf Hb.
  assert (E : Spi.operation_of polarity phase bits firstbit = bits * 2 ^ 5 + (2 * polarity + 4 * phase + 16 * firstbit)).
  { unfold Spi.operation_of. rewrite Z.lor_comm, Z.shiftl_mul_pow2 by lia.
    assert (polarity = 0 \/ polarity = 1) as [-> | ->] by lia; assert (phase = 0 \/ phase = 1) as [-> | ->] by lia;
      assert (firstbit = 0 \/ firstbit = 1) as [-> | ->] by lia;
      (rewrite lor_shift_add; [apply u16_id; cbn -[Z.mul Z.add]; lia | lia | by_decide]). }
  rewrite E, print_word by lia.
  assert (polarity = 0 \/ polarity = 1) as [-> | ->] by lia; assert (phase = 0 \/ phase = 1) as [-> | ->] by lia;
    by assert (firstbit = 0 \/ firstbit = 1) as [-> | ->] by lia.
Qed.

(** SPI.LSB is Zephyr's SPI_TRANSFER_LSB, bit 4 already, which the code shifts
    by 4 again: with 8 bits it changes nothing. *)
Example spi_lsb_lost : Spi.operation_of 0 0 8 16 = Spi.operation_of 0 0 8 0.
Proof. reflexivity. Qed.
