(* ===== verification/Timer.v ===== *)
(** app/micropython/machine_timer.c and machine_pin.c: the timers and the pin
    interrupts, which the port keeps in linked lists. *)

From S2P Require Import Prelude Py.

(** ** machine_timer.c *)

Module Timer.
Inductive machine_timer_mode_t := TIMER_MODE_ONE_SHOT | TIMER_MODE_PERIODIC.
#[export] Instance mode_dec : EqDecision machine_timer_mode_t.
Proof. solve_decision. Defined.
Definition TIMER_MS_PER_TICK : Z := 1000.

Inductive tcall :=
  | k_timer_init (timer : Z)
  | k_timer_user_data_set (timer : Z)
  | k_timer_start (timer duration period : Z)
  | k_timer_stop (timer : Z)
  | k_timer_remaining_ticks (timer : Z)
  | k_ticks_to_ms_near32 (ticks : Z)
  | mp_irq_dispatch (callback self : Z) (ishard : bool)
  | mp_obj_malloc_with_finaliser.

Record machine_timer_obj_t := TimerObj { mode : machine_timer_mode_t; period_ms : Z; callback : Z; ishard : bool }.
Definition set_mode m t := TimerObj m (period_ms t) (callback t) (ishard t).

(** The timer objects, and [machine_timer_obj_head] as the list its [next]
    pointers make. *)
Record timers := Timers { objs : gmap Z machine_timer_obj_t; head : list Z }.
Definition set_objs x s := Timers x (head s).
Definition set_head x s := Timers (objs s) x.

Local Abbreviation tm A := (py tcall answer timers A).

Section Timer.
(** The conversion of a frequency to a period in milliseconds, in floating
    point; and what the memory of a new object holds. *)
Context {F : Type} (period_of_freq : F -> res Z) (fresh : machine_timer_obj_t).

Definition timer (p : Z) : tm machine_timer_obj_t := fun s =>
  match objs s !! p with Some t => Ret (Val t, s) | None => Halt UB end.

(** The loop that unlinks a node, the first one found. *)
Fixpoint unlink (self : Z) (l : list Z) : list Z :=
  match l with
  | [] => []
  | p :: next => if p =? self then next else p :: unlink self next
  end.

Definition machine_timer_deinit (self : Z) : tm value :=
  py_call (k_timer_stop self);;
  py_set (fun s => set_head (unlink self (head s)) s);;
  mret None_.

Definition machine_timer_callback (self : Z) : tm unit :=
  t ← timer self;
  r ← py_call (mp_irq_dispatch (callback t) self (ishard t));
  (if aret r <? 0 then py_set (fun s => set_objs (alter (set_mode TIMER_MODE_ONE_SHOT) self (objs s)) s) else mret tt);;
  t ← timer self;
  if bool_decide (mode t = TIMER_MODE_ONE_SHOT) then machine_timer_deinit self;; mret tt else mret tt.

(** The parsed arguments: mode, callback, period, frequency and hardness. *)
Definition init_args : Type := machine_timer_mode_t * Z * Z * option F * bool.

(** Parsing the arguments may raise. *)
Definition machine_timer_init_helper (self : Z) (args : py_res init_args) : tm value :=
  match args with
  | Raise e => raise e
  | Val (m, cb, period, freq, hard) =>
      p ← match freq with
          | Some f => py_lift (reads (fun _ => period_of_freq f))
          | None => mret (u32 period)
          end;
      py_set (fun s => set_objs (<[self := TimerObj m (u32 p) cb hard]> (objs s)) s);;
      py_call (k_timer_init self);;
      py_call (k_timer_user_data_set self);;
      py_call (k_timer_start self (u32 p) (u32 p));;
      mret None_
  end.

Definition machine_timer_make_new (id : Z) (args : option (py_res init_args)) : tm value :=
  if negb (id =? -1) then raise ValueError
  else
    a ← py_call mp_obj_malloc_with_finaliser;
    py_set (fun s => Timers (<[aret a := fresh]> (objs s)) (aret a :: head s));;
    match args with
    | Some args => machine_timer_init_helper (aret a) args;; mret (Obj (aret a))
    | None => mret (Obj (aret a))
    end.

Definition machine_timer_init (self : Z) (args : py_res init_args) : tm value := machine_timer_init_helper self args.

Definition machine_timer_value (self : Z) : tm value :=
  t ← py_call (k_timer_remaining_ticks self);
  ms ← py_call (k_ticks_to_ms_near32 (aret t));
  mret (Int (aret ms)).
End Timer.
End Timer.

(** ** machine_pin.c *)

Module Pin.
Inductive pcall :=
  | gpio_pin_configure (port pin flags : Z)
  | gpio_pin_get_raw (port pin : Z)
  | gpio_pin_set_raw (port pin value : Z)
  | gpio_pin_interrupt_configure (port pin flags : Z)
  | gpio_init_callback (irq mask : Z)
  | gpio_add_callback (port irq : Z)
  | gpio_remove_callback (port irq : Z)
  | gpio_get_pending_int (port : Z)
  | zephyr_device (name : list Z)          (* finds a device, 0 for none *)
  | mp_irq_handler (irq : Z)
  | m_new_obj.

(** A pin object; [irq] is 0 for NULL. *)
Record machine_pin_obj_t := PinObj { port : Z; pin : Z; irq : Z }.
(** An interrupt object; [parent] is a pin object. *)
Record machine_pin_irq_obj_t := IrqObj { parent : Z; handler : option Z; ishard : bool }.

Record pins := Pins { objs : gmap Z machine_pin_obj_t; irqs : gmap Z machine_pin_irq_obj_t; irq_list : list Z }.
Definition set_objs x s := Pins x (irqs s) (irq_list s).
Definition set_irqs x s := Pins (objs s) x (irq_list s).
Definition set_irq_list x s := Pins (objs s) (irqs s) x.

Local Abbreviation pm A := (py pcall answer pins A).

Section Pin.
Context (GPIO_INT_DISABLE GPIO_OUTPUT GPIO_INPUT GPIO_OUTPUT_INIT_HIGH GPIO_OUTPUT_INIT_LOW MP_PIN_READ MP_PIN_WRITE MP_IRQ_INFO_FLAGS : Z).

Definition the_pin (p : Z) : pm machine_pin_obj_t := fun s =>
  match objs s !! p with Some o => Ret (Val o, s) | None => Halt UB end.
Definition the_irq (p : Z) : pm machine_pin_irq_obj_t := fun s =>
  match irqs s !! p with Some o => Ret (Val o, s) | None => Halt UB end.

Fixpoint disable_all (l : list Z) : pm unit :=
  match l with
  | [] => mret tt
  | i :: l =>
      o ← the_irq i;
      p ← the_pin (parent o);
      py_call (gpio_pin_interrupt_configure (port p) (pin p) GPIO_INT_DISABLE);;
      py_call (gpio_remove_callback (port p) i);;
      disable_all l
  end.
Definition machine_pin_deinit : pm unit :=
  l ← py_get irq_list; disable_all l;; py_set (set_irq_list []).

Definition gpio_callback_handler (irq : Z) : pm unit := py_call (mp_irq_handler irq);; mret tt.

Definition machine_pin_obj_init_helper (self mode : Z) (pull : option Z) (v : option bool) : pm value :=
  o ← the_pin self;
  let mode := u32 mode in
  let pull := u32 (default 0 pull) in
  let init := match v with Some true => GPIO_OUTPUT_INIT_HIGH | Some false => GPIO_OUTPUT_INIT_LOW | None => 0 end in
  r ← py_call (gpio_pin_configure (port o) (pin o) (Z.lor (Z.lor mode pull) init));
  ret ← (if (aret r =? - ENOTSUP) && (mode =? Z.lor GPIO_OUTPUT GPIO_INPUT) then
           r ← py_call (gpio_pin_configure (port o) (pin o) (Z.lor (Z.lor GPIO_OUTPUT pull) init)); mret (aret r)
         else mret (aret r));
  if negb (ret =? 0) then raise ValueError else mret None_.

(** The constructor's argument: a pin object, a (port, pin) pair, or neither. *)
Inductive pin_arg := A_pin (p : Z) | A_pair (name : list Z) (n : Z) | Something_else.

Definition mp_pin_make_new (arg : pin_arg) (args : option (Z * option Z * option bool)) : pm value :=
  p ← match arg with
      | A_pin p => mret p
      | Something_else => raise ValueError
      | A_pair name n =>
          d ← py_call (zephyr_device name);
          if aret d =? 0 then raise ValueError
          else
            a ← py_call m_new_obj;
            py_set (fun s => set_objs (<[aret a := PinObj (aret d) (u32 n) 0]> (objs s)) s);;
            mret (aret a)
      end;
  match args with
  | Some (mode, pull, v) => machine_pin_obj_init_helper p mode pull v;; mret (Obj p)
  | None => mret (Obj p)
  end.

(** Reading without an argument, writing with one. *)
Definition machine_pin_call (self : Z) (v : option bool) : pm value :=
  o ← the_pin self;
  match v with
  | None => r ← py_call (gpio_pin_get_raw (port o) (pin o)); mret (Int (aret r))
  | Some b => py_call (gpio_pin_set_raw (port o) (pin o) (if b then 1 else 0));; mret None_
  end.
Definition machine_pin_obj_init (self mode : Z) (pull : option Z) (v : option bool) : pm value := machine_pin_obj_init_helper self mode pull v.
Definition machine_pin_value (self : Z) (v : option bool) : pm value := machine_pin_call self v.
Definition machine_pin_off (self : Z) : pm value :=
  o ← the_pin self; py_call (gpio_pin_set_raw (port o) (pin o) 0);; mret None_.
Definition machine_pin_on (self : Z) : pm value :=
  o ← the_pin self; py_call (gpio_pin_set_raw (port o) (pin o) 1);; mret None_.

(** The interrupt object of the same port and pin, 0 when there is none. *)
Fixpoint find_irq (o : machine_pin_obj_t) (l : list Z) : pm Z :=
  match l with
  | [] => mret 0
  | i :: l =>
      q ← the_irq i;
      p ← the_pin (parent q);
      if (port p =? port o) && (pin p =? pin o) then mret i else find_irq o l
  end.

(** [BIT(pin)] is undefined from the 32nd pin on. *)
Definition new_irq (self : Z) (o : machine_pin_obj_t) : pm Z :=
  a ← py_call m_new_obj;
  py_set (fun s => set_irqs (<[aret a := IrqObj self None false]> (irqs s)) s);;
  (if pin o <? 32 then mret tt else py_fault);;
  py_call (gpio_init_callback (aret a) (2 ^ pin o));;
  r ← py_call (gpio_add_callback (port o) (aret a));
  if negb (aret r =? 0) then raise (OSError (- aret r))
  else py_set (fun s => set_irq_list (aret a :: irq_list s) s);; mret (aret a).

(** The pin's interrupt object, found or made. *)
Definition irq_object (self : Z) (o : machine_pin_obj_t) : pm Z :=
  if irq o =? 0 then
    l ← py_get irq_list;
    found ← find_irq o l;
    i ← (if found =? 0 then new_irq self o else mret found);
    py_set (fun s => set_objs (<[self := PinObj (port o) (pin o) i]> (objs s)) s);;
    mret i
  else mret (irq o).

(** Setting the handler up when any argument was given: the handler, the
    trigger and the hardness. *)
Definition configure_irq (o : machine_pin_obj_t) (i : Z) (args : option (option Z * Z * bool)) : pm value :=
  match args with
  | None => mret (Obj i)
  | Some (h, trigger, hard) =>
      r ← py_call (gpio_pin_interrupt_configure (port o) (pin o) GPIO_INT_DISABLE);
      if negb (aret r =? 0) then raise (OSError (- aret r))
      else
        q ← the_irq i;
        py_set (fun s => set_irqs (<[i := IrqObj (parent q) h hard]> (irqs s)) s);;
        match h with
        | None => mret (Obj i)
        | Some _ =>
            r ← py_call (gpio_pin_interrupt_configure (port o) (pin o) trigger);
            if negb (aret r =? 0) then raise (OSError (- aret r)) else mret (Obj i)
        end
  end.

Definition machine_pin_irq (self : Z) (args : option (option Z * Z * bool)) : pm value :=
  o ← the_pin self; i ← irq_object self o; configure_irq o i args.

Definition machine_pin_ioctl (self request arg : Z) : pm Z :=
  o ← the_pin self;
  if request =? MP_PIN_READ then r ← py_call (gpio_pin_get_raw (port o) (pin o)); mret (u32 (aret r))
  else if request =? MP_PIN_WRITE then r ← py_call (gpio_pin_set_raw (port o) (pin o) arg); mret (u32 (aret r))
  else mret (u32 (-1)).

Definition machine_pin_irq_trigger (self new_trigger : Z) : pm Z :=
  o ← the_pin self;
  r ← py_call (gpio_pin_interrupt_configure (port o) (pin o) (if new_trigger =? 0 then GPIO_INT_DISABLE else new_trigger));
  if negb (aret r =? 0) then raise (OSError (- aret r)) else mret 0.

Definition machine_pin_irq_info (self info_type : Z) : pm Z :=
  o ← the_pin self;
  if info_type =? MP_IRQ_INFO_FLAGS then r ← py_call (gpio_get_pending_int (port o)); mret (u32 (aret r)) else mret 0.
End Pin.
End Pin.
