(* ===== verification/TimerThm.v ===== *)
(** Theorems on the pin interrupts of machine_pin.c and the timers of
    machine_timer.c: the lists the port keeps. *)

From S2P Require Import Prelude Py Timer.

Module PinThm.
Import Pin.
Implicit Types (s : pins) (o : machine_pin_obj_t).
Local Abbreviation pm A := (py pcall answer pins A).

(** The port and pin an interrupt object serves. *)
Definition key_of s (i : Z) : option (Z * Z) :=
  q ← irqs s !! i; o ← objs s !! parent q; Some (port o, pin o).

(** The listed interrupt objects serve different pins, and a pin object that
    knows its interrupt object knows a listed one that serves it. *)
Record good s (keys : list (Z * Z)) : Prop := Good {
  good_keys : map (key_of s) (irq_list s) = map Some keys;
  good_distinct : NoDup keys;
  good_nonzero : 0 ∉ irq_list s;
  good_irq p o : objs s !! p = Some o -> irq o <> 0 -> irq o ∈ irq_list s /\ key_of s (irq o) = Some (port o, pin o)
}.

Lemma the_pin_ok s p o : objs s !! p = Some o -> the_pin p s = Ret (Val o, s).
Proof. intros E. unfold the_pin. by rewrite E. Qed.
Lemma the_irq_ok s i q : irqs s !! i = Some q -> the_irq i s = Ret (Val q, s).
Proof. intros E. unfold the_irq. by rewrite E. Qed.

Lemma key_of_inv s i k : key_of s i = Some k ->
  exists q o, irqs s !! i = Some q /\ objs s !! parent q = Some o /\ k = (port o, pin o).
Proof.
  unfold key_of, mbind, option_bind. destruct (irqs s !! i) as [q|] eqn:Eq; [|done]. destruct (objs s !! parent q) as [o|] eqn:Eo; [|done].
  intros [= <-]. eauto 10.
Qed.

(** The search answers the listed object that serves the pin, or 0. *)
Lemma find_irq_runs s o l keys :
  map (key_of s) l = map Some keys ->
  exists i, find_irq o l s = Ret (Val i, s) /\
    (i = 0 /\ (port o, pin o) ∉ keys \/ i ∈ l /\ key_of s i = Some (port o, pin o)).
Proof.
  revert keys. induction l as [|i l IH]; intros [|k keys] Hk; cbn [map] in Hk; try done.
  { exists 0. split; [done|]. left. split; [done | by apply not_elem_of_nil]. }
  injection Hk as Ek Hk. destruct (key_of_inv s i k Ek) as (q & o' & Eq & Eo & ->). cbn [find_irq].
  rewrite (py_bind_val (the_irq i)) with (a := q) (s' := s) by by apply the_irq_ok.
  rewrite (py_bind_val (the_pin (parent q))) with (a := o') (s' := s) by by apply the_pin_ok.
  destruct ((port o' =? port o) && (pin o' =? pin o)) eqn:E; zify_bool.
  - assert (port o' = port o /\ pin o' = pin o) as [E1 E2] by lia. rewrite E1, E2 in Ek. exists i. split; [done|]. right. split; [by left | done].
  - destruct (IH keys Hk) as (j & -> & Hj). exists j. split; [done|]. destruct Hj as [[-> Hj]|[Hj Hk']].
    + left. split; [done|]. intros [Hx|Hx]%elem_of_cons; [|done]. injection Hx as Hx1 Hx2. lia.
    + right. split; [by right | done].
Qed.

(** Updates that leave the served pins alone. *)
Lemma key_of_irq s i q h hard j : irqs s !! i = Some q ->
  key_of (set_irqs (<[i := IrqObj (parent q) h hard]> (irqs s)) s) j = key_of s j.
Proof.
  intros Eq. unfold key_of. cbn [irqs objs set_irqs]. destruct (decide (i = j)) as [->|Hne].
  - rewrite lookup_insert_eq, Eq. done.
  - by rewrite lookup_insert_ne.
Qed.
Lemma key_of_pin s p o i j : objs s !! p = Some o ->
  key_of (set_objs (<[p := PinObj (port o) (pin o) i]> (objs s)) s) j = key_of s j.
Proof.
  intros Eo. unfold key_of. cbn [irqs objs set_objs]. destruct (irqs s !! j) as [q|]; [|done]. cbn.
  destruct (decide (p = parent q)) as [->|Hne]; [by rewrite lookup_insert_eq, Eo | by rewrite lookup_insert_ne].
Qed.

Lemma good_set_irq s keys i q h hard : irqs s !! i = Some q -> good s keys ->
  good (set_irqs (<[i := IrqObj (parent q) h hard]> (irqs s)) s) keys.
Proof.
  intros Eq [Hk Hd H0 Hi]. split; cbn [irq_list objs set_irqs]; try done.
  - rewrite <- Hk. apply map_ext. intros j. by apply key_of_irq.
  - intros p o Eo Hne. rewrite key_of_irq by done. by apply (Hi p).
Qed.

Lemma good_set_pin s keys p o i : objs s !! p = Some o -> i ∈ irq_list s -> key_of s i = Some (port o, pin o) -> good s keys ->
  good (set_objs (<[p := PinObj (port o) (pin o) i]> (objs s)) s) keys.
Proof.
  intros Eo Hin Ei [Hk Hd H0 Hi]. split; cbn [irq_list objs set_objs]; try done.
  - rewrite <- Hk. apply map_ext. intros j. by apply key_of_pin.
  - intros p' o' Eo' Hne. rewrite key_of_pin by done. destruct (decide (p = p')) as [<-|Hp].
    + rewrite lookup_insert_eq in Eo'. injection Eo' as <-. done.
    + rewrite lookup_insert_ne in Eo' by done. by apply (Hi p').
Qed.

(** A fresh interrupt object, unlisted and then listed. *)
Definition fresh s (a : Z) : Prop := a <> 0 /\ irqs s !! a = None.

Lemma good_unlisted s keys a self : fresh s a -> good s keys -> good (set_irqs (<[a := IrqObj self None false]> (irqs s)) s) keys.
Proof.
  intros [Ha Hf] [Hk Hd H0 Hi].
  assert (Hsame : forall j k, key_of s j = Some k -> key_of (set_irqs (<[a := IrqObj self None false]> (irqs s)) s) j = Some k).
  { intros j k Ej. unfold key_of in *. cbn [irqs objs set_irqs]. rewrite lookup_insert_ne; [done|].
    intros ->. by rewrite Hf in Ej. }
  split; cbn [irq_list objs set_irqs]; try done.
  - clear -Hk Hsame. revert keys Hk. induction (irq_list s) as [|i l IH]; intros [|k keys] Hk; try done. cbn [map] in *.
    injection Hk as Ek Hk. rewrite (Hsame i k Ek), (IH keys Hk). done.
  - intros p o Eo Hne. destruct (Hi p o Eo Hne). eauto.
Qed.

Lemma good_listed s keys a self o : a <> 0 -> irqs s !! a = Some (IrqObj self None false) -> objs s !! self = Some o ->
  (port o, pin o) ∉ keys -> good s keys -> good (set_irq_list (a :: irq_list s) s) ((port o, pin o) :: keys).
Proof.
  intros Ha Eq Eo Hnew [Hk Hd H0 Hi].
  assert (Ek : key_of s a = Some (port o, pin o)) by (unfold key_of; rewrite Eq; cbn; by rewrite Eo).
  split; cbn [irq_list objs set_irq_list map].
  - change (map (key_of (set_irq_list _ s)) (irq_list s)) with (map (key_of s) (irq_list s)).
    change (key_of (set_irq_list _ s) a) with (key_of s a). by rewrite Ek, Hk.
  - by constructor.
  - intros [Hx|Hx]%elem_of_cons; [congruence | done].
  - intros p o' Eo' Hne. destruct (Hi p o' Eo' Hne). split; [by right | done].
Qed.

(** *** One call *)

Section PinIrq.
Context (GPIO_INT_DISABLE : Z).

(** The new interrupt object is fresh memory. *)
Definition mallocs_fresh s (tr : list (pcall * answer)) : Prop := Forall (fun e => fst e = m_new_obj -> fresh s (aret (snd e))) tr.

Definition served s o keys' i : Prop := good s keys' /\ i ∈ irq_list s /\ key_of s i = Some (port o, pin o).

Lemma new_irq_runs s keys self o :
  objs s !! self = Some o -> good s keys -> (port o, pin o) ∉ keys ->
  outcomes (new_irq self o s) (fun tr out => mallocs_fresh s tr -> match out with
    | Ok (Val i, s') => served s' o ((port o, pin o) :: keys) i /\ objs s' = objs s
    | Ok (Raise _, s') => good s' keys
    | Stop e => 32 <= pin o
    end).
Proof.
  intros Eo Hg Hnew. unfold new_irq. apply outcomes_py_call. intros a. py_step.
  set (s1 := set_irqs _ s). destruct (pin o <? 32) eqn:E; zify_bool.
  2: { apply outcomes_halt. intros _. lia. }
  repeat py_step.
  - intros Hf. apply Forall_cons in Hf as [Hf _]. apply good_unlisted; [by apply Hf | done].
  - intros Hf. apply Forall_cons in Hf as [Hf _]. specialize (Hf eq_refl). cbn [snd] in Hf.
    pose proof (good_unlisted s keys (aret a) self Hf Hg) as Hg1. destruct Hf as [Ha _].
    split; [|done]. split; [|split; [by left|]].
    + apply (good_listed s1 keys (aret a) self o); try done. apply lookup_insert_eq.
    + unfold key_of. cbn [irqs objs set_irq_list s1 set_irqs]. rewrite lookup_insert_eq. cbn. by rewrite Eo.
Qed.

(** A state after a call: what a failing one leaves, what a completing one. *)
Definition after_irq s o (tr : list (pcall * answer)) (out : res (py_res Z * pins)) : Prop :=
  mallocs_fresh s tr -> match out with
    | Ok (Val i, s') => exists keys', served s' o keys' i
    | Ok (Raise _, s') => exists keys', good s' keys'
    | Stop _ => 32 <= pin o
    end.

Lemma irq_object_runs s keys self o :
  objs s !! self = Some o -> good s keys -> outcomes (irq_object self o s) (after_irq s o).
Proof.
  intros Eo Hg. unfold irq_object. destruct (irq o =? 0) eqn:E0; zify_bool.
  2: { apply outcomes_ret. intros _. exists keys. destruct (good_irq s keys Hg self o Eo E0). done. }
  py_step. destruct (find_irq_runs s o (irq_list s) keys (good_keys s keys Hg)) as (i & Ef & Hi).
  rewrite (py_bind_val (find_irq o (irq_list s))) with (a := i) (s' := s) by done.
  destruct Hi as [[-> Hnew]|[Hin Hk]].
  - apply outcomes_py. eapply outcomes_mono; [|by apply (new_irq_runs s keys self o)].
    intros tr [[[a|e] s']|e] Hr; [py_step; apply outcomes_ret | |exact Hr].
    + rewrite app_nil_r. intros Hf. destruct (Hr Hf) as [(Hg' & Ha & Hk) Eobjs]. rewrite <- Eobjs in Eo. eexists. split; [|split].
      * by apply (good_set_pin s' _ self o a).
      * done.
      * by rewrite key_of_pin.
    + intros Hf. exists keys. by apply Hr.
  - rewrite (proj2 (Z.eqb_neq i 0)) by (intros ->; by apply (good_nonzero s keys Hg)). do 2 py_step. apply outcomes_ret.
    intros _. exists keys. split; [by apply (good_set_pin s keys self o i)|]. split; [done | by rewrite key_of_pin].
Qed.

Lemma configure_irq_runs s keys o i args :
  served s o keys i ->
  outcomes (configure_irq GPIO_INT_DISABLE o i args s) (fun tr out => match out with
    | Ok (Val v, s') => v = Obj i /\ served s' o keys i
    | Ok (Raise _, s') => good s' keys
    | Stop _ => False
    end).
Proof.
  intros (Hg & Hin & Hk). unfold configure_irq. destruct args as [[[h trigger] hard]|]; [|by apply outcomes_ret].
  apply outcomes_py_call. intros r. case_test; [by apply outcomes_ret|].
  destruct (key_of_inv s i _ Hk) as (q & _ & Eq & _). rewrite (py_bind_val (the_irq i)) with (a := q) (s' := s) by by apply the_irq_ok.
  pose proof (good_set_irq s keys i q h hard Eq Hg) as Hg'. py_step.
  assert (Hs : served (set_irqs (<[i := IrqObj (parent q) h hard]> (irqs s)) s) o keys i) by (split; [done|]; split; [done|]; by rewrite key_of_irq).
  destruct h; repeat py_step; done.
Qed.

(** C33: [Pin.irq] gives each pin one interrupt object: whether the pin object
    has one, another pin object of the same port and pin has one, or none has,
    the listed interrupt objects go on serving pairwise different pins after
    every call, completed or failed (when the new object is fresh memory), the
    object answered is listed and serves the pin asked for, and the pin objects
    know the ones that serve them. Only a pin number above 31 is undefined. *)
Theorem pin_irq_unique s keys self o args tr out :
  objs s !! self = Some o -> good s keys -> mallocs_fresh s tr ->
  runs (machine_pin_irq GPIO_INT_DISABLE self args s) tr out ->
  match out with
  | Ok (Val v, s') => exists i keys', v = Obj i /\ good s' keys' /\ i ∈ irq_list s' /\ key_of s' i = Some (port o, pin o)
  | Ok (Raise _, s') => exists keys', good s' keys'
  | Stop _ => 32 <= pin o
  end.
Proof.
  intros Eo Hg Hf Hr. revert Hf. revert tr out Hr. change (outcomes (machine_pin_irq GPIO_INT_DISABLE self args s) (fun tr out =>
    mallocs_fresh s tr -> match out with
    | Ok (Val v, s') => exists i keys', v = Obj i /\ good s' keys' /\ i ∈ irq_list s' /\ key_of s' i = Some (port o, pin o)
    | Ok (Raise _, s') => exists keys', good s' keys'
    | Stop _ => 32 <= pin o
    end)).
  unfold machine_pin_irq. rewrite (py_bind_val (the_pin self)) with (a := o) (s' := s) by by apply the_pin_ok.
  apply outcomes_py. eapply outcomes_mono; [|by apply (irq_object_runs s keys self o)].
  intros tr [[[i|e] s1]|e] H1; [|done|done]. intros tr' out Hr Hf. apply Forall_app in Hf as [Hf _].
  destruct (H1 Hf) as [keys1 Hs]. apply (configure_irq_runs s1 keys1 o i args Hs) in Hr.
  destruct out as [[[v|e] s2]|e]; [|by eexists | done]. destruct Hr as (-> & Hg2 & Hin & Hk). by exists i, keys1.
Qed.
End PinIrq.

(** Two pin objects for pin 4 of port 7, and one for pin 5. *)
Definition two_objects : pins := Pins {[ 100 := PinObj 7 4 0; 101 := PinObj 7 4 200; 102 := PinObj 7 5 0 ]} {[ 200 := IrqObj 101 None false ]} [200].
Definition mallocs_300 (_ : list (pcall * answer)) (c : pcall) : answer := match c with m_new_obj => Answer 300 [] | _ => Answer 0 [] end.
Definition irq_run (self : Z) := run mallocs_300 (machine_pin_irq 0 self (Some (Some 9, 3, true)) two_objects) [].

Lemma two_objects_good : good two_objects [(7, 4)].
Proof.
  split; [done | by_decide | by_decide |]. intros p o Hp Hne. unfold two_objects in Hp. cbn [objs] in Hp.
  repeat (apply lookup_insert_Some in Hp as [[<- <-]|[_ Hp]]; [cbn in Hne |- *; first [done | split; [by_decide | done]]|]).
  apply lookup_singleton_Some in Hp as [<- <-]. done.
Qed.

Lemma pin_irq_unique_witness :
  match fst (irq_run 100) with
  | Ok (Val v, s') => exists i keys', v = Obj i /\ good s' keys' /\ i ∈ irq_list s' /\ key_of s' i = Some (7, 4)
  | Ok (Raise _, s') => exists keys', good s' keys'
  | Stop _ => 32 <= 4
  end.
Proof.
  refine (pin_irq_unique 0 two_objects [(7, 4)] 100 (PinObj 7 4 0) (Some (Some 9, 3, true)) (snd (irq_run 100)) (fst (irq_run 100)) _ two_objects_good _ _).
  - reflexivity.
  - repeat constructor; vm_compute; done.
  - apply (run_runs _ mallocs_300). unfold irq_run. apply surjective_pairing.
Defined.
Example pin_shares_irq : exists s, fst (irq_run 100) = Ok (Val (Obj 200), s) /\ irq_list s = [200].
Proof. eexists. split; vm_compute; reflexivity. Qed.
Example pin_makes_irq : exists s, fst (irq_run 102) = Ok (Val (Obj 300), s) /\ irq_list s = [300; 200].
Proof. eexists. split; vm_compute; reflexivity. Qed.
End PinThm.

Module TimerList.
Import Timer.

(** A timer takes itself out of the list of timers, and nothing else. *)
Lemma unlink_exact self l : NoDup l ->
  NoDup (unlink self l) /\ (forall p, p ∈ unlink self l <-> p ∈ l /\ p <> self).
Proof.
  induction 1 as [|p l Hp Hl [IH1 IH2]]; cbn [unlink].
  { split; [constructor|]. intros p. split; [by intros ?%elem_of_nil | by intros [?%elem_of_nil _]]. }
  case_test; subst.
  - split; [done|]. intros q. rewrite elem_of_cons. split; [|tauto]. intros Hq. split; [by right|]. congruence.
  - split; [constructor; [rewrite IH2; tauto | done]|]. intros q. rewrite !elem_of_cons, IH2.
    split; [intros [->|[??]]; tauto | tauto].
Qed.

(** Stopping a timer leaves a list without repetition and without it, and the
    one-shot timer unlinks itself when it fires. *)
Lemma timer_deinit_unlinks self (s : timers) tr out :
  NoDup (head s) -> runs (machine_timer_deinit self s) tr out ->
  exists r s', tr = [(k_timer_stop self, r)] /\ out = Ok (Val None_, s') /\ objs s' = objs s /\ NoDup (head s') /\
    forall p, p ∈ head s' <-> p ∈ head s /\ p <> self.
Proof.
  intros Hl. revert tr out. apply (outcomes_py_call (k_timer_stop self) (fun _ => _ ≫= _)). intros r. py_step.
  apply outcomes_ret. destruct (unlink_exact self (head s) Hl). by exists r, (set_head (unlink self (head s)) s).
Qed.
End TimerList.
