(* ===== verification/MpUart.v ===== *)
(** app/micropython/machine_uart.c: Python's UART, an interrupt routine that
    moves bytes between the device and two ring buffers. *)

From S2P Require Import Prelude Py.

(** ** MicroPython's ring buffer (py/ringbuf.h) *)

Class Ringbuf (B : Type) := {
  rb_alloc : Z -> B;
  rb_avail : B -> Z;
  rb_free : B -> Z;
  rb_get_bytes : B -> Z -> list Z * B;
  rb_put_bytes : B -> list Z -> B;
  (** What is queued, oldest first, and how much fits. *)
  rb_contents : B -> list Z;
  rb_capacity : B -> Z
}.
Class RingbufLaws (B : Type) `{Ringbuf B} := {
  rb_fits b : len (rb_contents b) <= rb_capacity b;
  rb_avail_spec b : rb_avail b = len (rb_contents b);
  rb_free_spec b : rb_free b = rb_capacity b - len (rb_contents b);
  rb_get_spec b n : 0 <= n <= len (rb_contents b) ->
    fst (rb_get_bytes b n) = take (Z.to_nat n) (rb_contents b) /\
    rb_contents (snd (rb_get_bytes b n)) = drop (Z.to_nat n) (rb_contents b) /\
    rb_capacity (snd (rb_get_bytes b n)) = rb_capacity b;
  rb_put_spec b l : len l <= rb_free b ->
    rb_contents (rb_put_bytes b l) = rb_contents b ++ l /\ rb_capacity (rb_put_bytes b l) = rb_capacity b
}.

Inductive ucall :=
  | zephyr_device (name : list Z)              (* finds a device, 0 for none *)
  | mp_obj_malloc_with_finaliser
  | uart_configure (dev baudrate parity stop_bits data_bits flow_ctrl : Z)
  | uart_irq_callback_user_data_set (dev : Z)
  | uart_irq_rx_enable (dev : Z)
  | uart_irq_rx_disable (dev : Z)
  | uart_irq_tx_enable (dev : Z)
  | uart_irq_tx_disable (dev : Z)
  | uart_irq_update_pending (dev : Z)          (* uart_irq_update, then uart_irq_is_pending *)
  | uart_irq_rx_ready (dev : Z)
  | uart_irq_tx_ready (dev : Z)
  | uart_irq_tx_complete (dev : Z)
  | uart_fifo_read (dev size : Z)
  | uart_fifo_fill (dev : Z) (data : list Z)
  | uart_poll_out (dev c : Z)
  | mp_hal_signal_event
  | k_msleep (ms : Z)                          (* stores what the interrupt routine received meanwhile *)
  | mp_event_wait_indefinite.

Section MpUart.
Context {B : Type} {ring : Ringbuf B}.
(** Configuration codes of the driver interface, and stream requests. *)
Context (UART_CFG_DATA_BITS : Z -> Z) (UART_CFG_PARITY_NONE UART_CFG_PARITY_ODD UART_CFG_PARITY_EVEN
  UART_CFG_STOP_BITS_1 UART_CFG_STOP_BITS_2 UART_CFG_FLOW_CTRL_NONE UART_CFG_FLOW_CTRL_RTS_CTS : Z).
Context (MP_STREAM_POLL MP_STREAM_POLL_RD MP_STREAM_POLL_WR MP_STREAM_FLUSH : Z).
Definition MACHINE_UART_RTS : Z := 1.
Definition MACHINE_UART_CTS : Z := 2.

Record machine_uart_obj_t := UartObj {
  dev : Z;
  timeout : Z;
  timeout_char : Z;
  rx_ringbuffer : B;
  tx_ringbuffer : B;
  tx_complete : bool
}.
Definition set_timeouts a b u := UartObj (dev u) a b (rx_ringbuffer u) (tx_ringbuffer u) (tx_complete u).
Definition set_rx x u := UartObj (dev u) (timeout u) (timeout_char u) x (tx_ringbuffer u) (tx_complete u).
Definition set_tx x u := UartObj (dev u) (timeout u) (timeout_char u) (rx_ringbuffer u) x (tx_complete u).
Definition set_tx_complete x u := UartObj (dev u) (timeout u) (timeout_char u) (rx_ringbuffer u) (tx_ringbuffer u) x.

Local Abbreviation um A := (py ucall answer machine_uart_obj_t A).

Definition tell (c : ucall) : um Z := r ← py_call c; mret (aret r).

(** The parsed arguments of the constructor. *)
Record init_args := InitArgs { a_baudrate : Z; a_bits : Z; a_parity : option Z; a_stop : Z; a_txbuf : Z; a_rxbuf : Z; a_timeout : Z; a_timeout_char : Z; a_flow : Z }.

Definition mp_machine_uart_init_helper (a : init_args) : um unit :=
  py_set (set_timeouts (u16 (a_timeout a)) (u16 (a_timeout_char a)));;
  if negb ((5 <=? a_bits a) && (a_bits a <=? 9)) then raise (OSErrorMsg 0)
  else
    parity ← match a_parity a with
             | None => mret UART_CFG_PARITY_NONE
             | Some p => if p =? 0 then mret UART_CFG_PARITY_EVEN else if p =? 1 then mret UART_CFG_PARITY_ODD else raise (OSErrorMsg 0)
             end;
    stop_bits ← (if a_stop a =? 1 then mret UART_CFG_STOP_BITS_1
                 else if a_stop a =? 2 then mret UART_CFG_STOP_BITS_2 else raise (OSErrorMsg 0));
    flow_ctrl ← (if a_flow a =? 0 then mret UART_CFG_FLOW_CTRL_NONE
                 else if a_flow a =? Z.lor MACHINE_UART_RTS MACHINE_UART_CTS then mret UART_CFG_FLOW_CTRL_RTS_CTS
                 else raise (OSErrorMsg 0));
    d ← py_get dev;
    ret ← tell (uart_configure d (u32 (a_baudrate a)) parity stop_bits (UART_CFG_DATA_BITS (a_bits a)) flow_ctrl);
    if ret <? 0 then raise (OSError (- ret))
    else
      py_set (set_tx (rb_alloc (a_txbuf a)));;
      py_set (set_rx (rb_alloc (a_rxbuf a)));;
      tell (uart_irq_callback_user_data_set d);;
      tell (uart_irq_rx_enable d);;
      mret tt.

(** The object's memory before the constructor fills it is the present state. *)
Definition mp_machine_uart_make_new (name : list Z) (a : init_args) : um unit :=
  d ← tell (zephyr_device name);
  if d =? 0 then raise ValueError
  else
    tell mp_obj_malloc_with_finaliser;;
    py_set (fun u => UartObj d (timeout u) (timeout_char u) (rx_ringbuffer u) (tx_ringbuffer u) true);;
    mp_machine_uart_init_helper a.

Definition mp_machine_uart_deinit : um unit :=
  d ← py_get dev; tell (uart_irq_rx_disable d);; tell (uart_irq_tx_disable d);; mret tt.

Definition mp_machine_uart_any (u : machine_uart_obj_t) : Z := rb_avail (rx_ringbuffer u).
Definition mp_machine_uart_txdone (u : machine_uart_obj_t) : bool :=
  tx_complete u && (rb_avail (tx_ringbuffer u) =? 0).

(** One millisecond of sleep, during which the interrupt routine stores what it
    receives, as far as it fits. *)
Definition sleep_ms : um unit :=
  r ← py_call (k_msleep 1);
  py_set (fun u => set_rx (rb_put_bytes (rx_ringbuffer u) (take (Z.to_nat (rb_free (rx_ringbuffer u))) (aout r))) u).

(** The body of the loop: the bytes read, the time elapsed and the time to wait
    afterwards. *)
Definition read_step (size : Z) (st : list Z * Z * Z) : um (list Z * Z * Z) :=
  let '(got, elapsed_ms, time_to_wait) := st in
  u ← py_get (fun u => u);
  let _rx_len := Z.min (mp_machine_uart_any u) (size - len got) in
  if _rx_len >? 0 then
    let '(l, rest) := rb_get_bytes (rx_ringbuffer u) _rx_len in
    py_set (set_rx rest);;
    mret (got ++ l, 0, timeout_char u)
  else
    sleep_ms;;
    mret (got, elapsed_ms + 1, time_to_wait).

Fixpoint read_loop (fuel : nat) (size : Z) (st : list Z * Z * Z) : um (list Z) :=
  match fuel with
  | O => fun _ => Halt OutOfFuel
  | S fuel =>
      st ← read_step size st;
      let '(got, elapsed_ms, time_to_wait) := (st : list Z * Z * Z) in
      if (elapsed_ms <? time_to_wait) && (len got <? size) then read_loop fuel size st else mret got
  end.
Definition mp_machine_uart_read (fuel : nat) (size : Z) : um (list Z) :=
  t ← py_get timeout; read_loop fuel size ([], 0, t).

(** Waiting until everything is sent: while it waits, the interrupt routine
    sends. *)
Fixpoint wait_txdone (fuel : nat) (isr : um unit) : um unit :=
  match fuel with
  | O => fun _ => Halt OutOfFuel
  | S fuel =>
      done ← py_get mp_machine_uart_txdone;
      if negb done then tell mp_event_wait_indefinite;; isr;; wait_txdone fuel isr else mret tt
  end.

Fixpoint poll_out_all (d : Z) (l : list Z) : um unit :=
  match l with [] => mret tt | c :: l => tell (uart_poll_out d c);; poll_out_all d l end.

Definition mp_machine_uart_write (fuel : nat) (isr : um unit) (buffer : list Z) : um Z :=
  wait_txdone fuel isr;;
  u ← py_get (fun u => u);
  let size := len buffer in
  let _free_space := rb_free (tx_ringbuffer u) in
  let _ex_size := if size >? _free_space then size - _free_space else 0 in
  poll_out_all (dev u) (take (Z.to_nat _ex_size) buffer);;
  py_set (fun u => set_tx (rb_put_bytes (tx_ringbuffer u) (drop (Z.to_nat _ex_size) buffer)) u);;
  py_set (set_tx_complete false);;
  tell (uart_irq_tx_enable (dev u));;
  mret size.

(** The return value and [*errcode]. *)
Definition mp_machine_uart_ioctl (fuel : nat) (isr : um unit) (request flags : Z) : um (Z * Z) :=
  u ← py_get (fun u => u);
  if request =? MP_STREAM_POLL then
    let rd := if negb (Z.land flags MP_STREAM_POLL_RD =? 0) && (mp_machine_uart_any u >? 0) then MP_STREAM_POLL_RD else 0 in
    let wr := if negb (Z.land flags MP_STREAM_POLL_WR =? 0) && mp_machine_uart_txdone u then MP_STREAM_POLL_WR else 0 in
    mret (Z.lor rd wr, 0)
  else if request =? MP_STREAM_FLUSH then wait_txdone fuel isr;; mret (0, 0)
  else mret (MP_STREAM_ERROR, EINVAL).

(** ** The interrupt routine *)

(** Receiving; answers whether the loop goes on at once ([continue]). *)
Definition handler_rx : um bool :=
  u ← py_get (fun u => u);
  ready ← tell (uart_irq_rx_ready (dev u));
  if negb (ready =? 0) then
    let _free_space := Z.min (rb_free (rx_ringbuffer u)) 32 in
    r ← py_call (uart_fifo_read (dev u) (if _free_space >? 0 then _free_space else 1));
    if (aret r <=? 0) || (_free_space =? 0) then mret true
    else
      py_set (fun u => set_rx (rb_put_bytes (rx_ringbuffer u) (take (Z.to_nat (aret r)) (aout r))) u);;
      mret false
  else mret false.

Definition handler_tx : um unit :=
  u ← py_get (fun u => u);
  room ← tell (uart_irq_tx_ready (dev u));
  if room >? 0 then
    let room := Z.min room 32 in
    let n := rb_avail (tx_ringbuffer u) in
    if n >? 0 then
      let '(l, rest) := rb_get_bytes (tx_ringbuffer u) (Z.min room n) in
      py_set (set_tx rest);;
      tell (uart_fifo_fill (dev u) l);;
      mret tt
    else
      complete ← tell (uart_irq_tx_complete (dev u));
      if negb (complete =? 0) then tell (uart_irq_tx_disable (dev u));; py_set (set_tx_complete true)
      else mret tt
  else mret tt.

Fixpoint handler_loop (fuel : nat) : um unit :=
  match fuel with
  | O => fun _ => Halt OutOfFuel
  | S fuel =>
      d ← py_get dev;
      pending ← tell (uart_irq_update_pending d);
      if negb (pending =? 0) then
        again ← handler_rx;
        (if (again : bool) then mret tt else handler_tx);;
        handler_loop fuel
      else mret tt
  end.
Definition uart_interrupt_handler (fuel : nat) : um unit := tell mp_hal_signal_event;; handler_loop fuel.
End MpUart.
Arguments machine_uart_obj_t : clear implicits.
