(* ===== verification/MpUartThm.v ===== *)
(** Theorems on app/micropython/machine_uart.c: reading ends in time and
    delivers the received bytes in order; writes and interrupts hand the written
    bytes to the driver in order. *)

From S2P Require Import Prelude Py MpUart.

Section Read.
Context {B : Type} {ring : Ringbuf B} {laws : RingbufLaws B}.
Implicit Types u : machine_uart_obj_t B.

(** The bytes waiting to be read. *)
Definition received u : list Z := rb_contents (rx_ringbuffer u).

(** Work left: bytes to come, each with a wait, and the present wait. *)
Definition fuel_needed (size tc : Z) (got : list Z) (elapsed wait : Z) : Z :=
  (size - len got) * (tc + 1) + Z.max 0 (wait - elapsed).

Definition read_result (size : Z) u (got0 : list Z) (sleeps : Z) (tr : list (ucall * answer)) (out : res (py_res (list Z) * machine_uart_obj_t B)) : Prop :=
  exists got u' stored, out = Ok (Val (got0 ++ got), u') /\ got ++ received u' = received u ++ stored /\
    len (got0 ++ got) <= size /\ Forall (fun e => fst e = k_msleep 1) tr /\
    len tr <= sleeps + len got * timeout_char u /\ timeout_char u' = timeout_char u.

Lemma take_step u n l rest :
  rb_get_bytes (rx_ringbuffer u) n = (l, rest) -> 0 <= n <= len (received u) ->
  len l = n /\ l ++ received (set_rx rest u) = received u.
Proof.
  intros E Hn. destruct (rb_get_spec (rx_ringbuffer u) n Hn) as (E1 & E2 & _). rewrite E in E1, E2. cbn [fst snd] in *.
  subst l. split; [by apply len_take|]. unfold received. cbn [rx_ringbuffer set_rx]. rewrite E2. apply take_drop.
Qed.

Lemma sleep_step u (a : list Z) :
  exists stored, received (set_rx (rb_put_bytes (rx_ringbuffer u) (take (Z.to_nat (rb_free (rx_ringbuffer u))) a)) u) = received u ++ stored.
Proof.
  set (b := rx_ringbuffer u). exists (take (Z.to_nat (rb_free b)) a). unfold received. cbn [rx_ringbuffer set_rx].
  assert (0 <= rb_free b) by (rewrite rb_free_spec; pose proof (rb_fits b); lia).
  apply rb_put_spec.
  unfold len. rewrite length_take. fold b. lia.
Qed.

(** The turn that takes bytes, and the turn that sleeps. *)
Lemma read_step_takes size got el w u :
  0 < Z.min (len (received u)) (size - len got) ->
  exists l rest, read_step size (got, el, w) u = Ret (Val (got ++ l, 0, timeout_char u), set_rx rest u) /\
    0 < len l /\ len (got ++ l) <= size /\ l ++ received (set_rx rest u) = received u.
Proof.
  intros Hn. unfold read_step, mp_machine_uart_any.
  rewrite (py_bind_val (py_get _)) with (a := u) (s' := u) by done. cbv zeta. rewrite rb_avail_spec. fold (received u).
  rewrite (proj2 (Z.gtb_lt _ 0)) by done.
  destruct (rb_get_bytes (rx_ringbuffer u) (Z.min (len (received u)) (size - len got))) as [l rest] eqn:E.
  destruct (take_step u _ l rest E) as [Hl Hr]; [lia|]. exists l, rest. rewrite len_app. split_and!; [done | lia | lia | done].
Qed.

Lemma read_step_sleeps size got el w u :
  Z.min (len (received u)) (size - len got) <= 0 ->
  read_step size (got, el, w) u = (sleep_ms;; mret (got, el + 1, w)) u.
Proof.
  intros Hn. unfold read_step, mp_machine_uart_any.
  rewrite (py_bind_val (py_get _)) with (a := u) (s' := u) by done. cbv zeta. rewrite rb_avail_spec. fold (received u).
  case_test; [lia | done].
Qed.

Lemma read_loop_spec fuel size got el w u :
  0 <= timeout_char u -> 0 <= el -> len got <= size -> fuel_needed size (timeout_char u) got el w < Z.of_nat fuel ->
  outcomes (read_loop fuel size (got, el, w) u) (read_result size u got (Z.max 1 (w - el))).
Proof.
  revert got el w u. induction fuel as [|fuel IH]; intros got el w u Htc Hel Hgot Hfuel.
  { unfold fuel_needed in Hfuel. nia. }
  cbn [read_loop]. apply outcomes_py.
  destruct (decide (0 < Z.min (len (received u)) (size - len got))) as [Hn|Hn].
  - destruct (read_step_takes size got el w u Hn) as (l & rest & E & Hl & Hsize & Hrest). rewrite E. apply outcomes_ret. cbn [app].
    cbv zeta. destruct ((0 <? timeout_char u) && (len (got ++ l) <? size)) eqn:Ec; zify_bool.
    + eapply outcomes_mono; [|apply (IH (got ++ l) 0 (timeout_char u) (set_rx rest u)); [done | lia | lia |]].
      * intros tr out (got' & u' & stored & -> & Hc & Hs & Hall & Hlen & Ht). exists (l ++ got'), u', stored.
        rewrite !app_assoc in *. split_and!; try done.
        -- rewrite <- Hrest, <- !app_assoc. f_equal. exact Hc.
        -- rewrite len_app. cbn [timeout_char set_rx] in Hlen. nia.
      * unfold fuel_needed in *. cbn [timeout_char set_rx]. rewrite len_app. nia.
    + apply outcomes_ret. exists l, (set_rx rest u), []. rewrite !app_nil_r. split_and!; try done. rewrite len_nil. nia.
  - rewrite read_step_sleeps by lia. unfold sleep_ms. apply outcomes_py_assoc, outcomes_py_call. intros r.
    erewrite (py_bind_val (py_set _)) by reflexivity. apply outcomes_ret. cbv zeta.
    destruct (sleep_step u (aout r)) as [st0 Hst0].
    set (u1 := set_rx _ u) in *. assert (Ht1 : timeout_char u1 = timeout_char u) by done.
    destruct ((el + 1 <? w) && (len got <? size)) eqn:Ec; zify_bool.
    + eapply outcomes_mono; [|apply (IH got (el + 1) w u1); [by rewrite Ht1 | lia | done |]].
      * intros tr out (got' & u' & stored & -> & Hc & Hs & Hall & Hlen & Ht). exists got', u', (st0 ++ stored).
        split_and!; try done; [by rewrite Hc, Hst0, <- app_assoc | by constructor|]. cbn [app]. rewrite len_cons. rewrite Ht1 in Hlen. lia.
      * rewrite Ht1. unfold fuel_needed in *. nia.
    + apply outcomes_ret. exists [], u1, st0. rewrite !app_nil_r. split_and!; try done; [by repeat constructor|].
      unfold len; cbn [length app]. lia.
Qed.

(** C34: Reading ends: with fuel for every byte asked for and every wait it
    answers at most [size] bytes, which are the oldest received ones in order
    (those waiting, then those that arrive while it sleeps; what it does not
    take stays queued), and it sleeps at most the first timeout, or one
    millisecond, plus the inter-character timeout per byte read. *)
Theorem uart_read_ends fuel size u tr out :
  0 <= size -> 0 <= timeout u -> 0 <= timeout_char u -> size * (timeout_char u + 1) + timeout u < Z.of_nat fuel ->
  runs (mp_machine_uart_read fuel size u) tr out ->
  exists got u' stored, out = Ok (Val got, u') /\ len got <= size /\
    got ++ received u' = received u ++ stored /\
    Forall (fun e => fst e = k_msleep 1) tr /\ len tr <= Z.max 1 (timeout u) + len got * timeout_char u.
Proof.
  intros Hs Ht Htc Hf Hr. unfold mp_machine_uart_read in Hr.
  rewrite (py_bind_val (py_get _)) with (a := timeout u) (s' := u) in Hr by done.
  apply read_loop_spec in Hr; [|lia | lia | rewrite len_nil; lia | unfold fuel_needed; rewrite len_nil; lia].
  destruct Hr as (got & u' & stored & -> & Hc & Hsz & Hall & Hlen & _). exists got, u', stored. cbn [app] in *.
  split_and!; try done. lia.
Qed.
End Read.

(** ** Sending *)

Section Transmit.
Context {B : Type} {ring : Ringbuf B} {laws : RingbufLaws B}.
Context (STREAM_POLL POLL_RD POLL_WR STREAM_FLUSH : Z) (flush_differs : STREAM_FLUSH <> STREAM_POLL).
Implicit Types u : machine_uart_obj_t B.
Local Abbreviation um A := (py ucall answer (machine_uart_obj_t B) A).
Local Abbreviation trace := (list (ucall * answer)).

(** The bytes waiting to be sent, and those a run hands to the driver, through
    its FIFO or one by one. *)
Definition queued u : list Z := rb_contents (tx_ringbuffer u).
Definition handed1 (x : ucall * answer) : list Z :=
  match fst x with uart_fifo_fill _ l => l | uart_poll_out _ c => [c] | _ => [] end.
Definition handed (tr : trace) : list Z := concat (map handed1 tr).

(** How often the device had something pending, and how often a waiting thread
    was woken. *)
Definition is_pending (x : ucall * answer) : bool :=
  match fst x with uart_irq_update_pending _ => negb (aret (snd x) =? 0) | _ => false end.
Definition is_wake (x : ucall * answer) : bool :=
  match fst x with mp_event_wait_indefinite => true | _ => false end.
Definition count (f : ucall * answer -> bool) (tr : trace) : nat := length (List.filter f tr).

Lemma handed_app t1 t2 : handed (t1 ++ t2) = handed t1 ++ handed t2.
Proof. unfold handed. by rewrite map_app, concat_app. Qed.
Lemma count_app f t1 t2 : count f (t1 ++ t2) = (count f t1 + count f t2)%nat.
Proof. unfold count. by rewrite List.filter_app, length_app. Qed.
Lemma count_cons f x t : count f (x :: t) = ((if f x then 1 else 0) + count f t)%nat.
Proof. unfold count. cbn. by destruct (f x). Qed.

(** The run took the bytes it handed over from the front of the queue. *)
Definition moved u (tr : trace) u' : Prop :=
  queued u = handed tr ++ queued u' /\ rb_capacity (tx_ringbuffer u') = rb_capacity (tx_ringbuffer u).

Lemma moved_app u t1 u1 t2 u2 : moved u t1 u1 -> moved u1 t2 u2 -> moved u (t1 ++ t2) u2.
Proof. intros [E1 C1] [E2 C2]. split; [by rewrite handed_app, <- app_assoc, <- E2 | by rewrite C2]. Qed.

Lemma moved_same u tr u' : handed tr = [] -> tx_ringbuffer u' = tx_ringbuffer u -> moved u tr u'.
Proof. intros E1 E2. unfold moved, queued. by rewrite E1, E2. Qed.

Lemma handler_rx_moves u :
  outcomes (handler_rx u) (fun tr out => exists again u', out = Ok (Val again, u') /\ moved u tr u').
Proof.
  unfold handler_rx, tell. repeat py_step; eexists _, _; (split; [reflexivity|]); by apply moved_same.
Qed.

Lemma handler_tx_moves u :
  outcomes (handler_tx u) (fun tr out => exists u', out = Ok (Val tt, u') /\ moved u tr u').
Proof.
  unfold handler_tx, tell. repeat py_step; cbv zeta; repeat py_step; try (eexists; split; [reflexivity|]; by apply moved_same).
  all: destruct (rb_get_bytes _ _) as [l rest] eqn:E; repeat py_step; eexists; (split; [reflexivity|]).
  all: rewrite rb_avail_spec in *.
  all: match type of E with rb_get_bytes ?b ?n = _ => destruct (rb_get_spec b n) as (E1 & E2 & E3); [lia|] end.
  all: rewrite E in E1, E2, E3; cbn [fst snd] in *; subst l; unfold moved, queued, handed; cbn [map concat handed1 fst tx_ringbuffer set_tx app].
  all: by rewrite E2, app_nil_r, take_drop.
Qed.

(** What a run within its bounds ends as: fewer pending events than the
    routine has turns for, and fewer wake-ups than the waits have. *)
Definition in_order {A} (hfuel fuel : nat) (m : um A) u (Q : A -> machine_uart_obj_t B -> trace -> Prop) : Prop :=
  outcomes (m u) (fun tr out => (count is_pending tr < hfuel)%nat -> (count is_wake tr < fuel)%nat ->
    exists x u', out = Ok (Val x, u') /\ Q x u' tr).

Lemma in_order_bind {A E} hfuel fuel (m : um A) (k : A -> um E) u Q Q' :
  in_order hfuel fuel m u Q ->
  (forall x u1 t1, Q x u1 t1 -> in_order hfuel fuel (k x) u1 (fun y u2 t2 => Q' y u2 (t1 ++ t2))) ->
  in_order hfuel fuel (m ≫= k) u Q'.
Proof.
  intros Hm Hk. apply outcomes_py. eapply outcomes_mono; [|exact Hm]. intros t1 o1 H1. cbv beta in H1.
  destruct (decide ((count is_pending t1 < hfuel)%nat /\ (count is_wake t1 < fuel)%nat)) as [[Hp1 Hw1]|Hn].
  - destruct (H1 Hp1 Hw1) as (x & u1 & -> & HQ). eapply outcomes_mono; [|exact (Hk x u1 t1 HQ)].
    intros t2 o2 H2. rewrite !count_app. intros Hp Hw. apply H2; lia.
  - destruct o1 as [[[x|e] u1]|e]; [intros t2 o2 _; rewrite !count_app | | ]; intros Hp Hw; destruct Hn; lia.
Qed.

(** A call that hands nothing over and neither wakes nor answers an event. *)
Lemma in_order_tell {E} hfuel fuel c (k : Z -> um E) u Q :
  (forall r, count is_pending [(c, r)] = 0%nat) -> count is_wake [(c, Answer 0 [])] = 0%nat ->
  (forall r, in_order hfuel fuel (k (aret r)) u (fun y u2 t2 => Q y u2 ((c, r) :: t2))) ->
  in_order hfuel fuel (tell c ≫= k) u Q.
Proof.
  intros Hp Hw Hk. unfold in_order, tell. py_step. py_step. py_step. eapply outcomes_mono; [|apply (Hk r)].
  intros t o H. specialize (Hp r). unfold count in Hp, Hw. cbn [List.filter] in Hp, Hw. rewrite !count_cons.
  change (is_wake (c, r)) with (is_wake (c, Answer 0 [])).
  destruct (is_pending (c, r)), (is_wake (c, Answer 0 [])); [done..|]. exact H.
Qed.

Lemma handler_loop_moves hfuel u fuel :
  in_order hfuel fuel (handler_loop hfuel) u (fun _ u' tr => moved u tr u').
Proof.
  unfold in_order. revert u. induction hfuel as [|hfuel IH]; intros u.
  { apply outcomes_halt. intros H. lia. }
  cbn [handler_loop]. py_step. unfold tell at 1. py_step. py_step. py_step. py_step.
  - apply outcomes_py. eapply outcomes_mono; [|apply handler_rx_moves]. intros t1 o1 (again & u1 & -> & M1).
    apply outcomes_py.
    assert (Htx : outcomes ((if again then mret tt else handler_tx) u1)
      (fun tr out => exists u', out = Ok (Val tt, u') /\ moved u1 tr u')).
    { destruct again; [|apply handler_tx_moves]. apply outcomes_ret. exists u1. split; [done|]. by apply moved_same. }
    eapply outcomes_mono; [|exact Htx]. intros t2 o2 (u2 & -> & M2). eapply outcomes_mono; [|apply (IH u2)].
    intros t3 o3 H3. cbv beta in H3. rewrite !count_cons, !count_app. unfold is_pending at 1, is_wake at 1. cbn [fst snd].
    rewrite (proj2 (Z.eqb_neq _ _)) by done. cbn [negb]. intros Hp Hw. destruct H3 as (x & u3 & -> & M3); [lia | lia|].
    exists x, u3. split; [done|]. change ((?a, ?b) :: ?t) with ([(a, b)] ++ t).
    eapply moved_app; [by apply moved_same|]. eapply moved_app; [exact M1|]. by eapply moved_app.
  - py_step. intros _ _. exists tt, u. split; [done|]. by apply moved_same.
Qed.
Lemma interrupt_moves hfuel fuel u :
  in_order hfuel fuel (uart_interrupt_handler hfuel) u (fun _ u' tr => moved u tr u').
Proof.
  apply in_order_tell; [done | done|]. intros r. eapply outcomes_mono; [|apply (handler_loop_moves hfuel u fuel)].
  intros tr out H Hp Hw. destruct (H Hp Hw) as (x & u' & -> & M). exists x, u'. split; [done|].
  change ((?a, ?b) :: ?t) with ([(a, b)] ++ t). eapply moved_app; [by apply moved_same | exact M].
Qed.

Lemma wait_moves hfuel fuel u :
  in_order hfuel fuel (wait_txdone fuel (uart_interrupt_handler hfuel)) u
    (fun _ u' tr => moved u tr u' /\ mp_machine_uart_txdone u' = true).
Proof.
  revert u. induction fuel as [|fuel IH]; intros u; [apply outcomes_halt; intros _ H; lia|].
  unfold in_order. cbn [wait_txdone]. py_step. destruct (mp_machine_uart_txdone u) eqn:Ed; cbn [negb].
  { py_step. intros _ _. exists tt, u. split; [done|]. split; [by apply moved_same | done]. }
  unfold tell. py_step. py_step. py_step. eapply outcomes_mono; [|apply (in_order_bind hfuel fuel _ _ _ _
    (fun _ u' tr => moved u tr u' /\ mp_machine_uart_txdone u' = true) (interrupt_moves hfuel fuel u))].
  2: { intros [] u1 t1 M1. eapply outcomes_mono; [|apply (IH u1)]. intros t2 o2 H Hp Hw.
    destruct (H Hp Hw) as (x & u2 & -> & M2 & Hd). exists x, u2. split; [done|].
    exact (conj (moved_app _ _ _ _ _ M1 M2) Hd). }
  cbv beta. intros tr out H. rewrite !count_cons. unfold is_wake at 1. cbn [fst]. intros Hp Hw.
  destruct H as (x & u2 & -> & M & Hd); [lia | lia|]. exists x, u2. split; [done|]. split; [|done].
  change ((?a, ?b) :: ?t) with ([(a, b)] ++ t). eapply moved_app; [by apply moved_same | exact M].
Qed.

Lemma poll_out_ok d l u :
  outcomes (poll_out_all d l u) (fun tr out => out = Ok (Val tt, u) /\ handed tr = l).
Proof.
  induction l as [|c l IH]; cbn [poll_out_all]; [by apply outcomes_ret|].
  unfold tell. py_step. py_step. py_step. eapply outcomes_mono; [|exact IH]. intros tr out [-> E]. split; [done|].
  change (handed (?x :: tr)) with (handed1 x ++ handed tr). by rewrite E.
Qed.

Lemma txdone_empty u : mp_machine_uart_txdone u = true -> queued u = [].
Proof.
  unfold mp_machine_uart_txdone, queued. rewrite rb_avail_spec. intros [_ H]%andb_true_iff. apply Z.eqb_eq in H.
  destruct (rb_contents (tx_ringbuffer u)) as [|c l]; [done|]. rewrite len_cons in H. pose proof (len_nonneg l). lia.
Qed.

(** A write sends what was queued, then the bytes that do not fit, and queues
    the rest. *)
Lemma write_moves hfuel fuel buffer u :
  in_order hfuel fuel (mp_machine_uart_write fuel (uart_interrupt_handler hfuel) buffer) u
    (fun n u' tr => n = len buffer /\ queued u ++ buffer = handed tr ++ queued u').
Proof.
  unfold mp_machine_uart_write. eapply in_order_bind; [apply wait_moves|]. intros [] u1 t1 [[Hq _] Hd].
  apply txdone_empty in Hd. rewrite Hd, app_nil_r in Hq. unfold in_order. py_step. cbv zeta.
  set (ex := if _ >? _ then _ else _). set (b := tx_ringbuffer u1) in *.
  assert (Hex : 0 <= ex <= len buffer /\ len (drop (Z.to_nat ex) buffer) <= rb_free b).
  { pose proof (len_nonneg buffer). pose proof (rb_fits b) as Hfit. change (rb_contents b) with (queued u1) in Hfit. rewrite Hd, len_nil in Hfit.
    assert (Hfree : rb_free b = rb_capacity b) by (rewrite rb_free_spec; change (rb_contents b) with (queued u1); rewrite Hd, len_nil; lia).
    unfold ex. case_test; rewrite len_drop by lia; lia. }
  apply outcomes_py. eapply outcomes_mono; [|apply poll_out_ok]. intros t2 o2 [-> E2]. py_step. py_step.
  unfold tell. py_step. py_step. py_step. py_step. intros _ _. eexists _, _. split; [reflexivity|]. split; [done|].
  rewrite Hq, !handed_app, E2, <- app_assoc. change (handed [_]) with (@nil Z). cbn [app]. f_equal.
  unfold queued. cbn [tx_ringbuffer set_tx set_tx_complete].
  fold b. destruct (rb_put_spec b (drop (Z.to_nat ex) buffer)) as [-> _]; [lia|]. change (rb_contents b) with (queued u1).
  rewrite Hd, app_nil_r. cbn [app]. by rewrite take_drop.
Qed.

(** What happens to the object: Python's calls, and interrupts between them
    (those during a call come when it waits). *)
Inductive uart_op :=
  | Write (buffer : list Z)
  | Flush
  | Interrupt.
Definition written1 (op : uart_op) : list Z := match op with Write l => l | _ => [] end.
Definition written (ops : list uart_op) : list Z := concat (map written1 ops).
Definition uart_run1 (hfuel fuel : nat) (op : uart_op) : um unit :=
  match op with
  | Write l => mp_machine_uart_write fuel (uart_interrupt_handler hfuel) l;; mret tt
  | Flush => mp_machine_uart_ioctl STREAM_POLL POLL_RD POLL_WR STREAM_FLUSH fuel (uart_interrupt_handler hfuel) STREAM_FLUSH 0;; mret tt
  | Interrupt => uart_interrupt_handler hfuel
  end.
Fixpoint uart_run (hfuel fuel : nat) (ops : list uart_op) : um unit :=
  match ops with [] => mret tt | op :: ops => uart_run1 hfuel fuel op;; uart_run hfuel fuel ops end.

Lemma in_order_ret {A} hfuel fuel (m : um A) u x u' (Q : A -> machine_uart_obj_t B -> trace -> Prop) :
  m u = Ret (Val x, u') -> Q x u' [] -> in_order hfuel fuel m u Q.
Proof. intros E HQ. unfold in_order. rewrite E. apply outcomes_ret. intros _ _. by exists x, u'. Qed.

Lemma uart_run1_moves hfuel fuel op u :
  in_order hfuel fuel (uart_run1 hfuel fuel op) u (fun _ u' tr =>
    queued u ++ written1 op = handed tr ++ queued u' /\ (op = Flush -> queued u' = [])).
Proof.
  destruct op as [l| |]; cbn [uart_run1 written1].
  - eapply in_order_bind; [apply write_moves|]. intros n u1 t1 [_ E]. eapply in_order_ret; [done|]. by rewrite app_nil_r.
  - eapply in_order_bind; [|intros x u1 t1 H; eapply in_order_ret; [done|]; rewrite !app_nil_r; exact H].
    unfold mp_machine_uart_ioctl. unfold in_order. py_step. rewrite (proj2 (Z.eqb_neq _ _)) by done. rewrite Z.eqb_refl.
    eapply (in_order_bind hfuel fuel); [apply wait_moves|]. intros [] u1 t1 [[E _] Hd]. eapply in_order_ret; [done|].
    rewrite app_nil_r. split; [done|]. intros _. by apply txdone_empty.
  - eapply outcomes_mono; [|apply interrupt_moves]. intros tr out H Hp Hw. destruct (H Hp Hw) as (x & u' & -> & E & _).
    exists x, u'. split; [done|]. by rewrite app_nil_r.
Qed.

(** C35: Bytes leave the UART in the order they are written, none lost or sent
    twice: over any sequence of writes of any size, flushes and interrupts, with
    interrupts while a call waits, what is handed to the driver (from the ring,
    or one by one when it does not fit) and then what is still queued are what
    was queued before followed by all written bytes; after a flush nothing is
    left. All calls return, without an exception, as long as the device has
    something pending fewer than [hfuel] times and a waiting call is woken fewer
    than [fuel] times. *)
Theorem uart_writes_in_order hfuel fuel ops u tr out :
  runs (uart_run hfuel fuel ops u) tr out -> (count is_pending tr < hfuel)%nat -> (count is_wake tr < fuel)%nat ->
  exists u', out = Ok (Val tt, u') /\ queued u ++ written ops = handed tr ++ queued u' /\
    (last ops = Some Flush -> handed tr = queued u ++ written ops).
Proof.
  intros Hr Hp Hw. cut (in_order hfuel fuel (uart_run hfuel fuel ops) u (fun _ u' tr =>
    queued u ++ written ops = handed tr ++ queued u' /\ (last ops = Some Flush -> queued u' = []))).
  { intros H. destruct (H tr out Hr Hp Hw) as ([] & u' & -> & E & Hl). exists u'. split; [done|]. split; [done|].
    intros L. by rewrite E, Hl, app_nil_r. }
  clear Hr Hp Hw. revert u. induction ops as [|op ops IH]; intros u; cbn [uart_run].
  { eapply in_order_ret; [done|]. by rewrite app_nil_r. }
  eapply in_order_bind; [apply uart_run1_moves|]. intros [] u1 t1 [E1 F1]. eapply outcomes_mono; [|apply (IH u1)].
  intros t2 o2 H Hp Hw. destruct (H Hp Hw) as (x & u2 & -> & E2 & F2). exists x, u2. split; [done|].
  change (written (op :: ops)) with (written1 op ++ written ops). rewrite handed_app, <- !app_assoc, <- E2, !app_assoc, E1. split; [done|].
  destruct ops as [|op' ops]; [|exact F2]. cbn [last]. intros [= ->].
  specialize (F1 eq_refl). rewrite F1 in E2. symmetry in E2. by apply app_nil in E2 as [_ ?].
Qed.
End Transmit.

(** ** A ring buffer, and a run *)

(** The queued bytes and the free places. *)
#[local] Instance queue : Ringbuf (list Z * nat) := {
  rb_alloc := fun n => ([], Z.to_nat (n - 1));
  rb_avail := fun b => len (fst b);
  rb_free := fun b => Z.of_nat (snd b);
  rb_get_bytes := fun b n => (take (Z.to_nat n) (fst b), (drop (Z.to_nat n) (fst b), (snd b + Z.to_nat n)%nat));
  rb_put_bytes := fun b l => (fst b ++ l, (snd b - length l)%nat);
  rb_contents := fst;
  rb_capacity := fun b => len (fst b) + Z.of_nat (snd b)
}.
#[local] Instance queue_laws : RingbufLaws (list Z * nat).
Proof.
  split; cbn; try done.
  - intros b. lia.
  - intros b. lia.
  - intros b n Hn. split_and!; [done | done|]. unfold len in *. rewrite length_drop. lia.
  - intros b l Hl. split; [done|]. unfold len in *. rewrite length_app. lia.
Qed.

(** Three bytes wait and one arrives later. *)
Definition example_uart : machine_uart_obj_t (list Z * nat) := UartObj 7 4 2 ([10; 11; 12], 5%nat) ([], 8%nat) true.
Definition one_arrives (h : list (ucall * answer)) (_ : ucall) : answer := Answer 0 (if len h =? 0 then [13] else []).
Definition read_run (size : Z) := run one_arrives (mp_machine_uart_read 40 size example_uart) [].

Lemma uart_read_ends_witness :
  map fst (snd (read_run 6)) = [k_msleep 1; k_msleep 1; k_msleep 1] /\
  exists got u' stored, fst (read_run 6) = Ok (Val got, u') /\ len got <= 6 /\
    got ++ received u' = [10; 11; 12] ++ stored /\
    Forall (fun e => fst e = k_msleep 1) (snd (read_run 6)) /\ len (snd (read_run 6)) <= Z.max 1 4 + len got * 2.
Proof.
  split; [vm_compute; reflexivity|].
  refine (uart_read_ends 40 6 example_uart (snd (read_run 6)) (fst (read_run 6)) _ _ _ _ _); [by_decide | by_decide | by_decide | by_decide |].
  apply (run_runs _ one_arrives). unfold read_run. apply surjective_pairing.
Defined.

(** A device that is ready for four bytes and pending once per interrupt; eleven
    bytes meet a ring of eight. *)
Definition serving (h : list (ucall * answer)) (c : ucall) : answer :=
  match c with
  | uart_irq_update_pending _ => Answer (match last h with Some (mp_hal_signal_event, _) => 1 | _ => 0 end) []
  | uart_irq_tx_ready _ => Answer 4 []
  | uart_irq_tx_complete _ => Answer 1 []
  | _ => Answer 0 []
  end.
Definition uart_ops : list uart_op :=
  [Write [1; 2; 3; 4; 5; 6; 7; 8; 9; 10; 11]; Interrupt; Write [12; 13]; Interrupt; Write []; Write [14]; Flush].
Definition send_run := run serving (uart_run 1 2 3 4 20 10 uart_ops example_uart) [].

Lemma uart_writes_in_order_witness :
  (exists u', fst send_run = Ok (Val tt, u')) /\ handed (snd send_run) = [1; 2; 3; 4; 5; 6; 7; 8; 9; 10; 11; 12; 13; 14].
Proof.
  assert (Hr : runs (uart_run 1 2 3 4 20 10 uart_ops example_uart) (snd send_run) (fst send_run)).
  { apply (run_runs _ serving). unfold send_run. apply surjective_pairing. }
  destruct (uart_writes_in_order 1 2 3 4 ltac:(lia) 20 10 uart_ops example_uart _ _ Hr) as (u' & E & _ & Hl); [vm_compute; lia | vm_compute; lia|].
  split; [by exists u'|]. rewrite Hl by reflexivity. reflexivity.
Defined.
