(* ===== verification/Console.v ===== *)
(** The console of app/micropython: the receive ring of src/zephyr_getchar.c,
    the standard streams of uart_core.c, the waiting of mphalport.c and the
    inline functions of mphalport.h. *)

From S2P Require Import Prelude Py.

(** ** src/zephyr_getchar.c and uart_core.c *)

(** Interrupts served while the thread waits, or before [irq_lock] has masked
    them, come with the answer: the characters received. *)
Inductive ccall :=
  | printk_overflow
  | signal_event                       (* mp_hal_signal_event, below *)
  | mp_sched_keyboard_interrupt
  | irq_lock
  | irq_unlock
  | uart_console_in_debug_hook_install
  | uart_register_input
  | tty_init
  | tty_set_tx_buf (size : Z)
  | tty_set_rx_buf (size : Z)
  | tty_set_rx_timeout (ms : Z)
  | tty_set_tx_timeout (ms : Z)
  | tty_write (c : Z)
  | tty_read                           (* stores the byte read *)
  | console_is_ready
  | console_has_irq_callback_set
  | uart_poll_out (c : Z)
  | mp_event_wait_ms (ms : Z)
  | real_main.

Definition UART_BUFSIZE : Z := 512.

Record console := Console { uart_ringbuf : list Z; i_get : Z; i_put : Z }.
Definition set_uart_ringbuf x s := Console x (i_get s) (i_put s).
Definition set_i_get x s := Console (uart_ringbuf s) x (i_put s).
Definition set_i_put x s := Console (uart_ringbuf s) (i_get s) x.
(** The zeroed statics. *)
Definition console_init : console := Console (repeat 0 512) 0 0.

Local Abbreviation cm A := (stp ccall answer console A).

Section Console.
(** [mp_interrupt_char], -1 when Ctrl-C is off; and the configuration. *)
Context (mp_interrupt_char : Z).
Context (CONFIG_CONSOLE_SUBSYS : bool) (CONFIG_CONSOLE_GETCHAR_BUFSIZE CONFIG_CONSOLE_PUTCHAR_BUFSIZE : Z).
Context (MP_STREAM_POLL_RD MP_STREAM_POLL_WR : Z).

Definition console_irq_input_hook (ch : Z) : cm Z :=
  s ← lift (gets (fun s => s));
  let i_next := Z.land (i_put s + 1) (UART_BUFSIZE - 1) in
  if i_next =? i_get s then ask printk_overflow;; mret 1
  else if ch =? mp_interrupt_char then
    ask signal_event;; ask mp_sched_keyboard_interrupt;; mret 1
  else
    lift (updates (fun s => b ← wr (uart_ringbuf s) (i_put s) ch; Ok (set_uart_ringbuf b s)));;
    lift (modify (set_i_put (u16 i_next)));;
    mret 1.

(** The hook, run by the interrupt routine for each character it receives. *)
Fixpoint received (chs : list Z) : cm unit :=
  match chs with
  | [] => mret tt
  | ch :: chs => console_irq_input_hook (u8 ch);; received chs
  end.

Definition zephyr_getchar_check : cm Z := lift (gets (fun s => if i_get s =? i_put s then 0 else 1)).

Definition zephyr_getchar : cm Z :=
  s ← lift (gets (fun s => s));
  if negb (i_get s =? i_put s) then
    key ← ask irq_lock;
    received (aout key);;
    s ← lift (gets (fun s => s));
    c ← lift (reads (fun s => rd (uart_ringbuf s) (i_get s)));
    lift (modify (set_i_get (u16 (i_get s + 1))));;
    lift (modify (fun s => set_i_get (Z.land (i_get s) (UART_BUFSIZE - 1)) s));;
    ask irq_unlock;;
    mret c
  else mret (-1).

Definition zephyr_getchar_init : cm unit :=
  ask uart_console_in_debug_hook_install;; ask uart_register_input;; mret tt.

Definition mp_console_putchar (c : Z) : cm Z := r ← ask (tty_write c); mret (aret r).
Definition mp_console_getchar : cm Z :=
  r ← ask tty_read; if aret r <? 0 then mret (aret r) else mret (u8 (out0 0 r)).

Definition mp_hal_stdio_poll (poll_flags : Z) : cm Z :=
  rdy ← (if negb (Z.land poll_flags MP_STREAM_POLL_RD =? 0) then
           (if CONFIG_CONSOLE_SUBSYS then mret MP_STREAM_POLL_RD
            else c ← zephyr_getchar_check; mret (if c =? 0 then 0 else MP_STREAM_POLL_RD))
         else mret 0);
  mret (if negb (Z.land poll_flags MP_STREAM_POLL_WR =? 0) then Z.lor rdy MP_STREAM_POLL_WR else rdy).

(** [mp_event_wait_ms(1)]: [false] when it raises an exception, which leaves
    the function. *)
Definition wait_1ms : cm bool :=
  r ← ask (mp_event_wait_ms 1);
  received (aout r);;
  mret (aret r =? 0).

(** The character, [None] after an exception. *)
Fixpoint mp_hal_stdin_rx_chr (fuel : nat) : cm (option Z) :=
  match fuel with
  | O => lift (fault OutOfFuel)
  | S fuel =>
      c ← (if CONFIG_CONSOLE_SUBSYS then mp_console_getchar else zephyr_getchar);
      if c >=? 0 then mret (Some c)
      else
        ok ← wait_1ms;
        if (ok : bool) then mp_hal_stdin_rx_chr fuel else mret None
  end.

(** [while (mp_console_putchar(c) == -1)]: whether it ends without exception. *)
Fixpoint put_until_taken (fuel : nat) (c : Z) : cm bool :=
  match fuel with
  | O => lift (fault OutOfFuel)
  | S fuel =>
      r ← mp_console_putchar c;
      if r =? -1 then ok ← wait_1ms; (if (ok : bool) then put_until_taken fuel c else mret false) else mret true
  end.
Fixpoint tx_all (fuel : nat) (str : list Z) : cm bool :=
  match str with
  | [] => mret true
  | c :: str =>
      ok ← (if CONFIG_CONSOLE_SUBSYS then put_until_taken fuel c else ask (uart_poll_out c);; mret true);
      if (ok : bool) then tx_all fuel str else mret false
  end.
Definition mp_hal_stdout_tx_strn (fuel : nat) (str : list Z) : cm (option Z) :=
  ok ← tx_all fuel str; mret (if (ok : bool) then Some (len str) else None).

Definition mp_console_init : cm Z :=
  ready ← ask console_is_ready;
  if aret ready =? 0 then mret (- ENODEV)
  else
    ret ← ask tty_init;
    if negb (aret ret =? 0) then mret (aret ret)
    else
      supported ← (if negb (CONFIG_CONSOLE_GETCHAR_BUFSIZE + CONFIG_CONSOLE_PUTCHAR_BUFSIZE =? 0)
                   then r ← ask console_has_irq_callback_set; mret (negb (aret r =? 0)) else mret true);
      if negb (supported : bool) then mret (- ENOTSUP)
      else
        ask (tty_set_tx_buf CONFIG_CONSOLE_PUTCHAR_BUFSIZE);;
        ask (tty_set_rx_buf CONFIG_CONSOLE_GETCHAR_BUFSIZE);;
        ask (tty_set_rx_timeout 0);;
        ask (tty_set_tx_timeout 2);;
        mret 0.

(** src/zephyr_start.c: the thread that starts the interpreter. *)
Definition _main : cm unit :=
  (if CONFIG_CONSOLE_SUBSYS then mp_console_init;; mret tt else zephyr_getchar_init);;
  ask real_main;;
  mret tt.
End Console.

(** ** mphalport.c *)

(** [mp_handle_pending] answers the exception a scheduled callback raises, if
    any; [k_poll] stores which of the two events are ready. *)
Inductive wcall :=
  | mp_handle_pending
  | MP_THREAD_GIL_EXIT
  | MP_THREAD_GIL_ENTER
  | k_uptime_get
  | k_poll_signal_init
  | k_poll_signal_raise
  | k_poll_event_init (sem : Z)
  | k_poll (n : Z) (wait : option Z)
  | k_busy_wait (us : Z)
  | k_cycle_get_32
  | k_uptime_ticks
  | gpio_pin_configure (pin flags : Z)
  | gpio_pin_get_raw (pin : Z)
  | gpio_pin_set_raw (pin v : Z)
  | sys_cache_data_flush_and_invd_range
  | sys_cache_data_flush_and_invd_all
  | sys_csrand_get (n : Z).

(** [wait_events[0].state == K_POLL_STATE_SIGNALED], the signal, and
    [wait_events[1].state == K_POLL_STATE_SEM_AVAILABLE]. *)
Record wait_events := Events { ev_signaled : bool; signaled : Z; ev_sem_available : bool }.

Local Abbreviation wm A := (py wcall answer wait_events A).

Section Wait.
Context (GPIO_INPUT GPIO_OUTPUT GPIO_OPEN_DRAIN : Z).
(** Conversions of the kernel's clocks to nanoseconds. *)
Context (k_cyc_to_ns_floor64 k_ticks_to_ns_near64 : Z -> Z).

Definition tell (c : wcall) : wm Z := r ← py_call c; mret (aret r).

Definition mp_hal_init : wm unit := tell k_poll_signal_init;; py_set (fun s => Events (ev_signaled s) 0 (ev_sem_available s)).
Definition mp_hal_signal_event : wm unit := tell k_poll_signal_raise;; py_set (fun s => Events (ev_signaled s) 1 (ev_sem_available s)).

(** The result is [mp_uint_t], 32 bits wide. *)
Definition mp_hal_ticks_ms : wm Z := t ← tell k_uptime_get; mret (u32 t).

(** Whether the time is over, and the function returns. *)
Definition check_time (t0 timeout_ms : Z) : wm bool :=
  t ← mp_hal_ticks_ms;
  if u32 (t - t0) >=? timeout_ms then tell MP_THREAD_GIL_ENTER;; mret true else mret false.

(** What follows the poll in a turn: whether the function returns. *)
Definition after_poll (exit_on_event : bool) (sem t0 timeout_ms : Z) : wm bool :=
  s ← py_get (fun s => s);
  if ev_signaled s then
    py_set (fun s => Events false 0 (ev_sem_available s));;
    if exit_on_event then tell MP_THREAD_GIL_ENTER;; mret true else check_time t0 timeout_ms
  else if negb (sem =? 0) && ev_sem_available s then
    py_set (fun s => Events (ev_signaled s) (signaled s) false);;
    tell MP_THREAD_GIL_ENTER;; mret true
  else check_time t0 timeout_ms.

Definition wait_turn (exit_on_event : bool) (sem t0 timeout_ms : Z) : wm bool :=
  e ← tell mp_handle_pending;
  if negb (e =? 0) then raise (Pending e)
  else
    tell MP_THREAD_GIL_EXIT;;
    t ← mp_hal_ticks_ms;
    let dt := u32 (t - t0) in
    let wait := if timeout_ms =? UINT32_MAX then None else Some (if timeout_ms >? dt then timeout_ms - dt else 0) in
    r ← py_call (k_poll (if sem =? 0 then 1 else 2) wait);
    py_set (fun s => Events (ev_signaled s || negb (nth 0 (aout r) 0 =? 0)) (signaled s)
                            (ev_sem_available s || negb (nth 1 (aout r) 0 =? 0)));;
    after_poll exit_on_event sem t0 timeout_ms.

Fixpoint wait_loop (fuel : nat) (exit_on_event : bool) (sem t0 timeout_ms : Z) : wm unit :=
  match fuel with
  | O => py_lift (fault OutOfFuel)
  | S fuel =>
      ended ← wait_turn exit_on_event sem t0 timeout_ms;
      if (ended : bool) then mret tt else wait_loop fuel exit_on_event sem t0 timeout_ms
  end.

(** [sem] is 0 for NULL. *)
Definition mp_hal_wait_event (fuel : nat) (exit_on_event : bool) (sem timeout_ms : Z) : wm unit :=
  t0 ← mp_hal_ticks_ms;
  (if negb (sem =? 0) then
     tell (k_poll_event_init sem);; py_set (fun s => Events (ev_signaled s) (signaled s) false)
   else mret tt);;
  wait_loop fuel exit_on_event sem t0 timeout_ms.

(** An object that is a pin, or another one. *)
Definition mp_hal_get_pin_obj (pin_in : option Z) : wm Z :=
  match pin_in with Some p => mret p | None => raise ValueError end.

(** ** mphalport.h *)

(** [MICROPY_INTERNAL_WFE]. *)
Definition internal_wfe (fuel : nat) (TIMEOUT_MS : Z) : wm unit :=
  if TIMEOUT_MS <? 0 then mp_hal_wait_event fuel true 0 UINT32_MAX
  else mp_hal_wait_event fuel true 0 (u32 TIMEOUT_MS).

Definition mp_hal_ticks_us : wm Z := c ← tell k_cycle_get_32; mret (u32 (k_cyc_to_ns_floor64 (u32 c) / 1000)).
Definition mp_hal_ticks_cpu : wm Z := c ← tell k_cycle_get_32; mret (u32 c).
Definition mp_hal_delay_us (delay : Z) : wm unit := tell (k_busy_wait delay);; mret tt.
Definition mp_hal_delay_ms (fuel : nat) (delay : Z) : wm unit := mp_hal_wait_event fuel false 0 delay.
Definition mp_hal_time_ns : wm Z := t ← tell k_uptime_ticks; mret (u64 (k_ticks_to_ns_near64 t)).

Definition mp_hal_pin_input (pin : Z) : wm unit := tell (gpio_pin_configure pin GPIO_INPUT);; mret tt.
Definition mp_hal_pin_output (pin : Z) : wm unit :=
  r ← tell (gpio_pin_configure pin (Z.lor GPIO_OUTPUT GPIO_INPUT));
  if r =? - ENOTSUP then tell (gpio_pin_configure pin GPIO_OUTPUT);; mret tt else mret tt.
Definition mp_hal_pin_open_drain (pin : Z) : wm unit :=
  tell (gpio_pin_configure pin (Z.lor (Z.lor GPIO_OUTPUT GPIO_INPUT) GPIO_OPEN_DRAIN));; mret tt.
Definition mp_hal_pin_read (pin : Z) : wm Z := tell (gpio_pin_get_raw pin).
Definition mp_hal_pin_write (pin v : Z) : wm unit := tell (gpio_pin_set_raw pin v);; mret tt.
Definition mp_hal_pin_od_low (pin : Z) : wm unit := tell (gpio_pin_set_raw pin 0);; mret tt.
Definition mp_hal_pin_od_high (pin : Z) : wm unit := tell (gpio_pin_set_raw pin 1);; mret tt.
Definition MP_HAL_CLEAN_DCACHE : wm unit :=
  r ← tell sys_cache_data_flush_and_invd_range;
  if negb (r =? 0) then tell sys_cache_data_flush_and_invd_all;; mret tt else mret tt.
(** The random bytes stored. *)
Definition mp_hal_get_random (n : Z) : wm (list Z) := r ← py_call (sys_csrand_get n); mret (aout r).
End Wait.
