(* ===== verification/ConsoleThm.v ===== *)
(** Theorems on the console: the receive ring is a queue, and delays last. *)

From Stdlib Require Import Sorting.Sorted.
From S2P Require Import Prelude Py Console.

(** ** The ring is a queue of at most 511 characters *)

Record represents (s : console) (q : list Z) : Prop := Represents {
  rep_len : len (uart_ringbuf s) = 512;
  rep_get : 0 <= i_get s < 512;
  rep_size : len q <= 511;
  rep_put : i_put s = (i_get s + len q) mod 512;
  rep_at k v : q !! k = Some v -> uart_ringbuf s !! Z.to_nat ((i_get s + Z.of_nat k) mod 512) = Some v
}.

Lemma represents_init : represents console_init [].
Proof. split; done. Qed.

Lemma land_511 z : Z.land z (UART_BUFSIZE - 1) = z mod 512.
Proof. change (UART_BUFSIZE - 1) with (Z.ones 9). by rewrite Z.land_ones by lia. Qed.

(** Turning over the end of the ring. *)
Lemma wrap g n : 0 <= g < 512 -> 0 <= n <= 512 -> (g + n) mod 512 = if g + n <? 512 then g + n else g + n - 512.
Proof.
  intros Hg Hn. case_test; [by apply Z.mod_small; lia|].
  symmetry. apply (Z.mod_unique _ 512 1); [left|]; lia.
Qed.

Lemma rep_empty s q : represents s q -> (i_get s = i_put s <-> q = []).
Proof.
  intros [_ Hg Hs Hp _]. rewrite Hp, wrap by (pose proof (len_nonneg q); lia).
  split; [|intros ->; rewrite len_nil; case_test; lia].
  intros E. destruct q as [|c q]; [done|]. rewrite len_cons in *. pose proof (len_nonneg q). exfalso. revert E. case_test; lia.
Qed.

Lemma rep_full s q : represents s q -> ((i_put s + 1) mod 512 = i_get s <-> len q = 511).
Proof.
  intros [_ Hg Hs Hp _]. rewrite Hp, (wrap (i_get s) (len q)) by (pose proof (len_nonneg q); lia). pose proof (len_nonneg q).
  case_test; (rewrite wrap by lia; case_test; lia).
Qed.

Lemma rep_push s q ch :
  represents s q -> len q < 511 ->
  exists b, wr (uart_ringbuf s) (i_put s) ch = Ok b /\ represents (set_i_put (u16 ((i_put s + 1) mod 512)) (set_uart_ringbuf b s)) (q ++ [ch]).
Proof.
  intros [Hl Hg Hs Hp Ha] Hlt. pose proof (len_nonneg q).
  assert (Hr : 0 <= i_put s < 512) by (rewrite Hp; apply Z.mod_pos_bound; lia).
  eexists. split; [apply wr_ok; lia|]. split; cbn [uart_ringbuf i_get i_put set_i_put set_uart_ringbuf].
  - by rewrite len_insert.
  - done.
  - rewrite len_app, len_single. lia.
  - rewrite u16_id by (pose proof (Z.mod_pos_bound (i_put s + 1) 512); lia).
    rewrite Hp, Zplus_mod_idemp_l, len_app, len_single. f_equal. lia.
  - intros k v Hk. destruct (decide (k < length q)%nat) as [Hq|Hq].
    + rewrite lookup_app_l in Hk by done. rewrite list_lookup_insert_ne; [by apply Ha|].
      rewrite Hp. unfold len in *. rewrite !wrap by lia. repeat case_test; lia.
    + rewrite lookup_app_r in Hk by lia. apply list_lookup_singleton_Some in Hk as [Hk ->].
      replace (Z.of_nat k) with (len q) by (unfold len; lia). rewrite <- Hp.
      apply list_lookup_insert_eq. unfold len in Hl. lia.
Qed.

Lemma rep_pop s c q :
  represents s (c :: q) ->
  rd (uart_ringbuf s) (i_get s) = Ok c /\
  represents (set_i_get (Z.land (u16 (i_get s + 1)) (UART_BUFSIZE - 1)) s) q.
Proof.
  intros [Hl Hg Hs Hp Ha]. rewrite len_cons in *. pose proof (len_nonneg q). split.
  - apply rd_ok; [lia|]. specialize (Ha 0%nat c eq_refl). by rewrite Z.add_0_r, Z.mod_small in Ha.
  - rewrite land_511, u16_id by lia. split; cbn [uart_ringbuf i_get i_put set_i_get].
    + done.
    + apply Z.mod_pos_bound. lia.
    + lia.
    + rewrite Hp, Zplus_mod_idemp_l. f_equal. lia.
    + intros k v Hk. specialize (Ha (S k) v Hk). rewrite Zplus_mod_idemp_l.
      by replace (i_get s + 1 + Z.of_nat k) with (i_get s + Z.of_nat (S k)) by lia.
Qed.

Section Refinement.
Context (mp_interrupt_char : Z).
Local Abbreviation trace := (list (ccall * answer)).

(** *** The specification: a queue of at most 511 characters. *)

Inductive queue_hook (q : list Z) (ch : Z) : trace -> list Z -> Prop :=
  | hook_full a : len q = 511 -> queue_hook q ch [(printk_overflow, a)] q
  | hook_interrupt a b : len q < 511 -> ch = mp_interrupt_char ->
      queue_hook q ch [(signal_event, a); (mp_sched_keyboard_interrupt, b)] q
  | hook_put : len q < 511 -> ch <> mp_interrupt_char -> queue_hook q ch [] (q ++ [ch]).
Inductive arrive : list Z -> list Z -> trace -> list Z -> Prop :=
  | arrive_none q : arrive q [] [] q
  | arrive_one q ch chs tr1 q1 tr2 q2 : queue_hook q (u8 ch) tr1 q1 -> arrive q1 chs tr2 q2 -> arrive q (ch :: chs) (tr1 ++ tr2) q2.

Inductive op := Hook (ch : Z) | Check_ | Getchar.
Inductive queue_step : list Z -> op -> trace -> Z -> list Z -> Prop :=
  | step_hook q ch tr q' : queue_hook q ch tr q' -> queue_step q (Hook ch) tr 1 q'
  | step_check q : queue_step q Check_ [] (if bool_decide (q = []) then 0 else 1) q
  | step_empty : queue_step [] Getchar [] (-1) []
  | step_getchar c q key tr u q' : arrive (c :: q) (aout key) tr (c :: q') ->
      queue_step (c :: q) Getchar ((irq_lock, key) :: tr ++ [(irq_unlock, u)]) c q'.
Inductive queue_steps : list Z -> list op -> trace -> list Z -> list Z -> Prop :=
  | steps_nil q : queue_steps q [] [] [] q
  | steps_cons q o tr r q1 ops tr' rs q2 : queue_step q o tr r q1 -> queue_steps q1 ops tr' rs q2 ->
      queue_steps q (o :: ops) (tr ++ tr') (r :: rs) q2.

(** *** The code *)

Definition exec (o : op) : stp ccall answer console Z :=
  match o with
  | Hook ch => console_irq_input_hook mp_interrupt_char ch
  | Check_ => zephyr_getchar_check
  | Getchar => zephyr_getchar mp_interrupt_char
  end.
Fixpoint exec_all (ops : list op) : stp ccall answer console (list Z) :=
  match ops with
  | [] => mret []
  | o :: ops => r ← exec o; rs ← exec_all ops; mret (r :: rs)
  end.

Lemma hook_refines s q ch :
  represents s q ->
  outcomes (console_irq_input_hook mp_interrupt_char ch s) (fun tr out =>
    exists s' q', out = Ok (1, s') /\ represents s' q' /\ queue_hook q ch tr q').
Proof.
  intros Hr. unfold console_irq_input_hook. eapply outcomes_lift; [reflexivity|]. cbv zeta. rewrite land_511.
  pose proof (rep_full s q Hr) as Hf. pose proof (rep_size s q Hr).
  destruct ((i_put s + 1) mod 512 =? i_get s) eqn:E; zify_bool.
  { apply outcomes_ask. intros a. apply outcomes_ret. exists s, q. split_and!; try done. apply hook_full. tauto. }
  assert (len q < 511) by (assert (len q <> 511) by tauto; lia).
  destruct (ch =? mp_interrupt_char) eqn:E'; zify_bool.
  - apply outcomes_ask. intros a. apply outcomes_ask. intros b. apply outcomes_ret.
    exists s, q. split_and!; try done. by apply hook_interrupt.
  - destruct (rep_push s q ch Hr) as (b & Ew & Hr'); [done|].
    eapply outcomes_lift; [apply updates_ok; rewrite Ew; reflexivity|].
    eapply outcomes_lift; [reflexivity|]. apply outcomes_ret. exists (set_i_put (u16 ((i_put s + 1) mod 512)) (set_uart_ringbuf b s)), (q ++ [ch]).
    split_and!; try done. by apply hook_put.
Qed.

Lemma received_refines chs s q :
  represents s q ->
  outcomes (received mp_interrupt_char chs s) (fun tr out =>
    exists s' q', out = Ok (tt, s') /\ represents s' q' /\ arrive q chs tr q').
Proof.
  revert s q. induction chs as [|ch chs IH]; intros s q Hr; cbn [received].
  { apply outcomes_ret. exists s, q. split_and!; try done. constructor. }
  apply outcomes_stp. eapply outcomes_mono; [|by apply hook_refines].
  intros tr out (s1 & q1 & -> & Hr1 & Hq). eapply outcomes_mono; [|by apply IH].
  intros tr' out' (s2 & q2 & -> & Hr2 & Ha). exists s2, q2. split_and!; try done. by econstructor.
Qed.

(** Arrivals do not touch what is queued. *)
Lemma arrive_prefix q chs tr q' : arrive q chs tr q' -> exists l, q' = q ++ l.
Proof.
  induction 1 as [q | q ch chs tr1 q1 tr2 q2 Hh _ [l ->]]; [exists []; by rewrite app_nil_r|].
  destruct Hh; eauto. exists ([u8 ch] ++ l). by rewrite app_assoc.
Qed.

Lemma getchar_refines s q :
  represents s q ->
  outcomes (zephyr_getchar mp_interrupt_char s) (fun tr out =>
    exists r s' q', out = Ok (r, s') /\ represents s' q' /\ queue_step q Getchar tr r q').
Proof.
  intros Hr. unfold zephyr_getchar. eapply outcomes_lift; [reflexivity|]. pose proof (rep_empty s q Hr) as He.
  destruct (i_get s =? i_put s) eqn:E; zify_bool; cbn [negb].
  { apply outcomes_ret. exists (-1), s, []. replace q with (@nil Z) in * by (symmetry; tauto). split_and!; try done. constructor. }
  destruct q as [|c q]; [tauto|]. apply outcomes_ask. intros key.
  apply outcomes_stp. eapply outcomes_mono; [|by apply received_refines].
  intros tr out (s1 & q1 & -> & Hr1 & Ha). destruct (arrive_prefix _ _ _ _ Ha) as [l ->]. cbn [app] in *.
  destruct (rep_pop s1 c _ Hr1) as [Erd Hr2].
  eapply outcomes_lift; [reflexivity|]. eapply outcomes_lift; [apply reads_ok, Erd|].
  eapply outcomes_lift; [reflexivity|]. eapply outcomes_lift; [reflexivity|].
  apply outcomes_ask. intros u. apply outcomes_ret. eexists c, _, (q ++ l). split_and!; [reflexivity | exact Hr2 |].
  by constructor.
Qed.

Lemma exec_refines o s q :
  represents s q ->
  outcomes (exec o s) (fun tr out => exists r s' q', out = Ok (r, s') /\ represents s' q' /\ queue_step q o tr r q').
Proof.
  intros Hr. destruct o as [ch| |]; cbn [exec].
  - eapply outcomes_mono; [|by apply hook_refines]. intros tr out (s' & q' & -> & Hr' & Hq).
    exists 1, s', q'. split_and!; try done. by constructor.
  - apply outcomes_ret. exists (if bool_decide (q = []) then 0 else 1), s, q. split_and!; [|done | constructor].
    pose proof (rep_empty s q Hr). do 2 f_equal. case_bool_decide; case_test; tauto.
  - by apply getchar_refines.
Qed.

(** C36: Whatever sequence of received characters, checks and reads, with
    whatever characters arriving inside the reads, the 512-byte ring behaves
    as a queue of at most 511 characters: a character is put at the end, is
    the interrupt character (it raises KeyboardInterrupt and is not queued),
    or finds the queue full and is dropped with a message, the interrupt
    character too; a read takes the oldest one, and none is lost, doubled or
    reordered. No operation faults. *)
Theorem console_refines_queue ops s q tr out :
  represents s q -> runs (exec_all ops s) tr out ->
  exists rs s' q', out = Ok (rs, s') /\ represents s' q' /\ queue_steps q ops tr rs q'.
Proof.
  intros Hr. revert s q Hr tr out. induction ops as [|o ops IH]; intros s q Hr; cbn [exec_all].
  { apply outcomes_ret. exists [], s, q. split_and!; try done. constructor. }
  apply outcomes_stp. eapply outcomes_mono; [|by apply exec_refines].
  intros tr out (r & s1 & q1 & -> & Hr1 & Hq). apply outcomes_stp. eapply outcomes_mono; [|intros ? ?; by apply IH].
  intros tr' out' (rs & s2 & q2 & -> & Hr2 & Hqs). apply outcomes_ret. exists (r :: rs), s2, q2.
  rewrite app_nil_r. split_and!; try done. by econstructor.
Qed.
End Refinement.

(** A ring about to turn over, Ctrl-C (3) as the interrupt character: two
    characters come in, and two more, one of them Ctrl-C, inside the read. *)
Definition example_ring : console := Console (repeat 0 512) 511 511.
Definition example_ops : list op := [Hook 97; Hook 98; Getchar; Check_; Getchar; Getchar; Getchar].
Definition ctrl_c (h : list (ccall * answer)) (c : ccall) : answer :=
  match c with irq_lock => Answer 0 (if len h =? 0 then [99; 3] else []) | _ => Answer 0 [] end.
Definition ring_run := run ctrl_c (exec_all 3 example_ops example_ring) [].

Lemma console_refines_queue_witness :
  represents example_ring [] /\
  exists rs s' q', fst ring_run = Ok (rs, s') /\ represents s' q' /\
    queue_steps 3 [] example_ops (snd ring_run) rs q'.
Proof.
  assert (Hr : represents example_ring []) by (split; done). split; [done|].
  refine (console_refines_queue 3 example_ops example_ring [] (snd ring_run) (fst ring_run) Hr _).
  apply (run_runs _ ctrl_c). unfold ring_run. apply surjective_pairing.
Defined.

Example ring_run_results : exists s', fst ring_run = Ok ([1; 1; 97; 1; 98; 99; -1], s').
Proof. vm_compute. by eexists. Qed.
(** Ctrl-C is lost when the queue is full. *)
Example ctrl_c_lost :
  snd (run ctrl_c (console_irq_input_hook 3 3 (Console (repeat 97 512) 0 511)) []) = [(printk_overflow, Answer 0 [])].
Proof. reflexivity. Qed.

(** ** Delays *)

Section Delay.
Local Abbreviation trace := (list (wcall * answer)).

Definition elapsed (t0 t : answer) : Z := u32 (u32 (aret t) - u32 (aret t0)).

(** A turn of the waiting loop that started at [t0] and finds [el]
    milliseconds gone after the poll. *)
Inductive turn (t0 : answer) (delay : Z) : Z * trace -> Prop :=
  Turn e g t1 r t2 : aret e = 0 -> turn t0 delay (elapsed t0 t2,
    [(mp_handle_pending, e); (MP_THREAD_GIL_EXIT, g); (k_uptime_get, t1);
     (k_poll 1 (Some (Z.max 0 (delay - elapsed t0 t1))), r); (k_uptime_get, t2)]).

Definition turns_of (l : list (Z * trace)) : trace := concat (map snd l).

(** How the loop goes on from turn to turn and ends. *)
Definition delay_spec (fuel : nat) (t0 : answer) (delay : Z) (tr : trace) (out : res (py_res unit * wait_events)) : Prop :=
  exists turns last, Forall (fun t => turn t0 delay t /\ fst t < delay) turns /\ tr = turns_of turns ++ last /\
    match out with
    | Ok (Val tt, s') => exists el t g, turn t0 delay (el, t) /\ delay <= el /\
        last = t ++ [(MP_THREAD_GIL_ENTER, g)] /\ ev_signaled s' = false
    | Ok (Raise x, _) => exists e, x = Pending (aret e) /\ aret e <> 0 /\ last = [(mp_handle_pending, e)]
    | Stop x => x = OutOfFuel /\ last = [] /\ length turns = fuel
    end.

Lemma check_time_runs t0 delay s :
  outcomes (check_time (u32 (aret t0)) delay s) (fun tr out => exists t2,
    if elapsed t0 t2 <? delay then tr = [(k_uptime_get, t2)] /\ out = Ok (Val false, s)
    else exists g, tr = [(k_uptime_get, t2); (MP_THREAD_GIL_ENTER, g)] /\ out = Ok (Val true, s)).
Proof.
  unfold check_time, mp_hal_ticks_ms, tell. repeat py_step; (eexists; rewrite ?app_nil_r).
  - unfold elapsed. rewrite (proj2 (Z.ltb_ge _ _)) by done. eauto.
  - unfold elapsed. rewrite (proj2 (Z.ltb_lt _ _)) by done. eauto.
Qed.

Definition turn_result t0 delay (tr : trace) (out : res (py_res bool * wait_events)) : Prop :=
  match out with
  | Ok (Val b, s') => exists el t, turn t0 delay (el, t) /\ ev_signaled s' = false /\
      if b : bool then delay <= el /\ exists g, tr = t ++ [(MP_THREAD_GIL_ENTER, g)] else el < delay /\ tr = t
  | Ok (Raise x, _) => exists e, x = Pending (aret e) /\ aret e <> 0 /\ tr = [(mp_handle_pending, e)]
  | Stop _ => False
  end.

Lemma delay_turn t0 delay s :
  0 <= delay < UINT32_MAX -> outcomes (wait_turn false 0 (u32 (aret t0)) delay s) (turn_result t0 delay).
Proof.
  intros Hd. unfold wait_turn, tell, mp_hal_ticks_ms. py_step. py_step. py_step.
  destruct (aret r =? 0) eqn:E; zify_bool; cbn [negb]; [|apply outcomes_ret; unfold turn_result; eauto 10].
  repeat py_step. unfold mp_hal_ticks_ms, tell. repeat py_step.
  rewrite (proj2 (Z.eqb_neq delay UINT32_MAX)) by lia.
  set (s1 := Events _ _ _). unfold after_poll. py_step.
  assert (Hend : forall s', ev_signaled s' = false -> outcomes (check_time (u32 (aret t0)) delay s') (fun tr out => turn_result t0 delay
    ((mp_handle_pending, r) :: (MP_THREAD_GIL_EXIT, r0) :: (k_uptime_get, r1) ::
     (k_poll 1 (Some (if delay >? u32 (u32 (aret r1) - u32 (aret t0)) then delay - u32 (u32 (aret r1) - u32 (aret t0)) else 0)), r2) :: tr) out)).
  { intros s' Hs'. eapply outcomes_mono; [|apply check_time_runs]. intros tr out [t2 Ht2].
    replace (if delay >? _ then _ else _) with (Z.max 0 (delay - elapsed t0 r1)) by (unfold elapsed; case_test; lia).
    destruct (elapsed t0 t2 <? delay) eqn:El; zify_bool.
    - destruct Ht2 as [-> ->]. do 2 eexists. split_and!; [by apply (Turn t0 delay r r0 r1 r2 t2)|..]; done.
    - destruct Ht2 as (g & -> & ->). do 2 eexists. split_and!; [by apply (Turn t0 delay r r0 r1 r2 t2) | done | lia |]. by exists g. }
  cbn [Z.eqb negb andb]. destruct (ev_signaled s1) eqn:Es; [|by apply Hend].
  py_step. by apply Hend.
Qed.

Lemma delay_loop fuel t0 delay s :
  0 <= delay < UINT32_MAX -> outcomes (wait_loop fuel false 0 (u32 (aret t0)) delay s) (delay_spec fuel t0 delay).
Proof.
  intros Hd. revert s. induction fuel as [|fuel IH]; intros s; cbn [wait_loop].
  { apply outcomes_halt. exists [], []. by split_and!. }
  apply outcomes_py. eapply outcomes_mono; [|by apply delay_turn].
  intros tr [[[[]|x] s']|x] H; cbn [turn_result] in H; try done.
  - destruct H as (el & t & Ht & Hs & Hle & g & ->). apply outcomes_ret. exists [], (t ++ [(MP_THREAD_GIL_ENTER, g)]).
    rewrite app_nil_r. split_and!; try done. eauto 10.
  - destruct H as (el & t & Ht & _ & Hlt & ->). eapply outcomes_mono; [|apply IH].
    intros tr' out (turns & last & Hall & -> & Hout). exists ((el, t) :: turns), last.
    split_and!; [by constructor | unfold turns_of; cbn; by rewrite app_assoc |].
    destruct out as [[[[]|] ?]|]; try done. destruct Hout as (-> & -> & <-). done.
  - exists [], tr. split_and!; done.
Qed.

Lemma delay_runs fuel delay s :
  0 <= delay < UINT32_MAX ->
  outcomes (mp_hal_delay_ms fuel delay s) (fun tr out => exists t0 tr', tr = (k_uptime_get, t0) :: tr' /\ delay_spec fuel t0 delay tr' out).
Proof.
  intros Hd. unfold mp_hal_delay_ms, mp_hal_wait_event, mp_hal_ticks_ms, tell. do 5 py_step. cbn [Z.eqb negb]. py_step.
  eapply outcomes_mono; [|by apply delay_loop]. intros tr out H. eauto.
Qed.

(** A strictly increasing sequence of times below [delay] is no longer than
    [delay]. *)
Lemma increasing_bounded (l : list Z) lo delay :
  StronglySorted Z.lt l -> Forall (fun z => lo <= z < delay) l -> Z.of_nat (length l) <= Z.max 0 (delay - lo).
Proof.
  revert lo. induction l as [|z l IH]; intros lo Hs Hall; cbn [length]; [lia|].
  apply StronglySorted_inv in Hs as [Hs Hz]. apply Forall_cons in Hall as [Hz0 Hall].
  assert (Z.of_nat (length l) <= Z.max 0 (delay - (z + 1))); [|lia].
  apply IH; [done|]. rewrite Forall_forall in *. intros y Hy. specialize (Hz y Hy). specialize (Hall y Hy). lia.
Qed.

(** C37: A delay lasts: [mp_hal_delay_ms] returns at the first wake-up at which
    the clock says [delay] milliseconds are over and not earlier, whatever
    events wake it before; each poll waits no longer than what is left, and an
    exception of a scheduled callback ends it at once. It ends, with fuel for
    [delay] turns, if every wake-up finds a later time. Turns after the first
    run the pending callbacks and release the GIL without having taken it
    back: it is taken once, at the end. *)
Theorem delay_lasts fuel delay s tr out :
  0 <= delay < UINT32_MAX -> runs (mp_hal_delay_ms fuel delay s) tr out ->
  exists t0 turns last, tr = (k_uptime_get, t0) :: turns_of turns ++ last /\
    Forall (fun t => turn t0 delay t /\ fst t < delay) turns /\
    (StronglySorted Z.lt (map fst turns) -> delay < Z.of_nat fuel -> out <> Stop OutOfFuel) /\
    match out with
    | Ok (Val tt, s') => exists el t g, turn t0 delay (el, t) /\ delay <= el /\
        last = t ++ [(MP_THREAD_GIL_ENTER, g)] /\ ev_signaled s' = false
    | Ok (Raise x, _) => exists e, x = Pending (aret e) /\ aret e <> 0 /\ last = [(mp_handle_pending, e)]
    | Stop x => x = OutOfFuel /\ last = [] /\ length turns = fuel
    end.
Proof.
  intros Hd Hr. apply delay_runs in Hr as (t0 & tr' & -> & turns & last & Hall & -> & Hout); [|done].
  exists t0, turns, last. split_and!; try done. intros Hs Hf ->. destruct Hout as (_ & _ & Hlen).
  apply (increasing_bounded _ 0 delay) in Hs; [rewrite length_map in Hs; lia|].
  apply Forall_map. eapply Forall_impl; [exact Hall|]. intros t [[e g t1 r' t2 _] Hlt]. cbn in *.
  split; [apply u32_range | done].
Qed.
End Delay.

(** Ten milliseconds, with an event after four. *)
Definition clock (h : list (wcall * answer)) (c : wcall) : answer :=
  match c with
  | k_uptime_get => Answer (100 + (if len h <? 5 then 0 else if len h <? 9 then 4 else 10)) []
  | k_poll _ _ => Answer 0 [if len h <? 6 then 1 else 0; 0]
  | _ => Answer 0 []
  end.
Definition delay_run := run clock (mp_hal_delay_ms 11 10 (Events false 0 false)) [].

Lemma delay_lasts_witness :
  map fst (snd delay_run) = [k_uptime_get; mp_handle_pending; MP_THREAD_GIL_EXIT; k_uptime_get; k_poll 1 (Some 10); k_uptime_get;
    mp_handle_pending; MP_THREAD_GIL_EXIT; k_uptime_get; k_poll 1 (Some 6); k_uptime_get; MP_THREAD_GIL_ENTER] /\
  exists t0 turns last, snd delay_run = (k_uptime_get, t0) :: turns_of turns ++ last /\
    Forall (fun t => turn t0 10 t /\ fst t < 10) turns /\
    (StronglySorted Z.lt (map fst turns) -> 10 < Z.of_nat 11 -> fst delay_run <> Stop OutOfFuel) /\
    match fst delay_run with
    | Ok (Val tt, s') => exists el t g, turn t0 10 (el, t) /\ 10 <= el /\
        last = t ++ [(MP_THREAD_GIL_ENTER, g)] /\ ev_signaled s' = false
    | Ok (Raise x, _) => exists e, x = Pending (aret e) /\ aret e <> 0 /\ last = [(mp_handle_pending, e)]
    | Stop x => x = OutOfFuel /\ last = [] /\ length turns = 11%nat
    end.
Proof.
  split; [vm_compute; reflexivity|].
  refine (delay_lasts 11 10 (Events false 0 false) (snd delay_run) (fst delay_run) _ _).
  - by_decide.
  - apply (run_runs _ clock). unfold delay_run. apply surjective_pairing.
Defined.
