(* ===== verification/I2cTarget.v ===== *)
(** app/micropython/machine_i2c_target.c: the I2C target, a state machine
    driven by the callbacks of the I2C driver. *)

From S2P Require Import Prelude Py.

(** MicroPython's data layer calls back while it runs: the answer of a read
    request stores the bytes it hands to [write_bytes], and a write request
    carries the byte [read_bytes] gives it. *)
Inductive icall :=
  | zephyr_device_find (name : list Z)                 (* 0 when it raises ValueError *)
  | machine_i2c_target_data_addr_match (read : bool)
  | machine_i2c_target_data_write_request (read_bytes : Z)
  | machine_i2c_target_data_read_request
  | machine_i2c_target_data_stop
  | machine_i2c_target_data_init (mem mem_addrsize : Z)
  | i2c_target_register (dev addr : Z)
  | i2c_target_unregister (dev : Z)
  | mp_irq_handler.

(** The static object; [dev] is 0 for NULL. *)
Record machine_i2c_target_obj_t := Target { dev : Z; address : Z; state : Z; data_byte : Z; mem_obj : Z }.
Definition set_dev x s := Target x (address s) (state s) (data_byte s) (mem_obj s).
Definition set_state x s := Target (dev s) (address s) x (data_byte s) (mem_obj s).
Definition set_data_byte x s := Target (dev s) (address s) (state s) x (mem_obj s).

Local Abbreviation im A := (py icall answer machine_i2c_target_obj_t A).

Section I2cTarget.
(** The states, an enumeration of MicroPython. *)
Context (STATE_IDLE STATE_READING STATE_WRITING : Z).

Definition tell (c : icall) : im unit := py_call c;; mret tt.

Definition mp_machine_i2c_target_get_index : Z := 0.
Definition mp_machine_i2c_target_event_callback : im unit := tell mp_irq_handler.
Definition mp_machine_i2c_target_read_bytes : im (list Z * Z) := b ← py_get data_byte; mret ([b], 1).
Definition mp_machine_i2c_target_write_bytes (buf : list Z) : im Z :=
  match buf with [] => py_fault | b :: _ => py_set (set_data_byte (u8 b));; mret 1 end.

(** The bytes a data request writes, one at a time. *)
Fixpoint written (l : list Z) : im unit :=
  match l with [] => mret tt | b :: l => mp_machine_i2c_target_write_bytes [b];; written l end.
Definition read_request : im unit :=
  r ← py_call machine_i2c_target_data_read_request; written (aout r).

(** ** The driver's callbacks: 0, and the byte stored in [*val] *)

Definition i2c_target_write_requested : im Z :=
  py_set (set_state STATE_WRITING);; tell (machine_i2c_target_data_addr_match false);; mret 0.

Definition i2c_target_write_received (val : Z) : im Z :=
  py_set (set_data_byte (u8 val));;
  '(buf, _) ← mp_machine_i2c_target_read_bytes;
  tell (machine_i2c_target_data_write_request (hd 0 buf));;
  mret 0.

Definition i2c_target_read_requested : im (Z * Z) :=
  st ← py_get state;
  (if negb (st =? STATE_READING) then
     tell (machine_i2c_target_data_addr_match true);;
     read_request;;
     py_set (set_state STATE_READING)
   else mret tt);;
  b ← py_get data_byte;
  mret (0, b).

Definition i2c_target_read_processed : im (Z * Z) :=
  read_request;; b ← py_get data_byte; mret (0, b).

Definition i2c_target_stop : im Z :=
  st ← py_get state;
  (if st =? STATE_IDLE then tell (machine_i2c_target_data_addr_match false) else mret tt);;
  py_set (set_state STATE_IDLE);;
  tell machine_i2c_target_data_stop;;
  mret 0.

(** ** The object *)

Definition mp_machine_i2c_target_make_new (name : list Z) (addr mem mem_addrsize : Z) : im unit :=
  d ← py_call (zephyr_device_find name);
  if aret d =? 0 then raise ValueError
  else
    cur ← py_get dev;
    if negb ((cur =? 0) || (cur =? aret d)) then raise ValueError
    else
      py_set (fun s => Target (aret d) (u16 addr) STATE_IDLE (data_byte s) mem);;
      tell (machine_i2c_target_data_init mem mem_addrsize);;
      s ← py_get (fun s => s);
      r ← py_call (i2c_target_register (dev s) (address s));
      if aret r <? 0 then raise (OSError (- aret r)) else mret tt.

Definition mp_machine_i2c_target_deinit : im unit :=
  d ← py_get dev; tell (i2c_target_unregister d);; py_set (set_dev 0).
End I2cTarget.
