(* ===== verification/I2cTargetThm.v ===== *)
(** Theorem on the I2C target: the orders in which drivers call it back for a
    read do not matter. *)

From S2P Require Import Prelude Py I2cTarget.

(** The callbacks of a read, in any of the orders drivers use. *)
Inductive read_cb := Requested | Processed.

(** The data byte after a data request answered by [r], and after each of
    several. *)
Definition after (b : Z) (r : answer) : Z := match last (aout r) with Some v => u8 v | None => b end.
Fixpoint supplied (b : Z) (rs : list answer) : list Z :=
  match rs with [] => [b] | r :: rs => b :: supplied (after b r) rs end.
(** How many processed callbacks there are up to each callback, itself
    included. *)
Fixpoint counts (n : nat) (l : list read_cb) : list nat :=
  match l with
  | [] => []
  | Requested :: l => n :: counts n l
  | Processed :: l => S n :: counts (S n) l
  end.
Fixpoint processed (l : list read_cb) : nat :=
  match l with [] => 0%nat | Requested :: l => processed l | Processed :: l => S (processed l) end.
Definition requests (rs : list answer) : list (icall * answer) := map (pair machine_i2c_target_data_read_request) rs.

Section I2cTargetThm.
Context (STATE_READING : Z).
Implicit Types s : machine_i2c_target_obj_t.

Definition exec_cb (c : read_cb) : py icall answer machine_i2c_target_obj_t (Z * Z) :=
  match c with Requested => i2c_target_read_requested STATE_READING | Processed => i2c_target_read_processed end.
(** What the callbacks store in [*val]. *)
Fixpoint exec_cbs (l : list read_cb) : py icall answer machine_i2c_target_obj_t (list Z) :=
  match l with [] => mret [] | c :: l => v ← exec_cb c; vs ← exec_cbs l; mret (snd v :: vs) end.

Lemma counts_shift n l : counts (S n) l = map S (counts n l).
Proof. revert n. induction l as [|[] l IH]; intros n; cbn; by rewrite ?IH. Qed.

Lemma supplied_head b rs : supplied b rs !! 0%nat = Some b.
Proof. by destruct rs. Qed.

Lemma written_val l s : written l s = Ret (Val tt, set_data_byte (after (data_byte s) (Answer 0 l)) s).
Proof.
  unfold after. cbn [aout]. revert s. induction l as [|b l IH]; intros s; cbn [written]; [by destruct s|].
  unfold mp_machine_i2c_target_write_bytes. erewrite py_bind_val by reflexivity. rewrite IH. cbn [data_byte set_data_byte].
  rewrite last_cons. by destruct (last l).
Qed.

(** A data request leaves the new byte. *)
Lemma read_request_runs {A} (f : unit -> py icall answer machine_i2c_target_obj_t A) s Q :
  (forall r, outcomes (f tt (set_data_byte (after (data_byte s) r) s)) (fun tr out => Q ((machine_i2c_target_data_read_request, r) :: tr) out)) ->
  outcomes ((read_request ≫= f) s) Q.
Proof.
  intros H. unfold read_request. apply outcomes_py_assoc, outcomes_py_call. intros r.
  rewrite (py_bind_val (written _)) with (a := tt) (s' := set_data_byte (after (data_byte s) r) s) by apply (written_val (aout r)). apply H.
Qed.

(** What the callbacks of a read under way do. *)
Definition reading_spec s (l : list read_cb) (tr : list (icall * answer)) (out : res (py_res (list Z) * machine_i2c_target_obj_t)) : Prop :=
  exists rs vs s', tr = requests rs /\ out = Ok (Val vs, s') /\ state s' = STATE_READING /\ length rs = processed l /\
    map Some vs = map (fun k => supplied (data_byte s) rs !! k) (counts 0 l).

Lemma reading_runs l s : state s = STATE_READING -> outcomes (exec_cbs l s) (reading_spec s l).
Proof.
  revert s. induction l as [|[] l IH]; intros s Hs; cbn [exec_cbs exec_cb].
  - apply outcomes_ret. by exists [], [], s.
  - unfold i2c_target_read_requested. py_step. py_step. rewrite Hs, Z.eqb_refl. cbn [negb]. repeat py_step.
    apply outcomes_py. eapply outcomes_mono; [|by apply IH]. intros tr out (rs & vs & s' & -> & -> & Hs' & Hl & Hv).
    apply outcomes_ret. exists rs, (data_byte s :: vs), s'. rewrite app_nil_r. split_and!; try done.
    cbn [map counts]. by rewrite supplied_head, Hv.
  - unfold i2c_target_read_processed. apply outcomes_py_assoc, read_request_runs. intros r. repeat py_step.
    set (s1 := set_data_byte _ s). apply outcomes_py. eapply outcomes_mono; [|by apply (IH s1)].
    intros tr out (rs & vs & s' & -> & -> & Hs' & Hl & Hv). apply outcomes_ret. exists (r :: rs), (data_byte s1 :: vs), s'.
    rewrite app_nil_r. split_and!; try done; [cbn; by rewrite Hl|].
    cbn [map counts]. rewrite counts_shift, map_map. cbn [supplied lookup list_lookup]. by rewrite supplied_head, Hv.
Qed.

(** C38: In whatever order the driver calls back during a read (the first
    callback being read_requested, in a state other than STATE_READING, then any
    mixture), the target is addressed
    once, asks MicroPython for one byte at first and one byte per
    read_processed, and every callback hands out the byte asked for last: the
    k-th processed one the byte k, and a further read_requested the same byte
    again. So drivers that repeat read_requested and drivers that do not send
    the same bytes. *)
Theorem read_orders_agree l s tr out :
  state s <> STATE_READING -> runs (exec_cbs (Requested :: l) s) tr out ->
  exists a r rs vs s', tr = (machine_i2c_target_data_addr_match true, a) :: requests (r :: rs) /\
    out = Ok (Val vs, s') /\ state s' = STATE_READING /\ length rs = processed l /\
    map Some vs = map (fun k => supplied (after (data_byte s) r) rs !! k) (0%nat :: counts 0 l).
Proof.
  intros Hs. revert tr out. change (outcomes (exec_cbs (Requested :: l) s) (fun tr out =>
    exists a r rs vs s', tr = (machine_i2c_target_data_addr_match true, a) :: requests (r :: rs) /\
    out = Ok (Val vs, s') /\ state s' = STATE_READING /\ length rs = processed l /\
    map Some vs = map (fun k => supplied (after (data_byte s) r) rs !! k) (0%nat :: counts 0 l))).
  cbn [exec_cbs exec_cb]. unfold i2c_target_read_requested, tell. py_step. py_step.
  rewrite (proj2 (Z.eqb_neq _ _)) by done. cbn [negb]. do 5 py_step. apply outcomes_py_assoc, read_request_runs. intros r'.
  repeat py_step. set (s1 := set_state _ _). apply outcomes_py. eapply outcomes_mono; [|by apply (reading_runs l s1)].
  intros tr out (rs & vs & s' & -> & -> & Hs' & Hl & Hv). apply outcomes_ret.
  exists r, r', rs, (data_byte s1 :: vs), s'. rewrite app_nil_r. split_and!; try done.
  cbn [map]. by rewrite supplied_head, Hv.
Qed.
End I2cTargetThm.

(** Four bytes, one for each request, read in the two orders. *)
Definition next_byte (h : list (icall * answer)) (c : icall) : answer :=
  match c with machine_i2c_target_data_read_request => Answer 0 [40 + len h] | _ => Answer 0 [] end.
Definition idle_target : machine_i2c_target_obj_t := Target 7 66 0 0 0.
Definition target_run (l : list read_cb) := run next_byte (exec_cbs 1 (Requested :: l) idle_target) [].

Lemma read_orders_agree_witness :
  let l := [Processed; Requested; Processed; Requested] in
  state idle_target <> 1 /\
  exists a r rs vs s', snd (target_run l) = (machine_i2c_target_data_addr_match true, a) :: requests (r :: rs) /\
    fst (target_run l) = Ok (Val vs, s') /\ state s' = 1 /\ length rs = processed l /\
    map Some vs = map (fun k => supplied (after 0 r) rs !! k) (0%nat :: counts 0 l).
Proof.
  intros l. assert (Hs : state idle_target <> 1) by done. split; [done|].
  refine (read_orders_agree 1 l idle_target (snd (target_run l)) (fst (target_run l)) Hs _).
  apply (run_runs _ next_byte). unfold target_run. apply surjective_pairing.
Defined.

Example one_order : exists s, fst (target_run [Processed; Processed]) = Ok (Val [41; 42; 43], s).
Proof. vm_compute. by eexists. Qed.
Example other_order : exists s, fst (target_run [Processed; Requested; Processed; Requested]) = Ok (Val [41; 42; 42; 43; 43], s).
Proof. vm_compute. by eexists. Qed.

(** A device whose registration fails stays in the object, which then refuses
    every other device. *)
Definition refuse (h : list (icall * answer)) (c : icall) : answer :=
  match c with zephyr_device_find name => Answer (hd 0 name) [] | i2c_target_register _ _ => Answer (-5) [] | _ => Answer 0 [] end.
Definition make (name : list Z) := mp_machine_i2c_target_make_new 0 name 66 0 8.
Example failed_target_stays :
  exists s, fst (run refuse (make [7] (Target 0 0 0 0 0)) []) = Ok (Raise (OSError 5), s) /\
    fst (run refuse (make [8] s) []) = Ok (Raise ValueError, s).
Proof. eexists. split; vm_compute; reflexivity. Qed.
