(* ===== verification/Interp.v ===== *)
(** How the interpreter is started and stopped: app/micropython/main.c (the
    thread of its own), app/micropython/shellcmd.c and
    modules/micropython/src/mphalport.c (the shell command), with the small
    modules modzephyr.c, modmachine.c and modtime.c and the USB device of
    src/usbd.c. *)

From S2P Require Import Prelude Py Bluetooth Gatts Uart.

(** What the interpreter, as it runs a script or a REPL, does next: it reads a
    character or writes a string through the port. *)
Inductive hal_use := Reads | Writes (str : list Z).
(** A call's result, the chunks of data it delivers to the shell's bypass
    callback or the bytes it stores, and, of the interpreter, what it does next
    ([None] when it returns). *)
Record lanswer := LAnswer { lret : Z; ldata : list (list Z); lnext : option hal_use }.

Inductive usb_desc := mp_lang | mp_mfr | mp_product | mp_sn.
Inductive lcall :=
  | mp_thread_init
  | mp_hal_init
  | mp_cstack_init_with_sp_here (size : Z)
  | gc_init
  | gc_add_heaps
  | mp_init
  | pyexec_frozen_module
  | pyexec_file_if_exists (name : list Z)
  | pyexec_mode_kind
  | pyexec_raw_repl
  | pyexec_friendly_repl
  | pyexec_resume (got : Z)                       (* the port's function returned to the interpreter *)
  | mp_printf_soft_reboot
  | Bluetooth (c : btcall)                        (* a call of modbluetooth_zephyr.c *)
  | machine_pin_deinit
  | mp_machine_i2c_target_deinit_all
  | mp_thread_deinit
  | mp_thread_gc_others
  | gc_collect_start
  | gc_helper_collect_regs_and_stack
  | gc_collect_end
  | gc_sweep_all
  | mp_deinit
  | shell_process (sh : Z)
  | shell_error (sh : Z)
  | shell_set_bypass (sh : Z) (on : bool)
  | z_shell_write (sh : Z) (data : list Z)
  | shell_unlock (sh : Z)
  | k_msleep (ms : Z)
  | shared_multi_heap_aligned_alloc (size : Z)
  | shared_multi_heap_free (p : Z)
  | fs_stat (path : list Z)                       (* stores the type *)
  | fs_open (file : Z) (path : list Z)
  | fs_read_byte (file : Z)                       (* stores the byte *)
  | fs_close (file : Z)
  | m_new_file
  | m_del_file (file : Z)
  | mp_lexer_new (name : list Z) (file : Z)
  | k_is_preempt_thread
  | k_current_get
  | thread_analyzer_print (cpu : Z)
  | shell_execute_cmd (cmd : list Z)
  | sys_reboot
  | k_yield
  | printf_warning
  | k_uptime_get
  | usbd_add_descriptor (desc : usb_desc)
  | usbd_caps_speed
  | usbd_add_configuration (speed : Z)
  | usbd_register_all_classes (speed cfg : Z)
  | usbd_device_set_code_triple (speed base subclass protocol : Z)
  | usbd_msg_register_cb (cb : Z)
  | usbd_init
  | usbd_enable.

(** Calls whose result is not used. *)
Definition tell {S} (c : lcall) : py lcall lanswer S unit := py_call c;; mret tt.
Definition query {S} (c : lcall) : py lcall lanswer S Z := r ← py_call c; mret (lret r).
Definition tell_if {S} (b : bool) (c : lcall) : py lcall lanswer S unit := if b then tell c else mret tt.

(** An exception where no [nlr_push] is active: [nlr_jump_fail] loops for
    ever. *)
Definition nlr_jump_fail {S A} : py lcall lanswer S A := fun _ => Halt Deadlock.
Definition outside_nlr {S A} (m : py lcall lanswer S A) : py lcall lanswer S A := fun s =>
  '(r, s') ← m s; match r with Val a => Ret (Val a, s') | Raise _ => nlr_jump_fail s' end.
(** A function of modbluetooth_zephyr.c, run in the state [b] of that module. *)
Definition in_bluetooth {S B A} (m : py btcall answer B A) (b : B) : py lcall lanswer S A := fun s =>
  '(r, _) ← via Bluetooth (fun r => Answer (lret r) (concat (ldata r))) (m b); Ret (r, s).

(** The build: which parts are compiled in. *)
Record config := Config {
  MICROPY_PY_THREAD : bool;
  MICROPY_PY_BLUETOOTH : bool;
  MICROPY_PY_MACHINE : bool;
  MICROPY_PY_MACHINE_I2C_TARGET : bool;
  MICROPY_GC_SPLIT_HEAP : bool;
  MICROPY_VFS : bool;
  MICROPY_MODULE_FROZEN_MPY : bool;
  MICROPY_MODULE_FROZEN : bool;
  CONFIG_SHARED_MULTI_HEAP : bool
}.

Section Interp.
Context (cfg : config).
Context (PYEXEC_FORCED_EXIT PYEXEC_MODE_FRIENDLY_REPL PYEXEC_MODE_RAW_REPL : Z).
Context (CONFIG_MICROPYTHON_THREAD_STACK_SIZE CONFIG_MICROPY_STACK_SIZE MICROPY_HEAP_SIZE CONFIG_MICROPY_RX_BUF_SIZE sizeof_ring_buf : Z).
Context (boot_py main_py : list Z).
(** The state in which Python leaves the Bluetooth module is a parameter of the
    functions that stop the interpreter. *)
Context {D : Type}.
Local Abbreviation bluetooth := (bt (gatt D)).

(** ** main.c *)

Section Main.
Context {S : Type}.
Local Abbreviation lm A := (py lcall lanswer S A).

(** Its body is commented out. *)
Definition init_zephyr : lm unit := mret tt.

Definition gc_collect : lm unit :=
  tell gc_collect_start;; tell gc_helper_collect_regs_and_stack;;
  tell_if (MICROPY_PY_THREAD cfg) mp_thread_gc_others;;
  tell gc_collect_end.

(** Runs until a REPL asks for a soft reset. *)
Fixpoint repl_loop (fuel : nat) : lm unit :=
  match fuel with
  | O => py_lift (fault OutOfFuel)
  | Datatypes.S fuel =>
      mode ← query pyexec_mode_kind;
      r ← query (if mode =? PYEXEC_MODE_RAW_REPL then pyexec_raw_repl else pyexec_friendly_repl);
      if negb (r =? 0) then mret tt else repl_loop fuel
  end.

(** boot.py and main.py: whether one of them forces the exit. *)
Definition user_scripts : lm bool :=
  ret ← query (pyexec_file_if_exists boot_py);
  if negb (Z.land ret PYEXEC_FORCED_EXIT =? 0) then mret true
  else
    mode ← query pyexec_mode_kind;
    if (mode =? PYEXEC_MODE_FRIENDLY_REPL) && negb (ret =? 0) then
      ret ← query (pyexec_file_if_exists main_py);
      mret (negb (Z.land ret PYEXEC_FORCED_EXIT =? 0))
    else mret false.

(** From the label soft_reset_exit. *)
Definition shut_down (ble : bluetooth) : lm unit :=
  (if MICROPY_PY_BLUETOOTH cfg then outside_nlr (in_bluetooth (mp_bluetooth_deinit gatt_unregister) ble);; mret tt else mret tt);;
  tell_if (MICROPY_PY_MACHINE cfg) machine_pin_deinit;;
  tell_if (MICROPY_PY_MACHINE_I2C_TARGET cfg) mp_machine_i2c_target_deinit_all;;
  (if MICROPY_PY_THREAD cfg then tell mp_thread_deinit;; gc_collect else mret tt);;
  tell gc_sweep_all;;
  tell mp_deinit.

(** From the label soft_reset to the goto back to it. *)
Definition soft_reset (fuel : nat) (ble : bluetooth) : lm unit :=
  tell (mp_cstack_init_with_sp_here CONFIG_MICROPYTHON_THREAD_STACK_SIZE);;
  tell gc_init;;
  tell_if (MICROPY_GC_SPLIT_HEAP cfg) gc_add_heaps;;
  tell mp_init;;
  tell_if (MICROPY_VFS cfg && MICROPY_MODULE_FROZEN_MPY cfg) pyexec_frozen_module;;
  forced ← (if MICROPY_MODULE_FROZEN cfg || MICROPY_VFS cfg then user_scripts else mret false);
  (if (forced : bool) then mret tt else repl_loop fuel);;
  tell mp_printf_soft_reboot;;
  shut_down ble.

(** Lives of the interpreter, by what each leaves of the Bluetooth module. *)
Fixpoint lives (fuel : nat) (bles : list bluetooth) : lm unit :=
  match bles with [] => mret tt | ble :: bles => soft_reset fuel ble;; lives fuel bles end.
Definition real_main (fuel : nat) (bles : list bluetooth) : lm unit :=
  tell_if (MICROPY_PY_THREAD cfg) mp_thread_init;;
  init_zephyr;;
  tell mp_hal_init;;
  lives fuel bles.
End Main.

(** ** The shell command *)

Section Shell.
Context {RB : Type} `{RingBuf RB} (ring_buf_init : Z -> RB).

(** [rx_rb] is the ring; with a shared heap the code has a pointer [rx_ptr] to
    one instead, and [heap]. *)
Record shell_state := Shell { active_sh : Z; rx_rb : RB; rx_ptr : Z; heap : Z }.
Definition set_active_sh x s := Shell x (rx_rb s) (rx_ptr s) (heap s).
Definition set_rx_rb x s := Shell (active_sh s) x (rx_ptr s) (heap s).
Definition set_rx_ptr x s := Shell (active_sh s) (rx_rb s) x (heap s).
Definition set_heap x s := Shell (active_sh s) (rx_rb s) (rx_ptr s) x.
Local Abbreviation sm A := (py lcall lanswer shell_state A).

(** [&rx_rb] as a ring: of a pointer variable it is none. *)
Definition rx_ring : sm RB :=
  if CONFIG_SHARED_MULTI_HEAP cfg then py_fault else py_get rx_rb.

Definition _bypass_cb (sh : Z) (data : list Z) : sm unit :=
  b ← rx_ring;
  let '(size, b') := rb_put b data in
  py_set (set_rx_rb b');;
  if size <? len data then tell (shell_error sh) else mret tt.
Fixpoint deliver (sh : Z) (chunks : list (list Z)) : sm unit :=
  match chunks with [] => mret tt | d :: chunks => _bypass_cb sh d;; deliver sh chunks end.

Fixpoint mp_hal_stdin_rx_chr (fuel : nat) : sm Z :=
  match fuel with
  | O => py_lift (fault OutOfFuel)
  | Datatypes.S fuel =>
      b ← rx_ring;
      let '(got, b') := rb_get b 1 in
      py_set (set_rx_rb b');;
      match got with
      | val :: _ => mret val
      | [] =>
          sh ← py_get active_sh;
          r ← py_call (shell_process sh);
          deliver sh (ldata r);;
          tell (k_msleep 1);;
          mp_hal_stdin_rx_chr fuel
      end
  end.

Definition mp_hal_stdout_tx_strn (str : list Z) : sm Z :=
  sh ← py_get active_sh; tell (z_shell_write sh str);; mret (len str).
Definition mp_hal_stdio_poll (MP_STREAM_POLL_RD MP_STREAM_POLL_WR poll_flags : Z) : Z :=
  let ret := if negb (Z.land poll_flags MP_STREAM_POLL_RD =? 0) then MP_STREAM_POLL_RD else 0 in
  if negb (Z.land poll_flags MP_STREAM_POLL_WR =? 0) then Z.lor ret MP_STREAM_POLL_WR else ret.

(** Memory for the heap and the ring: [None], or what the command returns. *)
Definition get_memory : sm (option Z) :=
  if CONFIG_SHARED_MULTI_HEAP cfg then
    h ← query (shared_multi_heap_aligned_alloc MICROPY_HEAP_SIZE);
    py_set (set_heap h);;
    if h =? 0 then mret (Some (-1))
    else
      p ← query (shared_multi_heap_aligned_alloc (sizeof_ring_buf + CONFIG_MICROPY_RX_BUF_SIZE));
      py_set (set_rx_ptr p);;
      if p =? 0 then tell (shared_multi_heap_free h);; mret (Some (-1))
      else py_set (set_rx_rb (ring_buf_init CONFIG_MICROPY_RX_BUF_SIZE));; mret None
  else py_set (set_rx_rb (ring_buf_init CONFIG_MICROPY_RX_BUF_SIZE));; mret None.
Definition give_memory : sm unit :=
  if CONFIG_SHARED_MULTI_HEAP cfg then
    s ← py_get (fun s => s);
    tell (shared_multi_heap_free (rx_ptr s));; tell (shared_multi_heap_free (heap s))
  else mret tt.

(** The interpreter, from the call [c] into it on: MicroPython's code is the
    environment, which says what it does next, and its console is the port's. *)
Fixpoint interpret (fuel : nat) (c : lcall) : sm unit :=
  match fuel with
  | O => py_lift (fault OutOfFuel)
  | Datatypes.S fuel =>
      r ← py_call c;
      match lnext r with
      | None => mret tt
      | Some Reads => ch ← mp_hal_stdin_rx_chr fuel; interpret fuel (pyexec_resume ch)
      | Some (Writes str) => n ← mp_hal_stdout_tx_strn str; interpret fuel (pyexec_resume n)
      end
  end.

(** The script or the REPL with the shell's input bypassed. *)
Definition run_python (fuel : nat) (sh argc : Z) (argv1 : list Z) : sm unit :=
  py_set (set_active_sh sh);;
  tell (shell_set_bypass sh true);;
  (if argc =? 1 then interpret fuel pyexec_friendly_repl
   else if argc =? 2 then interpret fuel (pyexec_file_if_exists argv1) else mret tt);;
  tell (shell_set_bypass sh false);;
  tell (shell_unlock sh).

Definition _python (fuel : nat) (ble : bluetooth) (sh argc : Z) (argv1 : list Z) : sm Z :=
  if argc >? 2 then tell (shell_error sh);; mret (- EINVAL)
  else
    err ← get_memory;
    match err with
    | Some e => mret e
    | None =>
        tell_if (MICROPY_PY_THREAD cfg) mp_thread_init;;
        tell (mp_cstack_init_with_sp_here CONFIG_MICROPY_STACK_SIZE);;
        tell gc_init;;
        tell_if (MICROPY_GC_SPLIT_HEAP cfg) gc_add_heaps;;
        tell mp_init;;
        run_python fuel sh argc argv1;;
        shut_down ble;;
        give_memory;;
        mret 0
    end.

Definition _init_shellcmd : sm Z := tell mp_hal_init;; mret 0.

(** The command of modules/micropython, which has static memory and no parts
    to shut down. *)
Definition cmd_python (fuel : nat) (sh argc : Z) (argv1 : list Z) : sm Z :=
  if argc >? 2 then tell (shell_error sh);; mret (- EINVAL)
  else
    py_set (set_rx_rb (ring_buf_init CONFIG_MICROPY_RX_BUF_SIZE));;
    tell (mp_cstack_init_with_sp_here 2048);;
    tell gc_init;;
    tell mp_init;;
    run_python fuel sh argc argv1;;
    tell gc_sweep_all;;
    tell mp_deinit;;
    mret 0.
End Shell.

(** ** Reading scripts from files (modules/micropython/src/mphalport.c) *)

Section Files.
Context {S : Type} (FS_DIR_ENTRY_FILE FS_DIR_ENTRY_DIR : Z).
Context (MP_IMPORT_STAT_NO_EXIST MP_IMPORT_STAT_FILE MP_IMPORT_STAT_DIR MP_READER_EOF : Z).
Local Abbreviation lm A := (py lcall lanswer S A).
Definition stored (r : lanswer) : Z := hd 0 (concat (ldata r)).

Definition mp_import_stat (path : list Z) : lm Z :=
  r ← py_call (fs_stat path);
  mret (if lret r <? 0 then MP_IMPORT_STAT_NO_EXIST
        else if stored r =? FS_DIR_ENTRY_FILE then MP_IMPORT_STAT_FILE
        else if stored r =? FS_DIR_ENTRY_DIR then MP_IMPORT_STAT_DIR
        else MP_IMPORT_STAT_NO_EXIST).

Definition file_readbyte (file : Z) : lm Z :=
  r ← py_call (fs_read_byte file);
  if lret r <? 0 then raise (OSError EIO)
  else if lret r =? 0 then mret MP_READER_EOF else mret (u8 (stored r)).

Definition file_close (file : Z) : lm unit :=
  ret ← query (fs_close file);
  tell (m_del_file file);;
  if negb (ret =? 0) then raise (OSError EIO) else mret tt.

Definition mp_lexer_new_from_file (filename : list Z) : lm Z :=
  file ← query m_new_file;
  ret ← query (fs_open file filename);
  if negb (ret =? 0) then tell (m_del_file file);; raise (OSError ENOENT)
  else query (mp_lexer_new filename file).

(** Without a file system. *)
Definition no_import_stat : Z := MP_IMPORT_STAT_NO_EXIST.
Definition no_lexer_new_from_file : lm Z := raise (OSError ENOENT).
Definition no_builtin_open : value := None_.
End Files.

(** ** modzephyr.c, modmachine.c, modtime.c *)

Section Modules.
Context {S : Type} (MP_OBJ_NEW_SMALL_INT : Z -> value).
Local Abbreviation lm A := (py lcall lanswer S A).

Definition mod_is_preempt_thread : lm value := r ← query k_is_preempt_thread; mret (Bool (negb (r =? 0))).
Definition mod_current_tid : lm value := r ← query k_current_get; mret (MP_OBJ_NEW_SMALL_INT r).
Definition mod_thread_analyze (cpu : Z) : lm value := tell (thread_analyzer_print (u32 cpu));; mret None_.
Definition mod_shell_exec (cmd : list Z) : lm value := tell (shell_execute_cmd cmd);; mret None_.

Definition machine_reset : lm value := tell sys_reboot;; mret None_.
Definition machine_reset_cause : lm value := tell printf_warning;; mret (MP_OBJ_NEW_SMALL_INT 42).
Definition mp_machine_idle : lm unit := tell k_yield.

Definition mp_time_time_get : lm value := t ← query k_uptime_get; mret (Int (Z.quot t 1000)).
End Modules.

(** ** src/usbd.c *)

Section Usbd.
(** [IS_ENABLED] of a class with several interfaces, and Zephyr's constants. *)
Context {S : Type} (multi_interface : bool) (USBD_SPEED_FS USBD_SPEED_HS USB_BCC_MISCELLANEOUS mp_usbd : Z).
Local Abbreviation lm A := (py lcall lanswer S A).

Definition mp_fix_code_triple (speed : Z) : lm unit :=
  if multi_interface then tell (usbd_device_set_code_triple speed USB_BCC_MISCELLANEOUS 2 1)
  else tell (usbd_device_set_code_triple speed 0 0 0).

(** A step of [mp_usbd_init_device]: an error ends it with NULL. *)
Definition step_or_null (c : lcall) (k : lm Z) : lm Z :=
  err ← query c; if negb (err =? 0) then mret 0 else k.

(** The context; 0 for NULL. *)
Definition mp_usbd_init_device (msg_cb : Z) : lm Z :=
  step_or_null (usbd_add_descriptor mp_lang)
    (step_or_null (usbd_add_descriptor mp_mfr)
    (step_or_null (usbd_add_descriptor mp_product)
    (step_or_null (usbd_add_descriptor mp_sn)
    (speed ← query usbd_caps_speed;
     let full_speed :=
       step_or_null (usbd_add_configuration USBD_SPEED_FS)
         (step_or_null (usbd_register_all_classes USBD_SPEED_FS 1)
         (mp_fix_code_triple USBD_SPEED_FS;;
          let finish := step_or_null usbd_init (mret mp_usbd) in
          if negb (msg_cb =? 0) then step_or_null (usbd_msg_register_cb msg_cb) finish else finish)) in
     if speed =? USBD_SPEED_HS then
       step_or_null (usbd_add_configuration USBD_SPEED_HS)
         (step_or_null (usbd_register_all_classes USBD_SPEED_HS 1)
         (mp_fix_code_triple USBD_SPEED_HS;; full_speed))
     else full_speed)))).

Definition mp_usbd_init : lm Z :=
  ctx ← mp_usbd_init_device 0;
  if ctx =? 0 then mret (- ENODEV)
  else
    err ← query usbd_enable;
    if negb (err =? 0) then mret err else mret 0.
End Usbd.
End Interp.
