(* ===== verification/InterpThm.v ===== *)
(** Theorems on starting and stopping the interpreter: what the shell command
    takes it gives back when it returns, and how else it can end; each life of
    the interpreter is shut down; and the shell's input arrives in order. *)

From S2P Require Import Prelude Py Bluetooth Gatts BluetoothThm Uart UartThm Interp.

(** ** What a run holds *)

(** Resources: blocks of the shared heap, the interpreter, the bypass of a
    shell's input. *)
Inductive resource := Block (p : Z) | Interpreter | Bypass (sh : Z).
#[export] Instance resource_dec : EqDecision resource.
Proof. solve_decision. Defined.

Fixpoint give_back (x : resource) (l : list resource) : option (list resource) :=
  match l with
  | [] => None
  | y :: l => if decide (x = y) then Some l else l' ← give_back x l; Some (y :: l')
  end.

(** What is held after an event; [None] when something is given back that is
    not held, or the interpreter is started twice. *)
Definition replay_event (l : list resource) (e : lcall * lanswer) : option (list resource) :=
  match fst e with
  | shared_multi_heap_aligned_alloc _ => Some (if lret (snd e) =? 0 then l else Block (lret (snd e)) :: l)
  | shared_multi_heap_free p => give_back (Block p) l
  | mp_init => if decide (Interpreter ∈ l) then None else Some (Interpreter :: l)
  | mp_deinit => give_back Interpreter l
  | shell_set_bypass sh true => Some (Bypass sh :: l)
  | shell_set_bypass sh false => give_back (Bypass sh) l
  | _ => Some l
  end.
Fixpoint replay (l : list resource) (tr : list (lcall * lanswer)) : option (list resource) :=
  match tr with [] => Some l | e :: tr => l' ← replay_event l e; replay l' tr end.

Lemma replay_app l tr tr' : replay l (tr ++ tr') = (l' ← replay l tr; replay l' tr').
Proof. revert l. induction tr as [|e tr IH]; intros l; [done|]. cbn [replay app]. destruct (replay_event l e); [apply IH | done]. Qed.

Lemma give_back_head x l : give_back x (x :: l) = Some l.
Proof. cbn. by rewrite decide_True. Qed.

(** The code, holding [l], ends normally on every run, and its result, its
    state and what it holds then satisfy [Q]; or it stops as [stops] says of
    what it held first, its calls and the kind of stop. It raises nothing. *)
Definition holds (stops : list resource -> list (lcall * lanswer) -> stop -> Prop) {S A}
    (l : list resource) (Q : A -> S -> list resource -> Prop) (p : prog lcall lanswer (py_res A * S)) : Prop :=
  outcomes p (fun tr out => match out with
    | Ok (Val a, s) => exists l', replay l tr = Some l' /\ Q a s l'
    | Ok (Raise _, _) => False
    | Stop e => stops l tr e
    end).

(** What holds of the rest of a run holds of the run. *)
Definition closed (stops : list resource -> list (lcall * lanswer) -> stop -> Prop) : Prop :=
  forall l tr l' tr' e, replay l tr = Some l' -> stops l' tr' e -> stops l (tr ++ tr') e.

Section Holds.
Context {S : Type} (stops : list resource -> list (lcall * lanswer) -> stop -> Prop).
Hypothesis stops_app : closed stops.
Local Abbreviation holds := (holds stops).
Implicit Types (s : S) (l : list resource).

Lemma holds_bind {A B} l (m : py lcall lanswer S A) (f : A -> py lcall lanswer S B) s (Q : B -> S -> list resource -> Prop) :
  holds l (fun a s' l' => holds l' Q (f a s')) (m s) -> holds l Q ((m ≫= f) s).
Proof using stops_app.
  intros Hm. apply outcomes_py. eapply outcomes_mono; [|exact Hm].
  intros tr [[[a|x] s']|e]; [|done|done]. intros (l1 & E & Hf). eapply outcomes_mono; [|exact Hf].
  intros tr' [[[b|x] s2]|e]; [|done|by apply stops_app]. intros (l2 & E' & HQ). exists l2. by rewrite replay_app, E.
Qed.
Lemma holds_mono {A} l (p : prog lcall lanswer (py_res A * S)) (Q Q' : A -> S -> list resource -> Prop) :
  holds l Q p -> (forall a s l', Q a s l' -> Q' a s l') -> holds l Q' p.
Proof. intros H HQ. eapply outcomes_mono; [|exact H]. intros tr [[[a|x] s']|e]; [|done|done]. intros (l' & ? & ?). eauto. Qed.
Lemma holds_ret {A} l (a : A) s (Q : A -> S -> list resource -> Prop) : Q a s l -> holds l Q ((mret a : py lcall lanswer S A) s).
Proof. intros H. apply outcomes_ret. by exists l. Qed.
Lemma holds_set l (g : S -> S) s (Q : unit -> S -> list resource -> Prop) : Q tt (g s) l -> holds l Q (py_set g s).
Proof. intros H. apply outcomes_ret. by exists l. Qed.
Lemma holds_get {A} l (g : S -> A) s (Q : A -> S -> list resource -> Prop) : Q (g s) s l -> holds l Q (py_get g s).
Proof. intros H. apply outcomes_ret. by exists l. Qed.
(** A call, and what follows on its answer. *)
Lemma holds_call {A} l c (f : lanswer -> py lcall lanswer S A) s (Q : A -> S -> list resource -> Prop) :
  (forall r, exists l', replay_event l (c, r) = Some l' /\
     outcomes (f r s) (fun tr out => match out with
       | Ok (Val a, s') => exists l2, replay l' tr = Some l2 /\ Q a s' l2
       | Ok (Raise _, _) => False
       | Stop e => stops l ((c, r) :: tr) e
       end)) -> holds l Q ((py_call c ≫= f) s).
Proof.
  intros H. apply outcomes_py_call. intros r. destruct (H r) as (l' & E & Hf). eapply outcomes_mono; [|exact Hf].
  intros tr [[[a|x] s']|e]; [|done|done]. intros (l2 & E2 & HQ). exists l2. cbn [replay]. by rewrite E.
Qed.
Lemma holds_query l c s (Q : Z -> S -> list resource -> Prop) :
  (forall r, exists l', replay_event l (c, r) = Some l' /\ Q (lret r) s l') -> holds l Q (query c s).
Proof.
  intros H. apply holds_call. intros r. destruct (H r) as (l' & E & HQ). exists l'. split; [done|]. apply outcomes_ret. by exists l'.
Qed.
Lemma holds_tell l c s (Q : unit -> S -> list resource -> Prop) :
  (forall r, exists l', replay_event l (c, r) = Some l' /\ Q tt s l') -> holds l Q (tell c s).
Proof.
  intros H. apply holds_call. intros r. destruct (H r) as (l' & E & HQ). exists l'. split; [done|]. apply outcomes_ret. by exists l'.
Qed.
Lemma holds_tell_if b l c s (Q : unit -> S -> list resource -> Prop) :
  (forall r, replay_event l (c, r) = Some l) -> Q tt s l -> holds l Q (tell_if b c s).
Proof. intros E HQ. destruct b; [apply holds_tell; eauto | by apply holds_ret]. Qed.

(** Stopping the Bluetooth module holds nothing; when it raises, the
    interpreter hangs after that one call. *)
Lemma bluetooth_holds {D} (ble : bt (gatt D)) l s (Q : Z -> S -> list resource -> Prop) :
  (state ble = BLE_STATE_ACTIVE -> is_Some (root_pointers ble)) ->
  (forall r, state ble = BLE_STATE_ACTIVE -> lret r <> 0 -> stops l [(Bluetooth bt_le_adv_stop, r)] Deadlock) ->
  (forall x, Q x s l) -> holds l Q (outside_nlr (in_bluetooth (mp_bluetooth_deinit gatt_unregister) ble) s).
Proof.
  intros Hroot Hstuck HQ. unfold outside_nlr, in_bluetooth. apply outcomes_bind. apply outcomes_bind.
  intros tr out Hr. destruct (runs_via _ _ _ _ _ Hr) as (tr0 & H0 & Ec & Ea).
  assert (Equiet : replay l tr = Some l).
  { clear -Ec. revert tr0 Ec. induction tr as [|[c r] tr IH]; intros [|e tr0] Ec; try done. cbn in Ec. injection Ec as -> Ec.
    cbn. by eapply IH. }
  destruct (deinit_outcomes ble Hroot _ _ H0) as [[b' ->]|(Hs & r & -> & Hne & ->)].
  - apply outcomes_ret, outcomes_ret. rewrite !app_nil_r. by exists l.
  - apply outcomes_ret, outcomes_halt. rewrite !app_nil_r.
    destruct tr as [|[c r'] [|]]; try done. cbn in Ec, Ea. injection Ec as ->. injection Ea as Ea. apply Hstuck; [done|].
    by rewrite <- Ea in Hne.
Qed.
End Holds.

(** Walk straight-line code; calls that hold and release nothing are done. *)
Ltac holds_step :=
  lazymatch goal with
  | |- holds _ _ _ ((_ ≫= _) _) => apply holds_bind; [assumption|]
  | |- holds _ _ _ (mret _ _) => apply holds_ret
  | |- holds _ _ _ (py_set _ _) => apply holds_set
  | |- holds _ _ _ (py_get _ _) => apply holds_get
  | |- holds _ _ _ (tell_if _ _ _) => apply holds_tell_if; [done|]
  | |- holds _ _ _ (query _ _) => apply holds_query; intros ?; eexists; split; [first [apply give_back_head | reflexivity]|]
  | |- holds _ _ _ (tell _ _) => apply holds_tell; intros ?; eexists; split; [first [apply give_back_head | reflexivity]|]
  | |- holds _ _ _ ((if ?b then _ else _) _) => destruct b eqn:?
  end.

Section InterpThm.
Context (cfg : config) {RB : Type} `{RingBuf RB} (ring_buf_init : Z -> RB).
Context (stack_size heap_size rx_size sizeof_ring_buf : Z).
Local Abbreviation _python := (_python cfg stack_size heap_size rx_size sizeof_ring_buf ring_buf_init).

(** The Bluetooth module as a script leaves it: active only with its root
    pointers. *)
Context {D : Type} (ble : bt (gatt D)) (ble_rooted : state ble = BLE_STATE_ACTIVE -> is_Some (root_pointers ble)).

(** Stopping the interpreter hangs only where stopping the Bluetooth module
    raises. *)
Lemma shut_down_holds {S} stops l (s : S) (Q : unit -> S -> list resource -> Prop) :
  closed stops ->
  (forall r, MICROPY_PY_BLUETOOTH cfg = true -> state ble = BLE_STATE_ACTIVE -> lret r <> 0 ->
     stops (Interpreter :: l) [(Bluetooth bt_le_adv_stop, r)] Deadlock) ->
  Q tt s l -> holds stops (Interpreter :: l) Q (shut_down cfg ble s).
Proof using ble_rooted.
  intros Hcl Hstuck HQ. unfold shut_down, gc_collect. holds_step. destruct (MICROPY_PY_BLUETOOTH cfg) eqn:Eb.
  - holds_step. apply bluetooth_holds; [done | by intros r; apply Hstuck|]. intros _. repeat holds_step; exact HQ.
  - repeat holds_step; exact HQ.
Qed.

(** The blocks the command holds. *)
Definition memory (s : @shell_state RB) : list resource :=
  if CONFIG_SHARED_MULTI_HEAP cfg then [Block (rx_ptr s); Block (heap s)] else [].

(** How the command can end other than by returning: [n] calls were not
    enough; the interpreter read a character in a build with a shared heap; or
    the Bluetooth module could not be stopped, and the interpreter and the
    memory are still held. *)
Definition command_stops (n : nat) (l : list resource) (tr : list (lcall * lanswer)) (e : stop) : Prop :=
  match e with
  | OutOfFuel => (n <= length tr)%nat
  | UB => CONFIG_SHARED_MULTI_HEAP cfg = true /\ Exists (fun e => lnext (snd e) = Some Reads) tr
  | Deadlock => MICROPY_PY_BLUETOOTH cfg = true /\ state ble = BLE_STATE_ACTIVE /\
      exists tr0 r s, tr = tr0 ++ [(Bluetooth bt_le_adv_stop, r)] /\ lret r <> 0 /\ replay l tr = Some (Interpreter :: memory s)
  end.

Lemma command_stops_closed n : closed (command_stops n).
Proof.
  intros l tr l' tr' [] E; cbn.
  - intros [H1 H2]. split; [done|]. apply Exists_app. by right.
  - rewrite length_app. lia.
  - intros (H1 & H2 & tr0 & r & s & -> & Hr & H3). split; [done|]. split; [done|]. exists (tr ++ tr0), r, s.
    split; [by rewrite app_assoc|]. split; [done|]. by rewrite replay_app, E.
Qed.

Lemma command_stops_call n l c r l' tr e :
  replay_event l (c, r) = Some l' -> command_stops n l' tr e -> command_stops (S n) l ((c, r) :: tr) e.
Proof.
  intros E. pose proof (command_stops_closed n l [(c, r)] l' tr e) as Hcl. cbn [replay app] in Hcl. rewrite E in Hcl.
  intros Hs. specialize (Hcl eq_refl Hs). destruct e; cbn in *; try done. lia.
Qed.

Lemma deliver_quiet sh chunks l (s : @shell_state RB) : CONFIG_SHARED_MULTI_HEAP cfg = false ->
  outcomes (deliver cfg sh chunks s) (fun tr out => replay l tr = Some l /\ exists s', out = Ok (Val tt, s')).
Proof.
  intros Hst. revert s. induction chunks as [|d chunks IH]; intros s; cbn [deliver]; [apply outcomes_ret; eauto|].
  unfold _bypass_cb, rx_ring. rewrite Hst. do 2 py_step. destruct (rb_put (rx_rb s) d) as [size b']. do 2 py_step.
  unfold tell. repeat py_step; apply IH.
Qed.

(** Reading a character. *)
Lemma stdin_stops fuel l (s : @shell_state RB) :
  outcomes (mp_hal_stdin_rx_chr cfg fuel s) (fun tr out => match out with
    | Ok (Val _, _) => CONFIG_SHARED_MULTI_HEAP cfg = false /\ replay l tr = Some l
    | Ok (Raise _, _) => False
    | Stop OutOfFuel => (fuel <= length tr)%nat
    | Stop UB => CONFIG_SHARED_MULTI_HEAP cfg = true
    | Stop Deadlock => False
    end).
Proof.
  revert s. induction fuel as [|fuel IH]; intros s; cbn [mp_hal_stdin_rx_chr]; [by apply outcomes_halt|].
  unfold rx_ring. destruct (CONFIG_SHARED_MULTI_HEAP cfg) eqn:Est; [by apply outcomes_halt|].
  py_step. destruct (rb_get (rx_rb s) 1) as [[|v got] b']; do 2 py_step; [|done].
  py_step. apply outcomes_py. eapply outcomes_mono; [|by apply (deliver_quiet _ _ l)].
  intros tr out [Etr [s' ->]]. unfold tell. do 2 py_step. eapply outcomes_mono; [|apply IH].
  intros tr' [[[c|] s2]|[]]; try done.
  - intros [_ E]. split; [done|]. change (replay l (tr ++ (k_msleep 1, r0) :: tr') = Some l). rewrite replay_app, Etr. exact E.
  - cbn [length]. rewrite length_app. cbn. lia.
Qed.

(** The interpreter at work. *)
Lemma interpret_holds fuel c l (s : @shell_state RB) (Q : unit -> @shell_state RB -> list resource -> Prop) :
  (forall r, replay_event l (c, r) = Some l) -> (forall s', memory s' = memory s -> Q tt s' l) ->
  holds (command_stops fuel) l Q (interpret cfg fuel c s).
Proof.
  revert c s. induction fuel as [|fuel IH]; intros c s Hc HQ; cbn [interpret]; [apply outcomes_halt; cbn; lia|].
  apply holds_call. intros r. exists l. split; [apply Hc|].
  assert (Hrest : forall p : prog lcall lanswer (py_res unit * shell_state),
    holds (fun l tr e => match e with UB => CONFIG_SHARED_MULTI_HEAP cfg = true /\ lnext r = Some Reads \/ command_stops fuel l tr UB
                         | _ => command_stops fuel l tr e end) l Q p ->
    outcomes p (fun tr out => match out with
      | Ok (Val a, s') => exists l2, replay l tr = Some l2 /\ Q a s' l2
      | Ok (Raise _, _) => False
      | Stop e => command_stops (Datatypes.S fuel) l ((c, r) :: tr) e
      end)).
  { intros p Hp. eapply outcomes_mono; [|exact Hp]. intros tr [[[a|x] s']|e]; try done. intros Hs.
    destruct e; [destruct Hs as [[H1 H2]|Hs]; [split; [done | by constructor]|] | |]; by apply (command_stops_call _ _ _ _ l). }
  assert (Hon : forall (got : Z) s', memory s' = memory s -> holds (command_stops fuel) l Q (interpret cfg fuel (pyexec_resume got) s')).
  { intros got s' Hm. apply IH; [done|]. intros s2 Hm2. apply HQ. by rewrite Hm2. }
  destruct (lnext r) as [[|str]|] eqn:En.
  - apply Hrest. unfold holds. apply outcomes_py. eapply outcomes_mono; [|apply (stdin_stops fuel l)].
    intros tr [[[ch|x] s']|e]; [|done|].
    + intros [Est E]. assert (Hm : memory s' = memory s) by (unfold memory; by rewrite Est).
      eapply outcomes_mono; [|by apply (Hon ch)]. intros tr' [[[a|x] s2]|e]; [|done|].
      * intros (l2 & E2 & HQ2). exists l2. by rewrite replay_app, E.
      * intros Hs. pose proof (command_stops_closed fuel l tr l tr' e E Hs). destruct e; [by right | done | done].
    + destruct e; [intros Est; by left | done | done].
  - apply Hrest. unfold mp_hal_stdout_tx_strn, tell. unfold holds. repeat py_step. eapply outcomes_mono; [|by apply Hon].
    intros tr' [[[a|x] s2]|e]; [done | done |]. intros Hs.
    pose proof (command_stops_closed fuel l [(z_shell_write (active_sh s) str, r0)] l tr' e eq_refl Hs). destruct e; [by right | done | done].
  - apply outcomes_ret. exists l. split; [done|]. by apply HQ.
Qed.

Lemma run_python_holds fuel sh argc argv1 l (s : @shell_state RB) (Q : unit -> @shell_state RB -> list resource -> Prop) :
  (forall s', memory s' = memory s -> Q tt s' l) -> holds (command_stops fuel) l Q (run_python cfg fuel sh argc argv1 s).
Proof.
  intros HQ. pose proof (command_stops_closed fuel) as Hcl. unfold run_python. do 4 holds_step. holds_step.
  assert (Hend : forall s', memory s' = memory s -> holds (command_stops fuel) (Bypass sh :: l) Q
    ((tell (shell_set_bypass sh false);; tell (shell_unlock sh)) s')).
  { intros s' Hm. repeat holds_step. by apply HQ. }
  holds_step; [|holds_step].
  - apply interpret_holds; [done|]. intros s' Hm. by apply Hend.
  - apply interpret_holds; [done|]. intros s' Hm. by apply Hend.
  - holds_step. by apply Hend.
Qed.

Lemma get_memory_holds fuel (s : @shell_state RB) :
  holds (command_stops fuel) [] (fun err s' l' => match err with Some _ => l' = [] | None => l' = memory s' end)
    (get_memory cfg heap_size rx_size sizeof_ring_buf ring_buf_init s).
Proof.
  pose proof (command_stops_closed fuel) as Hcl.
  unfold get_memory, memory. destruct (CONFIG_SHARED_MULTI_HEAP cfg); [|repeat holds_step; done].
  do 4 holds_step. cbn [fst snd]. destruct (lret r =? 0) eqn:E; [by holds_step|].
  do 4 holds_step. cbn [fst snd]. destruct (lret r0 =? 0) eqn:E0; repeat holds_step; done.
Qed.

(** C40: The shell command, whatever the calls answer and whatever the
    interpreter does in between. When it returns, it has given back what it
    took: the blocks of the shared heap (on a failure of the second allocation
    the first), the interpreter it initialised, and the bypass of the shell's
    input; nothing is given back that is not held. It returns unless: the
    script, the REPL or the input it waits for takes as many calls as there is
    fuel; a character is read in a build with a shared heap, where the ring is
    none; or the Bluetooth module is active and advertising cannot be stopped,
    whose exception nobody catches: then the command hangs, still holding the
    interpreter and its memory. *)
Theorem python_command_balanced fuel sh argc argv1 (s : @shell_state RB) tr out :
  runs (_python fuel ble sh argc argv1 s) tr out ->
  match out with
  | Ok (Val _, _) => replay [] tr = Some []
  | Ok (Raise _, _) => False
  | Stop e => command_stops fuel [] tr e
  end.
Proof using ble_rooted.
  assert (H0 : holds (command_stops fuel) [] (fun _ _ l' => l' = []) (_python fuel ble sh argc argv1 s)).
  { pose proof (command_stops_closed fuel) as Hcl. unfold Interp._python. holds_step; [repeat holds_step; done|]. holds_step.
    eapply holds_mono; [apply get_memory_holds|]. intros [e|] s1 l1 ->; [by holds_step|].
    do 4 (do 2 holds_step). holds_step.
    assert (Hno : Interpreter ∉ memory s1) by (unfold memory; case_match; by rewrite ?not_elem_of_cons; auto using not_elem_of_nil).
    apply holds_tell. intros answer. exists (Interpreter :: memory s1). split; [cbn; by rewrite decide_False|].
    holds_step. apply run_python_holds. intros s2 Hm. holds_step.
    apply shut_down_holds; [done | |].
    { intros a Hb Ha Hne. split; [done|]. split; [done|]. by exists [], a, s1. }
    rewrite <- Hm. unfold memory, give_memory. destruct (CONFIG_SHARED_MULTI_HEAP cfg); repeat holds_step; done. }
  intros Hr. specialize (H0 tr out Hr). destruct out as [[[a|x] s']|e]; [|done|done]. by destruct H0 as (l' & E & ->).
Qed.

(** ** The interpreter's own thread *)

Section Main.
Context {S : Type} (forced_exit friendly raw : Z) (boot_py main_py : list Z).
Implicit Types s : S.

(** A life ends early when a REPL has run longer than the fuel, and when the
    Bluetooth module cannot be stopped. *)
Definition main_stops (_ : list resource) (tr : list (lcall * lanswer)) (e : stop) : Prop :=
  match e with
  | OutOfFuel => True
  | UB => False
  | Deadlock => state ble = BLE_STATE_ACTIVE /\ exists tr0 r, tr = tr0 ++ [(Bluetooth bt_le_adv_stop, r)] /\ lret r <> 0
  end.
Lemma main_stops_closed : closed main_stops.
Proof.
  intros l tr l' tr' [] _; cbn; try done. intros (H1 & tr0 & r & -> & Hr). split; [done|]. exists (tr ++ tr0), r. by rewrite app_assoc.
Qed.

Lemma repl_loop_holds fuel l s (Q : unit -> S -> list resource -> Prop) :
  Q tt s l -> holds main_stops l Q (repl_loop raw fuel s).
Proof.
  intros HQ. pose proof main_stops_closed as Hcl. induction fuel as [|fuel IH]; cbn [repl_loop]; [by apply outcomes_halt|].
  do 3 holds_step. apply holds_query. intros r0. exists l. split; [by case_test|]. holds_step; [by holds_step | exact IH].
Qed.

Lemma user_scripts_holds l s (Q : bool -> S -> list resource -> Prop) :
  (forall b, Q b s l) -> holds main_stops l Q (user_scripts forced_exit friendly boot_py main_py s).
Proof. intros HQ. pose proof main_stops_closed as Hcl. unfold user_scripts. repeat holds_step; apply HQ. Qed.

Lemma main_shut_down s (Q : unit -> S -> list resource -> Prop) :
  Q tt s [] -> holds main_stops [Interpreter] Q (shut_down cfg ble s).
Proof using ble_rooted.
  apply shut_down_holds; [apply main_stops_closed|]. intros r _ Ha Hne. split; [done|]. by exists [], r.
Qed.

(** Each life of the interpreter ends with it shut down, whether a script
    forces the exit or a REPL asks for the reset. *)
Lemma soft_reset_balanced fuel s tr out :
  runs (soft_reset cfg forced_exit friendly raw stack_size boot_py main_py fuel ble s) tr out ->
  match out with Stop e => main_stops [] tr e | Ok _ => replay [] tr = Some [] /\ out = Ok (Val tt, s) end.
Proof using ble_rooted.
  assert (H0 : holds main_stops [] (fun r s' l' => s' = s /\ l' = [])
    (soft_reset cfg forced_exit friendly raw stack_size boot_py main_py fuel ble s)).
  { pose proof main_stops_closed as Hcl. unfold soft_reset. repeat holds_step.
    - apply user_scripts_holds. intros [].
      + repeat holds_step. by apply main_shut_down.
      + holds_step. apply repl_loop_holds. repeat holds_step. by apply main_shut_down.
    - apply repl_loop_holds. repeat holds_step. by apply main_shut_down. }
  intros Hr. specialize (H0 tr out Hr). destruct out as [[[[]|x] s']|e]; [|done|done]. destruct H0 as (l' & E & -> & ->). by split.
Qed.
End Main.

(** ** The shell's input *)

Context `{!RingBufSpec RB}.
Hypothesis static_ring : CONFIG_SHARED_MULTI_HEAP cfg = false.

Lemma deliver_runs sh chunks (s : @shell_state RB) :
  outcomes (deliver cfg sh chunks s) (fun tr out => exists s' stored, out = Ok (Val tt, s') /\
    contents (rx_rb s') = contents (rx_rb s) ++ stored /\ stored `sublist_of` concat chunks /\
    Forall (fun e => fst e = shell_error sh) tr).
Proof using static_ring RingBufSpec0.
  revert s. induction chunks as [|d chunks IH]; intros s; cbn [deliver].
  { apply outcomes_ret. exists s, []. rewrite app_nil_r. by split_and!. }
  unfold _bypass_cb, rx_ring. rewrite static_ring. apply outcomes_py_assoc. py_step.
  destruct (rb_put (rx_rb s) d) as [size b'] eqn:E. destruct (put_spec _ _ _ _ E) as [-> C1]. py_step. py_step.
  assert (Htail : outcomes (deliver cfg sh chunks (set_rx_rb b' s)) (fun tr out => exists s' stored, out = Ok (Val tt, s') /\
    contents (rx_rb s') = contents (rx_rb s) ++ stored /\ stored `sublist_of` d ++ concat chunks /\
    Forall (fun e => fst e = shell_error sh) tr)).
  { eapply outcomes_mono; [|apply IH]. intros tr out (s' & st & -> & Hc & Hs & Ht). exists s', (take (Z.to_nat (Z.min (len d) (space (rx_rb s)))) d ++ st).
    cbn [rx_rb set_rx_rb] in Hc. rewrite Hc, C1, app_assoc. split_and!; try done.
    apply sublist_app; [apply sublist_take | done]. }
  case_test.
  - unfold tell. repeat py_step. eapply outcomes_mono; [|exact Htail]. intros tr out (s' & st & H1 & H2 & H3 & H4).
    exists s', st. split_and!; try done. by constructor.
  - py_step. exact Htail.
Qed.

(** What the shell delivered in a run. *)
Definition delivered (tr : list (lcall * lanswer)) : list Z :=
  concat (map (fun e => match fst e with shell_process _ => concat (ldata (snd e)) | _ => [] end) tr).

(** A character read is the oldest one of those waiting and those delivered
    meanwhile that fitted, which stay in order. *)
Lemma stdin_in_order fuel (s : @shell_state RB) :
  outcomes (mp_hal_stdin_rx_chr cfg fuel s) (fun tr out => match out with
    | Ok (Val c, s') => exists stored, c :: contents (rx_rb s') = contents (rx_rb s) ++ stored /\ stored `sublist_of` delivered tr
    | Ok (Raise _, _) => False
    | Stop e => e = OutOfFuel
    end).
Proof using static_ring RingBufSpec0.
  revert s. induction fuel as [|fuel IH]; intros s; cbn [mp_hal_stdin_rx_chr]; [by apply outcomes_halt|].
  unfold rx_ring. rewrite static_ring. py_step. destruct (rb_get (rx_rb s) 1) as [got b'] eqn:E.
  destruct (get_spec _ _ _ _ E) as [-> C1]. py_step. destruct (contents (rx_rb s)) as [|c q] eqn:Eq; change (Z.to_nat 1) with 1%nat in *; cbn [take drop] in *.
  - py_step. py_step. apply outcomes_py. eapply outcomes_mono; [|apply deliver_runs].
    intros tr out (s1 & st & -> & Hc & Hs & Ht). unfold tell. repeat py_step. eapply outcomes_mono; [|apply IH].
    intros tr' [[[c|] s']|e]; try done. intros (st' & Hq & Hs'). exists (st ++ st'). cbn [rx_rb set_rx_rb] in Hc. rewrite C1 in Hc.
    cbn [app] in Hc. rewrite Hq, Hc. split; [done|]. unfold delivered in *. cbn [map concat fst snd].
    apply sublist_app; [done|]. rewrite map_app, concat_app. by apply sublist_inserts_l.
  - apply outcomes_ret. exists []. cbn [rx_rb set_rx_rb]. rewrite C1, app_nil_r. split; [done | apply sublist_nil_l].
Qed.
End InterpThm.

(** ** Runs *)

(** A kernel that has memory, and a REPL that writes a prompt, reads a
    character when [reads], and returns. The Bluetooth stack answers [adv] when
    advertising is to be stopped. *)
Definition full_build (shared : bool) : config := Config true true true true false true true false shared.
Definition shell_env (second adv : Z) (reads : bool) (h : list (lcall * lanswer)) (c : lcall) : lanswer :=
  match c with
  | shared_multi_heap_aligned_alloc _ => LAnswer (if len h =? 0 then 4096 else second) [] None
  | pyexec_friendly_repl => LAnswer 0 [] (Some (Writes [62; 62; 62; 32]))
  | pyexec_resume 4 => LAnswer 0 [] (if reads then Some Reads else None)
  | shell_process _ => LAnswer 0 [[49; 50]] None
  | Bluetooth bt_le_adv_stop => LAnswer adv [] None
  | _ => LAnswer 0 [] None
  end.
Definition shell0 : @shell_state ring := Shell 0 (Ring [] 0 0) 0 0.
(** The Bluetooth module advertises. *)
Definition advertising : bt (gatt unit) := Bt BLE_STATE_ACTIVE SCAN_STATE_INACTIVE [] 0 [] 0 0 ∅ (Some (Gatt tt [])) 0 [].
Definition python_run (shared : bool) (second adv : Z) (reads : bool) :=
  run (shell_env second adv reads) (_python (full_build shared) 4096 65536 256 32 (fun _ => Ring [] 0 0) 20 advertising 5 1 [] shell0) [].

Lemma python_command_balanced_witness :
  (exists s, fst (python_run true 8192 0 false) = Ok (Val 0, s)) /\ replay [] (snd (python_run true 8192 0 false)) = Some [].
Proof.
  assert (E : exists s, fst (python_run true 8192 0 false) = Ok (Val 0, s)) by (eexists; vm_compute; reflexivity).
  split; [exact E|]. destruct E as [s E].
  refine (python_command_balanced (full_build true) (fun _ => Ring [] 0 0) 4096 65536 256 32 advertising _ 20 5 1 [] shell0
    (snd (python_run true 8192 0 false)) (Ok (Val 0, s)) _).
  - intros _. eexists. reflexivity.
  - apply (run_runs _ (shell_env 8192 0 false)). rewrite <- E. unfold python_run. apply surjective_pairing.
Defined.
(** Without a shared heap the REPL reads what the shell delivers. *)
Example python_reads : match fst (python_run false 0 0 true) with Ok (Val 0, s) => contents (rx_rb s) = [50] | _ => False end.
Proof. vm_compute. reflexivity. Qed.
(** The second allocation fails. *)
Example python_no_ring : exists s, fst (python_run true 0 0 false) = Ok (Val (-1), s) /\ map fst (snd (python_run true 0 0 false)) =
  [shared_multi_heap_aligned_alloc 65536; shared_multi_heap_aligned_alloc 288; shared_multi_heap_free 4096].
Proof. eexists. split; vm_compute; reflexivity. Qed.
(** With a shared heap the first character read is read through a pointer
    variable taken for a ring. *)
Example shared_ring_fault : fst (python_run true 8192 0 true) = Stop UB.
Proof. vm_compute. reflexivity. Qed.
(** Advertising cannot be stopped: the exception ends in [nlr_jump_fail]. *)
Example python_hangs : fst (python_run false 0 (-5) false) = Stop Deadlock.
Proof. vm_compute. reflexivity. Qed.
